(* ===== verification/_CoqProject ===== *)
-Q . S2P
Prelude.v
UblkCmd.v
Utils.v
Effects.v
Protocol.v
Rely.v
Path.v
Text.v
Sys.v
Ledger.v
Raw.v
IoResult.v
TagProtocol.v
Queue.v
Handler.v
BatchLayout.v
BatchObject.v
Batch.v
BatchInv.v
BatchProof.v
BatchLive.v
Fetch.v
BatchRun.v
BatchTag.v
BatchEnd.v
Control.v
IoDev.v
Shm.v
ShmLive.v
Daemon.v
DaemonRun.v
Task.v
CtlText.v
Ctl.v
LoopHandler.v
LoopDevice.v
LoopServe.v
LoopDaemon.v
Server.v
ServerProof.v
ServerDevice.v
DiskServer.v
