(* ===== verification/Prelude.v ===== *)
(** * ublk-cpp: a verification library

    ublk-cpp is a C++ library for servers of Linux's ublk driver: a server
    creates a block device through the driver, answers the requests the driver
    delivers to its queues over io_uring, and takes the device down again.  It
    is written with senders and coroutines; the runtime (condy), the sender
    algorithms and the driver are not part of the repository.  This development
    translates the library, its command line tool and its example servers, and
    proves them correct for every behaviour of what they run on.

    ** How the program is modelled

    An operation - a task, a sender, a constructor - is a program of [Effects]:
    a tree of the external calls it issues, each branching on its reply, whose
    leaves are completions (a value, an error or an exception, stopped).  The
    calls and their replies are listed in [Sys]; [exec] runs an operation
    against an environment that answers every call from the history of the run,
    so a theorem over all environments is one over all drivers, runtimes and
    handlers.  [Protocol] says what an operation may do, as an automaton over
    its calls ([obeys]), composed along the combinators of [Effects], and runs
    tasks concurrently under a schedule; [Rely] composes tasks that share a
    state, each relying on what the others leave alone, and attributes the calls
    of a program to its parts; [Ledger] is the
    protocol of resources: what is acquired is released once, by whoever holds
    it.

    Machine integers are [Z] with their wrap-around written out ([uwrap],
    [swrap] below); pointers are addresses; the structures of the driver
    interface are records, and where their bytes matter byte maps.

    ** The files

    - [Prelude]: notation, integers, lists; [Effects], [Protocol], [Rely],
      [Sys], [Ledger]: see above.
    - [UblkCmd]: [include/ublk/ublk_cmd.h], the driver interface: layouts,
      constants, command numbers, packed encodings.
    - [Utils]: [detail/utils.hpp], [helpers.hpp], [runtime.hpp]: alignment,
      offsets into the device, ring sizes.
    - [Path]: [detail/path.hpp]: decimal numbers and device paths.
    - [Raw]: [detail/raw.hpp], [raw.hpp]: one sender per command.
    - [Control]: [detail/control.hpp], [detail/retry.hpp], [control.hpp]: the
      control tasks, which look the device up and issue their command in
      privileged or unprivileged form.
    - [IoResult], [TagProtocol], [Queue]: [IoQueue] of [detail/queue.hpp]: what
      a handler's completion is committed as; the driver's protocol for a tag;
      the constructor, the worker of a tag, [run].
    - [Handler]: [handler.hpp]: what a handler is given and has; a queue with a
      given handler in the place of the calls to it.
    - [BatchLayout], [BatchObject]: [BatchIoQueue] of [detail/queue.hpp]: the
      elements of its commit buffers in memory, its constructor and clean-up,
      the commands that describe the buffers.
    - [Batch], [BatchInv], [BatchProof], [BatchLive]: the flusher, the workers
      and the fetch of [BatchIoQueue::run] as a machine that steps from one
      [co_await] to the next; its invariant; safety, shutdown and progress.
    - [Fetch]: [raw::fetch_io_cmds] and the fetch callback with the two buffers
      it shares with the driver.
    - [BatchRun]: [BatchIoQueue::run] as an operation, which issues the calls of
      the coroutines in the order of a schedule, and its refinement of [Batch];
      [BatchTag]: the protocol of its tags; [BatchEnd]: its termination.
    - [IoDev]: [detail/io.hpp]: [run_dev] serves one queue.  The two queue
      classes implement the interface [DeviceQueue], and everything above is
      proved from its laws, [DeviceQueueLaws].
    - [Daemon], [DaemonRun]: [detail/daemon.hpp], [detail/io_loop.hpp]:
      [setup], [configure] and [start]; [run], a loop per queue.
    - [Task]: [detail/task.hpp], [query.hpp], and the public functions of
      [io.hpp], [daemon.hpp], [control.hpp]: the environment a task keeps for
      those it awaits.
    - [Shm]: [detail/shm.hpp]: the shared memory service and its sessions;
      [ShmLive]: what they share with the driver and the handler.
    - [Text], [CtlText], [Ctl]: [bin/ublkctl.cpp]: what the tool prints, its
      commands, its [main].
    - [LoopHandler], [Server], [ServerProof], [ServerDevice]:
      [examples/loop.cpp] and [examples/nop.cpp]: the backing file and the
      handler; the [main]s; their course and their resources; the device the
      loop server describes to the driver.
    - [LoopDevice], [LoopServe], [LoopDaemon], [DiskServer]: the loop server as
      a disk: the specification and the workers; [run_dev]; [daemon::run], all
      queues of the device; [main].

    ** What the theorems show

    - The batch queue: no result is lost, duplicated or handed over for a tag
      the server does not own; the buffer of a commit in flight is never
      written and none overflows; no wake-up is lost; every request is
      answered; shutdown ends ([BatchProof], [BatchLive]).  The callback reads
      exactly the tags the driver wrote ([Fetch]).  Every run of the operation
      is a run of the machine, so a run that completes has had the driver take
      exactly what the handler answered ([BatchRun]), and its calls follow the
      protocol of each tag ([BatchTag]); every fair schedule completes it
      ([BatchEnd]).  The elements decode, as
      [ublk_cmd.h] documents them, to what was written, and the commands agree
      with the buffers ([BatchObject]).
    - The per-command queue: a worker refines the driver's protocol for its
      tag, [run] the product of them, under every schedule, and they end
      ([Queue]); every completion of a handler is a documented result
      ([IoResult]).
    - Resources: queues, loops, devices and whole servers give back what they
      acquire, on every error path and under every schedule ([Queue],
      [BatchObject], [IoDev], [DaemonRun], [ServerProof]); so does the shared
      memory service, but for the descriptors its sessions do not keep and the
      regions whose clean-up the driver has failed, which its theorem counts
      ([Shm]).
    - Shared memory is registered, announced, withdrawn and unmapped in the
      guide's order, and mapped for as long as the driver or the handler uses
      it, under every interleaving of the sessions ([ShmLive]).
    - Control: every command is for the device asked for, with lengths that
      match its buffers; retries are bounded; both privilege forms say the same
      to the driver and hand the same to the caller; a device is brought up by
      exactly the commands its state calls for, and ends up with the parameters
      it was given or had ([Control], [Daemon]).
    - The tool: its exit code is that of the one error it reports; what it
      prints denotes what it read ([Ctl], [CtlText]).
    - The servers: a device goes through its life in order ([ServerProof]), and
      the loop server describes it as the command line asks and the backing
      file is ([ServerDevice]); the loop handler refines a disk, inside its file and its buffers
      ([LoopHandler]), and so does [run_dev] with it, from the queue's
      constructor to its destructor: whatever the schedule of the workers, each
      request is served in one step between its delivery and its answer, and the
      driver finds the disk's data in the buffer ([LoopServe]).  All queues of
      the device are one disk ([LoopDaemon]), and so is the server, which sets
      the device up for its file and deletes it when it is served no more
      ([DiskServer]).
    - Encodings are bijections, offsets do not overlap, sizes do not wrap
      ([UblkCmd], [Utils], [Path], [DaemonRun]).

    ** Bounds and schedules

    [Unfinished] is the completion of an operation that is observed no further:
    a schedule at its end, a loop after its rounds.  Theorems hold of every
    schedule and number of rounds, so of every prefix of a run; [Unfinished] is
    excluded where a theorem speaks of the end.

    - A worker of [Queue] is observed for a number of rounds;
      [Queue.worker_terminates] gives the number that is enough.
    - Concurrent tasks follow a list of indices ([Protocol.concurrently]), the
      coroutines of [BatchRun] a list of turns.  A call stands in the history
      where its reply is received.
    - [retry] makes the 20 attempts of the code.
    - [CtlText.CPU_FUEL] is one more than [CPU_SETSIZE], the most bits the scan
      of a mask passes; [Path] prints at most 20 digits, those of 64 bits.
    - The machine of [Batch] has no bound: [BatchProof.batch_shutdown] and
      [BatchLive.batch_progress] bound its steps by measures, and
      [BatchEnd.batch_run_ends] gives the number of rounds after which every
      fair schedule of [BatchRun] is complete.

    ** What is assumed

    Hypotheses are about code outside the repository: a futex wakes its one waiter
    and blocks on the expected value ([FutexLaws]); a backing file reads what
    was written to it ([BackingLaws]); the driver fills the fetch buffers in
    order and owns a tag until it is delivered (the driver moves of [Batch] and
    [Fetch], and [BatchRun.accounts]); descriptors the system returns are not
    negative ([DaemonRun.open_ok]); the driver delivers requests within the
    limits it was given, in their own buffers, the kernel completes the
    transfers of a backing file, and the allocator returns memory that is not
    in use ([LoopDevice.loop_step]: a reply outside of these is [Beyond]); the
    driver tells the same of a device whenever it is asked, its state apart
    ([LoopDaemon.same_device]); for
    termination, handlers complete, the driver posts finitely many completions
    of a fetch and does not cancel the commands of a running queue
    ([BatchEnd.completes]); error codes are positive and the values of commands
    are not negative ([Shm.session_env_ok]); a driver that is indifferent to the
    mode reads of a command its contents alone and writes the output it is asked
    for ([Control.mode_blind], [Control.writes_output]), and one that holds a
    device keeps the parameters it is given ([Daemon.device_driver]); the kernel
    maps memory at a
    free address and the driver gives a free index ([ShmLive.shm_next],
    [ShmLive.fair]: [Beyond] otherwise). Each theorem that has such
    a hypothesis has a witness with a concrete instance.

    ** What is not modelled

    The types the concepts of [handler.hpp] constrain. Atomic accesses are
    sequential: the coroutines of a queue share one thread. An [assert] that
    fails, where one is kept, ends the observation; the one of [Queue.worker_loop]
    is not kept. CLI11, condy and the sender
    algorithms are third-party code; the algorithms used are defined in
    [Effects] as the C++ standard specifies them. Tests, build files and
    scripts.  The shared memory service and the queues are not composed: what joins
    them is the handler of the user, who looks up the buffers that the service
    announces. *)

From Stdlib Require Export ZArith Lia.
From stdpp Require Export base numbers list gmap strings option pretty.

#[global] Open Scope Z_scope.

(** ** Notation: the bit operations of the source *)

Declare Scope ublk_scope.
Delimit Scope ublk_scope with ublk.

Notation "x .| y" := (Z.lor x y) (at level 50, left associativity) : ublk_scope.
Notation "x .& y" := (Z.land x y) (at level 40, left associativity) : ublk_scope.
Notation "x .<< y" := (Z.shiftl x y) (at level 40, left associativity) : ublk_scope.
Notation "x .>> y" := (Z.shiftr x y) (at level 40, left associativity) : ublk_scope.
#[global] Open Scope ublk_scope.

(** ** Machine integers

    A w-bit unsigned integer is a [Z] in [0, 2^w); [uwrap] is the conversion
    to it and [swrap] the conversion to the w-bit two's complement integer. *)

Definition uwrap (w z : Z) : Z := z mod 2 ^ w.

Definition swrap (w z : Z) : Z :=
  let u := uwrap w z in
  if u <? 2 ^ (w - 1) then u else u - 2 ^ w.

Definition is_u (w z : Z) : Prop := 0 <= z < 2 ^ w.

Definition is_s (w z : Z) : Prop := - 2 ^ (w - 1) <= z < 2 ^ (w - 1).

(** C's [x & flag] used as a condition. *)
Definition has (x flag : Z) : bool := negb (x .& flag =? 0).

#[global] Instance is_u_dec w z : Decision (is_u w z).
Proof. unfold is_u; apply _. Defined.

#[global] Instance is_s_dec w z : Decision (is_s w z).
Proof. unfold is_s; apply _. Defined.

Create HintDb ublk.
Create Rewrite HintDb ublk_rw.

Lemma uwrap_is_u w z : 0 <= w -> is_u w (uwrap w z).
Proof. intros; apply Z.mod_pos_bound; lia. Qed.

Lemma uwrap_id w z : is_u w z -> uwrap w z = z.
Proof. intros; apply Z.mod_small; assumption. Qed.

Lemma uwrap_idem w z : uwrap w (uwrap w z) = uwrap w z.
Proof. apply Zmod_mod. Qed.

Lemma swrap_is_s w z : 0 < w -> is_s w (swrap w z).
Proof.
  intros Hw. pose proof (uwrap_is_u w z ltac:(lia)) as Hu.
  unfold swrap, is_s, is_u in *.
  assert (2 ^ w = 2 * 2 ^ (w - 1)) by (rewrite <- Z.pow_succ_r by lia; f_equal; lia).
  destruct (Z.ltb_spec (uwrap w z) (2 ^ (w - 1))); lia.
Qed.

Lemma swrap_id w z : 0 < w -> is_s w z -> swrap w z = z.
Proof.
  intros Hw Hs. unfold swrap, uwrap, is_s in *.
  assert (2 ^ w = 2 * 2 ^ (w - 1)) by (rewrite <- Z.pow_succ_r by lia; f_equal; lia).
  destruct (Z.leb_spec 0 z).
  - rewrite Z.mod_small by lia. destruct (Z.ltb_spec z (2 ^ (w - 1))); lia.
  - rewrite <- (Z.mod_add z 1), Z.mod_small by lia.
    destruct (Z.ltb_spec (z + 1 * 2 ^ w) (2 ^ (w - 1))); lia.
Qed.

(** A signed integer widened to an unsigned one and read back is itself. *)
Lemma swrap_uwrap w z : 0 < w -> is_s w z -> swrap w (uwrap w z) = z.
Proof.
  intros Hw Hs. unfold swrap at 1, uwrap. rewrite Z.mod_mod by lia.
  apply swrap_id; assumption.
Qed.

#[export] Hint Resolve uwrap_is_u swrap_is_s : ublk.
#[export] Hint Rewrite uwrap_id using (unfold is_u in *; lia) : ublk_rw.

(** ** Shifts and masks as arithmetic

    The source packs fields with shifts and or; these lemmas turn a packed
    word into a sum, on which [lia] decides the extraction of a field. *)

Lemma lor_shiftl_add a n b :
  0 <= n -> 0 <= b < 2 ^ n -> (a .<< n) .| b = a * 2 ^ n + b.
Proof.
  intros Hn Hb. rewrite <- Z.shiftl_mul_pow2 by lia.
  assert ((a .<< n) .& b = 0) as H0.
  { apply Z.bits_inj'; intros i Hi. rewrite Z.land_spec, Z.bits_0, Z.shiftl_spec by lia.
    destruct (Z.lt_ge_cases i n).
    - rewrite Z.testbit_neg_r by lia; reflexivity.
    - rewrite <- (Z.mod_small b (2 ^ n)), Z.mod_pow2_bits_high by lia. apply andb_false_r. }
  rewrite Z.add_nocarry_lxor, Z.lxor_lor by assumption. reflexivity.
Qed.

Lemma lor_shiftl_add_r a n b :
  0 <= n -> 0 <= b < 2 ^ n -> b .| (a .<< n) = a * 2 ^ n + b.
Proof. intros; rewrite Z.lor_comm; apply lor_shiftl_add; assumption. Qed.

Lemma pack_div a n b : 0 <= n -> 0 <= b < 2 ^ n -> (a * 2 ^ n + b) / 2 ^ n = a.
Proof. intros. symmetry. apply (Z.div_unique_pos _ _ _ b); lia. Qed.

Lemma pack_mod a n b : 0 <= n -> 0 <= b < 2 ^ n -> (a * 2 ^ n + b) mod 2 ^ n = b.
Proof. intros. symmetry. apply (Z.mod_unique_pos _ _ a); lia. Qed.

Lemma land_mask x n : 0 <= n -> x .& (2 ^ n - 1) = x mod 2 ^ n.
Proof.
  intros. replace (2 ^ n - 1) with (Z.ones n) by (rewrite Z.ones_equiv; lia).
  apply Z.land_ones; assumption.
Qed.

Lemma has_bit x n : 0 <= n -> has x (1 .<< n) = Z.testbit x n.
Proof.
  intros Hn. unfold has. rewrite Z.shiftl_1_l.
  destruct (Z.testbit x n) eqn:E.
  - destruct (Z.eqb_spec (x .& 2 ^ n) 0) as [H|H]; [|reflexivity].
    apply (f_equal (fun z => Z.testbit z n)) in H.
    rewrite Z.land_spec, E, Z.pow2_bits_true, Z.bits_0 in H by lia. discriminate.
  - replace (x .& 2 ^ n) with 0; [reflexivity|].
    apply Z.bits_inj'; intros i Hi. rewrite Z.land_spec, Z.bits_0.
    destruct (Z.eq_dec i n) as [->|Hne].
    + rewrite E; reflexivity.
    + rewrite Z.pow2_bits_false by lia. symmetry; apply andb_false_r.
Qed.

Lemma has_lor_flag x a b : has x (a .| b) = has x a || has x b.
Proof.
  unfold has. rewrite Z.land_lor_distr_r.
  destruct (Z.eqb_spec (x .& a) 0) as [->|Ha]; [reflexivity|].
  destruct (Z.eqb_spec ((x .& a) .| (x .& b)) 0) as [H|H]; [|reflexivity].
  apply Z.lor_eq_0_iff in H; tauto.
Qed.

(** ** Tactics *)

(** Splits a conjunction goal and unpacks conjunctions and existentials. *)
Ltac split_all := repeat match goal with |- _ /\ _ => split end.
Ltac unpack :=
  repeat match goal with
         | H : _ /\ _ |- _ => destruct H
         | H : exists _, _ |- _ => destruct H
         end.

(** Case analysis on the boolean or option tests of a definition. *)
Ltac case_tests :=
  repeat match goal with
         | |- context [if ?b then _ else _] => destruct b eqn:?
         | |- context [match ?x with Some _ => _ | None => _ end] => destruct x eqn:?
         end.

(** Evaluates the closed powers of the goal and of the hypotheses. *)
Ltac pow2_consts :=
  repeat match goal with
         | |- context [?b ^ ?n] =>
             let v := eval vm_compute in (b ^ n) in
             match v with Zpos _ => change (b ^ n) with v end
         | H : context [?b ^ ?n] |- _ =>
             let v := eval vm_compute in (b ^ n) in
             match v with Zpos _ => change (b ^ n) with v in H end
         end.

(** Range side conditions: unfold the machine-integer predicates, evaluate
    the powers of two and call [lia]. *)
Ltac range := unfold is_u, is_s, uwrap in *; pow2_consts; lia.
