(* ===== verification/UblkCmd.v ===== *)
(** * UblkCmd: the driver interface, [src/include/ublk/ublk_cmd.h]

    The structures exchanged with the driver with their C layout, the command
    numbers, the flag and state constants, and the packed encodings the header
    defines (the op/flags word of a descriptor, the automatic buffer
    registration word carried in [sqe->addr], the shared memory address).
    The ioctl macros of the kernel headers are not part of the repository: a
    command number is kept as the tuple of their arguments ([ioc]) and the
    numeric encoding is a parameter where it matters. *)

From S2P Require Import Prelude.

(** ** C layout of structures

    The size and alignment rules of the C ABI for the member types the header
    uses: integers, arrays, structures and unions. *)

Inductive ctype :=
  | CInt (bytes : Z)
  | CArr (t : ctype) (n : Z)
  | CStruct (members : list (string * ctype))
  | CUnion (members : list (string * ctype)).

Definition round_up (v a : Z) : Z := (v + a - 1) / a * a.

Fixpoint alignof (t : ctype) : Z :=
  match t with
  | CInt b => b
  | CArr t _ => alignof t
  | CStruct ms | CUnion ms =>
      (fix go ms := match ms with
                    | [] => 1
                    | (_, m) :: ms => Z.max (alignof m) (go ms)
                    end) ms
  end.

Fixpoint sizeof (t : ctype) : Z :=
  match t with
  | CInt b => b
  | CArr t n => sizeof t * n
  | CStruct ms =>
      round_up
        ((fix go off ms := match ms with
                           | [] => off
                           | (_, m) :: ms => go (round_up off (alignof m) + sizeof m) ms
                           end) 0 ms) (alignof t)
  | CUnion ms =>
      round_up
        ((fix go ms := match ms with
                       | [] => 0
                       | (_, m) :: ms => Z.max (sizeof m) (go ms)
                       end) ms) (alignof t)
  end.

(** The byte offset of a member of a structure, [None] for no such member. *)
Fixpoint offset_from (off : Z) (ms : list (string * ctype)) (f : string) : option Z :=
  match ms with
  | [] => None
  | (n, m) :: ms =>
      let o := round_up off (alignof m) in
      if String.eqb n f then Some o else offset_from (o + sizeof m) ms f
  end.

Definition offsetof (t : ctype) (f : string) : option Z :=
  match t with
  | CStruct ms => offset_from 0 ms f
  | _ => None
  end.

Definition u8 := CInt 1.
Definition u16 := CInt 2.
Definition u32 := CInt 4.
Definition s32 := CInt 4.
Definition u64 := CInt 8.

Open Scope string_scope.

Definition ublksrv_ctrl_cmd_layout : ctype :=
  CStruct [("dev_id", u32); ("queue_id", u16); ("len", u16); ("addr", u64);
           ("data", CArr u64 1); ("dev_path_len", u16); ("pad", u16);
           ("reserved", u32)].

Definition ublksrv_ctrl_dev_info_layout : ctype :=
  CStruct [("nr_hw_queues", u16); ("queue_depth", u16); ("state", u16);
           ("io_desc_size", u16); ("max_io_buf_bytes", u32); ("dev_id", u32);
           ("ublksrv_pid", s32); ("pad1", u32); ("flags", u64);
           ("ublksrv_flags", u64); ("owner_uid", u32); ("owner_gid", u32);
           ("reserved1", u64); ("reserved2", u64)].

Definition ublk_shmem_buf_reg_layout : ctype :=
  CStruct [("addr", u64); ("len", u64); ("flags", u32); ("reserved", u32)].

Definition ublksrv_io_desc_layout : ctype :=
  CStruct [("op_flags", u32);
           ("nr", CUnion [("nr_sectors", u32); ("nr_zones", u32)]);
           ("start_sector", u64); ("addr", u64)].

Definition ublk_auto_buf_reg_layout : ctype :=
  CStruct [("index", u16); ("flags", u8); ("reserved0", u8); ("reserved1", u32)].

Definition ublksrv_io_cmd_layout : ctype :=
  CStruct [("q_id", u16); ("tag", u16); ("result", s32);
           ("addr", CUnion [("addr", u64); ("zone_append_lba", u64)])].

Definition ublk_elem_header_layout : ctype :=
  CStruct [("tag", u16); ("buf_index", u16); ("result", s32)].

Definition ublk_batch_io_layout : ctype :=
  CStruct [("q_id", u16); ("flags", u16); ("nr_elem", u16); ("elem_bytes", u8);
           ("reserved", u8); ("reserved2", u64)].

Definition ublk_param_basic_layout : ctype :=
  CStruct [("attrs", u32); ("logical_bs_shift", u8); ("physical_bs_shift", u8);
           ("io_opt_shift", u8); ("io_min_shift", u8); ("max_sectors", u32);
           ("chunk_sectors", u32); ("dev_sectors", u64);
           ("virt_boundary_mask", u64)].

Definition ublk_param_discard_layout : ctype :=
  CStruct [("discard_alignment", u32); ("discard_granularity", u32);
           ("max_discard_sectors", u32); ("max_write_zeroes_sectors", u32);
           ("max_discard_segments", u16); ("reserved0", u16)].

Definition ublk_param_devt_layout : ctype :=
  CStruct [("char_major", u32); ("char_minor", u32); ("disk_major", u32);
           ("disk_minor", u32)].

Definition ublk_param_zoned_layout : ctype :=
  CStruct [("max_open_zones", u32); ("max_active_zones", u32);
           ("max_zone_append_sectors", u32); ("reserved", CArr u8 20)].

Definition ublk_param_dma_align_layout : ctype :=
  CStruct [("alignment", u32); ("pad", CArr u8 4)].

Definition ublk_param_segment_layout : ctype :=
  CStruct [("seg_boundary_mask", u64); ("max_segment_size", u32);
           ("max_segments", u16); ("pad", CArr u8 2)].

Definition ublk_param_integrity_layout : ctype :=
  CStruct [("flags", u32); ("max_integrity_segments", u16); ("interval_exp", u8);
           ("metadata_size", u8); ("pi_offset", u8); ("csum_type", u8);
           ("tag_size", u8); ("pad", CArr u8 5)].

Definition ublk_params_layout : ctype :=
  CStruct [("len", u32); ("types", u32); ("basic", ublk_param_basic_layout);
           ("discard", ublk_param_discard_layout); ("devt", ublk_param_devt_layout);
           ("zoned", ublk_param_zoned_layout); ("dma", ublk_param_dma_align_layout);
           ("seg", ublk_param_segment_layout);
           ("integrity", ublk_param_integrity_layout)].

Close Scope string_scope.

(** ** The structures as data

    The members the library reads or writes; a value-initialised structure
    ([= {}]) has every member zero. *)

Record ublksrv_ctrl_dev_info := {
  info_nr_hw_queues : Z;
  info_queue_depth : Z;
  info_state : Z;
  info_io_desc_size : Z;
  info_max_io_buf_bytes : Z;
  info_dev_id : Z;
  info_ublksrv_pid : Z;
  info_pad1 : Z;
  info_flags : Z;
  info_ublksrv_flags : Z;
  info_owner_uid : Z;
  info_owner_gid : Z;
  info_reserved1 : Z;
  info_reserved2 : Z;
}.

Definition dev_info_zero : ublksrv_ctrl_dev_info :=
  {| info_nr_hw_queues := 0; info_queue_depth := 0; info_state := 0;
     info_io_desc_size := 0; info_max_io_buf_bytes := 0; info_dev_id := 0;
     info_ublksrv_pid := 0; info_pad1 := 0; info_flags := 0;
     info_ublksrv_flags := 0; info_owner_uid := 0; info_owner_gid := 0;
     info_reserved1 := 0; info_reserved2 := 0 |}.

Record ublk_shmem_buf_reg := {
  reg_addr : Z;
  reg_len : Z;
  reg_flags : Z;
  reg_reserved : Z;
}.

Record ublk_param_basic := {
  basic_attrs : Z;
  basic_logical_bs_shift : Z;
  basic_physical_bs_shift : Z;
  basic_io_opt_shift : Z;
  basic_io_min_shift : Z;
  basic_max_sectors : Z;
  basic_chunk_sectors : Z;
  basic_dev_sectors : Z;
  basic_virt_boundary_mask : Z;
}.

Record ublk_param_discard := {
  discard_alignment : Z;
  discard_granularity : Z;
  discard_max_discard_sectors : Z;
  discard_max_write_zeroes_sectors : Z;
  discard_max_discard_segments : Z;
  discard_reserved0 : Z;
}.

Record ublk_param_devt := {
  devt_char_major : Z;
  devt_char_minor : Z;
  devt_disk_major : Z;
  devt_disk_minor : Z;
}.

Record ublk_param_zoned := {
  zoned_max_open_zones : Z;
  zoned_max_active_zones : Z;
  zoned_max_zone_append_sectors : Z;
}.

Record ublk_param_segment := {
  seg_boundary_mask : Z;
  seg_max_segment_size : Z;
  seg_max_segments : Z;
}.

Record ublk_param_integrity := {
  integrity_flags : Z;
  integrity_max_integrity_segments : Z;
  integrity_interval_exp : Z;
  integrity_metadata_size : Z;
  integrity_pi_offset : Z;
  integrity_csum_type : Z;
  integrity_tag_size : Z;
}.

Record ublk_params := {
  params_len : Z;
  params_types : Z;
  params_basic : ublk_param_basic;
  params_discard : ublk_param_discard;
  params_devt : ublk_param_devt;
  params_zoned : ublk_param_zoned;
  params_dma_alignment : Z;
  params_seg : ublk_param_segment;
  params_integrity : ublk_param_integrity;
}.

Definition params_zero : ublk_params :=
  {| params_len := 0; params_types := 0;
     params_basic := Build_ublk_param_basic 0 0 0 0 0 0 0 0 0;
     params_discard := Build_ublk_param_discard 0 0 0 0 0 0;
     params_devt := Build_ublk_param_devt 0 0 0 0;
     params_zoned := Build_ublk_param_zoned 0 0 0;
     params_dma_alignment := 0;
     params_seg := Build_ublk_param_segment 0 0 0;
     params_integrity := Build_ublk_param_integrity 0 0 0 0 0 0 0 |}.

(** [p.len = l] *)
Definition set_params_len (l : Z) (p : ublk_params) : ublk_params :=
  {| params_len := l; params_types := params_types p;
     params_basic := params_basic p; params_discard := params_discard p;
     params_devt := params_devt p; params_zoned := params_zoned p;
     params_dma_alignment := params_dma_alignment p; params_seg := params_seg p;
     params_integrity := params_integrity p |}.

Record ublksrv_io_desc := {
  iod_op_flags : Z;
  iod_nr_sectors : Z;
  iod_start_sector : Z;
  iod_addr : Z;
}.

(** ** Constants *)

Definition UBLK_SHMEM_BUF_READ_ONLY : Z := 1 .<< 0.
Definition UBLK_FEATURES_LEN : Z := 8.

Definition ENODEV : Z := 19.

Definition UBLK_IO_RES_OK : Z := 0.
Definition UBLK_IO_RES_NEED_GET_DATA : Z := 1.
Definition UBLK_IO_RES_ABORT : Z := - ENODEV.

Definition UBLKSRV_CMD_BUF_OFFSET : Z := 0.
Definition UBLKSRV_IO_BUF_OFFSET : Z := 0x80000000.
Definition UBLK_MAX_QUEUE_DEPTH : Z := 4096.

Definition UBLK_IO_BUF_BITS : Z := 25.
Definition UBLK_IO_BUF_BITS_MASK : Z := (1 .<< UBLK_IO_BUF_BITS) - 1.
Definition UBLK_TAG_OFF : Z := UBLK_IO_BUF_BITS.
Definition UBLK_TAG_BITS : Z := 16.
Definition UBLK_TAG_BITS_MASK : Z := (1 .<< UBLK_TAG_BITS) - 1.
Definition UBLK_QID_OFF : Z := UBLK_TAG_OFF + UBLK_TAG_BITS.
Definition UBLK_QID_BITS : Z := 12.
Definition UBLK_QID_BITS_MASK : Z := (1 .<< UBLK_QID_BITS) - 1.
Definition UBLK_MAX_NR_QUEUES : Z := 1 .<< UBLK_QID_BITS.
Definition UBLKSRV_IO_BUF_TOTAL_BITS : Z := UBLK_QID_OFF + UBLK_QID_BITS.
Definition UBLKSRV_IO_BUF_TOTAL_SIZE : Z := 1 .<< UBLKSRV_IO_BUF_TOTAL_BITS.
Definition UBLKSRV_IO_INTEGRITY_FLAG : Z := 1 .<< 62.

Definition UBLK_F_SUPPORT_ZERO_COPY : Z := 1 .<< 0.
Definition UBLK_F_URING_CMD_COMP_IN_TASK : Z := 1 .<< 1.
Definition UBLK_F_NEED_GET_DATA : Z := 1 .<< 2.
Definition UBLK_F_USER_RECOVERY : Z := 1 .<< 3.
Definition UBLK_F_USER_RECOVERY_REISSUE : Z := 1 .<< 4.
Definition UBLK_F_UNPRIVILEGED_DEV : Z := 1 .<< 5.
Definition UBLK_F_CMD_IOCTL_ENCODE : Z := 1 .<< 6.
Definition UBLK_F_USER_COPY : Z := 1 .<< 7.
Definition UBLK_F_ZONED : Z := 1 .<< 8.
Definition UBLK_F_USER_RECOVERY_FAIL_IO : Z := 1 .<< 9.
Definition UBLK_F_UPDATE_SIZE : Z := 1 .<< 10.
Definition UBLK_F_AUTO_BUF_REG : Z := 1 .<< 11.
Definition UBLK_F_QUIESCE : Z := 1 .<< 12.
Definition UBLK_F_PER_IO_DAEMON : Z := 1 .<< 13.
Definition UBLK_F_BUF_REG_OFF_DAEMON : Z := 1 .<< 14.
Definition UBLK_F_BATCH_IO : Z := 1 .<< 15.
Definition UBLK_F_INTEGRITY : Z := 1 .<< 16.
Definition UBLK_F_SAFE_STOP_DEV : Z := 1 .<< 17.
Definition UBLK_F_NO_AUTO_PART_SCAN : Z := 1 .<< 18.
Definition UBLK_F_SHMEM_ZC : Z := 1 .<< 19.
Definition UBLK_F_IO_DESC_SIZE : Z := 1 .<< 20.

Definition UBLK_S_DEV_DEAD : Z := 0.
Definition UBLK_S_DEV_LIVE : Z := 1.
Definition UBLK_S_DEV_QUIESCED : Z := 2.
Definition UBLK_S_DEV_FAIL_IO : Z := 3.

Definition UBLK_IO_OP_READ : Z := 0.
Definition UBLK_IO_OP_WRITE : Z := 1.
Definition UBLK_IO_OP_FLUSH : Z := 2.
Definition UBLK_IO_OP_ZONE_APPEND : Z := 13.

Definition UBLK_IO_F_NEED_REG_BUF : Z := 1 .<< 17.
Definition UBLK_IO_F_SHMEM_ZC : Z := 1 .<< 19.

Definition UBLK_AUTO_BUF_REG_FALLBACK : Z := 1 .<< 0.

Definition UBLK_BATCH_F_HAS_ZONE_LBA : Z := 1 .<< 0.
Definition UBLK_BATCH_F_HAS_BUF_ADDR : Z := 1 .<< 1.
Definition UBLK_BATCH_F_AUTO_BUF_REG_FALLBACK : Z := 1 .<< 2.

Definition UBLK_ATTR_VOLATILE_CACHE : Z := 1 .<< 2.
Definition UBLK_PARAM_TYPE_BASIC : Z := 1 .<< 0.

(** ** Command numbers *)

Inductive ioc_dir := IOC_READ | IOC_READ_WRITE.

(** The arguments of [_IOR] and [_IOWR]: direction, type letter, number, and
    the size of the argument structure. *)
Record ioc := Ioc { ioc_dir_of : ioc_dir; ioc_type : Z; ioc_nr : Z; ioc_size : Z }.

Definition ioc_u : Z := 117. (* 'u' *)
Definition ior (nr : Z) (t : ctype) : ioc := Ioc IOC_READ ioc_u nr (sizeof t).
Definition iowr (nr : Z) (t : ctype) : ioc := Ioc IOC_READ_WRITE ioc_u nr (sizeof t).

(** The numbers of the commands that predate the encoding. *)
Definition UBLK_CMD_GET_QUEUE_AFFINITY : Z := 0x01.
Definition UBLK_CMD_GET_DEV_INFO : Z := 0x02.
Definition UBLK_CMD_ADD_DEV : Z := 0x04.
Definition UBLK_CMD_DEL_DEV : Z := 0x05.
Definition UBLK_CMD_START_DEV : Z := 0x06.
Definition UBLK_CMD_STOP_DEV : Z := 0x07.
Definition UBLK_CMD_SET_PARAMS : Z := 0x08.
Definition UBLK_CMD_GET_PARAMS : Z := 0x09.
Definition UBLK_CMD_START_USER_RECOVERY : Z := 0x10.
Definition UBLK_CMD_END_USER_RECOVERY : Z := 0x11.
Definition UBLK_CMD_GET_DEV_INFO2 : Z := 0x12.

Definition UBLK_IO_FETCH_REQ : Z := 0x20.
Definition UBLK_IO_COMMIT_AND_FETCH_REQ : Z := 0x21.
Definition UBLK_IO_NEED_GET_DATA : Z := 0x22.

Definition UBLK_U_CMD_GET_QUEUE_AFFINITY := ior UBLK_CMD_GET_QUEUE_AFFINITY ublksrv_ctrl_cmd_layout.
Definition UBLK_U_CMD_GET_DEV_INFO := ior UBLK_CMD_GET_DEV_INFO ublksrv_ctrl_cmd_layout.
Definition UBLK_U_CMD_ADD_DEV := iowr UBLK_CMD_ADD_DEV ublksrv_ctrl_cmd_layout.
Definition UBLK_U_CMD_DEL_DEV := iowr UBLK_CMD_DEL_DEV ublksrv_ctrl_cmd_layout.
Definition UBLK_U_CMD_START_DEV := iowr UBLK_CMD_START_DEV ublksrv_ctrl_cmd_layout.
Definition UBLK_U_CMD_STOP_DEV := iowr UBLK_CMD_STOP_DEV ublksrv_ctrl_cmd_layout.
Definition UBLK_U_CMD_SET_PARAMS := iowr UBLK_CMD_SET_PARAMS ublksrv_ctrl_cmd_layout.
Definition UBLK_U_CMD_GET_PARAMS := ior UBLK_CMD_GET_PARAMS ublksrv_ctrl_cmd_layout.
Definition UBLK_U_CMD_START_USER_RECOVERY := iowr UBLK_CMD_START_USER_RECOVERY ublksrv_ctrl_cmd_layout.
Definition UBLK_U_CMD_END_USER_RECOVERY := iowr UBLK_CMD_END_USER_RECOVERY ublksrv_ctrl_cmd_layout.
Definition UBLK_U_CMD_GET_DEV_INFO2 := ior UBLK_CMD_GET_DEV_INFO2 ublksrv_ctrl_cmd_layout.
Definition UBLK_U_CMD_GET_FEATURES := ior 0x13 ublksrv_ctrl_cmd_layout.
Definition UBLK_U_CMD_DEL_DEV_ASYNC := ior 0x14 ublksrv_ctrl_cmd_layout.
Definition UBLK_U_CMD_UPDATE_SIZE := iowr 0x15 ublksrv_ctrl_cmd_layout.
Definition UBLK_U_CMD_QUIESCE_DEV := iowr 0x16 ublksrv_ctrl_cmd_layout.
Definition UBLK_U_CMD_TRY_STOP_DEV := iowr 0x17 ublksrv_ctrl_cmd_layout.
Definition UBLK_U_CMD_REG_BUF := iowr 0x18 ublksrv_ctrl_cmd_layout.
Definition UBLK_U_CMD_UNREG_BUF := iowr 0x19 ublksrv_ctrl_cmd_layout.

Definition UBLK_U_IO_FETCH_REQ := iowr UBLK_IO_FETCH_REQ ublksrv_io_cmd_layout.
Definition UBLK_U_IO_COMMIT_AND_FETCH_REQ := iowr UBLK_IO_COMMIT_AND_FETCH_REQ ublksrv_io_cmd_layout.
Definition UBLK_U_IO_NEED_GET_DATA := iowr UBLK_IO_NEED_GET_DATA ublksrv_io_cmd_layout.
Definition UBLK_U_IO_REGISTER_IO_BUF := iowr 0x23 ublksrv_io_cmd_layout.
Definition UBLK_U_IO_UNREGISTER_IO_BUF := iowr 0x24 ublksrv_io_cmd_layout.
Definition UBLK_U_IO_PREP_IO_CMDS := iowr 0x25 ublk_batch_io_layout.
Definition UBLK_U_IO_COMMIT_IO_CMDS := iowr 0x26 ublk_batch_io_layout.
Definition UBLK_U_IO_FETCH_IO_CMDS := iowr 0x27 ublk_batch_io_layout.

#[global] Instance ioc_dir_eq_dec : EqDecision ioc_dir.
Proof. solve_decision. Defined.
#[global] Instance ioc_eq_dec : EqDecision ioc.
Proof. solve_decision. Defined.

(** ** Packed encodings *)

Definition ublksrv_get_op (iod : ublksrv_io_desc) : Z :=
  uwrap 8 (iod_op_flags iod .& 0xff).

Definition ublksrv_get_flags (iod : ublksrv_io_desc) : Z :=
  iod_op_flags iod .>> 8.

Record ublk_auto_buf_reg := {
  abr_index : Z;
  abr_flags : Z;
  abr_reserved0 : Z;
  abr_reserved1 : Z;
}.

Definition ublk_sqe_addr_to_auto_buf_reg (sqe_addr : Z) : ublk_auto_buf_reg :=
  {| abr_index := uwrap 16 sqe_addr;
     abr_flags := uwrap 8 (sqe_addr .>> 16);
     abr_reserved0 := uwrap 8 (sqe_addr .>> 24);
     abr_reserved1 := uwrap 32 (sqe_addr .>> 32) |}.

Definition ublk_auto_buf_reg_to_sqe_addr (buf : ublk_auto_buf_reg) : Z :=
  abr_index buf .| uwrap 64 (abr_flags buf .<< 16)
  .| uwrap 64 (abr_reserved0 buf .<< 24) .| uwrap 64 (abr_reserved1 buf .<< 32).

Definition UBLK_SHMEM_ZC_OFF_MASK : Z := 0xffffffff.
Definition UBLK_SHMEM_ZC_IDX_OFF : Z := 32.
Definition UBLK_SHMEM_ZC_IDX_MASK : Z := 0xffff.

Definition ublk_shmem_zc_addr (index offset : Z) : Z :=
  uwrap 64 (index .<< UBLK_SHMEM_ZC_IDX_OFF) .| offset.

Definition ublk_shmem_zc_index (addr : Z) : Z :=
  uwrap 16 ((addr .>> UBLK_SHMEM_ZC_IDX_OFF) .& UBLK_SHMEM_ZC_IDX_MASK).

Definition ublk_shmem_zc_offset (addr : Z) : Z :=
  uwrap 32 (addr .& UBLK_SHMEM_ZC_OFF_MASK).

(** ** Theorems *)

Definition auto_buf_reg_ok (r : ublk_auto_buf_reg) : Prop :=
  is_u 16 (abr_index r) /\ is_u 8 (abr_flags r) /\ is_u 8 (abr_reserved0 r) /\
  is_u 32 (abr_reserved1 r).

Lemma auto_buf_reg_sum r :
  auto_buf_reg_ok r ->
  ublk_auto_buf_reg_to_sqe_addr r =
  abr_index r + abr_flags r * 2 ^ 16 + abr_reserved0 r * 2 ^ 24 + abr_reserved1 r * 2 ^ 32.
Proof.
  intros (Hi & Hf & H0 & H1). unfold ublk_auto_buf_reg_to_sqe_addr.
  rewrite !uwrap_id by (rewrite Z.shiftl_mul_pow2 by lia; range).
  rewrite (lor_shiftl_add_r (abr_flags r) 16) by range.
  rewrite (lor_shiftl_add_r (abr_reserved0 r) 24), (lor_shiftl_add_r (abr_reserved1 r) 32)
    by range.
  lia.
Qed.

Lemma div_2_24 a : a / 2 ^ 24 = a / 2 ^ 16 / 2 ^ 8.
Proof. rewrite Z.div_div by lia; reflexivity. Qed.

Lemma div_2_32 a : a / 2 ^ 32 = a / 2 ^ 16 / 2 ^ 8 / 2 ^ 8.
Proof. rewrite !Z.div_div by lia; reflexivity. Qed.

Lemma auto_buf_reg_fields i f r0 r1 :
  is_u 16 i -> is_u 8 f -> is_u 8 r0 -> is_u 32 r1 ->
  let x := i + f * 2 ^ 16 + r0 * 2 ^ 24 + r1 * 2 ^ 32 in
  uwrap 16 x = i /\ uwrap 8 (x / 2 ^ 16) = f /\ uwrap 8 (x / 2 ^ 24) = r0 /\
  uwrap 32 (x / 2 ^ 32) = r1.
Proof.
  intros Hi Hf H0 H1 x. unfold uwrap.
  assert (x / 2 ^ 16 = f + 2 ^ 8 * (r0 + 2 ^ 8 * r1)) as H16
    by (symmetry; apply (Z.div_unique_pos _ _ _ i); unfold x; range).
  assert (x / 2 ^ 24 = r0 + 2 ^ 8 * r1) as H24
    by (rewrite div_2_24, H16; symmetry; apply (Z.div_unique_pos _ _ _ f); range).
  assert (x / 2 ^ 32 = r1) as H32
    by (rewrite div_2_32, <- div_2_24, H24; symmetry; apply (Z.div_unique_pos _ _ _ r0); range).
  rewrite H16, H24, H32. unfold x. clear H16 H24 H32 x. split_all.
  - symmetry; apply (Z.mod_unique_pos _ _ (f + 2 ^ 8 * (r0 + 2 ^ 8 * r1))); range.
  - symmetry; apply (Z.mod_unique_pos _ _ (r0 + 2 ^ 8 * r1)); range.
  - symmetry; apply (Z.mod_unique_pos _ _ r1); range.
  - apply Z.mod_small; range.
Qed.

(** The automatic buffer registration data survives the packing into
    [sqe->addr] and every 64-bit word is the packing of what it unpacks to:
    the two conversions are inverse bijections. *)
Lemma auto_buf_reg_roundtrip r a :
  auto_buf_reg_ok r -> is_u 64 a ->
  ublk_sqe_addr_to_auto_buf_reg (ublk_auto_buf_reg_to_sqe_addr r) = r /\
  is_u 64 (ublk_auto_buf_reg_to_sqe_addr r) /\
  ublk_auto_buf_reg_to_sqe_addr (ublk_sqe_addr_to_auto_buf_reg a) = a.
Proof.
  intros Hr Ha. rewrite (auto_buf_reg_sum r Hr). split_all.
  - destruct r as [i f r0 r1]. destruct Hr as (Hi & Hf & H0 & H1).
    unfold ublk_sqe_addr_to_auto_buf_reg; simpl in *.
    rewrite !Z.shiftr_div_pow2 by lia.
    destruct (auto_buf_reg_fields i f r0 r1) as (-> & -> & -> & ->); auto.
  - destruct Hr as (Hi & Hf & H0 & H1). range.
  - rewrite auto_buf_reg_sum; unfold ublk_sqe_addr_to_auto_buf_reg; simpl;
      rewrite ?Z.shiftr_div_pow2 by lia;
      [|unfold auto_buf_reg_ok; simpl; split_all; apply uwrap_is_u; lia].
    rewrite div_2_24, div_2_32. unfold uwrap.
    pose proof (Z.div_mod a (2 ^ 16) ltac:(lia)).
    pose proof (Z.div_mod (a / 2 ^ 16) (2 ^ 8) ltac:(lia)).
    pose proof (Z.div_mod (a / 2 ^ 16 / 2 ^ 8) (2 ^ 8) ltac:(lia)).
    rewrite (Z.mod_small (a / 2 ^ 16 / 2 ^ 8 / 2 ^ 8)); [range|].
    rewrite <- div_2_32. unfold is_u in Ha. split; [apply Z.div_pos; lia|].
    apply Z.div_lt_upper_bound; range.
Qed.

(** The shared memory address encoding is a bijection between the pairs of
    a buffer index and a byte offset and the 48-bit words, whose reserved bits
    are zero. *)
Lemma shmem_zc_roundtrip index offset a :
  is_u 16 index -> is_u 32 offset -> is_u 48 a ->
  ublk_shmem_zc_index (ublk_shmem_zc_addr index offset) = index /\
  ublk_shmem_zc_offset (ublk_shmem_zc_addr index offset) = offset /\
  is_u 48 (ublk_shmem_zc_addr index offset) /\
  ublk_shmem_zc_addr (ublk_shmem_zc_index a) (ublk_shmem_zc_offset a) = a.
Proof.
  assert (forall i o, is_u 16 i -> is_u 32 o -> ublk_shmem_zc_addr i o = i * 2 ^ 32 + o) as Hsum.
  { intros i o Hi Ho. unfold ublk_shmem_zc_addr, UBLK_SHMEM_ZC_IDX_OFF.
    rewrite uwrap_id by (rewrite Z.shiftl_mul_pow2 by lia; range).
    apply lor_shiftl_add; [lia|exact Ho]. }
  assert (forall x, ublk_shmem_zc_index x = x / 2 ^ 32 mod 2 ^ 16) as Hidx.
  { intros x. unfold ublk_shmem_zc_index, UBLK_SHMEM_ZC_IDX_OFF.
    change UBLK_SHMEM_ZC_IDX_MASK with (2 ^ 16 - 1).
    rewrite land_mask, Z.shiftr_div_pow2 by lia. apply Z.mod_mod; lia. }
  assert (forall x, ublk_shmem_zc_offset x = x mod 2 ^ 32) as Hoff.
  { intros x. unfold ublk_shmem_zc_offset. change UBLK_SHMEM_ZC_OFF_MASK with (2 ^ 32 - 1).
    rewrite land_mask by lia. apply Z.mod_mod; lia. }
  intros Hi Ho Ha. rewrite !Hidx, !Hoff, (Hsum index offset) by assumption.
  rewrite Hsum by (apply Z.mod_pos_bound; lia).
  rewrite pack_div, pack_mod by (assumption || lia).
  rewrite (Z.mod_small index), (Z.mod_small (a / 2 ^ 32)) by
    (assumption || (split; [apply Z.div_pos|apply Z.div_lt_upper_bound]; range)).
  pose proof (Z.div_mod a (2 ^ 32) ltac:(lia)). split_all; range.
Qed.

(** The io_uring commands of the library. *)
Definition all_commands : list ioc :=
  [UBLK_U_CMD_GET_QUEUE_AFFINITY; UBLK_U_CMD_GET_DEV_INFO; UBLK_U_CMD_ADD_DEV;
   UBLK_U_CMD_DEL_DEV; UBLK_U_CMD_START_DEV; UBLK_U_CMD_STOP_DEV; UBLK_U_CMD_SET_PARAMS;
   UBLK_U_CMD_GET_PARAMS; UBLK_U_CMD_START_USER_RECOVERY; UBLK_U_CMD_END_USER_RECOVERY;
   UBLK_U_CMD_GET_DEV_INFO2; UBLK_U_CMD_GET_FEATURES; UBLK_U_CMD_DEL_DEV_ASYNC;
   UBLK_U_CMD_UPDATE_SIZE; UBLK_U_CMD_QUIESCE_DEV; UBLK_U_CMD_TRY_STOP_DEV;
   UBLK_U_CMD_REG_BUF; UBLK_U_CMD_UNREG_BUF; UBLK_U_IO_FETCH_REQ;
   UBLK_U_IO_COMMIT_AND_FETCH_REQ; UBLK_U_IO_NEED_GET_DATA; UBLK_U_IO_REGISTER_IO_BUF;
   UBLK_U_IO_UNREGISTER_IO_BUF; UBLK_U_IO_PREP_IO_CMDS; UBLK_U_IO_COMMIT_IO_CMDS;
   UBLK_U_IO_FETCH_IO_CMDS].

(** The command area of an SQE: 16 bytes, 80 with [IORING_SETUP_SQE128]. *)
Definition SQE_CMD_BYTES : Z := 16.
Definition SQE128_CMD_BYTES : Z := 80.

(** The commands are pairwise distinct; the I/O and batch commands fit the
    command area of an ordinary SQE while the control commands need the one of
    a 128-byte SQE, which is why the runtime of the control path enables it. *)
Lemma commands_distinct_and_fit :
  NoDup (map ioc_nr all_commands) /\
  sizeof ublksrv_io_cmd_layout <= SQE_CMD_BYTES /\
  sizeof ublk_batch_io_layout <= SQE_CMD_BYTES /\
  SQE_CMD_BYTES < sizeof ublksrv_ctrl_cmd_layout <= SQE128_CMD_BYTES /\
  Forall (fun c => ioc_size c <= SQE128_CMD_BYTES /\ 0 < ioc_nr c < 256) all_commands.
Proof.
  split; [apply (bool_decide_unpack _); vm_compute; exact I|].
  split_all; try (vm_compute; congruence).
  apply (bool_decide_unpack _); vm_compute; exact I.
Qed.
