(* ===== verification/Utils.v ===== *)
(** * Utils: alignment, device offsets, ring sizes

    [src/include/ublk/detail/utils.hpp] ([align_up]), [helpers.hpp]
    ([user_copy_pos] and the shared memory address helpers), the descriptor
    offset of [detail/queue.hpp] and the ring sizes of [runtime.hpp]. *)

From S2P Require Import Prelude UblkCmd.

(** ** align_up (utils.hpp), at [T = size_t] *)

Definition align_up (value alignment : Z) : Z :=
  uwrap 64 (value + alignment - 1) .& uwrap 64 (Z.lnot (alignment - 1)).

(** ** Offsets of the character device *)

(** [io_desc_offset] (queue.hpp): where the descriptors of a queue are mapped. *)
Definition io_desc_offset (q_id : Z) : Z :=
  UBLKSRV_CMD_BUF_OFFSET + q_id * UBLK_MAX_QUEUE_DEPTH * sizeof ublksrv_io_desc_layout.

(** [user_copy_pos] (helpers.hpp): where the data of a request is copied. *)
Definition user_copy_pos (q_id tag offset : Z) : Z :=
  uwrap 64 (UBLKSRV_IO_BUF_OFFSET +
            ((uwrap 64 (q_id .<< UBLK_QID_OFF) .| uwrap 64 (tag .<< UBLK_TAG_OFF)) .| offset)).

(** The assertion of [user_copy_pos]. *)
Definition user_copy_offset_ok (offset : Z) : bool :=
  offset .& Z.lnot UBLK_IO_BUF_BITS_MASK =? 0.

Definition shmem_zc_index (addr : Z) : Z := ublk_shmem_zc_index addr.
Definition shmem_zc_offset (addr : Z) : Z := ublk_shmem_zc_offset addr.

(** ** Runtime options (runtime.hpp) *)

Record RuntimeOptions := {
  requested_sq_size : Z;
  requested_cq_size : Z;
  opt_sq_size : Z;
  opt_cq_size : Z;
}.

Definition sq_size (v : Z) (o : RuntimeOptions) : RuntimeOptions :=
  {| requested_sq_size := v; requested_cq_size := requested_cq_size o;
     opt_sq_size := v; opt_cq_size := opt_cq_size o |}.

Definition cq_size (v : Z) (o : RuntimeOptions) : RuntimeOptions :=
  {| requested_sq_size := requested_sq_size o; requested_cq_size := v;
     opt_sq_size := opt_sq_size o; opt_cq_size := v |}.

(** The ring sizes of the options [build] returns. *)
Definition build (o : RuntimeOptions) (default_sq_size : Z) : Z * Z :=
  (Z.max (requested_sq_size o) default_sq_size,
   Z.max (requested_cq_size o) (uwrap 64 (default_sq_size * 2))).

(** ** Lemmas *)

Lemma land_lnot_pow2 x n :
  0 <= n < 64 -> is_u 64 x -> x .& uwrap 64 (Z.lnot (2 ^ n - 1)) = x / 2 ^ n * 2 ^ n.
Proof.
  intros Hn Hx. unfold uwrap.
  rewrite <- Z.land_ones, (Z.land_comm (Z.lnot _)), Z.land_assoc, Z.land_ones by lia.
  rewrite (Z.mod_small x) by (unfold is_u in Hx; lia).
  replace (2 ^ n - 1) with (Z.ones n) by (rewrite Z.ones_equiv; lia).
  rewrite <- Z.ldiff_land, Z.ldiff_ones_r, Z.shiftr_div_pow2, Z.shiftl_mul_pow2 by lia.
  reflexivity.
Qed.

Lemma align_up_div value n :
  0 <= n < 64 -> 0 <= value -> value + 2 ^ n - 1 < 2 ^ 64 ->
  align_up value (2 ^ n) = (value + 2 ^ n - 1) / 2 ^ n * 2 ^ n.
Proof.
  intros Hn Hv Hb. unfold align_up.
  assert (0 < 2 ^ n) by (apply Z.pow_pos_nonneg; lia).
  rewrite land_lnot_pow2; [|lia|apply uwrap_is_u; lia].
  rewrite uwrap_id; [reflexivity|unfold is_u; lia].
Qed.

Lemma align_up_bounds value n :
  0 <= n < 64 -> 0 <= value -> value + 2 ^ n - 1 < 2 ^ 64 ->
  value <= align_up value (2 ^ n) < value + 2 ^ n.
Proof.
  intros Hn Hv Hb. rewrite align_up_div by assumption.
  assert (0 < 2 ^ n) by (apply Z.pow_pos_nonneg; lia).
  pose proof (Z.div_mod (value + 2 ^ n - 1) (2 ^ n) ltac:(lia)) as Hd.
  pose proof (Z.mod_pos_bound (value + 2 ^ n - 1) (2 ^ n) ltac:(lia)). nia.
Qed.

(** The three fields of a copy position as a sum. *)
Lemma user_copy_pos_sum q_id tag offset :
  is_u 16 q_id -> is_u 16 tag -> is_u 25 offset ->
  user_copy_pos q_id tag offset =
  UBLKSRV_IO_BUF_OFFSET + (q_id * 2 ^ 41 + tag * 2 ^ 25 + offset).
Proof.
  intros Hq Ht Ho. unfold user_copy_pos.
  rewrite (uwrap_id 64 (q_id .<< UBLK_QID_OFF)), (uwrap_id 64 (tag .<< UBLK_TAG_OFF))
    by (rewrite Z.shiftl_mul_pow2 by (vm_compute; congruence);
        unfold UBLK_QID_OFF, UBLK_TAG_OFF, UBLK_TAG_BITS, UBLK_IO_BUF_BITS; range).
  change UBLK_QID_OFF with 41. change UBLK_TAG_OFF with 25.
  rewrite <- Z.lor_assoc, (lor_shiftl_add tag 25 offset), lor_shiftl_add by range.
  rewrite uwrap_id by (unfold UBLKSRV_IO_BUF_OFFSET; range). lia.
Qed.

(** [align_up] to a power of two returns the least multiple of the
    alignment that is not below the value, when it fits in a [size_t]. *)
Lemma align_up_least value n :
  0 <= n < 64 -> 0 <= value -> value + 2 ^ n - 1 < 2 ^ 64 ->
  let r := align_up value (2 ^ n) in
  value <= r < value + 2 ^ n /\ (2 ^ n | r) /\
  forall m, (2 ^ n | m) -> value <= m -> r <= m.
Proof.
  intros Hn Hv Hb r. split; [apply align_up_bounds; assumption|].
  unfold r. rewrite align_up_div by assumption.
  assert (0 < 2 ^ n) by (apply Z.pow_pos_nonneg; lia).
  split; [apply Z.divide_factor_r|].
  intros m [k ->] Hm. apply Z.mul_le_mono_nonneg_r; [lia|].
  assert (value + 2 ^ n - 1 < (k + 1) * 2 ^ n) by lia.
  apply Z.lt_succ_r, Z.div_lt_upper_bound; lia.
Qed.

(** ** Theorems *)

(** C40: the copy positions of distinct (queue, tag, offset) triples are
    distinct, and for the driver's queue ids they lie in the device's I/O
    buffer region and below the integrity flag. *)
Theorem user_copy_pos_injective q t o q' t' o' :
  is_u 16 q -> is_u 16 t -> user_copy_offset_ok o = true -> is_u 32 o ->
  is_u 16 q' -> is_u 16 t' -> user_copy_offset_ok o' = true -> is_u 32 o' ->
  (user_copy_pos q t o = user_copy_pos q' t' o' -> q = q' /\ t = t' /\ o = o') /\
  (q < UBLK_MAX_NR_QUEUES ->
   UBLKSRV_IO_BUF_OFFSET <= user_copy_pos q t o
     < UBLKSRV_IO_BUF_OFFSET + UBLKSRV_IO_BUF_TOTAL_SIZE /\
   user_copy_pos q t o < UBLKSRV_IO_INTEGRITY_FLAG).
Proof.
  assert (forall o, is_u 32 o -> user_copy_offset_ok o = true -> is_u 25 o) as Hoff.
  { intros x Hx Hok. unfold user_copy_offset_ok in Hok. apply Z.eqb_eq in Hok.
    change UBLK_IO_BUF_BITS_MASK with (2 ^ 25 - 1) in Hok.
    rewrite <- Z.ldiff_land in Hok.
    replace (2 ^ 25 - 1) with (Z.ones 25) in Hok by reflexivity.
    rewrite Z.ldiff_ones_r, Z.shiftr_div_pow2, Z.shiftl_mul_pow2 in Hok by lia.
    unfold is_u in *. assert (x / 2 ^ 25 = 0) by lia.
    pose proof (Z.div_mod x (2 ^ 25)). pose proof (Z.mod_pos_bound x (2 ^ 25)). lia. }
  intros Hq Ht Hok Ho Hq' Ht' Hok' Ho'.
  apply Hoff in Hok; [|assumption]. apply Hoff in Hok'; [|assumption].
  rewrite !user_copy_pos_sum by assumption.
  unfold UBLKSRV_IO_BUF_OFFSET. split; [intros; range|].
  change UBLK_MAX_NR_QUEUES with 4096. change UBLKSRV_IO_BUF_TOTAL_SIZE with (2 ^ 53).
  change UBLKSRV_IO_INTEGRITY_FLAG with (2 ^ 62). intros; range.
Qed.

Lemma user_copy_pos_injective_witness :
  user_copy_pos 4095 65535 33554431 = UBLKSRV_IO_BUF_OFFSET + UBLKSRV_IO_BUF_TOTAL_SIZE - 1 /\
  (user_copy_pos 1 2 3 = user_copy_pos 1 2 4 -> 1 = 1 /\ 2 = 2 /\ 3 = 4).
Proof.
  split; [reflexivity|].
  apply (user_copy_pos_injective 1 2 3 1 2 4); solve [reflexivity|split; vm_compute; congruence].
Defined.

(** The descriptor arrays of distinct queues do not overlap, each starts on
    a page boundary, and those of the driver's queues end below the data
    region, so that no descriptor mapping reaches a copy position. *)
Lemma io_desc_regions_disjoint q q' depth :
  0 <= q < q' -> q' < UBLK_MAX_NR_QUEUES -> 0 <= depth <= UBLK_MAX_QUEUE_DEPTH ->
  io_desc_offset q + depth * sizeof ublksrv_io_desc_layout <= io_desc_offset q' /\
  (4096 | io_desc_offset q) /\
  io_desc_offset q' + depth * sizeof ublksrv_io_desc_layout <= UBLKSRV_IO_BUF_OFFSET.
Proof.
  unfold io_desc_offset, UBLKSRV_CMD_BUF_OFFSET, UBLK_MAX_QUEUE_DEPTH, UBLKSRV_IO_BUF_OFFSET.
  change (sizeof ublksrv_io_desc_layout) with 24. change UBLK_MAX_NR_QUEUES with 4096.
  intros. split; [lia|]. split; [|lia]. exists (q * 24). lia.
Qed.
