(* ===== verification/Effects.v ===== *)
(** * Effects: senders, tasks and their completions

    The library is written against the sender model: an asynchronous operation
    completes with a value, with an error or by being stopped, and algorithms
    ([then], [upon_error], [let_value], [stopped_as_error]) and coroutines
    ([co_await], [throw], scope guards) are built on completions.  A [prog] is
    such an operation over an alphabet of external calls [C] with replies of type [R c]:
    a tree whose nodes are the calls the code issues and whose leaves are
    completions.  [exec] runs it against an environment that answers each call
    from the history of the run, so a theorem over all environments covers
    every behaviour of the driver and of the runtime. *)

From S2P Require Import Prelude.

(** ** Errors and completions *)

(** The exceptions the sources throw. *)
Inductive exn :=
  | SystemError (code : Z)
  | RuntimeError (what : string)
  | OutOfRange (what : string)
  | InvalidArgument (what : string)
  | LengthError (what : string)
  | BadAlloc.

(** The two error types of the senders: [std::error_code] and
    [std::exception_ptr]. *)
Inductive err :=
  | ErrCode (ec : Z)
  | ErrPtr (ep : exn).

(** How an operation completes.  [Unfinished] is not a completion: it stands
    for an operation that has not completed when the observation ends (a
    handler that never completes, a loop observed for a number of rounds), and
    nothing that waits for the operation, no scope guard included, runs. *)
Inductive completion (A : Type) :=
  | SetValue (a : A)
  | SetError (e : err)
  | SetStopped
  | Unfinished.
Arguments SetValue {A} a.
Arguments SetError {A} e.
Arguments SetStopped {A}.
Arguments Unfinished {A}.

#[global] Instance exn_eq_dec : EqDecision exn.
Proof. solve_decision. Defined.
#[global] Instance err_eq_dec : EqDecision err.
Proof. solve_decision. Defined.
#[global] Instance completion_eq_dec {A} `{EqDecision A} : EqDecision (completion A).
Proof. solve_decision. Defined.

Definition map_completion {A B} (f : A -> B) (c : completion A) : completion B :=
  match c with
  | SetValue a => SetValue (f a)
  | SetError e => SetError e
  | SetStopped => SetStopped
  | Unfinished => Unfinished
  end.

(** What a coroutine sees of an error it awaits: an error code is rethrown as
    a [std::system_error]. *)
Definition as_except_ptr (e : err) : exn :=
  match e with
  | ErrCode ec => SystemError ec
  | ErrPtr ep => ep
  end.

Section Prog.
Context {C : Type} {R : C -> Type}.

Inductive prog (A : Type) :=
  | Done (c : completion A)
  | Vis (c : C) (k : R c -> prog A).
Arguments Done {A} c.
Arguments Vis {A} c k.

(** Continues with the completion of [p], whatever it is. *)
Fixpoint connect {A B} (p : prog A) (f : completion A -> prog B) : prog B :=
  match p with
  | Done c => f c
  | Vis c k => Vis c (fun r => connect (k r) f)
  end.

Definition just {A} (a : A) : prog A := Done (SetValue a).
Definition throw {A} (e : exn) : prog A := Done (SetError (ErrPtr e)).

(** The value continuation; errors and stops pass through. *)
Definition let_value {A B} (p : prog A) (f : A -> prog B) : prog B :=
  connect p (fun c => match c with
                      | SetValue a => f a
                      | SetError e => Done (SetError e)
                      | SetStopped => Done SetStopped
                      | Unfinished => Done Unfinished
                      end).

Definition then_ {A B} (p : prog A) (f : A -> B) : prog B :=
  let_value p (fun a => just (f a)).

(** The handler of [upon_error] may itself throw. *)
Definition upon_error {A} (p : prog A) (f : err -> prog A) : prog A :=
  connect p (fun c => match c with
                      | SetError e => f e
                      | c => Done c
                      end).

Definition stopped_as_error {A} (p : prog A) (e : err) : prog A :=
  connect p (fun c => match c with
                      | SetStopped => Done (SetError e)
                      | c => Done c
                      end).

(** The completion of an operation, as a value. *)
Definition reify {A} (p : prog A) : prog (completion A) :=
  connect p (fun c => match c with Unfinished => Done Unfinished | c => just c end).

(** [co_await p] inside a task. *)
Definition co_await {A} (p : prog A) : prog A :=
  upon_error p (fun e => throw (as_except_ptr e)).

(** A scope guard: [d] runs when the scope is left on any path. *)
Definition defer {A} (p : prog A) (d : prog unit) : prog A :=
  connect p (fun c => match c with
                      | Unfinished => Done Unfinished
                      | c => connect d (fun cd => match cd with
                                                  | Unfinished => Done Unfinished
                                                  | _ => Done c
                                                  end)
                      end).

(** One external call, completing with what [f] makes of the reply. *)
Definition trigger {A} (c : C) (f : R c -> completion A) : prog A :=
  Vis c (fun r => Done (f r)).

(** ** Running a program *)

Definition trace := list (sigT R).
Definition environment := trace -> forall c, R c.

Fixpoint exec {A} (K : environment) (p : prog A) (h : trace) : completion A * trace :=
  match p with
  | Done c => (c, h)
  | Vis c k => let r := K h c in exec K (k r) (h ++ [existT c r])
  end.

(** Every call [p] can issue satisfies [P]. *)
Fixpoint all_calls {A} (P : C -> Prop) (p : prog A) : Prop :=
  match p with
  | Done _ => True
  | Vis c k => P c /\ forall r, all_calls P (k r)
  end.

(** Equality of programs up to their runs. *)
Definition peq {A} (p q : prog A) : Prop := forall K h, exec K p h = exec K q h.

#[global] Instance peq_equivalence A : Equivalence (@peq A).
Proof.
  split.
  - intros p K h; reflexivity.
  - intros p q H K h; symmetry; apply H.
  - intros p q r H1 H2 K h; rewrite H1; apply H2.
Qed.

Lemma exec_connect {A B} K (p : prog A) (f : completion A -> prog B) h :
  exec K (connect p f) h = let '(c, h') := exec K p h in exec K (f c) h'.
Proof. revert h; induction p as [c|c k IH]; intros h; simpl; [reflexivity|apply IH]. Qed.

Lemma exec_trigger {A} K (c : C) (f : R c -> completion A) h :
  exec K (trigger c f) h = (f (K h c), h ++ [existT c (K h c)]).
Proof. reflexivity. Qed.

#[global] Instance connect_proper A B :
  Proper (peq ==> pointwise_relation _ peq ==> peq) (@connect A B).
Proof.
  intros p q Hp f g Hf K h. rewrite !exec_connect, Hp.
  destruct (exec K q h) as [c h']; apply Hf.
Qed.

Lemma connect_assoc {A B D} (p : prog A) (f : completion A -> prog B)
    (g : completion B -> prog D) :
  peq (connect (connect p f) g) (connect p (fun c => connect (f c) g)).
Proof.
  intros K h. rewrite !exec_connect.
  destruct (exec K p h) as [c h'] eqn:E. rewrite exec_connect. reflexivity.
Qed.

Lemma connect_done_r {A} (p : prog A) : peq (connect p Done) p.
Proof. intros K h. rewrite exec_connect. destruct (exec K p h); reflexivity. Qed.

Lemma exec_let_value {A B} K (p : prog A) (f : A -> prog B) h :
  exec K (let_value p f) h =
  match exec K p h with
  | (SetValue a, h') => exec K (f a) h'
  | (SetError e, h') => (SetError e, h')
  | (SetStopped, h') => (SetStopped, h')
  | (Unfinished, h') => (Unfinished, h')
  end.
Proof. unfold let_value. rewrite exec_connect. destruct (exec K p h) as [[] ?]; reflexivity. Qed.

Lemma exec_upon_error {A} K (p : prog A) f h :
  exec K (upon_error p f) h =
  match exec K p h with
  | (SetError e, h') => exec K (f e) h'
  | r => r
  end.
Proof. unfold upon_error. rewrite exec_connect. destruct (exec K p h) as [[] ?]; reflexivity. Qed.

Lemma exec_co_await {A} K (p : prog A) h :
  exec K (co_await p) h =
  match exec K p h with
  | (SetError e, h') => (SetError (ErrPtr (as_except_ptr e)), h')
  | r => r
  end.
Proof. unfold co_await. rewrite exec_upon_error. destruct (exec K p h) as [[] ?]; reflexivity. Qed.

Lemma exec_stopped_as_error {A} K (p : prog A) e h :
  exec K (stopped_as_error p e) h =
  match exec K p h with
  | (SetStopped, h') => (SetError e, h')
  | r => r
  end.
Proof.
  unfold stopped_as_error. rewrite exec_connect. destruct (exec K p h) as [[] ?]; reflexivity.
Qed.

(** The guard runs after the body and cannot change its completion. *)
Lemma exec_defer {A} K (p : prog A) d h :
  exec K (defer p d) h =
  match exec K p h with
  | (Unfinished, h') => (Unfinished, h')
  | (c, h') => match exec K d h' with
               | (Unfinished, h'') => (Unfinished, h'')
               | (_, h'') => (c, h'')
               end
  end.
Proof.
  unfold defer. rewrite exec_connect. destruct (exec K p h) as [[] h'];
    try reflexivity; rewrite exec_connect; destruct (exec K d h') as [[] ?]; reflexivity.
Qed.

(** A run only extends the history. *)
Lemma exec_extends {A} K (p : prog A) h : exists t, snd (exec K p h) = h ++ t.
Proof.
  revert h; induction p as [c|c k IH]; intros h; simpl.
  - exists []. symmetry; apply app_nil_r.
  - destruct (IH (K h c) (h ++ [existT c (K h c)])) as [t Ht]. rewrite Ht.
    exists (existT c (K h c) :: t). rewrite <- app_assoc; reflexivity.
Qed.

(** ** Rounds of a loop

    [rk k] is one round of a loop that goes on with [k].  From [h] the round
    either completes the loop, the same way for every [k], or goes on after the
    calls [t], which satisfy [P]. *)

Definition settles {A} (K : environment) (rk : prog A -> prog A) (h : trace)
    (P : trace -> Prop) : Prop :=
  (exists c h', c <> Unfinished /\ forall k, exec K (rk k) h = (c, h')) \/
  (exists t, P t /\ forall k, exec K (rk k) h = exec K k (h ++ t)).

Lemma settles_done {A} K (c : completion A) h P : c <> Unfinished -> settles K (fun _ => Done c) h P.
Proof. intros Hc. left. exists c, h. auto. Qed.

Lemma settles_next {A} K h (P : trace -> Prop) : P [] -> settles K (fun k : prog A => k) h P.
Proof. intros HP. right. exists []. rewrite app_nil_r. auto. Qed.

Lemma settles_let_value {A B} K (p : prog A) (r : A -> prog B -> prog B) h (P : trace -> Prop) :
  fst (exec K p h) <> Unfinished ->
  (forall a t, exec K p h = (SetValue a, h ++ t) ->
     settles K (r a) (h ++ t) (fun t' => P (t ++ t'))) ->
  settles K (fun k => let_value p (fun a => r a k)) h P.
Proof.
  intros Hf Hr. destruct (exec_extends K p h) as [t Ht].
  destruct (exec K p h) as [[a|e| |] h1] eqn:E; simpl in *; subst; [| | |congruence].
  - destruct (Hr a t eq_refl) as [(c & h' & Hc & H)|(t' & HP & H)].
    + left. exists c, h'. split; [assumption|]. intros k. rewrite exec_let_value, E. apply H.
    + right. exists (t ++ t'). split; [assumption|]. intros k.
      rewrite exec_let_value, E, app_assoc. apply H.
  - left. exists (SetError e), (h ++ t). split; [discriminate|].
    intros k. rewrite exec_let_value, E. reflexivity.
  - left. exists SetStopped, (h ++ t). split; [discriminate|].
    intros k. rewrite exec_let_value, E. reflexivity.
Qed.

(** ** Calls *)

Lemma all_calls_connect {A B} P (p : prog A) (f : completion A -> prog B) :
  all_calls P p -> (forall c, all_calls P (f c)) -> all_calls P (connect p f).
Proof.
  intros Hp Hf. induction p as [c|c k IH]; simpl in *; [apply Hf|].
  destruct Hp as [Hc Hk]; split; [assumption|]. intros r; apply IH, Hk.
Qed.

Lemma all_calls_mono {A} (P Q : C -> Prop) (p : prog A) :
  (forall c, P c -> Q c) -> all_calls P p -> all_calls Q p.
Proof.
  intros HPQ. induction p as [c|c k IH]; [auto|]. intros [Hc Hk]. split; [apply HPQ, Hc|].
  intros r. apply IH, Hk.
Qed.

Lemma all_calls_let_value {A B} P (p : prog A) (f : A -> prog B) :
  all_calls P p -> (forall a, all_calls P (f a)) -> all_calls P (let_value p f).
Proof. intros; apply all_calls_connect; [assumption|intros []; simpl; auto]. Qed.

Lemma all_calls_upon_error {A} P (p : prog A) f :
  all_calls P p -> (forall e, all_calls P (f e)) -> all_calls P (upon_error p f).
Proof. intros; apply all_calls_connect; [assumption|intros []; simpl; auto]. Qed.

Lemma all_calls_co_await {A} P (p : prog A) : all_calls P p -> all_calls P (co_await p).
Proof. intros; apply all_calls_upon_error; [assumption|simpl; auto]. Qed.

Lemma all_calls_defer {A} P (p : prog A) d :
  all_calls P p -> all_calls P d -> all_calls P (defer p d).
Proof.
  intros; apply all_calls_connect; [assumption|].
  intros []; try exact I; (apply all_calls_connect; [assumption|intros []; exact I]).
Qed.

Lemma all_calls_then {A B} P (p : prog A) (f : A -> B) :
  all_calls P p -> all_calls P (then_ p f).
Proof. intros; apply all_calls_let_value; simpl; auto. Qed.

Lemma all_calls_exec {A} P K (p : prog A) h :
  all_calls P p -> Forall (fun e => P (projT1 e)) h ->
  Forall (fun e => P (projT1 e)) (snd (exec K p h)).
Proof.
  revert h; induction p as [c|c k IH]; intros h Hp Hh; simpl in *; [assumption|].
  destruct Hp as [Hc Hk]. apply IH; [apply Hk|].
  apply Forall_app; split; [assumption|]. constructor; [assumption|constructor].
Qed.
End Prog.

Arguments prog C R A : clear implicits.
Arguments trace C R : clear implicits.
Arguments environment C R : clear implicits.
Arguments Done {C R A} c.
Arguments Vis {C R A} c k.

(** [let! x := p in k] awaits a sender inside a task. *)
Notation "'let!' x := p 'in' k" := (let_value (co_await p) (fun x => k))
  (at level 10, x name, p at level 100, k at level 200) : ublk_scope.
Notation "'let!' ' pat := p 'in' k" :=
  (let_value (co_await p) (fun x => match x with pat => k end))
  (at level 10, pat pattern, p at level 100, k at level 200) : ublk_scope.
Notation "'do!' p 'in' k" := (let_value (co_await p) (fun _ => k))
  (at level 10, p at level 100, k at level 200) : ublk_scope.

#[export] Hint Rewrite @exec_connect @exec_let_value @exec_upon_error @exec_co_await
  @exec_stopped_as_error @exec_defer : ublk_rw.

#[export] Hint Resolve all_calls_let_value all_calls_upon_error all_calls_co_await
  all_calls_defer all_calls_then : ublk.

(** Runs one step of symbolic execution: unfold the combinators' equations. *)
Ltac run := repeat (autorewrite with ublk_rw; simpl).
