(* ===== verification/Protocol.v ===== *)
(** * Protocol: automata over calls, and concurrent composition

    A protocol is an automaton whose input is a call together with its reply:
    [delta s c r] is the state after the call [c] answered [r], or [None] when
    the call is not allowed in [s].  [obeys p s Q] states of an operation that
    every call it can issue, whatever the replies, is allowed, and that it
    completes in a state and with a completion related by [Q].  It is the
    interface through which the other files specify an operation to its users:
    the rules below follow the combinators, so a specification is proved once
    per operation and composed.  [concurrently] runs tasks concurrently under a
    schedule, and a family of tasks obeys the product of their protocols. *)

From S2P Require Import Prelude Effects.

Section Protocol.
Context {C : Type} {R : C -> Type} {S : Type}.
Context (delta : S -> forall c, R c -> option S).

Fixpoint obeys {A} (p : prog C R A) (s : S) (Q : completion A -> S -> Prop) : Prop :=
  match p with
  | Done c => Q c s
  | Vis c k => forall r, exists s', delta s c r = Some s' /\ obeys (k r) s' Q
  end.

(** The state after a history, when all of it is allowed. *)
Fixpoint accepts (s : S) (t : trace C R) : option S :=
  match t with
  | [] => Some s
  | existT c r :: t => match delta s c r with
                       | Some s' => accepts s' t
                       | None => None
                       end
  end.

Lemma accepts_app s t1 t2 :
  accepts s (t1 ++ t2) = match accepts s t1 with Some s' => accepts s' t2 | None => None end.
Proof.
  revert s; induction t1 as [|[c r] t1 IH]; intros s; simpl; [reflexivity|].
  destruct (delta s c r); [apply IH|reflexivity].
Qed.

Lemma obeys_mono {A} (p : prog C R A) s (Q Q' : completion A -> S -> Prop) :
  (forall c s', Q c s' -> Q' c s') -> obeys p s Q -> obeys p s Q'.
Proof.
  intros HQ. revert s; induction p as [c|c k IH]; intros s; simpl; [apply HQ|].
  intros H r. destruct (H r) as (s' & Hd & Hk). exists s'; split; [assumption|apply IH, Hk].
Qed.

Lemma obeys_connect {A B} (p : prog C R A) (f : completion A -> prog C R B) s Q :
  obeys p s (fun c s' => obeys (f c) s' Q) -> obeys (connect p f) s Q.
Proof.
  revert s; induction p as [c|c k IH]; intros s; simpl; [auto|].
  intros H r. destruct (H r) as (s' & Hd & Hk). exists s'; split; [assumption|apply IH, Hk].
Qed.

(** What [let_value] asks of its first operation. *)
Definition then_obeys {A B} (f : A -> prog C R B) (Q : completion B -> S -> Prop)
    (c : completion A) (s : S) : Prop :=
  match c with
  | SetValue a => obeys (f a) s Q
  | SetError e => Q (SetError e) s
  | SetStopped => Q SetStopped s
  | Unfinished => Q Unfinished s
  end.

Lemma obeys_let_value {A B} (p : prog C R A) (f : A -> prog C R B) s Q :
  obeys p s (then_obeys f Q) -> obeys (let_value p f) s Q.
Proof. intros H. apply obeys_connect. revert H; apply obeys_mono. intros [] s'; exact id. Qed.

Lemma obeys_upon_error {A} (p : prog C R A) f s Q :
  obeys p s (fun c s' => match c with SetError e => obeys (f e) s' Q | c => Q c s' end) ->
  obeys (upon_error p f) s Q.
Proof. intros H. apply obeys_connect. revert H; apply obeys_mono. intros [] s'; exact id. Qed.

Lemma obeys_co_await {A} (p : prog C R A) s Q :
  obeys p s (fun c s' => match c with
                         | SetError e => Q (SetError (ErrPtr (as_except_ptr e))) s'
                         | c => Q c s'
                         end) ->
  obeys (co_await p) s Q.
Proof. intros H. apply (obeys_upon_error p _ s Q), H. Qed.

Lemma obeys_stopped_as_error {A} (p : prog C R A) e s Q :
  obeys p s (fun c s' => match c with SetStopped => Q (SetError e) s' | c => Q c s' end) ->
  obeys (stopped_as_error p e) s Q.
Proof. intros H. apply obeys_connect. revert H; apply obeys_mono. intros [] s'; exact id. Qed.

(** What a scope guard [d] asks of the operation it guards. *)
Definition guard_obeys {A} (d : prog C R unit) (Q : completion A -> S -> Prop)
    (c : completion A) (s : S) : Prop :=
  match c with
  | Unfinished => Q Unfinished s
  | _ => obeys d s (fun cd s' => match cd with Unfinished => Q Unfinished s' | _ => Q c s' end)
  end.

Lemma obeys_defer {A} (p : prog C R A) d s (Q : completion A -> S -> Prop) :
  obeys p s (guard_obeys d Q) -> obeys (defer p d) s Q.
Proof.
  intros H. apply obeys_connect. revert H; apply obeys_mono.
  intros [] s'; try exact id; intros H; apply obeys_connect; revert H; apply obeys_mono;
    intros [] s''; exact id.
Qed.

Lemma obeys_trigger {A} (c : C) (f : R c -> completion A) s (Q : completion A -> S -> Prop) :
  (forall r, exists s', delta s c r = Some s' /\ Q (f r) s') -> obeys (trigger c f) s Q.
Proof. exact id. Qed.

(** An operation that obeys a protocol only issues calls the protocol has. *)
Lemma obeys_all_calls {A} (inh : forall c, R c) (P : C -> Prop) (p : prog C R A) s Q :
  (forall s c r s', delta s c r = Some s' -> P c) -> obeys p s Q -> all_calls P p.
Proof.
  intros HP. revert s; induction p as [c|c k IH]; intros s H; [exact I|]. split.
  - destruct (H (inh c)) as (s' & Hd & _). eapply HP, Hd.
  - intros r. destruct (H r) as (s' & _ & Hk). eapply IH, Hk.
Qed.

(** An operation that obeys a protocol only has runs the automaton accepts. *)
Lemma obeys_exec {A} K (p : prog C R A) s Q h :
  obeys p s Q ->
  exists t s', snd (exec K p h) = h ++ t /\ accepts s t = Some s' /\ Q (fst (exec K p h)) s'.
Proof.
  revert s h; induction p as [c|c k IH]; intros s h H; simpl in *.
  - exists [], s. rewrite app_nil_r. auto.
  - destruct (H (K h c)) as (s1 & Hd & Hk).
    destruct (IH (K h c) s1 (h ++ [existT c (K h c)]) Hk) as (t & s' & Ht & Ha & HQ).
    exists (existT c (K h c) :: t), s'. rewrite Ht, <- app_assoc. simpl. rewrite Hd. auto.
Qed.

Lemma obeys_and {A} (p : prog C R A) s (Q1 Q2 : completion A -> S -> Prop) :
  obeys p s Q1 -> obeys p s Q2 -> obeys p s (fun c s' => Q1 c s' /\ Q2 c s').
Proof.
  revert s; induction p as [c|c k IH]; intros s; simpl; [auto|].
  intros H1 H2 r. destruct (H1 r) as (s1 & Hd & Hk1), (H2 r) as (s2 & Hd2 & Hk2).
  rewrite Hd in Hd2; injection Hd2 as <-. exists s1; eauto.
Qed.

(** Every completion of [p], whatever the replies, satisfies [P]. *)
Fixpoint all_leaves {A} (P : completion A -> Prop) (p : prog C R A) : Prop :=
  match p with
  | Done c => P c
  | Vis _ k => forall r, all_leaves P (k r)
  end.

Lemma all_leaves_connect {A B} P (p : prog C R A) (f : completion A -> prog C R B) :
  all_leaves (fun c => all_leaves P (f c)) p -> all_leaves P (connect p f).
Proof. induction p as [c|c k IH]; simpl; auto. Qed.

Lemma obeys_leaves {A} (p : prog C R A) s Q :
  obeys p s Q -> all_leaves (fun c => exists s', Q c s') p.
Proof.
  revert s; induction p as [c|c k IH]; intros s; simpl; [eauto|].
  intros H r. destruct (H r) as (s' & _ & Hk). eapply IH, Hk.
Qed.

Lemma obeys_with_leaves {A} (p : prog C R A) s Q P :
  obeys p s Q -> all_leaves P p -> obeys p s (fun c s' => Q c s' /\ P c).
Proof.
  revert s; induction p as [c|c k IH]; intros s; simpl; [auto|].
  intros H HP r. destruct (H r) as (s' & Hd & Hk). exists s'. split; [exact Hd|apply IH; auto].
Qed.

(** Calls the protocol ignores. *)
Lemma obeys_ignored {A} (p : prog C R A) s :
  all_calls (fun c => forall r, delta s c r = Some s) p -> obeys p s (fun _ s' => s' = s).
Proof.
  induction p as [c|c k IH]; simpl; [reflexivity|].
  intros [Hc Hk] r. exists s; split; [apply Hc|apply IH, Hk].
Qed.
End Protocol.

(** ** Operations that complete

    Whatever the replies, the operation comes to an end and completes. *)

Section Finishes.
Context {C : Type} {R : C -> Type}.

Definition finishes {A} (p : prog C R A) : Prop := all_leaves (fun c => c <> Unfinished) p.

Lemma finishes_connect {A B} (p : prog C R A) (f : completion A -> prog C R B) :
  finishes p -> (forall c, c <> Unfinished -> finishes (f c)) -> finishes (connect p f).
Proof.
  intros Hp Hf. apply all_leaves_connect. unfold finishes in Hp.
  induction p as [c|c k IH]; cbn [all_leaves] in *; [apply Hf, Hp|intros r; apply IH, Hp].
Qed.

Lemma finishes_done {A} (c : completion A) : c <> Unfinished -> finishes (Done (C := C) (R := R) c).
Proof. exact id. Qed.

Lemma finishes_let_value {A B} (p : prog C R A) (f : A -> prog C R B) :
  finishes p -> (forall a, finishes (f a)) -> finishes (let_value p f).
Proof.
  intros Hp Hf. apply finishes_connect; [exact Hp|].
  intros [] Hc; [apply Hf|apply finishes_done; discriminate..|contradiction].
Qed.

Lemma finishes_upon_error {A} (p : prog C R A) f :
  finishes p -> (forall e, finishes (f e)) -> finishes (upon_error p f).
Proof.
  intros Hp Hf. apply finishes_connect; [exact Hp|].
  intros [] Hc; [apply finishes_done; discriminate|apply Hf|apply finishes_done; discriminate|contradiction].
Qed.

Lemma finishes_co_await {A} (p : prog C R A) : finishes p -> finishes (co_await p).
Proof. intros Hp. apply finishes_upon_error; [exact Hp|]. intros e. apply finishes_done. discriminate. Qed.

Lemma finishes_then {A B} (p : prog C R A) (f : A -> B) : finishes p -> finishes (then_ p f).
Proof. intros Hp. apply finishes_let_value; [exact Hp|]. intros a. apply finishes_done. discriminate. Qed.

Lemma finishes_trigger {A} (c : C) (f : R c -> completion A) :
  (forall r, f r <> Unfinished) -> finishes (trigger c f).
Proof. exact id. Qed.

Lemma finishes_defer {A} (p : prog C R A) d : finishes p -> finishes d -> finishes (defer p d).
Proof.
  intros Hp Hd. apply finishes_connect; [exact Hp|].
  intros [] Hc; try contradiction; (apply finishes_connect; [exact Hd|]);
    intros [] Hcd; try contradiction; apply finishes_done; discriminate.
Qed.

Lemma finishes_exec {A} K (p : prog C R A) h : finishes p -> fst (exec K p h) <> Unfinished.
Proof. revert h; induction p as [c|c k IH]; intros h H; [exact H|apply IH, H]. Qed.
End Finishes.

(** ** Assumptions on the environment

    The protocol in an environment whose replies satisfy [ok]: once a reply
    does not, the state is [None] and nothing is required any more. *)

Section Assuming.
Context {C : Type} {R : C -> Type} {S : Type}.
Context (ok : forall c, R c -> bool) (delta : S -> forall c, R c -> option S).

Definition assuming (s : option S) (c : C) (r : R c) : option (option S) :=
  match s with
  | None => Some None
  | Some s => if ok c r then option_map Some (delta s c r) else Some None
  end.

Lemma obeys_sunk {A} (p : prog C R A) (Q : completion A -> option S -> Prop) :
  (forall c, Q c None) -> obeys assuming p None Q.
Proof.
  intros HQ. induction p as [c|c k IH]; simpl; [apply HQ|].
  intros r. exists None. split; [reflexivity|apply IH].
Qed.

Lemma obeys_trigger_if {A} (c : C) (f : R c -> completion A) s Q :
  (forall x, Q x None) ->
  (forall r, ok c r = true -> exists s', delta s c r = Some s' /\ Q (f r) (Some s')) ->
  obeys assuming (trigger c f) (Some s) Q.
Proof.
  intros HQ H r. simpl. destruct (ok c r) eqn:E; [|exists None; auto].
  destruct (H r E) as (s' & -> & Hs). exists (Some s'). auto.
Qed.

(** The specification of an operation carries over to every environment. *)
Lemma obeys_assuming {A} (p : prog C R A) s Q (Q' : completion A -> option S -> Prop) :
  obeys delta p s Q -> (forall c s', Q c s' -> Q' c (Some s')) -> (forall c, Q' c None) ->
  obeys assuming p (Some s) Q'.
Proof.
  intros Hp HQ H0. revert s Hp; induction p as [c|c k IH]; intros s; simpl; [apply HQ|].
  intros H r. destruct (H r) as (s' & Hd & Hk). rewrite Hd. simpl.
  destruct (ok c r); eexists; (split; [reflexivity|]); [apply IH, Hk|apply obeys_sunk, H0].
Qed.

(** What holds at the end, unless the assumption has failed. *)
Definition under {A} (Q : completion A -> S -> Prop) (c : completion A) (s : option S) : Prop :=
  match s with None => True | Some s => Q c s end.

Lemma under_let_value {A B} (p : prog C R A) (f : A -> prog C R B) X P Q :
  obeys assuming p (Some X) (under P) ->
  (forall c X', P c X' -> then_obeys assuming f (under Q) c (Some X')) ->
  obeys assuming (let_value p f) (Some X) (under Q).
Proof.
  intros Hp Hf. apply obeys_let_value. eapply obeys_mono; [|exact Hp].
  intros c [X'|] H; [apply Hf, H|]. destruct c; try exact I. apply obeys_sunk. intros c; exact I.
Qed.

Lemma under_bind {A B} (p : prog C R A) (f : A -> prog C R B) X Q :
  obeys assuming p (Some X)
    (under (fun c X' => then_obeys assuming f (under Q) c (Some X'))) ->
  obeys assuming (let_value p f) (Some X) (under Q).
Proof. intros H. eapply under_let_value; [exact H|auto]. Qed.

Lemma under_trigger {A} (c : C) (f : R c -> completion A) X Q :
  (forall r, ok c r = true -> exists X', delta X c r = Some X' /\ Q (f r) X') ->
  obeys assuming (trigger c f) (Some X) (under Q).
Proof. intros H. apply obeys_trigger_if; [intros x; exact I|exact H]. Qed.

Lemma under_co_await {A} (p : prog C R A) X Q :
  obeys assuming p (Some X) (under (fun c X' =>
    match c with SetError e => Q (SetError (ErrPtr (as_except_ptr e))) X' | c => Q c X' end)) ->
  obeys assuming (co_await p) (Some X) (under Q).
Proof.
  intros H. apply obeys_co_await. eapply obeys_mono; [|exact H].
  intros [] [X'|] Hc; exact I || exact Hc.
Qed.

Lemma under_upon_error {A} (p : prog C R A) f X Q :
  obeys assuming p (Some X) (under (fun c X' =>
    match c with
    | SetError e => obeys assuming (f e) (Some X') (under Q)
    | c => Q c X'
    end)) ->
  obeys assuming (upon_error p f) (Some X) (under Q).
Proof.
  intros H. apply obeys_upon_error. eapply obeys_mono; [|exact H].
  intros [] [X'|] Hc; try exact I; try exact Hc. apply obeys_sunk. intros c; exact I.
Qed.

Lemma under_reify {A} (p : prog C R A) X Q :
  obeys assuming p (Some X) (under (fun c X' =>
    match c with Unfinished => Q Unfinished X' | c => Q (SetValue c) X' end)) ->
  obeys assuming (reify p) (Some X) (under Q).
Proof.
  intros H. apply obeys_connect. eapply obeys_mono; [|exact H].
  intros [] [X'|] Hc; exact I || exact Hc.
Qed.

(** A history whose replies satisfy the assumption. *)
Lemma accepts_assuming s t :
  Forall (fun e => ok (projT1 e) (projT2 e) = true) t ->
  accepts assuming (Some s) t = option_map Some (accepts delta s t).
Proof.
  intros Ht. revert s; induction Ht as [|[c r] t Hc _ IH]; intros s; [reflexivity|].
  cbn [accepts assuming]. cbn in Hc. rewrite Hc.
  destruct (delta s c r) as [s'|]; [apply IH|reflexivity].
Qed.
End Assuming.

(** ** Concurrent tasks

    The tasks spawned on one scheduler concurrently at their calls.  [sched]
    lists which task proceeds next; an entry that names a finished task is
    skipped. *)

Section Interleave.
Context {C : Type} {R : C -> Type}.

Fixpoint concurrently {A} (sched : list nat) (ps : list (prog C R A))
    : prog C R (list (prog C R A)) :=
  match sched with
  | [] => just ps
  | i :: sched =>
      match ps !! i with
      | Some (Vis c k) => Vis c (fun r => concurrently sched (<[i := k r]> ps))
      | _ => concurrently sched ps
      end
  end.

Lemma all_calls_concurrently {A} P sched : forall ps : list (prog C R A),
  Forall (all_calls P) ps -> all_calls P (concurrently sched ps).
Proof.
  induction sched as [|i sched IH]; intros ps Hps; [exact I|]. cbn [concurrently].
  destruct (ps !! i) as [[c|c k]|] eqn:E; try apply IH, Hps.
  pose proof (Forall_lookup_1 _ _ _ _ Hps E) as [Hc Hk].
  split; [exact Hc|]. intros r. apply IH, Forall_insert; [exact Hps|apply Hk].
Qed.

(** [scope.join()]: the completions, once every task has completed. *)
Definition completed {A} (p : prog C R A) : option (completion A) :=
  match p with
  | Done Unfinished | Vis _ _ => None
  | Done c => Some c
  end.

Definition join_all {A} (ps : list (prog C R A)) : option (list (completion A)) :=
  mapM completed ps.

Context {S : Type} (delta : nat -> S -> forall c, R c -> option S) (owner : C -> option nat).

(** The product protocol: a call is a step of the task that owns it. *)
Definition product (st : nat -> S) (c : C) (r : R c) : option (nat -> S) :=
  match owner c with
  | Some i => match delta i (st i) c r with
              | Some s' => Some (fun j => if decide (j = i) then s' else st j)
              | None => None
              end
  | None => None
  end.

Hypothesis delta_owner : forall i s c r s', delta i s c r = Some s' -> owner c = Some i.

Lemma concurrently_obeys {A} (Q : nat -> completion A -> S -> Prop) sched :
  forall (ps : list (prog C R A)) (st : nat -> S),
  (forall i p, ps !! i = Some p -> obeys (delta i) p (st i) (Q i)) ->
  obeys product (concurrently sched ps) st (fun c st' =>
    exists ps', c = SetValue ps' /\ length ps' = length ps /\
      forall i p, ps' !! i = Some p -> obeys (delta i) p (st' i) (Q i)).
Proof.
  induction sched as [|i sched IH]; intros ps st H; simpl.
  - exists ps; auto.
  - destruct (ps !! i) as [[c|c k]|] eqn:E; [apply IH, H| |apply IH, H].
    intros r. pose proof (H i _ E r) as (s' & Hd & Hk).
    unfold product. rewrite (delta_owner i _ _ _ _ Hd), Hd.
    eexists; split; [reflexivity|].
    eapply obeys_mono; [|apply IH].
    + intros c' st' (ps' & -> & Hlen & Hps). exists ps'. rewrite length_insert in Hlen. auto.
    + intros j p Hj. destruct (decide (j = i)) as [->|Hne].
      * rewrite list_lookup_insert_eq in Hj by (eapply lookup_lt_Some; eassumption).
        injection Hj as <-. assumption.
      * rewrite list_lookup_insert_ne in Hj by congruence. auto.
Qed.

Lemma join_all_lookup {A} (ps : list (prog C R A)) cs i c :
  join_all ps = Some cs -> cs !! i = Some c -> ps !! i = Some (Done c).
Proof.
  unfold join_all. rewrite mapM_Some. intros H Hi.
  destruct (Forall2_lookup_r _ _ _ _ _ H Hi) as (p & Hp & Hc).
  destruct p as [[]|]; simplify_eq/=; assumption.
Qed.

Lemma join_all_done {A} (ps : list (prog C R A)) cs i p :
  join_all ps = Some cs -> ps !! i = Some p -> exists c, p = Done c /\ c <> Unfinished.
Proof.
  unfold join_all. rewrite mapM_Some. intros H Hi.
  destruct (Forall2_lookup_l _ _ _ _ _ H Hi) as (c & _ & Hc).
  destruct p as [[]|]; try discriminate Hc; eexists; split; (reflexivity || discriminate).
Qed.

Lemma join_all_length {A} (ps : list (prog C R A)) cs : join_all ps = Some cs -> length cs = length ps.
Proof. unfold join_all. rewrite mapM_Some. intros H. symmetry. eapply Forall2_length, H. Qed.
End Interleave.

(** One task that obeys a protocol beside tasks the protocol does not
    concern. *)
Section Beside.
Context {C : Type} {R : C -> Type} {S : Type} (delta : S -> forall c, R c -> option S).
Context (neutral : C -> Prop).
Hypothesis neutral_step : forall c, neutral c -> forall s r, delta s c r = Some s.

Definition beside {A} (j : nat) (Q : completion A -> S -> Prop) (s : S) (i : nat) (p : prog C R A) : Prop :=
  if decide (i = j) then obeys delta p s Q else all_calls neutral p.

Lemma concurrently_beside {A} (j : nat) (Q : completion A -> S -> Prop) sched :
  forall (ps : list (prog C R A)) s,
  (forall i p, ps !! i = Some p -> beside j Q s i p) ->
  obeys delta (concurrently sched ps) s (fun c s' =>
    exists ps', c = SetValue ps' /\ length ps' = length ps /\
      forall i p, ps' !! i = Some p -> beside j Q s' i p).
Proof.
  induction sched as [|i sched IH]; intros ps s H; simpl; [exists ps; auto|].
  destruct (ps !! i) as [[c|c k]|] eqn:E; [apply IH, H| |apply IH, H].
  assert (forall r, exists s', delta s c r = Some s' /\
    forall m p, <[i := k r]> ps !! m = Some p -> beside j Q s' m p) as Hstep.
  { intros r. pose proof (H i _ E) as Hi. unfold beside in Hi.
    assert (forall s' p m, ps !! m = Some p -> m <> i -> (i = j \/ s' = s) -> beside j Q s' m p) as Hother.
    { intros s' p m Hm Hne Hs. pose proof (H m p Hm) as Hp. unfold beside in *.
      destruct Hs as [->| ->]; [|exact Hp]. destruct (decide (m = j)); [congruence|exact Hp]. }
    assert (exists s', delta s c r = Some s' /\ beside j Q s' i (k r) /\ (i = j \/ s' = s)) as (s' & Hd & Hk & Hs).
    { unfold beside. destruct (decide (i = j)) as [->|Hne].
      - destruct (Hi r) as (s' & Hd & Hk). exists s'. auto.
      - destruct Hi as [Hc Hk]. exists s. auto. }
    exists s'. split; [exact Hd|]. intros m p Hm. destruct (decide (m = i)) as [->|Hne].
    - rewrite list_lookup_insert_eq in Hm by (eapply lookup_lt_Some; eassumption). congruence.
    - rewrite list_lookup_insert_ne in Hm by congruence. eauto. }
  intros r. destruct (Hstep r) as (s' & Hd & Hps). exists s'. split; [exact Hd|].
  eapply obeys_mono; [|apply IH, Hps]. intros c' s'' (ps' & -> & Hlen & Hps').
  exists ps'. rewrite length_insert in Hlen. auto.
Qed.
End Beside.

(** Follows the combinators of an operation. *)
Ltac obey :=
  repeat (first [ apply obeys_let_value | apply obeys_co_await | apply obeys_upon_error
                | apply obeys_stopped_as_error | apply obeys_defer | apply obeys_trigger ]);
  cbn [then_obeys].
