(* ===== verification/Rely.v ===== *)
(** * Rely: concurrent tasks that share a state

    [Protocol] composes tasks whose protocols are independent.  This file
    composes tasks that share a state: each relies on what the others leave
    alone and guarantees to leave alone what the others rely on.  The state is
    that of a specification and of the part of the environment it speaks of: a
    step is allowed ([Next]), not allowed ([Breach]), or one after which the
    environment does not behave as assumed ([Beyond]). *)

From S2P Require Import Prelude Effects Protocol.

Inductive verdict (S : Type) :=
  | Breach
  | Beyond
  | Next (s : S).
Arguments Breach {S}.
Arguments Beyond {S}.
Arguments Next {S} s.

(** What a verdict asks of the state it goes on with. *)
Definition goes_on {S} (P : S -> Prop) (v : verdict S) : Prop :=
  match v with Breach => False | Beyond => True | Next s => P s end.

Lemma goes_on_mono {S} (P P' : S -> Prop) v : (forall s, P s -> P' s) -> goes_on P v -> goes_on P' v.
Proof. destruct v; simpl; auto. Qed.

Section Rely.
Context {C : Type} {R : C -> Type} {S : Type}.
Context (delta : S -> forall c, R c -> verdict S).

(** The state after a history. *)
Fixpoint follows (s : S) (t : trace C R) : verdict S :=
  match t with
  | [] => Next s
  | existT c r :: t => match delta s c r with
                       | Next s' => follows s' t
                       | v => v
                       end
  end.

Lemma follows_app s t1 t2 :
  follows s (t1 ++ t2) = match follows s t1 with Next s' => follows s' t2 | v => v end.
Proof.
  revert s; induction t1 as [|[c r] t1 IH]; intros s; simpl; [reflexivity|].
  destruct (delta s c r); [reflexivity..|apply IH].
Qed.

(** An invariant of the steps holds after every part of an allowed history. *)
Lemma follows_invariant (I : S -> Prop) s t1 t2 :
  (forall s c r s', I s -> delta s c r = Next s' -> I s') -> I s ->
  goes_on (fun _ => True) (follows s (t1 ++ t2)) -> goes_on I (follows s t1).
Proof.
  intros Hstep. revert s; induction t1 as [|[c r] t1 IH]; intros s Hs; cbn [app follows]; [auto|].
  destruct (delta s c r) as [| |s'] eqn:E; [exact id|exact id|]. apply IH, (Hstep _ _ _ _ Hs E).
Qed.

(** ** One task *)

Section Secure.
Context (rely guar : relation S) {rely_preorder : PreOrder rely}.

(** From [s], whatever the replies and whatever the others do between its
    calls, the task only makes allowed steps, keeps its guarantee, and
    completes as [Q] says. *)
Fixpoint secure {A} (p : prog C R A) (s : S) (Q : completion A -> S -> Prop) : Prop :=
  match p with
  | Done c => forall s', rely s s' -> Q c s'
  | Vis c k => forall s1, rely s s1 -> forall r,
      goes_on (fun s2 => guar s1 s2 /\ secure (k r) s2 Q) (delta s1 c r)
  end.

Lemma secure_stable {A} (p : prog C R A) s s' Q : rely s s' -> secure p s Q -> secure p s' Q.
Proof.
  intros Hs. destruct p as [c|c k]; cbn [secure]; intros H s1 H1; apply H; etransitivity; eassumption.
Qed.

Lemma secure_mono {A} (p : prog C R A) s (Q Q' : completion A -> S -> Prop) :
  (forall c s', Q c s' -> Q' c s') -> secure p s Q -> secure p s Q'.
Proof.
  intros HQ. revert s; induction p as [c|c k IH]; intros s; cbn [secure]; [auto|].
  intros H s1 H1 r. eapply goes_on_mono; [|apply H, H1]. intros s2 [Hg Hk]. split; [exact Hg|apply IH, Hk].
Qed.

Lemma secure_done {A} (c : completion A) s (Q : completion A -> S -> Prop) :
  (forall s', rely s s' -> Q c s') -> secure (Done c) s Q.
Proof. exact id. Qed.

Lemma secure_connect {A B} (p : prog C R A) (f : completion A -> prog C R B) s Q :
  secure (connect p f) s Q <-> secure p s (fun c s' => secure (f c) s' Q).
Proof.
  revert s; induction p as [c|c k IH]; intros s; cbn [connect secure].
  - split; intros H; [intros s' Hs; eapply secure_stable; eassumption|apply H; reflexivity].
  - split; intros H s1 H1 r; (eapply goes_on_mono; [|apply (H s1 H1 r)]); intros s2 [Hg Hk];
      (split; [exact Hg|apply IH, Hk]).
Qed.

(** What [let_value] asks of its first operation. *)
Definition then_secure {A B} (f : A -> prog C R B) (Q : completion B -> S -> Prop)
    (c : completion A) (s : S) : Prop :=
  match c with
  | SetValue a => secure (f a) s Q
  | SetError e => secure (Done (SetError e) : prog C R B) s Q
  | SetStopped => secure (Done SetStopped : prog C R B) s Q
  | Unfinished => secure (Done Unfinished : prog C R B) s Q
  end.

Lemma secure_let_value {A B} (p : prog C R A) (f : A -> prog C R B) s Q :
  secure p s (then_secure f Q) -> secure (let_value p f) s Q.
Proof. intros H. apply secure_connect. revert H; apply secure_mono. intros [] s'; exact id. Qed.

Lemma secure_upon_error {A} (p : prog C R A) f s (Q : completion A -> S -> Prop) :
  secure p s (fun c s' => match c with
                          | SetError e => secure (f e) s' Q
                          | c => secure (Done c) s' Q
                          end) ->
  secure (upon_error p f) s Q.
Proof. intros H. apply secure_connect. revert H; apply secure_mono. intros [] s'; exact id. Qed.

Lemma secure_co_await {A} (p : prog C R A) s (Q : completion A -> S -> Prop) :
  secure p s (fun c s' => match c with
                          | SetError e => secure (throw (as_except_ptr e)) s' Q
                          | c => secure (Done c) s' Q
                          end) ->
  secure (co_await p) s Q.
Proof. apply secure_upon_error. Qed.

Lemma secure_stopped_as_error {A} (p : prog C R A) e s (Q : completion A -> S -> Prop) :
  secure p s (fun c s' => match c with
                          | SetStopped => secure (Done (SetError e)) s' Q
                          | c => secure (Done c) s' Q
                          end) ->
  secure (stopped_as_error p e) s Q.
Proof. intros H. apply secure_connect. revert H; apply secure_mono. intros [] s'; exact id. Qed.

(** What a scope guard [d] asks of the operation it guards. *)
Definition guard_secure {A} (d : prog C R unit) (Q : completion A -> S -> Prop)
    (c : completion A) (s : S) : Prop :=
  match c with
  | Unfinished => secure (Done Unfinished) s Q
  | c => secure d s (fun cd s' => match cd with
                                  | Unfinished => secure (Done Unfinished) s' Q
                                  | _ => secure (Done c) s' Q
                                  end)
  end.

Lemma secure_defer {A} (p : prog C R A) d s (Q : completion A -> S -> Prop) :
  secure p s (guard_secure d Q) -> secure (defer p d) s Q.
Proof.
  intros H. apply secure_connect. revert H; apply secure_mono.
  intros [] s'; try exact id; intros H; apply secure_connect; revert H; apply secure_mono;
    intros [] s''; exact id.
Qed.

(** A call made where [P] holds, whatever the others do, is followed by [P'];
    both are stable. *)
Lemma secure_call {A} (c : C) (f : R c -> completion A) s Q (P : S -> Prop) (P' : R c -> S -> Prop) :
  P s -> Proper (rely ==> impl) P -> (forall r, Proper (rely ==> impl) (P' r)) ->
  (forall s1 r, P s1 -> goes_on (fun s2 => guar s1 s2 /\ P' r s2) (delta s1 c r)) ->
  (forall r s2, P' r s2 -> Q (f r) s2) ->
  secure (trigger c f) s Q.
Proof.
  intros Hs HP HP' Hc HQ. intros s1 H1 r.
  eapply goes_on_mono; [|apply Hc, (HP _ _ H1 Hs)].
  intros s2 [Hg H2]. split; [exact Hg|]. intros s3 H3. apply HQ, (HP' r _ _ H3 H2).
Qed.

(** What a task that starts in [s] does to the histories of its runs. *)
Lemma secure_exec {A} K (p : prog C R A) s Q h :
  secure p s Q ->
  exists t, snd (exec K p h) = h ++ t /\ goes_on (Q (fst (exec K p h))) (follows s t).
Proof.
  revert s h; induction p as [c|c k IH]; intros s h H; cbn [exec secure] in *.
  - exists []. rewrite app_nil_r. split; [reflexivity|]. apply H. reflexivity.
  - specialize (H s ltac:(reflexivity) (K h c)).
    destruct (exec_extends K (k (K h c)) (h ++ [existT c (K h c)])) as [t0 Ht0].
    destruct (delta s c (K h c)) as [| |s2] eqn:Hd; [contradiction| |].
    + exists (existT c (K h c) :: t0). rewrite Ht0, <- app_assoc. cbn [follows]. rewrite Hd.
      split; [reflexivity|exact I].
    + destruct (IH _ _ (h ++ [existT c (K h c)]) (proj2 H)) as (t & Ht & HQ).
      exists (existT c (K h c) :: t). rewrite Ht, <- app_assoc. cbn [follows]. rewrite Hd.
      split; [reflexivity|exact HQ].
Qed.
End Secure.

(** A task in a quieter environment, with a weaker guarantee. *)
Lemma secure_weaken {A} (rely guar rely' guar' : relation S) (p : prog C R A) s Q :
  (forall s s', rely' s s' -> rely s s') -> (forall s s', guar s s' -> guar' s s') ->
  secure rely guar p s Q -> secure rely' guar' p s Q.
Proof.
  intros Hr Hg. revert s; induction p as [c|c k IH]; intros s; cbn [secure]; [auto|].
  intros H s1 H1 r. eapply goes_on_mono; [|apply H, Hr, H1].
  intros s2 [H2 Hk]. split; [apply Hg, H2|apply IH, Hk].
Qed.

(** ** Concurrent tasks *)

Section Parallel.
Context (rely guar : nat -> relation S) {rely_preorder : forall i, PreOrder (rely i)}.
Hypothesis disjoint_tasks : forall i j s s', i <> j -> guar i s s' -> rely j s s'.

Definition rely_all : relation S := fun s s' => forall i, rely i s s'.
Definition guar_any : relation S := fun s s' => exists i, guar i s s'.

#[global] Instance rely_all_preorder : PreOrder rely_all.
Proof.
  split; [intros s i; reflexivity|]. intros s1 s2 s3 H1 H2 i. etransitivity; [apply H1|apply H2].
Qed.

Definition tasks_secure {A} (Q : nat -> completion A -> S -> Prop) (ps : list (prog C R A)) (s : S) : Prop :=
  forall i p, ps !! i = Some p -> secure (rely i) (guar i) p s (Q i).

Lemma tasks_secure_stable {A} Q (ps : list (prog C R A)) s s' :
  rely_all s s' -> tasks_secure Q ps s -> tasks_secure Q ps s'.
Proof. intros Hs H i p Hi. eapply secure_stable; [apply _|apply Hs|apply H, Hi]. Qed.

Context (I : S -> Prop).
Hypothesis I_rely : forall s s', rely_all s s' -> I s -> I s'.
Hypothesis I_guar : forall i s s', guar i s s' -> I s -> I s'.

(** Together the tasks guarantee what one of them does, where [I] holds. *)
Definition guar_all : relation S := fun s s' => I s /\ guar_any s s'.

Lemma secure_concurrently {A} Q sched : forall (ps : list (prog C R A)) s,
  I s -> tasks_secure Q ps s ->
  secure rely_all guar_all (concurrently sched ps) s (fun c s' =>
    exists ps', c = SetValue ps' /\ length ps' = length ps /\ I s' /\ tasks_secure Q ps' s').
Proof.
  induction sched as [|i sched IH]; intros ps s HI H; cbn [concurrently].
  - intros s' Hs. exists ps. split_all; [reflexivity..|exact (I_rely _ _ Hs HI)|].
    eapply tasks_secure_stable; eassumption.
  - destruct (ps !! i) as [[c|c k]|] eqn:E; [apply IH; assumption| |apply IH; assumption].
    intros s1 H1 r. eapply goes_on_mono; [|apply (H i _ E s1 (H1 i) r)].
    intros s2 [Hg Hk]. split; [split; [exact (I_rely _ _ H1 HI)|exists i; exact Hg]|].
    eapply secure_mono; [|apply IH; [exact (I_guar _ _ _ Hg (I_rely _ _ H1 HI))|]].
    + intros c' s' (ps' & -> & Hlen & Hps). exists ps'. rewrite length_insert in Hlen. auto.
    + intros j p Hj. destruct (decide (j = i)) as [->|Hne].
      * rewrite list_lookup_insert_eq in Hj by (eapply lookup_lt_Some; eassumption).
        injection Hj as <-. exact Hk.
      * rewrite list_lookup_insert_ne in Hj by congruence.
        eapply secure_stable; [apply _| |apply (H j p Hj)].
        etransitivity; [apply H1|apply (disjoint_tasks i); [congruence|exact Hg]].
Qed.
End Parallel.

(** ** Steady reasoning

    A postcondition is stated where it is reached, and holds up to what the
    others have done since; so only the calls have to be shown stable. *)

Section Steady.
Context (rely guar : relation S) {rely_preorder : PreOrder rely}.

Definition since {A} (Q : completion A -> S -> Prop) (c : completion A) (s' : S) : Prop :=
  exists s, rely s s' /\ Q c s.

Definition steady {A} (p : prog C R A) (s : S) (Q : completion A -> S -> Prop) : Prop :=
  secure rely guar p s (since Q).

Lemma steady_stable {A} (p : prog C R A) s s' Q : rely s s' -> steady p s Q -> steady p s' Q.
Proof. apply secure_stable, rely_preorder. Qed.

Lemma steady_mono {A} (p : prog C R A) s (Q Q' : completion A -> S -> Prop) :
  (forall c s', Q c s' -> Q' c s') -> steady p s Q -> steady p s Q'.
Proof. intros H. apply secure_mono. intros c s' (s0 & Hs & HQ). exists s0. auto. Qed.

Lemma steady_done {A} (c : completion A) s (Q : completion A -> S -> Prop) : Q c s -> steady (Done c) s Q.
Proof. intros H s' Hs. exists s. auto. Qed.

Lemma steady_call {A} (c : C) (f : R c -> completion A) s (Q : completion A -> S -> Prop) :
  (forall s1 r, rely s s1 -> goes_on (fun s2 => guar s1 s2 /\ Q (f r) s2) (delta s1 c r)) ->
  steady (trigger c f) s Q.
Proof.
  intros H s1 H1 r. eapply goes_on_mono; [|apply H, H1].
  intros s2 [Hg HQ]. split; [exact Hg|]. apply steady_done, HQ.
Qed.

Lemma steady_connect {A B} (p : prog C R A) (f : completion A -> prog C R B) s (Q : completion B -> S -> Prop) :
  steady p s (fun c s' => steady (f c) s' Q) -> steady (connect p f) s Q.
Proof.
  intros H. apply secure_connect; [apply rely_preorder|]. revert H; apply secure_mono.
  intros c s' (s0 & Hs & H). exact (steady_stable _ _ _ _ Hs H).
Qed.

Lemma steady_let_value {A B} (p : prog C R A) (f : A -> prog C R B) s (Q : completion B -> S -> Prop) :
  steady p s (fun c s' => match c with
                          | SetValue a => steady (f a) s' Q
                          | SetError e => Q (SetError e) s'
                          | SetStopped => Q SetStopped s'
                          | Unfinished => Q Unfinished s'
                          end) ->
  steady (let_value p f) s Q.
Proof.
  intros H. apply steady_connect. revert H; apply steady_mono.
  intros [] s' H; [exact H|apply steady_done, H..].
Qed.

Lemma steady_upon_error {A} (p : prog C R A) f s (Q : completion A -> S -> Prop) :
  steady p s (fun c s' => match c with
                          | SetError e => steady (f e) s' Q
                          | c => Q c s'
                          end) ->
  steady (upon_error p f) s Q.
Proof.
  intros H. apply steady_connect. revert H; apply steady_mono.
  intros [] s' H; [apply steady_done, H|exact H|apply steady_done, H..].
Qed.

Lemma steady_co_await {A} (p : prog C R A) s (Q : completion A -> S -> Prop) :
  steady p s (fun c s' => match c with
                          | SetError e => Q (SetError (ErrPtr (as_except_ptr e))) s'
                          | c => Q c s'
                          end) ->
  steady (co_await p) s Q.
Proof.
  intros H. apply steady_upon_error. revert H; apply steady_mono.
  intros [] s' H; [exact H|apply steady_done, H|exact H..].
Qed.

Lemma steady_reify {A} (p : prog C R A) s (Q : completion (completion A) -> S -> Prop) :
  steady p s (fun c s' => match c with Unfinished => Q Unfinished s' | c => Q (SetValue c) s' end) ->
  steady (reify p) s Q.
Proof.
  intros H. apply steady_connect. revert H; apply steady_mono. intros [] s' H; apply steady_done, H.
Qed.

Lemma steady_defer {A} (p : prog C R A) d s (Q : completion A -> S -> Prop) :
  steady p s (fun c s' => match c with
                          | Unfinished => Q Unfinished s'
                          | c => steady d s' (fun cd s' => match cd with Unfinished => Q Unfinished s' | _ => Q c s' end)
                          end) ->
  steady (defer p d) s Q.
Proof.
  intros H. apply steady_connect. revert H; apply steady_mono.
  assert (forall (c : completion A) s',
    steady d s' (fun cd s' => match cd with Unfinished => Q Unfinished s' | _ => Q c s' end) ->
    steady (connect d (fun cd => match cd with Unfinished => Done Unfinished | _ => Done c end)) s' Q) as Hd.
  { intros c s' H. apply steady_connect. revert H; apply steady_mono. intros [] s'' H; apply steady_done, H. }
  intros [] s' H; try exact (Hd _ _ H). apply steady_done, H.
Qed.
End Steady.

(** ** A task by itself *)

Section Alone.
Definition alone {A} : prog C R A -> S -> (completion A -> S -> Prop) -> Prop := steady eq (fun _ _ => True).

Lemma alone_mono {A} (p : prog C R A) s (Q Q' : completion A -> S -> Prop) :
  (forall c s', Q c s' -> Q' c s') -> alone p s Q -> alone p s Q'.
Proof. apply steady_mono. Qed.

Lemma alone_done {A} (c : completion A) s (Q : completion A -> S -> Prop) : Q c s -> alone (Done c) s Q.
Proof. apply steady_done. Qed.

Lemma alone_finished {A} (c : completion A) s (Q : completion A -> S -> Prop) : alone (Done c) s Q -> Q c s.
Proof. intros H. destruct (H s eq_refl) as (s0 & -> & HQ). exact HQ. Qed.

Lemma alone_call {A} (c : C) (f : R c -> completion A) s (Q : completion A -> S -> Prop) :
  (forall r, goes_on (Q (f r)) (delta s c r)) -> alone (trigger c f) s Q.
Proof.
  intros H. apply steady_call. intros s1 r <-. eapply goes_on_mono; [|apply H]. auto.
Qed.

Lemma alone_let_value {A B} (p : prog C R A) (f : A -> prog C R B) s (Q : completion B -> S -> Prop) :
  alone p s (fun c s' => match c with
                         | SetValue a => alone (f a) s' Q
                         | SetError e => Q (SetError e) s'
                         | SetStopped => Q SetStopped s'
                         | Unfinished => Q Unfinished s'
                         end) ->
  alone (let_value p f) s Q.
Proof. apply steady_let_value, _. Qed.

Lemma alone_upon_error {A} (p : prog C R A) f s (Q : completion A -> S -> Prop) :
  alone p s (fun c s' => match c with
                         | SetError e => alone (f e) s' Q
                         | c => Q c s'
                         end) ->
  alone (upon_error p f) s Q.
Proof. apply steady_upon_error, _. Qed.

Lemma alone_co_await {A} (p : prog C R A) s (Q : completion A -> S -> Prop) :
  alone p s (fun c s' => match c with
                         | SetError e => Q (SetError (ErrPtr (as_except_ptr e))) s'
                         | c => Q c s'
                         end) ->
  alone (co_await p) s Q.
Proof. apply steady_co_await, _. Qed.

Lemma alone_reify {A} (p : prog C R A) s (Q : completion (completion A) -> S -> Prop) :
  alone p s (fun c s' => match c with Unfinished => Q Unfinished s' | c => Q (SetValue c) s' end) ->
  alone (reify p) s Q.
Proof. apply steady_reify, _. Qed.

Lemma alone_defer {A} (p : prog C R A) d s (Q : completion A -> S -> Prop) :
  alone p s (fun c s' => match c with
                         | Unfinished => Q Unfinished s'
                         | c => alone d s' (fun cd s' => match cd with Unfinished => Q Unfinished s' | _ => Q c s' end)
                         end) ->
  alone (defer p d) s Q.
Proof. apply steady_defer, _. Qed.

(** What a task by itself does to the histories of its runs. *)
Lemma alone_exec {A} K (p : prog C R A) s Q h :
  alone p s Q ->
  exists t, snd (exec K p h) = h ++ t /\ goes_on (Q (fst (exec K p h))) (follows s t).
Proof.
  intros H. destruct (secure_exec _ _ K p s _ h H) as (t & Ht & HQ). exists t. split; [exact Ht|].
  eapply goes_on_mono; [|exact HQ]. intros s' (s0 & -> & H0). exact H0.
Qed.

(** A task that is steady is so by itself. *)
Lemma steady_alone {A} (rely guar : relation S) {rely_preorder : PreOrder rely} (p : prog C R A) s Q :
  (forall c, Proper (rely ==> impl) (Q c)) -> steady rely guar p s Q -> alone p s Q.
Proof.
  intros HQ H. eapply secure_mono; [|apply (secure_weaken rely guar); [intros s1 s2 ->; reflexivity|auto|exact H]].
  intros c s' (s0 & Hs & H0). exists s'. split; [reflexivity|exact (HQ c _ _ Hs H0)].
Qed.
End Alone.
End Rely.

(** ** Steps with an author

    Where several parts of a program step the same state, a history follows the
    specification when each of its calls can be attributed to a part that may
    make it. *)

Section Attributed.
Context {C : Type} {R : C -> Type} {L S : Type}.
Context (delta : S -> L -> forall c, R c -> verdict S) (inv : S -> Prop).

Fixpoint follows_as (s : S) (t : list (L * {c & R c})) : verdict S :=
  match t with
  | [] => Next s
  | (l, existT c r) :: t => match delta s l c r with
                            | Next s' => follows_as s' t
                            | v => v
                            end
  end.

(** From [s], whatever the replies, each call is made where [inv] holds and has
    an author who may make it, chosen before its reply, and the operation
    completes as [Q] says. *)
Fixpoint attributed {A} (p : prog C R A) (s : S) (Q : completion A -> S -> Prop) : Prop :=
  match p with
  | Done c => Q c s
  | Vis c k => inv s /\ exists l, forall r, goes_on (fun s' => attributed (k r) s' Q) (delta s l c r)
  end.

Lemma attributed_inv {A} (p : prog C R A) s (Q : completion A -> S -> Prop) :
  (forall c s', Q c s' -> inv s') -> attributed p s Q -> inv s.
Proof. destruct p; cbn [attributed]; [eauto|intros _ [H _]; exact H]. Qed.

Lemma attributed_mono {A} (p : prog C R A) s (Q Q' : completion A -> S -> Prop) :
  (forall c s', Q c s' -> Q' c s') -> attributed p s Q -> attributed p s Q'.
Proof.
  intros HQ. revert s; induction p as [c|c k IH]; intros s; cbn [attributed]; [apply HQ|].
  intros [Hi [l H]]. split; [exact Hi|]. exists l. intros r. eapply goes_on_mono; [|apply H]. intros s'. apply IH.
Qed.

Lemma attributed_call {A} l (c : C) (f : R c -> completion A) s (Q : completion A -> S -> Prop) :
  inv s -> (forall r, goes_on (Q (f r)) (delta s l c r)) -> attributed (trigger c f) s Q.
Proof. intros Hi H. split; [exact Hi|]. exists l. exact H. Qed.

Lemma attributed_connect {A B} (p : prog C R A) (f : completion A -> prog C R B) s (Q : completion B -> S -> Prop) :
  attributed p s (fun c s' => attributed (f c) s' Q) -> attributed (connect p f) s Q.
Proof.
  revert s; induction p as [c|c k IH]; intros s; cbn [connect attributed]; [exact id|].
  intros [Hi [l H]]. split; [exact Hi|]. exists l. intros r. eapply goes_on_mono; [|apply H]. intros s'. apply IH.
Qed.

Lemma attributed_let_value {A B} (p : prog C R A) (f : A -> prog C R B) s (Q : completion B -> S -> Prop) :
  attributed p s (fun c s' => match c with
                              | SetValue a => attributed (f a) s' Q
                              | SetError e => Q (SetError e) s'
                              | SetStopped => Q SetStopped s'
                              | Unfinished => Q Unfinished s'
                              end) ->
  attributed (let_value p f) s Q.
Proof. intros H. apply attributed_connect. revert H; apply attributed_mono. intros [] s'; exact id. Qed.

Lemma attributed_co_await {A} (p : prog C R A) s (Q : completion A -> S -> Prop) :
  attributed p s (fun c s' => match c with
                              | SetError e => Q (SetError (ErrPtr (as_except_ptr e))) s'
                              | c => Q c s'
                              end) ->
  attributed (co_await p) s Q.
Proof. intros H. apply attributed_connect. revert H; apply attributed_mono. intros [] s'; exact id. Qed.

Lemma attributed_reify {A} (p : prog C R A) s (Q : completion (completion A) -> S -> Prop) :
  attributed p s (fun c s' => match c with Unfinished => Q Unfinished s' | c => Q (SetValue c) s' end) ->
  attributed (reify p) s Q.
Proof. intros H. apply attributed_connect. revert H; apply attributed_mono. intros [] s'; exact id. Qed.

Lemma attributed_defer {A} (p : prog C R A) d s (Q : completion A -> S -> Prop) :
  attributed p s (fun c s' => match c with
                              | Unfinished => Q Unfinished s'
                              | c => attributed d s' (fun cd s' => match cd with Unfinished => Q Unfinished s' | _ => Q c s' end)
                              end) ->
  attributed (defer p d) s Q.
Proof.
  intros H. apply attributed_connect. revert H; apply attributed_mono.
  intros [] s' H; try exact H; apply attributed_connect; revert H; apply attributed_mono; intros [] s''; exact id.
Qed.

Lemma attributed_upon_error {A} (p : prog C R A) f s (Q : completion A -> S -> Prop) :
  attributed p s (fun c s' => match c with SetError e => attributed (f e) s' Q | c => Q c s' end) ->
  attributed (upon_error p f) s Q.
Proof. intros H. apply attributed_connect. revert H; apply attributed_mono. intros [] s'; exact id. Qed.

(** An operation whose calls leave the state alone. *)
Lemma attributed_silent {A} (P : C -> Prop) l (p : prog C R A) s :
  inv s -> (forall c r, P c -> goes_on (eq s) (delta s l c r)) -> all_calls P p -> attributed p s (fun _ s' => s' = s).
Proof.
  intros Hi HP. induction p as [c|c k IH]; cbn [all_calls attributed]; [reflexivity|].
  intros [Hc Hk]. split; [exact Hi|]. exists l. intros r. eapply goes_on_mono; [|exact (HP c r Hc)]. intros s' <-. apply IH, Hk.
Qed.

(** What an attributed operation does to the histories of its runs: at every
    point of them [inv] holds. *)
Lemma attributed_exec {A} K (p : prog C R A) s (Q : completion A -> S -> Prop) h :
  (forall c s', Q c s' -> inv s') -> attributed p s Q ->
  exists t, snd (exec K p h) = h ++ map snd t /\ goes_on (Q (fst (exec K p h))) (follows_as s t) /\
    forall n, goes_on inv (follows_as s (take n t)).
Proof.
  intros HQ. revert s h; induction p as [c|c k IH]; intros s h H.
  - exists []. cbn [exec fst snd map follows_as goes_on]. rewrite app_nil_r. split; [reflexivity|]. split; [exact H|].
    intros n. rewrite take_nil. exact (HQ _ _ H).
  - pose proof (attributed_inv _ _ _ HQ H) as Hi. cbn [exec attributed] in *.
    destruct H as [_ [l H]]. specialize (H (K h c)).
    assert (forall t s', delta s l c (K h c) = Next s' -> (forall n, goes_on inv (follows_as s' (take n t))) ->
      forall n, goes_on inv (follows_as s (take n ((l, existT c (K h c)) :: t)))) as Htake.
    { intros t s' Hd Ht [|n]; cbn [take follows_as]; [exact Hi|]. rewrite Hd. apply Ht. }
    destruct (delta s l c (K h c)) as [| |s'] eqn:Hd; [contradiction| |].
    + destruct (exec_extends K (k (K h c)) (h ++ [existT c (K h c)])) as [t Ht].
      exists ((l, existT c (K h c)) :: map (pair l) t). rewrite Ht, <- app_assoc. cbn [map snd].
      rewrite map_map, map_id. split; [reflexivity|]. split; [cbn [follows_as]; rewrite Hd; exact I|].
      intros [|n]; cbn [take follows_as]; [exact Hi|]. rewrite Hd. exact I.
    + destruct (IH _ _ (h ++ [existT c (K h c)]) H) as (t & Ht & HQt & Hn).
      exists ((l, existT c (K h c)) :: t). rewrite Ht, <- app_assoc. cbn [map snd].
      split; [reflexivity|]. split; [cbn [follows_as]; rewrite Hd; exact HQt|].
      exact (Htake t s' eq_refl Hn).
Qed.

(** A task beside others that leave the state alone, whoever steps it. *)
Lemma attributed_beside {A} (neutral : C -> Prop) l j (Q : completion A -> S -> Prop) sched :
  (forall s c r, neutral c -> goes_on (eq s) (delta s l c r)) -> (forall c s, Q c s -> inv s) ->
  forall (ps : list (prog C R A)) p s,
  ps !! j = Some p -> attributed p s Q -> (forall i p, i <> j -> ps !! i = Some p -> all_calls neutral p) ->
  attributed (concurrently sched ps) s (fun c s' => exists ps' p', c = SetValue ps' /\
    ps' !! j = Some p' /\ attributed p' s' Q).
Proof.
  intros Hn HQ. induction sched as [|i sched IH]; intros ps p s Hj Hp Hps; cbn [concurrently].
  { exists ps, p. auto. }
  destruct (ps !! i) as [[c|c k]|] eqn:E; [eapply IH; eassumption| |eapply IH; eassumption].
  destruct (decide (i = j)) as [->|Hne].
  - rewrite Hj in E. injection E as ->. destruct Hp as [Hi [l' H]]. split; [exact Hi|]. exists l'. intros r.
    eapply goes_on_mono; [|apply H]. intros s' Hk.
    apply (IH (<[j := k r]> ps) (k r)); [apply list_lookup_insert_eq; eapply lookup_lt_Some, Hj|exact Hk|].
    intros i p Hi' Hl. rewrite list_lookup_insert_ne in Hl by congruence. exact (Hps i p Hi' Hl).
  - split; [exact (attributed_inv _ _ _ HQ Hp)|]. exists l. intros r. pose proof (Hps i _ Hne E) as [Hc Hk].
    eapply goes_on_mono; [|exact (Hn s c r Hc)]. intros s' <-.
    apply (IH (<[i := k r]> ps) p); [rewrite list_lookup_insert_ne by congruence; exact Hj|exact Hp|].
    intros i' p' Hi' Hl. destruct (decide (i' = i)) as [->|Hne'].
    + rewrite list_lookup_insert_eq in Hl by (eapply lookup_lt_Some, E). injection Hl as <-. apply Hk.
    + rewrite list_lookup_insert_ne in Hl by congruence. exact (Hps i' p' Hi' Hl).
Qed.
End Attributed.

(** The same steps, by authors of a larger program. *)
Lemma attributed_embed {C} {R : C -> Type} {L L' S A} (delta : S -> L -> forall c, R c -> verdict S)
    (delta' : S -> L' -> forall c, R c -> verdict S) (inv : S -> Prop) (g : L -> L') (p : prog C R A) s Q :
  (forall s l c r, delta' s (g l) c r = delta s l c r) -> attributed delta inv p s Q -> attributed delta' inv p s Q.
Proof.
  intros Hg. revert s; induction p as [c|c k IH]; intros s; cbn [attributed]; [exact id|].
  intros [Hi [l H]]. split; [exact Hi|]. exists (g l). intros r. rewrite Hg. eapply goes_on_mono; [|apply H]. intros s'. apply IH.
Qed.
