(* ===== verification/Path.v ===== *)
(** * Path: decimal formatting and device paths

    [src/include/ublk/detail/path.hpp], with the [std::format] and
    [std::from_chars] conversions of unsigned integers it and the command line
    tool rely on.  Characters are ASCII codes in a [list ascii], so that the
    fixed-size path buffer with its terminating NUL is a list of known
    length. *)

From S2P Require Import Prelude.
From Stdlib Require Import Ascii.
From Stdlib Require String.

(** ** Decimal digits *)

(** The digits of [n], most significant first; [fuel] bounds their number. *)
Fixpoint digits (fuel : nat) (n : Z) : list Z :=
  match fuel with
  | O => []
  | S f => if n <? 10 then [n] else digits f (n / 10) ++ [n mod 10]
  end.

Definition digits_value (ds : list Z) : Z := foldl (fun a d => a * 10 + d) 0 ds.

Definition is_digit (d : Z) : Prop := 0 <= d < 10.

Definition digit_char (d : Z) : ascii := ascii_of_N (Z.to_N (48 + d)).

Definition char_digit (c : ascii) : option Z :=
  let v := Z.of_N (N_of_ascii c) - 48 in
  if (0 <=? v) && (v <? 10) then Some v else None.

(** [std::format("{}", n)] of an unsigned 64-bit integer. *)
Definition format_uint (n : Z) : list ascii := map digit_char (digits 20 n).

(** [std::from_chars] over the whole of the range: the value of a non-empty
    run of digits that fits in 64 bits, [None] for any other input. *)
Fixpoint chars_digits (cs : list ascii) : option (list Z) :=
  match cs with
  | [] => Some []
  | c :: cs => match char_digit c, chars_digits cs with
               | Some d, Some ds => Some (d :: ds)
               | _, _ => None
               end
  end.

Definition from_chars (cs : list ascii) : option Z :=
  match cs, chars_digits cs with
  | _ :: _, Some ds => if digits_value ds <? 2 ^ 64 then Some (digits_value ds) else None
  | _, _ => None
  end.

Lemma digits_value_snoc ds d : digits_value (ds ++ [d]) = digits_value ds * 10 + d.
Proof. unfold digits_value. rewrite foldl_app. reflexivity. Qed.

Lemma digits_value_digits fuel n : 0 <= n < 10 ^ Z.of_nat fuel -> digits_value (digits fuel n) = n.
Proof.
  revert n; induction fuel as [|f IH]; intros n Hn; [simpl in *; unfold digits_value; simpl; lia|].
  rewrite Nat2Z.inj_succ, Z.pow_succ_r in Hn by lia. simpl.
  destruct (Z.ltb_spec n 10); [reflexivity|].
  rewrite digits_value_snoc, IH.
  - pose proof (Z.div_mod n 10). lia.
  - split; [apply Z.div_pos; lia|apply Z.div_lt_upper_bound; lia].
Qed.

Lemma digits_is_digit fuel n : 0 <= n -> Forall is_digit (digits fuel n).
Proof.
  revert n; induction fuel as [|f IH]; intros n Hn; simpl; [constructor|].
  destruct (Z.ltb_spec n 10).
  - constructor; [unfold is_digit; lia|constructor].
  - apply Forall_app; split; [apply IH, Z.div_pos; lia|].
    constructor; [apply Z.mod_pos_bound; lia|constructor].
Qed.

Lemma digits_length fuel n k :
  (0 < k)%nat -> 0 <= n < 10 ^ Z.of_nat k -> (length (digits fuel n) <= k)%nat.
Proof.
  revert n k; induction fuel as [|f IH]; intros n k Hk Hn; simpl; [lia|].
  destruct (Z.ltb_spec n 10); simpl; [lia|].
  rewrite length_app; simpl.
  destruct k as [|[|k]]; [lia|simpl in Hn; lia|].
  rewrite Nat2Z.inj_succ, Z.pow_succ_r in Hn by lia.
  enough (length (digits f (n / 10)) <= S k)%nat by lia.
  apply IH; [lia|]. split; [apply Z.div_pos; lia|apply Z.div_lt_upper_bound; lia].
Qed.

Lemma digits_nonempty fuel n : (0 < fuel)%nat -> digits fuel n <> [].
Proof.
  destruct fuel as [|f]; simpl; [lia|]. intros _.
  destruct (n <? 10); [discriminate|]. intros H; apply app_nil in H; destruct H; discriminate.
Qed.

Lemma char_digit_char d : is_digit d -> char_digit (digit_char d) = Some d.
Proof.
  unfold is_digit. intros Hd.
  assert (d = 0 \/ d = 1 \/ d = 2 \/ d = 3 \/ d = 4 \/ d = 5 \/ d = 6 \/ d = 7 \/ d = 8 \/ d = 9)
    as H by lia.
  repeat destruct H as [->|H]; try reflexivity. subst; reflexivity.
Qed.

Lemma digit_char_not_nul d : is_digit d -> digit_char d <> zero.
Proof. intros Hd H. apply char_digit_char in Hd. rewrite H in Hd. discriminate. Qed.

Lemma chars_digits_map ds : Forall is_digit ds -> chars_digits (map digit_char ds) = Some ds.
Proof.
  induction 1 as [|d ds Hd _ IH]; [reflexivity|]. simpl.
  rewrite char_digit_char, IH by assumption. reflexivity.
Qed.

Lemma from_chars_format n : is_u 64 n -> from_chars (format_uint n) = Some n.
Proof.
  intros Hn. pose proof (chars_digits_map (digits 20 n) (digits_is_digit 20 n (proj1 Hn))) as Hds.
  unfold format_uint. destruct (map digit_char (digits 20 n)) as [|c cs] eqn:E.
  { apply map_eq_nil in E. destruct (digits_nonempty 20 n) as []; [lia|assumption]. }
  unfold from_chars. rewrite Hds, digits_value_digits by range.
  destruct (Z.ltb_spec n (2 ^ 64)); [reflexivity|]. range.
Qed.

Lemma format_uint_inj m n :
  is_u 64 m -> is_u 64 n -> format_uint m = format_uint n -> m = n.
Proof.
  intros Hm Hn H. apply (f_equal from_chars) in H.
  rewrite !from_chars_format in H by assumption. congruence.
Qed.

Lemma format_uint_length n k :
  (0 < k)%nat -> 0 <= n < 10 ^ Z.of_nat k -> (length (format_uint n) <= k)%nat.
Proof. intros. unfold format_uint. rewrite length_map. apply digits_length; assumption. Qed.

Lemma format_uint_no_nul n : 0 <= n -> Forall (fun c => c <> zero) (format_uint n).
Proof.
  intros Hn. unfold format_uint. apply Forall_map.
  eapply Forall_impl; [apply digits_is_digit, Hn|]. intros; apply digit_char_not_nul; assumption.
Qed.

(** ** Device paths *)

Definition DEV_PATH_LEN : nat := 32.

Definition dev_path_prefix : list ascii := String.list_ascii_of_string "/dev/ublkc".

(** [std::format("/dev/ublkc{}", dev_id)] *)
Definition dev_path (dev_id : Z) : list ascii := dev_path_prefix ++ format_uint dev_id.

(** [std::format_to_n(data, n, ...)]: at most [n] characters of the output are
    written at the start of [data]; the result is the buffer and the number of
    characters written. *)
Definition format_to_n (data : list ascii) (n : nat) (out : list ascii) : list ascii * nat :=
  let w := take n out in (w ++ drop (length w) data, length w).

(** The buffer [data] of [size] characters after [fill_dev_path]. *)
Definition fill_dev_path (data : list ascii) (size : nat) (dev_id : Z) : list ascii :=
  let '(buf, out) := format_to_n data (size - 1) (dev_path dev_id) in
  <[out := zero]> buf.

(** The C string a buffer holds. *)
Fixpoint c_string (buf : list ascii) : list ascii :=
  match buf with
  | [] => []
  | c :: buf => if Ascii.eqb c zero then [] else c :: c_string buf
  end.

(** The path member of a [DevPathBuf], whose characters are not initialised
    before [fill_dev_path] writes them. *)
Definition DevPathBuf_path (junk : list ascii) (dev_id : Z) : list ascii :=
  fill_dev_path junk DEV_PATH_LEN dev_id.

Lemma c_string_app_nul s rest :
  Forall (fun c => c <> zero) s -> c_string (s ++ zero :: rest) = s.
Proof.
  induction 1 as [|c s Hc _ IH]; [reflexivity|]. simpl.
  destruct (Ascii.eqb_spec c zero); [contradiction|]. f_equal; assumption.
Qed.

Lemma dev_path_no_nul dev_id : 0 <= dev_id -> Forall (fun c => c <> zero) (dev_path dev_id).
Proof.
  intros. apply Forall_app; split; [|apply format_uint_no_nul; assumption].
  repeat (constructor; [discriminate|]). constructor.
Qed.

Lemma dev_path_length dev_id : is_u 32 dev_id -> (length (dev_path dev_id) <= 20)%nat.
Proof.
  intros. unfold dev_path. rewrite length_app.
  pose proof (format_uint_length dev_id 10 ltac:(lia) ltac:(range)). simpl in *. lia.
Qed.

Lemma dev_path_inj a b : is_u 32 a -> is_u 32 b -> dev_path a = dev_path b -> a = b.
Proof.
  intros Ha Hb H. apply app_inv_head in H.
  apply format_uint_inj in H; [assumption|range|range].
Qed.

Lemma fill_dev_path_fits data size dev_id :
  is_u 32 dev_id -> length data = size -> (20 < size)%nat ->
  fill_dev_path data size dev_id =
  dev_path dev_id ++ zero :: drop (S (length (dev_path dev_id))) data.
Proof.
  intros Hid Hlen Hsize. pose proof (dev_path_length dev_id Hid) as Hp.
  unfold fill_dev_path, format_to_n. rewrite take_ge by lia.
  rewrite insert_app_r_alt, Nat.sub_diag by lia. f_equal.
  destruct (drop (length (dev_path dev_id)) data) as [|x l] eqn:E.
  { apply (f_equal length) in E. rewrite length_drop in E.
    change (length (@nil ascii)) with 0%nat in E. lia. }
  pose proof (skipn_skipn 1 (length (dev_path dev_id)) data) as Hd. rewrite E in Hd.
  change (l = drop (S (length (dev_path dev_id))) data) in Hd. rewrite <- Hd. reflexivity.
Qed.

(** Whatever the uninitialised buffer held, it now holds the path. *)
Lemma fill_dev_path_c_string data size dev_id :
  is_u 32 dev_id -> length data = size -> (20 < size)%nat ->
  c_string (fill_dev_path data size dev_id) = dev_path dev_id /\
  length (fill_dev_path data size dev_id) = size.
Proof.
  intros Hid Hlen Hsize. rewrite fill_dev_path_fits by assumption. split.
  - apply c_string_app_nul, dev_path_no_nul. apply Hid.
  - pose proof (dev_path_length dev_id Hid).
    rewrite length_app, length_cons, length_drop. lia.
Qed.

(** ** Theorems *)

(** C37: the path buffer of every device id holds, whatever it held before, the
    path of that device as a NUL-terminated string that fits it, and distinct
    ids have distinct paths, from which the id can be read back. *)
Theorem dev_path_buffer junk dev_id other :
  length junk = DEV_PATH_LEN -> is_u 32 dev_id -> is_u 32 other ->
  length (DevPathBuf_path junk dev_id) = DEV_PATH_LEN /\
  c_string (DevPathBuf_path junk dev_id) = dev_path_prefix ++ format_uint dev_id /\
  (c_string (DevPathBuf_path junk dev_id) = dev_path other -> dev_id = other) /\
  from_chars (drop (length dev_path_prefix) (c_string (DevPathBuf_path junk dev_id)))
    = Some dev_id.
Proof.
  intros Hlen Hid Hother.
  destruct (fill_dev_path_c_string junk DEV_PATH_LEN dev_id Hid Hlen ltac:(unfold DEV_PATH_LEN; lia))
    as [Hc Hl].
  unfold DevPathBuf_path. split; [exact Hl|]. rewrite Hc. split; [reflexivity|].
  split; [apply dev_path_inj; assumption|].
  unfold dev_path. rewrite drop_app_length. apply from_chars_format. range.
Qed.

Lemma dev_path_buffer_witness :
  c_string (DevPathBuf_path (repeat "x"%char DEV_PATH_LEN) 4294967295) =
    String.list_ascii_of_string "/dev/ublkc4294967295" /\
  length (DevPathBuf_path (repeat "x"%char DEV_PATH_LEN) 4294967295) = DEV_PATH_LEN.
Proof.
  destruct (dev_path_buffer (repeat "x"%char DEV_PATH_LEN) 4294967295 0)
    as (H1 & H2 & _); [reflexivity|split; vm_compute; congruence|split; vm_compute; congruence|].
  split; [|exact H1]. rewrite H2. vm_compute. reflexivity.
Defined.
