(* ===== verification/Text.v ===== *)
(** * Text: words, hexadecimal and directory names

    The string handling of the command line tool: words separated by spaces,
    built the way the sources build them (a separator before every word but the
    first), hexadecimal formatting, and splitting, the inverse used to state
    what a printed list means. *)

From S2P Require Import Prelude Path.
From Stdlib Require Import Ascii.
From Stdlib Require String.

Definition lit (s : String.string) : list ascii := String.list_ascii_of_string s.

Definition space : ascii := " "%char.

(** [if (!s.empty()) s += ' '; s += w;] *)
Definition add_word (s w : list ascii) : list ascii :=
  match s with
  | [] => w
  | _ => s ++ space :: w
  end.

(** The pieces of [s] between the occurrences of [sep]. *)
Fixpoint split_on (sep : ascii) (s : list ascii) : list (list ascii) :=
  match s with
  | [] => [[]]
  | c :: s =>
      let ws := split_on sep s in
      if Ascii.eqb c sep then [] :: ws
      else match ws with
           | w :: ws => (c :: w) :: ws
           | [] => [[c]]
           end
  end.

Definition words (s : list ascii) : list (list ascii) :=
  match s with [] => [] | _ => split_on space s end.

(** [{:x}] of an unsigned 64-bit integer. *)
Definition hex_digit (d : Z) : ascii :=
  ascii_of_N (Z.to_N (if d <? 10 then 48 + d else 87 + d)).

Fixpoint hex_digits (fuel : nat) (n : Z) : list Z :=
  match fuel with
  | O => []
  | S f => if n <? 16 then [n] else hex_digits f (n / 16) ++ [n mod 16]
  end.

Definition format_hex (n : Z) : list ascii := map hex_digit (hex_digits 16 n).

(** [{:<20s}] *)
Definition pad_right (w : nat) (s : list ascii) : list ascii := s ++ repeat space (w - length s).

(** [name.starts_with(prefix)], with the rest of the name. *)
Fixpoint strip_prefix (prefix s : list ascii) : option (list ascii) :=
  match prefix, s with
  | [], _ => Some s
  | a :: prefix, b :: s => if Ascii.eqb a b then strip_prefix prefix s else None
  | _ :: _, [] => None
  end.

(** ** Lemmas *)

Definition is_word (w : list ascii) : Prop := w <> [] /\ space ∉ w.

Lemma split_on_none sep w : sep ∉ w -> split_on sep w = [w].
Proof.
  induction w as [|c w IH]; intros H; [reflexivity|]. cbn [split_on].
  apply not_elem_of_cons in H as [Hc Hw]. rewrite (IH Hw).
  destruct (Ascii.eqb_spec c sep); [congruence|reflexivity].
Qed.

Lemma split_on_app sep w s : sep ∉ w -> split_on sep (w ++ sep :: s) = w :: split_on sep s.
Proof.
  induction w as [|c w IH]; intros H; cbn [app split_on].
  - rewrite Ascii.eqb_refl. reflexivity.
  - apply not_elem_of_cons in H as [Hc Hw]. rewrite (IH Hw).
    destruct (Ascii.eqb_spec c sep); [congruence|reflexivity].
Qed.

Lemma fold_add_word_app ws s : s <> [] ->
  foldl add_word s ws = s ++ concat (map (cons space) ws).
Proof.
  revert s; induction ws as [|w ws IH]; intros s Hs; [symmetry; apply app_nil_r|].
  cbn [foldl map concat]. rewrite IH.
  - destruct s; [congruence|]. cbn [add_word]. rewrite <- app_assoc. reflexivity.
  - destruct s; [congruence|discriminate].
Qed.

(** The words of a list built word by word are those words. *)
Lemma words_fold ws : Forall is_word ws -> words (foldl add_word [] ws) = ws.
Proof.
  destruct ws as [|w ws]; [reflexivity|]. intros H. apply Forall_cons in H as [[Hw Hs] Hws].
  cbn [foldl add_word]. rewrite fold_add_word_app by assumption.
  assert (forall w, space ∉ w ->
    split_on space (w ++ concat (map (cons space) ws)) = w :: ws) as Hsplit.
  { clear w Hw Hs. induction Hws as [|w' ws [_ Hs'] _ IH]; intros w Hs.
    - cbn. rewrite app_nil_r. apply split_on_none, Hs.
    - cbn [map concat]. change ((space :: w') ++ ?r) with (space :: (w' ++ r)).
      rewrite split_on_app by assumption. f_equal. apply IH, Hs'. }
  unfold words. destruct w as [|c w]; [congruence|]. cbn [app].
  exact (Hsplit (c :: w) Hs).
Qed.

Lemma digit_char_is_digit d : is_digit d -> is_Some (char_digit (digit_char d)).
Proof. intros H. rewrite char_digit_char by assumption. eauto. Qed.

(** A character that is not a digit does not occur in a number. *)
Lemma format_uint_no_char c n : 0 <= n -> char_digit c = None -> c ∉ format_uint n.
Proof.
  intros Hn Hc Hin. unfold format_uint in Hin.
  apply list_elem_of_In, in_map_iff in Hin as (d & <- & Hd). apply list_elem_of_In in Hd.
  pose proof (Forall_forall is_digit (digits 20 n)) as [Hf _].
  specialize (Hf (digits_is_digit 20 n Hn) d Hd).
  rewrite char_digit_char in Hc by assumption. discriminate.
Qed.

Lemma format_uint_nonempty n : format_uint n <> [].
Proof.
  unfold format_uint. intros H. apply map_eq_nil in H. revert H. apply digits_nonempty. lia.
Qed.

Lemma strip_prefix_app p s : strip_prefix p (p ++ s) = Some s.
Proof. induction p as [|a p IH]; [reflexivity|]. cbn. rewrite Ascii.eqb_refl. exact IH. Qed.

Lemma strip_prefix_Some p s r : strip_prefix p s = Some r <-> s = p ++ r.
Proof.
  split; [|intros ->; apply strip_prefix_app].
  revert s; induction p as [|a p IH]; intros s; cbn; [congruence|].
  destruct s as [|b s]; [discriminate|]. destruct (Ascii.eqb_spec a b); [|discriminate].
  subst. intros H. f_equal. apply IH, H.
Qed.
