(* ===== verification/Sys.v ===== *)
(** * Sys: the calls the library makes to its environment

    One constructor per external operation the sources use: the ublk commands
    submitted as io_uring commands, the other asynchronous operations of the
    runtime (condy, a submodule), system calls, aligned allocation, the tables
    of the io_uring instance, and the user's handler.  None of them is code of
    the repository, so each is a call whose reply the environment chooses. *)

From S2P Require Import Prelude Effects UblkCmd.
From Stdlib Require Import Ascii.

(** ** Buffers handed to the driver *)

(** The typed content of a user buffer, or of what the driver wrote to it
    ([PNone]: nothing). *)
Inductive payload :=
  | PNone
  | PInfo (i : ublksrv_ctrl_dev_info)
  | PParams (p : ublk_params)
  | PCpus (mask : Z)
  | PShmReg (r : ublk_shmem_buf_reg)
  | PFeatures (f : Z).

(** [sizeof(cpu_set_t)] *)
Definition CPU_SETSIZE : Z := 1024.
Definition sizeof_cpu_set : Z := CPU_SETSIZE / 8.

Definition payload_size (p : payload) : Z :=
  match p with
  | PNone => 0
  | PInfo _ => sizeof ublksrv_ctrl_dev_info_layout
  | PParams _ => sizeof ublk_params_layout
  | PCpus _ => sizeof_cpu_set
  | PShmReg _ => sizeof ublk_shmem_buf_reg_layout
  | PFeatures _ => 8
  end.

(** A buffer: a device path, when the command is issued in unprivileged mode,
    followed by the payload. *)
Record ubuf := Ubuf { ub_path : option (list ascii); ub_data : payload }.

(** A pointer argument: [None] is [nullptr]. *)
Definition ptr := option ubuf.

Definition path_size (p : ptr) : Z :=
  match p with
  | Some {| ub_path := Some s |} => Z.of_nat (length s)
  | _ => 0
  end.

Definition ptr_size (p : ptr) : Z :=
  match p with
  | Some b => path_size p + payload_size (ub_data b)
  | None => 0
  end.

(** The content of an output variable after the driver's write. *)
Definition out_info (old : ublksrv_ctrl_dev_info) (p : payload) : ublksrv_ctrl_dev_info :=
  match p with PInfo i => i | _ => old end.
Definition out_params (old : ublk_params) (p : payload) : ublk_params :=
  match p with PParams q => q | _ => old end.
Definition out_cpus (old : Z) (p : payload) : Z :=
  match p with PCpus m => m | _ => old end.
Definition out_features (old : Z) (p : payload) : Z :=
  match p with PFeatures f => f | _ => old end.

(** ** Commands *)

Record ublksrv_ctrl_cmd := {
  cmd_dev_id : Z;
  cmd_queue_id : Z;
  cmd_len : Z;
  cmd_addr : ptr;
  cmd_data0 : Z;
  cmd_dev_path_len : Z;
}.

Record ublksrv_io_cmd := {
  io_q_id : Z;
  io_tag : Z;
  io_result : Z;
  io_addr : Z;
}.

Record ublk_batch_io := {
  batch_q_id : Z;
  batch_flags : Z;
  batch_nr_elem : Z;
  batch_elem_bytes : Z;
}.

(** A file descriptor, or an index of the registered file table. *)
Inductive fdref := Fd (n : Z) | Fixed (i : Z).

#[global] Instance fdref_eq_dec : EqDecision fdref.
Proof. solve_decision. Defined.
#[global] Instance ublksrv_io_cmd_eq_dec : EqDecision ublksrv_io_cmd.
Proof. solve_decision. Defined.
#[global] Instance ublk_batch_io_eq_dec : EqDecision ublk_batch_io.
Proof. solve_decision. Defined.

(** What a submission entry of the multishot fetch holds beyond its
    descriptor. *)
Record fetch_sqe := {
  sqe_cmd_op : ioc;
  sqe_cmd : ublk_batch_io;
  sqe_flags : Z;
  sqe_rw_flags : Z;
  sqe_buf_group : Z;
}.

(** A completion of the fetch that is not its last: bytes written, the buffer
    they are in, and how many buffers the completion has used up. *)
Record cqe := { cqe_res : Z; cqe_bid : Z; cqe_num_buffers : Z }.

(** ** Replies *)

(** Completion of an io_uring operation: a result, an error code, or
    cancellation. *)
Inductive async_res := AsyncOk (v : Z) | AsyncErr (ec : Z) | AsyncStopped.

Definition lift_res (r : async_res) : completion Z :=
  match r with
  | AsyncOk v => SetValue v
  | AsyncErr ec => SetError (ErrCode ec)
  | AsyncStopped => SetStopped
  end.

(** A system call's result, or the [errno] it failed with. *)
Inductive sys_res := SysOk (v : Z) | SysErr (errno : Z).

(** What a handler's sender yields on its value channel: an [int32_t], or a
    structure with a [res] and possibly a [zone_lba] field. *)
Inductive io_value := IoInt (r : Z) | IoStruct (res : Z) (zone_lba : option Z).

(** What the fetch posts next: a completion that more follow, or its last. *)
Inductive fetch_event := FetchMore (r : cqe) | FetchDone (r : async_res).

(** A control message of [recvmsg]: level, type and the descriptors of an
    [SCM_RIGHTS] message. *)
Record cmsg := { cmsg_level : Z; cmsg_type : Z; cmsg_fds : list Z }.

(** ** Calls

    [Fstat] yields the mode and the size, or the [errno]; [ReadDir] the names
    of the entries, and the error the iteration ended with, if any; [SignalFd]
    blocks the two signals that end a server and opens a descriptor for them;
    [UringFetch] awaits the next completion of the multishot fetch, the first
    one submitting it; [PushBuffer] provides a buffer to it and yields its
    index, [ReadTag] reads an entry of a buffer the driver writes;
    [LoopStart] starts the thread of a loop and [LoopExit] lets it end and
    joins it, [RuntimeRun] is what the thread spends its life in;
    [RequestStop] asks the operations that watch the caller's stop source to
    stop, which they may do at any later reply. *)

Inductive call :=
  | UringCtrl (fd : Z) (op : ioc) (cmd : ublksrv_ctrl_cmd)
  | UringIo (fd : fdref) (op : ioc) (cmd : ublksrv_io_cmd) (sqe_addr : Z)
  | UringBatch (fd : fdref) (op : ioc) (cmd : ublk_batch_io) (sqe_addr sqe_len : Z)
  | UringFetch (fd : fdref) (sqe : fetch_sqe)
  | PushBuffer (q_id addr len : Z)
  | ReadTag (q_id bid j : Z)
  | AsyncTimeout (tv_sec tv_nsec : Z)
  | AsyncOpen (path : list ascii)
  | AsyncRead (fd : fdref) (buf : option Z) (len off : Z)
  | AsyncWrite (fd : fdref) (buf : option Z) (len off : Z)
  | AsyncFsync (fd : fdref) (flags : Z)
  | AsyncSocket
  | AsyncUnlink (path : list ascii)
  | AsyncBind (fd : Z) (path : list ascii)
  | AsyncListen (fd : Z) (backlog : Z)
  | AsyncAccept (fd : Z)
  | AsyncRecvmsg (fd : Z) (controllen : Z)
  | AsyncSend (fd : Z) (v : Z)
  | AsyncRecv (fd : Z)
  | AsyncStatx (fd : Z)
  | Mmap (size prot fd off : Z)
  | Munmap (addr size : Z)
  | Mlock (addr size : Z)
  | Munlock (addr size : Z)
  | Open (path : list ascii)
  | SignalFd
  | Fstat (fd : Z)
  | BlkIoctl (fd request : Z)
  | Fcntl (fd cmd arg : Z)
  | ReadDir (path : list ascii)
  | Close (fd : Z)
  | Unlink (path : list ascii)
  | AllocAligned (bytes align : Z)
  | FreeAligned (p bytes align : Z)
  | FdTableInit (loop nr : Z)
  | BufferTableInit (loop nr : Z)
  | RuntimeInit (loop sq_size cq_size : Z) (attach : option Z)
  | LoopStart (loop cpus : Z)
  | LoopExit (loop : Z)
  | PthreadSetaffinity (cpus : Z)
  | SetPriority (which who prio : Z)
  | Prctl (op arg : Z)
  | RuntimeRun (loop : Z)
  | FdTableUpdate (idx fd : Z)
  | BufferTableUpdate (idx : Z)
  | ReadIod (q_id tag : Z)
  | HandleIo (q_id tag : Z) (buf : option Z)
  | InitQueue (q_id : Z)
  | DestroyQueue (q_id : Z)
  | HandleRegShm (index base size : Z)
  | HandleUnregShm (index : Z)
  | Print (s : list ascii)
  | PrintError (e : exn)
  | RequestStop.

Definition reply (c : call) : Type :=
  match c with
  | UringCtrl _ _ _ => async_res * payload
  | UringIo _ _ _ _ | UringBatch _ _ _ _ _ | AsyncTimeout _ _ | AsyncOpen _ | AsyncSocket
  | AsyncUnlink _ | AsyncBind _ _ | AsyncListen _ _ | AsyncAccept _ | AsyncSend _ _
  | AsyncRecv _ | AsyncRead _ _ _ _ | AsyncWrite _ _ _ _ | AsyncFsync _ _ => async_res
  | UringFetch _ _ => fetch_event
  | PushBuffer _ _ _ | ReadTag _ _ _ => Z
  | AsyncRecvmsg _ _ => async_res * list cmsg
  | AsyncStatx _ => async_res * Z
  | Mmap _ _ _ _ | Mlock _ _ | RuntimeInit _ _ _ _ | Open _ | SignalFd | BlkIoctl _ _
  | Fcntl _ _ _ | SetPriority _ _ _ | Prctl _ _ => sys_res
  | PthreadSetaffinity _ => Z
  | Fstat _ => (Z * Z + Z)%type
  | ReadDir _ => list (list ascii) * option Z
  | AllocAligned _ _ => option Z
  | FdTableInit _ _ | BufferTableInit _ _ | FdTableUpdate _ _ | BufferTableUpdate _ => Z
  | ReadIod _ _ => ublksrv_io_desc
  | HandleIo _ _ _ => completion io_value
  | InitQueue _ | HandleRegShm _ _ _ => completion unit
  | Munmap _ _ | Munlock _ _ | Close _ | Unlink _ | FreeAligned _ _ _ | LoopStart _ _
  | LoopExit _ | RuntimeRun _ | DestroyQueue _ | HandleUnregShm _ | Print _ | PrintError _ | RequestStop => unit
  end.

Abbreviation task := (prog call reply).
Abbreviation env := (environment call reply).
Abbreviation history := (trace call reply).

(** A call without a result. *)
Definition perform (c : call) (f : reply c -> unit) : task unit :=
  trigger c (fun r => SetValue (f r)).

(** ** Error numbers *)

Definition ENOENT : Z := 2.
Definition EIO : Z := 5.
Definition EACCES : Z := 13.
Definition EEXIST : Z := 17.
Definition EINVAL : Z := 22.
Definition EOPNOTSUPP : Z := 95.
Definition ECANCELED : Z := 125.

(** The value of an error code; the control senders complete with error codes
    only, an exception pointer's code is that of the exception. *)
Definition err_value (e : err) : Z :=
  match e with
  | ErrCode ec => ec
  | ErrPtr (SystemError ec) => ec
  | ErrPtr _ => 0
  end.

(** [upon_error([](std::error_code ec) { return -ec.value(); })] *)
Definition neg_error (p : task Z) : task Z := upon_error p (fun e => just (- err_value e)).

(** The successful reply to each call, from which environments are built. *)
Definition ok_reply (c : call) : reply c :=
  match c return reply c with
  | UringCtrl _ _ _ => (AsyncOk 0, PNone)
  | UringIo _ _ _ _ | UringBatch _ _ _ _ _ | AsyncTimeout _ _ | AsyncOpen _ | AsyncSocket
  | AsyncUnlink _ | AsyncBind _ _ | AsyncListen _ _ | AsyncAccept _ | AsyncSend _ _
  | AsyncRecv _ | AsyncRead _ _ _ _ | AsyncWrite _ _ _ _ | AsyncFsync _ _ => AsyncOk 0
  | UringFetch _ _ => FetchDone (AsyncErr 19)
  | PushBuffer _ _ _ | ReadTag _ _ _ => 0
  | AsyncRecvmsg _ _ => (AsyncOk 0, [])
  | AsyncStatx _ => (AsyncOk 0, 0)
  | Mmap _ _ _ _ | Mlock _ _ | RuntimeInit _ _ _ _ | Open _ | SignalFd | BlkIoctl _ _
  | Fcntl _ _ _ | SetPriority _ _ _ | Prctl _ _ => SysOk 0
  | PthreadSetaffinity _ => 0
  | Fstat _ => inl (0, 0)
  | ReadDir _ => ([], None)
  | AllocAligned _ _ => Some 0
  | FdTableInit _ _ | BufferTableInit _ _ | FdTableUpdate _ _ | BufferTableUpdate _ => 0
  | ReadIod _ _ => Build_ublksrv_io_desc 0 0 0 0
  | HandleIo _ _ _ => SetValue (IoInt 0)
  | InitQueue _ | HandleRegShm _ _ _ => SetValue tt
  | Munmap _ _ | Munlock _ _ | Close _ | Unlink _ | FreeAligned _ _ _ | LoopStart _ _
  | LoopExit _ | RuntimeRun _ | DestroyQueue _ | HandleUnregShm _ | Print _ | PrintError _ | RequestStop => tt
  end.
