(* ===== verification/Ledger.v ===== *)
(** * Ledger: the resources an operation holds

    The protocol of resource management: acquiring calls that succeed add a
    resource to a multiset and releasing calls must find theirs in it, so an
    operation that obeys the ledger never releases what it does not hold, and
    the multiset at its completion is what it still holds.  The queues, the
    I/O loop and the shared memory service are specified with it. *)

From stdpp Require Export gmultiset.
From S2P Require Import Prelude Effects Protocol UblkCmd Sys.

#[local] Open Scope Z_scope.

Inductive resource :=
  | RMap (addr size : Z)
  | RMem (p bytes align : Z)
  | RLock (addr size : Z)
  | RFile (fd : Z)
  | RFixed (idx : Z)
  | RLoop (loop : Z)
  | RQueue (q_id : Z)
  | RShm (index : Z).

#[global] Instance resource_eq_dec : EqDecision resource.
Proof. solve_decision. Defined.

(** A resource as a kind and three integers. *)
Definition resource_code (x : resource) : Z * (Z * Z * Z) :=
  match x with
  | RMap a s => (0, (a, s, 0))
  | RMem p b al => (1, (p, b, al))
  | RLock a s => (2, (a, s, 0))
  | RFile fd => (3, (fd, 0, 0))
  | RFixed i => (4, (i, 0, 0))
  | RLoop l => (5, (l, 0, 0))
  | RQueue q => (6, (q, 0, 0))
  | RShm i => (7, (i, 0, 0))
  end.

Definition resource_decode (c : Z * (Z * Z * Z)) : resource :=
  let '(k, (a, b, d)) := c in
  if k =? 0 then RMap a b else if k =? 1 then RMem a b d else if k =? 2 then RLock a b
  else if k =? 3 then RFile a else if k =? 4 then RFixed a else if k =? 5 then RLoop a
  else if k =? 6 then RQueue a else RShm a.

#[global] Instance resource_countable : Countable resource.
Proof. apply (inj_countable' resource_code resource_decode). intros []; reflexivity. Defined.

Abbreviation resources := (gmultiset resource).

Definition acquire (x : resource) (X : resources) : resources := X ⊎ {[+ x +]}.

Definition release (x : resource) (X : resources) : option resources :=
  if decide (x ∈ X) then Some (X ∖ {[+ x +]}) else None.

Definition SOL_SOCKET : Z := 1.
Definition SCM_RIGHTS : Z := 1.

(** The descriptors a received message installs in the process. *)
Definition received_fds (l : list cmsg) : list Z :=
  flat_map (fun m => if (cmsg_level m =? SOL_SOCKET) && (cmsg_type m =? SCM_RIGHTS)
                     then cmsg_fds m else []) l.

(** [munlock] of pages that are not locked is harmless; every other release
    requires the resource.  [RShm] is a buffer registered with the driver. *)
Definition ledger (X : resources) (c : call) : reply c -> option resources :=
  match c return reply c -> option resources with
  | Mmap size _ _ _ => fun r =>
      Some (match r with SysOk a => acquire (RMap a size) X | SysErr _ => X end)
  | Munmap a size => fun _ => release (RMap a size) X
  | Mlock a size => fun r =>
      Some (match r with SysOk _ => acquire (RLock a size) X | SysErr _ => X end)
  | Munlock a size => fun _ => Some (X ∖ {[+ RLock a size +]})
  | AllocAligned b al => fun r =>
      Some (match r with Some p => acquire (RMem p b al) X | None => X end)
  | FreeAligned p b al => fun _ => release (RMem p b al) X
  | AsyncOpen _ | AsyncSocket | AsyncAccept _ => fun r =>
      Some (match r with AsyncOk fd => acquire (RFile fd) X | _ => X end)
  | AsyncRecvmsg _ _ => fun r =>
      Some (match fst r with
            | AsyncOk _ => X ⊎ list_to_set_disj (map RFile (received_fds (snd r)))
            | _ => X
            end)
  | Open _ | SignalFd => fun r =>
      Some (match r with SysOk fd => acquire (RFile fd) X | SysErr _ => X end)
  | Close fd => fun _ => release (RFile fd) X
  | FdTableUpdate idx fd => fun r =>
      if fd =? -1 then release (RFixed idx) X
      else Some (if 0 <=? r then acquire (RFixed idx) X else X)
  | LoopStart l _ => fun _ => Some (acquire (RLoop l) X)
  | LoopExit l => fun _ => release (RLoop l) X
  | InitQueue q => fun r =>
      Some (match r with SetValue _ => acquire (RQueue q) X | _ => X end)
  | DestroyQueue q => fun _ => release (RQueue q) X
  | UringCtrl _ op cmd => fun r =>
      match fst r with
      | AsyncOk v =>
          if bool_decide (op = UBLK_U_CMD_REG_BUF) then Some (acquire (RShm v) X)
          else if bool_decide (op = UBLK_U_CMD_UNREG_BUF) then release (RShm (cmd_data0 cmd)) X
          else Some X
      | _ => Some X
      end
  | _ => fun _ => Some X
  end.

(** The ledger of everything but memory locks: what an operation does with its
    own resources does not depend on those of the operations around it. *)
Definition is_lock (c : call) : bool :=
  match c with Mlock _ _ | Munlock _ _ => true | _ => false end.

Definition own_ledger (X : resources) (c : call) (r : reply c) : option resources :=
  if is_lock c then Some X else ledger X c r.

(** The runtime neither takes nor releases a resource. *)
Definition keeps_resources (c : call) : Prop := forall X r, ledger X c r = Some X.

(** The operation gives back everything it takes. *)
Definition balanced {A} (p : task A) : Prop :=
  forall X, obeys ledger p X (fun c X' => c <> Unfinished -> X' = X).

(** ** Lemmas *)

Lemma release_acquire x X : release x (acquire x X) = Some X.
Proof.
  unfold release, acquire. rewrite decide_True by multiset_solver. f_equal. multiset_solver.
Qed.

Lemma release_in x X : x ∈ X -> release x X = Some (X ∖ {[+ x +]}).
Proof. intros; unfold release. apply decide_True; assumption. Qed.

Lemma own_ledger_frame X Y c r X' :
  own_ledger X c r = Some X' -> own_ledger (X ⊎ Y) c r = Some (X' ⊎ Y).
Proof.
  assert (forall x X', release x X = Some X' -> release x (X ⊎ Y) = Some (X' ⊎ Y)) as Hrel.
  { intros x X1. unfold release. destruct (decide (x ∈ X)) as [Hx|]; [|discriminate].
    intros [= <-]. rewrite decide_True by multiset_solver. f_equal. multiset_solver. }
  assert (forall Z, X ⊎ Z ⊎ Y = X ⊎ Y ⊎ Z) as Hcomm by (intros; multiset_solver).
  unfold own_ledger. destruct c; cbn [is_lock ledger];
    repeat case_match; unfold acquire; intros HX;
    solve [apply Hrel, HX | injection HX as <-; rewrite ?Hcomm; reflexivity].
Qed.

Lemma obeys_keeps {A} (p : task A) X :
  all_calls keeps_resources p -> obeys ledger p X (fun _ X' => X' = X).
Proof.
  intros H. apply obeys_ignored. revert H.
  induction p as [c|c k IH]; simpl; [auto|]. intros [Hc Hk].
  split; [intros r; apply Hc|intros r; apply IH, Hk].
Qed.

Lemma balanced_keeps {A} (p : task A) : all_calls keeps_resources p -> balanced p.
Proof. intros H X. eapply obeys_mono; [|apply obeys_keeps, H]. auto. Qed.

Lemma balanced_let_value {A B} (p : task A) (f : A -> task B) :
  balanced p -> (forall a, balanced (f a)) -> balanced (let_value p f).
Proof.
  intros Hp Hf X. apply obeys_let_value. eapply obeys_mono; [|apply Hp].
  intros [a|e| |] X' H; cbn; try (intros; apply H; discriminate);
    try (intros; congruence).
  rewrite H by discriminate. apply Hf.
Qed.

Lemma balanced_co_await {A} (p : task A) : balanced p -> balanced (co_await p).
Proof.
  intros Hp X. apply obeys_co_await. eapply obeys_mono; [|apply Hp].
  intros [] X' H; auto; intros _; apply H; discriminate.
Qed.

(** A resource acquired by [p], used by [f] and released by [d]. *)
Lemma obeys_bracket {A B} (p : task A) (d : A -> task unit) (f : A -> task B)
    (held : A -> resources -> resources) X :
  obeys ledger p X (fun c X' => match c with
                                | SetValue a => X' = held a X
                                | Unfinished => True
                                | _ => X' = X
                                end) ->
  (forall a, balanced (f a)) ->
  (forall a, obeys ledger (d a) (held a X) (fun c X' => c <> Unfinished -> X' = X)) ->
  obeys ledger (let_value (co_await p) (fun a => defer (f a) (d a))) X
    (fun c X' => c <> Unfinished -> X' = X).
Proof.
  intros Hp Hf Hd. apply obeys_let_value, obeys_co_await. eapply obeys_mono; [|exact Hp].
  assert (forall (a : A) (c : completion B) X', (c <> Unfinished -> X' = held a X) ->
    guard_obeys ledger (d a) (fun c X' => c <> Unfinished -> X' = X) c X') as Hguard.
  { intros a c X' H. unfold guard_obeys.
    destruct c; try congruence; rewrite H by discriminate;
      (eapply obeys_mono; [|apply Hd]);
      intros [] X'' H'; try congruence; intros _; apply H'; discriminate. }
  intros [a|e| |] X' H; cbn; try (intros; assumption || congruence).
  apply obeys_defer. rewrite H. eapply obeys_mono; [|apply (Hf a)].
  intros c X'' Hc. apply Hguard, Hc.
Qed.

#[export] Hint Resolve balanced_let_value balanced_co_await : ublk.

(** Control commands other than the registration of buffers. *)
Lemma plain_keeps fd op cmd :
  op <> UBLK_U_CMD_REG_BUF -> op <> UBLK_U_CMD_UNREG_BUF -> keeps_resources (UringCtrl fd op cmd).
Proof.
  intros H1 H2 X r. cbn [ledger]. destruct (fst r); try reflexivity.
  rewrite !bool_decide_eq_false_2 by assumption. reflexivity.
Qed.

(** ** Resources of one operation among others

    An operation that obeys [own_ledger] from what it owns, [∅] at first, does
    so whatever else is held, so concurrent operations each account for their
    own. *)

(** The operation gives back everything it takes. *)
Definition releases {A} (p : task A) : Prop :=
  obeys own_ledger p ∅ (fun c X => c <> Unfinished -> X = ∅).

Lemma obeys_frame {A} (p : task A) H Y Q :
  obeys own_ledger p H Q ->
  obeys own_ledger p (H ⊎ Y) (fun c X => exists H', Q c H' /\ X = H' ⊎ Y).
Proof.
  revert H; induction p as [c|c k IH]; intros H Hp; simpl in *; [eauto|].
  intros r. destruct (Hp r) as (H' & Hd & Hk). exists (H' ⊎ Y).
  split; [apply own_ledger_frame, Hd|apply IH, Hk].
Qed.

Lemma under_frame {A} ok (p : task A) H Y Q :
  obeys (assuming ok own_ledger) p (Some H) (under Q) ->
  obeys (assuming ok own_ledger) p (Some (H ⊎ Y))
    (under (fun c X => exists H', Q c H' /\ X = H' ⊎ Y)).
Proof.
  revert H; induction p as [c|c k IH]; intros H; simpl; [intros HQ; exists H; auto|].
  intros Hp r. destruct (Hp r) as (s' & Hd & Hk). destruct (ok c r).
  - destruct (own_ledger H c r) as [H'|] eqn:E; [|discriminate]. injection Hd as <-.
    rewrite (own_ledger_frame H Y c r H' E). exists (Some (H' ⊎ Y)). split; [reflexivity|apply IH, Hk].
  - exists None. split; [reflexivity|]. apply obeys_sunk. intros; exact I.
Qed.

Lemma releases_at {A} (p : task A) X :
  releases p -> obeys own_ledger p X (fun c X' => c <> Unfinished -> X' = X).
Proof.
  intros Hp. rewrite <- (left_id_L ∅ (⊎) X) at 1. eapply obeys_mono; [|apply obeys_frame, Hp].
  intros c X' (H' & HQ & ->) Hc. rewrite (HQ Hc). apply (left_id_L ∅ (⊎)).
Qed.

Lemma releases_keeps {A} (p : task A) : all_calls keeps_resources p -> releases p.
Proof.
  intros H. eapply obeys_mono; [|apply obeys_ignored].
  - intros c s ->; reflexivity.
  - revert H. induction p as [c|c k IH]; simpl; [auto|]. intros [Hc Hk].
    split; [intros r; unfold own_ledger; destruct (is_lock c); [reflexivity|apply Hc]|].
    intros r; apply IH, Hk.
Qed.

Lemma releases_connect {A B} (p : task A) (f : completion A -> task B) :
  releases p -> (forall c, c <> Unfinished -> releases (f c)) -> f Unfinished = Done Unfinished ->
  releases (connect p f).
Proof.
  intros Hp Hf HU. apply obeys_connect. eapply obeys_mono; [|apply Hp].
  intros c X H. destruct c; [| | |rewrite HU; intros H'; contradiction];
    rewrite H by discriminate; apply Hf; discriminate.
Qed.

Lemma releases_let_value {A B} (p : task A) (f : A -> task B) :
  releases p -> (forall a, releases (f a)) -> releases (let_value p f).
Proof.
  intros Hp Hf. apply obeys_let_value. eapply obeys_mono; [|apply Hp].
  intros [a|e| |] X H; cbn; try (intros; apply H; discriminate); try congruence.
  rewrite H by discriminate. apply Hf.
Qed.

Lemma releases_co_await {A} (p : task A) : releases p -> releases (co_await p).
Proof.
  intros Hp. apply obeys_co_await. eapply obeys_mono; [|apply Hp].
  intros [] X H; auto; intros _; apply H; discriminate.
Qed.

Lemma releases_upon_error {A} (p : task A) f :
  releases p -> (forall e, releases (f e)) -> releases (upon_error p f).
Proof.
  intros Hp Hf. apply obeys_upon_error. eapply obeys_mono; [|apply Hp].
  intros [] X H; auto. rewrite H by discriminate. apply Hf.
Qed.

(** A scope guard that releases what its scope owns, [H]. *)
Lemma releases_guarded {A} (p : task A) d H :
  releases p -> obeys own_ledger d H (fun c X => c <> Unfinished -> X = ∅) ->
  obeys own_ledger (defer p d) H (fun c X => c <> Unfinished -> X = ∅).
Proof.
  intros Hp Hd. apply obeys_defer. eapply obeys_mono; [|apply releases_at, Hp].
  intros c X HX. unfold guard_obeys. destruct c; try congruence;
    rewrite HX by discriminate; (eapply obeys_mono; [|exact Hd]);
    intros [] X' HX'; try congruence; intros _; apply HX'; discriminate.
Qed.

Definition total (Hs : list resources) : resources := foldr (⊎) ∅ Hs.

Lemma total_app Hs Hs' : total (Hs ++ Hs') = total Hs ⊎ total Hs'.
Proof.
  induction Hs as [|H Hs IH]; [symmetry; apply (left_id_L ∅ (⊎))|].
  change (H ⊎ total (Hs ++ Hs') = H ⊎ total Hs ⊎ total Hs'). rewrite IH. apply (assoc_L (⊎)).
Qed.

Lemma total_empty n : total (repeat ∅ n) = ∅.
Proof. induction n as [|n IH]; [reflexivity|]. change (∅ ⊎ total (repeat ∅ n) = ∅). rewrite IH. reflexivity. Qed.

Lemma total_insert Hs i H : Hs !! i = Some H ->
  exists R, forall H', total (<[i := H']> Hs) = H' ⊎ R.
Proof.
  revert i; induction Hs as [|H0 Hs IH]; intros [|i]; try discriminate.
  - intros _. exists (total Hs). reflexivity.
  - intros Hi. destruct (IH i Hi) as [R HR]. exists (H0 ⊎ R). intros H'.
    change (H0 ⊎ total (<[i := H']> Hs) = H' ⊎ (H0 ⊎ R)). rewrite HR. multiset_solver.
Qed.

(** Concurrent operations, each with its own resources. *)
Lemma concurrently_owned {A} (Q : completion A -> resources -> Prop) sched X :
  forall (ps : list (task A)) Hs,
  Forall2 (fun p H => obeys own_ledger p H Q) ps Hs ->
  obeys own_ledger (concurrently sched ps) (X ⊎ total Hs) (fun c X' => exists ps' Hs',
    c = SetValue ps' /\ Forall2 (fun p H => obeys own_ledger p H Q) ps' Hs' /\
    X' = X ⊎ total Hs').
Proof.
  induction sched as [|i sched IH]; intros ps Hs Hps; cbn [concurrently]; [exists ps, Hs; auto|].
  destruct (ps !! i) as [p|] eqn:E; [|apply IH, Hps].
  destruct (Forall2_lookup_l _ _ _ _ _ Hps E) as (H & EH & Hp).
  destruct (total_insert Hs i H EH) as [R HR].
  assert (total Hs = H ⊎ R) as HT by (rewrite <- HR, list_insert_id by assumption; reflexivity).
  destruct p as [c|c k]; [apply IH, Hps|]. intros r. destruct (Hp r) as (H' & Hd & Hk).
  exists (X ⊎ total (<[i := H']> Hs)). split.
  - rewrite HT, HR. replace (X ⊎ (H ⊎ R)) with (H ⊎ (X ⊎ R)) by multiset_solver.
    rewrite (own_ledger_frame _ _ _ _ _ Hd). f_equal. multiset_solver.
  - apply IH, Forall2_insert; assumption.
Qed.

(** Operations that release all they take have released all of it when they
    are joined. *)
Lemma joined_released {A} (ps : list (task A)) Hs cs :
  Forall2 (fun p H => obeys own_ledger p H (fun c X => c <> Unfinished -> X = ∅)) ps Hs ->
  join_all ps = Some cs -> total Hs = ∅.
Proof.
  intros H. revert cs. induction H as [|p H ps Hs Hp Hps IH]; intros cs; [reflexivity|].
  unfold join_all in *. cbn [mapM]. intros Hj. apply bind_Some in Hj as (c & Hc & Hj).
  apply bind_Some in Hj as (cs' & Hcs & _). change (H ⊎ total Hs = ∅). rewrite (IH _ Hcs).
  destruct p as [[]|]; try discriminate; rewrite Hp by discriminate; reflexivity.
Qed.

(** ** Forgetting memory locks *)

Definition lockless (x : resource) : Prop := match x with RLock _ _ => False | _ => True end.

#[global] Instance lockless_dec x : Decision (lockless x).
Proof. destruct x; apply _. Defined.

Definition unlocked (X : resources) : resources :=
  list_to_set_disj (filter lockless (elements X)).

Lemma multiplicity_unlocked x X :
  multiplicity x (unlocked X) = if decide (lockless x) then multiplicity x X else 0%nat.
Proof.
  unfold unlocked. induction X as [|y X IH] using gmultiset_ind.
  - rewrite gmultiset_elements_empty. cbn. rewrite multiplicity_empty. destruct (decide _); reflexivity.
  - rewrite (list_to_set_disj_perm _ (filter lockless (y :: elements X)))
      by (rewrite gmultiset_elements_disj_union, gmultiset_elements_singleton; reflexivity).
    rewrite filter_cons, multiplicity_disj_union.
    destruct (decide (lockless y)) as [Hy|Hy], (decide (lockless x)) as [Hx|Hx];
      cbn [list_to_set_disj]; rewrite ?multiplicity_disj_union, IH; try reflexivity.
    + rewrite multiplicity_singleton_ne by congruence. reflexivity.
    + rewrite multiplicity_singleton_ne by congruence. reflexivity.
Qed.

Lemma unlocked_union X Y : unlocked (X ⊎ Y) = unlocked X ⊎ unlocked Y.
Proof.
  apply gmultiset_eq. intros x.
  rewrite multiplicity_disj_union, !multiplicity_unlocked, multiplicity_disj_union.
  destruct (decide _); reflexivity.
Qed.

Lemma unlocked_single x : lockless x -> unlocked {[+ x +]} = {[+ x +]}.
Proof.
  intros Hx. apply gmultiset_eq. intros y. rewrite multiplicity_unlocked.
  destruct (decide (lockless y)) as [|Hy]; [reflexivity|].
  rewrite multiplicity_singleton_ne by congruence. reflexivity.
Qed.

Lemma unlocked_lock a n : unlocked {[+ RLock a n +]} = ∅.
Proof.
  apply gmultiset_eq. intros y. rewrite multiplicity_unlocked, multiplicity_empty.
  destruct (decide (lockless y)) as [Hy|Hy]; [|reflexivity].
  rewrite multiplicity_singleton_ne by (intros ->; exact Hy). reflexivity.
Qed.

Lemma unlocked_unlock a n X : unlocked (X ∖ {[+ RLock a n +]}) = unlocked X.
Proof.
  apply gmultiset_eq. intros y. rewrite !multiplicity_unlocked, multiplicity_difference.
  destruct (decide (lockless y)) as [Hy|Hy]; [|reflexivity].
  rewrite multiplicity_singleton_ne by (intros ->; exact Hy). lia.
Qed.

Lemma unlocked_release x X X' :
  lockless x -> release x X = Some X' -> release x (unlocked X) = Some (unlocked X').
Proof.
  intros Hx. unfold release. destruct (decide (x ∈ X)) as [H|]; [|discriminate]. intros [= <-].
  rewrite decide_True.
  - f_equal. apply gmultiset_eq. intros y.
    rewrite multiplicity_difference, !multiplicity_unlocked, multiplicity_difference.
    destruct (decide (lockless y)) as [Hy|Hy]; [reflexivity|].
    rewrite multiplicity_singleton_ne by congruence. reflexivity.
  - unfold elem_of, gmultiset_elem_of in *. rewrite multiplicity_unlocked.
    destruct (decide (lockless x)); [exact H|contradiction].
Qed.

Lemma unlocked_files l :
  unlocked (list_to_set_disj (map RFile l)) = list_to_set_disj (map RFile l).
Proof.
  induction l as [|fd l IH]; [reflexivity|]. cbn [map list_to_set_disj].
  rewrite unlocked_union, unlocked_single, IH by exact I. reflexivity.
Qed.

(** An operation that obeys the ledger obeys the ledger without locks. *)
Lemma obeys_unlocked {A} (p : task A) X Q :
  obeys ledger p X Q ->
  obeys own_ledger p (unlocked X) (fun c Y => exists X', Q c X' /\ Y = unlocked X').
Proof.
  revert X; induction p as [c|c k IH]; intros X Hp; simpl in *; [eauto|].
  intros r. destruct (Hp r) as (X' & Hd & Hk). exists (unlocked X'). split; [|apply IH, Hk].
  assert (forall x, lockless x -> unlocked (acquire x X) = acquire x (unlocked X)) as Hacq.
  { intros x Hx. unfold acquire. rewrite unlocked_union, unlocked_single by assumption. reflexivity. }
  revert Hd. unfold own_ledger. destruct c; cbn [is_lock ledger]; repeat case_match; intros HX;
    solve [ injection HX as <-; rewrite ?Hacq by exact I; try reflexivity;
            unfold acquire; rewrite ?unlocked_union, ?unlocked_lock, ?unlocked_unlock,
              ?unlocked_files, ?(right_id_L ∅ (⊎)); reflexivity
          | apply unlocked_release in HX; [exact HX|exact I] ].
Qed.

#[export] Hint Resolve releases_let_value releases_co_await releases_upon_error : ublk.
