(* ===== verification/Raw.v ===== *)
(** * Raw: the command senders

    [src/include/ublk/detail/raw.hpp] and [src/include/ublk/raw.hpp]: the
    three command builders and the sender of every control, I/O and batch
    command.  A control command carries the buffer its [addr] points to; its
    sender yields the completion together with what the driver wrote to the
    buffer.  Arguments are converted to the parameter types as C++ does. *)

From S2P Require Import Prelude Effects UblkCmd Sys.
From Stdlib Require Import Ascii.

(** ** Command builders (detail/raw.hpp) *)

(** A control command's sender: its completion and the driver's output. *)
Abbreviation ctrl_sender := (task (completion Z * payload)).

Definition ctrl_cmd (fd : Z) (cmd_op : ioc) (dev_id queue_id data0 : Z) (addr : ptr)
    (len dev_path_len : Z) : ctrl_sender :=
  trigger (UringCtrl fd cmd_op
             {| cmd_dev_id := uwrap 32 dev_id; cmd_queue_id := uwrap 16 queue_id;
                cmd_len := uwrap 16 len; cmd_addr := addr; cmd_data0 := uwrap 64 data0;
                cmd_dev_path_len := uwrap 16 dev_path_len |})
          (fun r => SetValue (lift_res (fst r), snd r)).

(** The sender as its users compose it: only the completion matters. *)
Definition result_only (s : ctrl_sender) : task Z := let_value s (fun r => Done (fst r)).

(** The sender used for its output: the value comes with the driver's write. *)
Definition with_output (s : ctrl_sender) : task (Z * payload) :=
  let_value s (fun r => Done (map_completion (fun v => (v, snd r)) (fst r))).

Definition io_cmd (fd : fdref) (cmd_op : ioc) (q_id tag result addr sqe_addr : Z) : task Z :=
  trigger (UringIo fd cmd_op
             {| io_q_id := uwrap 16 q_id; io_tag := uwrap 16 tag;
                io_result := result; io_addr := uwrap 64 addr |} (uwrap 64 sqe_addr))
          lift_res.

Definition batch_io_cmd (fd : fdref) (cmd_op : ioc) (q_id flags nr_elem elem_bytes addr len : Z)
    : task Z :=
  trigger (UringBatch fd cmd_op
             {| batch_q_id := uwrap 16 q_id; batch_flags := uwrap 16 flags;
                batch_nr_elem := uwrap 16 nr_elem; batch_elem_bytes := uwrap 8 elem_bytes |}
             (uwrap 64 addr) (uwrap 32 len))
          lift_res.

(** A pointer to a variable holding [p], and one to a path buffer. *)
Definition var (p : payload) : ptr := Some (Ubuf None p).

(** ** Control commands (raw.hpp)

    [raw_x_null] is the privileged overload of [raw_x], which passes no path. *)

Definition raw_get_queue_affinity_path fd dev_id q_id (data : ptr) size dev_path_len :=
  ctrl_cmd fd UBLK_U_CMD_GET_QUEUE_AFFINITY dev_id q_id q_id data size dev_path_len.

Definition raw_get_queue_affinity fd dev_id q_id (cpuset : Z) :=
  raw_get_queue_affinity_path fd dev_id q_id (var (PCpus cpuset)) sizeof_cpu_set 0.

Definition raw_get_dev_info_path fd dev_id (data : ptr) size dev_path_len :=
  ctrl_cmd fd UBLK_U_CMD_GET_DEV_INFO dev_id (-1) 0 data size dev_path_len.

Definition raw_get_dev_info fd dev_id (info : ublksrv_ctrl_dev_info) :=
  raw_get_dev_info_path fd dev_id (var (PInfo info)) (sizeof ublksrv_ctrl_dev_info_layout) 0.

Definition raw_add_dev fd (info : ublksrv_ctrl_dev_info) :=
  ctrl_cmd fd UBLK_U_CMD_ADD_DEV (info_dev_id info) (-1) 0 (var (PInfo info))
    (sizeof ublksrv_ctrl_dev_info_layout) 0.

Definition raw_del_dev fd dev_id (dev_path : ptr) dev_path_len :=
  ctrl_cmd fd UBLK_U_CMD_DEL_DEV dev_id (-1) 0 dev_path dev_path_len dev_path_len.

Definition raw_del_dev_null fd dev_id := raw_del_dev fd dev_id None 0.

Definition raw_start_dev fd dev_id daemon_pid (dev_path : ptr) dev_path_len :=
  ctrl_cmd fd UBLK_U_CMD_START_DEV dev_id (-1) (uwrap 64 daemon_pid) dev_path
    dev_path_len dev_path_len.

Definition raw_start_dev_null fd dev_id daemon_pid := raw_start_dev fd dev_id daemon_pid None 0.

Definition raw_stop_dev fd dev_id (dev_path : ptr) dev_path_len :=
  ctrl_cmd fd UBLK_U_CMD_STOP_DEV dev_id (-1) 0 dev_path dev_path_len dev_path_len.

Definition raw_stop_dev_null fd dev_id := raw_stop_dev fd dev_id None 0.

Definition raw_set_params_path fd dev_id (data : ptr) size dev_path_len :=
  ctrl_cmd fd UBLK_U_CMD_SET_PARAMS dev_id (-1) 0 data size dev_path_len.

Definition raw_set_params fd dev_id (params : ublk_params) :=
  raw_set_params_path fd dev_id (var (PParams params)) (sizeof ublk_params_layout) 0.

Definition raw_get_params_path fd dev_id (data : ptr) size dev_path_len :=
  ctrl_cmd fd UBLK_U_CMD_GET_PARAMS dev_id (-1) 0 data size dev_path_len.

Definition raw_get_params fd dev_id (params : ublk_params) :=
  raw_get_params_path fd dev_id (var (PParams params)) (sizeof ublk_params_layout) 0.

Definition raw_start_user_recovery fd dev_id (dev_path : ptr) dev_path_len :=
  ctrl_cmd fd UBLK_U_CMD_START_USER_RECOVERY dev_id (-1) 0 dev_path dev_path_len dev_path_len.

Definition raw_start_user_recovery_null fd dev_id := raw_start_user_recovery fd dev_id None 0.

Definition raw_end_user_recovery fd dev_id daemon_pid (dev_path : ptr) dev_path_len :=
  ctrl_cmd fd UBLK_U_CMD_END_USER_RECOVERY dev_id (-1) (uwrap 64 daemon_pid) dev_path
    dev_path_len dev_path_len.

Definition raw_end_user_recovery_null fd dev_id daemon_pid := raw_end_user_recovery fd dev_id daemon_pid None 0.

Definition raw_get_dev_info2 fd dev_id (data : ptr) size dev_path_len :=
  ctrl_cmd fd UBLK_U_CMD_GET_DEV_INFO2 dev_id (-1) 0 data size dev_path_len.

Definition raw_get_features fd (features : Z) :=
  ctrl_cmd fd UBLK_U_CMD_GET_FEATURES (-1) (-1) 0 (var (PFeatures features))
    UBLK_FEATURES_LEN 0.

Definition raw_del_dev_async fd dev_id (dev_path : ptr) dev_path_len :=
  ctrl_cmd fd UBLK_U_CMD_DEL_DEV_ASYNC dev_id (-1) 0 dev_path dev_path_len dev_path_len.

Definition raw_del_dev_async_null fd dev_id := raw_del_dev_async fd dev_id None 0.

Definition raw_update_size fd dev_id sectors (dev_path : ptr) dev_path_len :=
  ctrl_cmd fd UBLK_U_CMD_UPDATE_SIZE dev_id (-1) sectors dev_path dev_path_len dev_path_len.

Definition raw_update_size_null fd dev_id sectors := raw_update_size fd dev_id sectors None 0.

Definition raw_quiesce_dev fd dev_id timeout_ms (dev_path : ptr) dev_path_len :=
  ctrl_cmd fd UBLK_U_CMD_QUIESCE_DEV dev_id (-1) timeout_ms dev_path dev_path_len dev_path_len.

Definition raw_quiesce_dev_null fd dev_id timeout_ms := raw_quiesce_dev fd dev_id timeout_ms None 0.

Definition raw_try_stop_dev fd dev_id (dev_path : ptr) dev_path_len :=
  ctrl_cmd fd UBLK_U_CMD_TRY_STOP_DEV dev_id (-1) 0 dev_path dev_path_len dev_path_len.

Definition raw_try_stop_dev_null fd dev_id := raw_try_stop_dev fd dev_id None 0.

Definition raw_register_shm_buf_path fd dev_id (data : ptr) size dev_path_len :=
  ctrl_cmd fd UBLK_U_CMD_REG_BUF dev_id (-1) 0 data size dev_path_len.

Definition raw_register_shm_buf fd dev_id (reg : ublk_shmem_buf_reg) :=
  raw_register_shm_buf_path fd dev_id (var (PShmReg reg)) (sizeof ublk_shmem_buf_reg_layout) 0.

Definition raw_unregister_shm_buf fd dev_id buf_index (dev_path : ptr) dev_path_len :=
  ctrl_cmd fd UBLK_U_CMD_UNREG_BUF dev_id (-1) buf_index dev_path dev_path_len dev_path_len.

Definition raw_unregister_shm_buf_null fd dev_id buf_index := raw_unregister_shm_buf fd dev_id buf_index None 0.

(** ** I/O commands *)

Definition raw_fetch_req fd q_id tag buf_addr sqe_addr : task Z :=
  io_cmd fd UBLK_U_IO_FETCH_REQ q_id tag 0 buf_addr sqe_addr.

Definition raw_fetch_req0 fd q_id tag buf_addr := raw_fetch_req fd q_id tag buf_addr 0.

Definition raw_commit_and_fetch_req fd q_id tag result buf_addr sqe_addr : task Z :=
  io_cmd fd UBLK_U_IO_COMMIT_AND_FETCH_REQ q_id tag result buf_addr sqe_addr.

Definition raw_commit_and_fetch_req0 fd q_id tag result buf_addr :=
  raw_commit_and_fetch_req fd q_id tag result buf_addr 0.

Definition raw_need_get_data fd q_id tag buf_addr : task Z :=
  io_cmd fd UBLK_U_IO_NEED_GET_DATA q_id tag 0 buf_addr 0.

Definition raw_register_io_buf fd q_id tag buf_index : task Z :=
  io_cmd fd UBLK_U_IO_REGISTER_IO_BUF q_id tag 0 buf_index 0.

Definition raw_unregister_io_buf fd q_id tag buf_index : task Z :=
  io_cmd fd UBLK_U_IO_UNREGISTER_IO_BUF q_id tag 0 buf_index 0.

Definition raw_prep_io_cmds fd q_id flags nr_elem elem_bytes elems elems_len : task Z :=
  batch_io_cmd fd UBLK_U_IO_PREP_IO_CMDS q_id flags nr_elem elem_bytes elems elems_len.

Definition raw_commit_io_cmds fd q_id flags nr_elem elem_bytes elems elems_len : task Z :=
  batch_io_cmd fd UBLK_U_IO_COMMIT_IO_CMDS q_id flags nr_elem elem_bytes elems elems_len.

Create HintDb raw.

(** ** Lemmas *)

(** A command whose lengths agree with the buffer it points to: the driver is
    never told of more bytes than the buffer has, and splits it at the path. *)
Definition ctrl_lengths_ok (c : call) : Prop :=
  match c with
  | UringCtrl _ _ cmd =>
      cmd_len cmd = ptr_size (cmd_addr cmd) /\ cmd_dev_path_len cmd = path_size (cmd_addr cmd)
  | _ => True
  end.

Lemma ctrl_cmd_calls (P : call -> Prop) fd op dev q d0 addr len plen :
  P (UringCtrl fd op
       {| cmd_dev_id := uwrap 32 dev; cmd_queue_id := uwrap 16 q; cmd_len := uwrap 16 len;
          cmd_addr := addr; cmd_data0 := uwrap 64 d0; cmd_dev_path_len := uwrap 16 plen |}) ->
  all_calls P (ctrl_cmd fd op dev q d0 addr len plen).
Proof. intros H; split; [exact H|intros r; exact I]. Qed.

Lemma result_only_calls P s : all_calls P s -> all_calls P (result_only s).
Proof. intros; apply all_calls_let_value; simpl; auto. Qed.

Lemma with_output_calls P s : all_calls P s -> all_calls P (with_output s).
Proof. intros; apply all_calls_let_value; simpl; auto. Qed.

#[export] Hint Resolve ctrl_cmd_calls result_only_calls with_output_calls : ublk.

(** The senders are transparent to the automation that inspects their commands. *)
#[export] Hint Unfold raw_get_queue_affinity_path raw_get_queue_affinity raw_get_dev_info_path raw_get_dev_info
  raw_add_dev raw_del_dev raw_del_dev_null raw_start_dev
  raw_start_dev_null raw_stop_dev raw_stop_dev_null raw_set_params_path
  raw_set_params raw_get_params_path raw_get_params raw_start_user_recovery
  raw_start_user_recovery_null raw_end_user_recovery raw_end_user_recovery_null raw_get_dev_info2
  raw_get_features raw_del_dev_async raw_del_dev_async_null raw_update_size
  raw_update_size_null raw_quiesce_dev raw_quiesce_dev_null raw_try_stop_dev
  raw_try_stop_dev_null raw_register_shm_buf_path raw_register_shm_buf raw_unregister_shm_buf
  raw_unregister_shm_buf_null raw_fetch_req raw_fetch_req0 raw_commit_and_fetch_req
  raw_commit_and_fetch_req0 raw_need_get_data raw_register_io_buf raw_unregister_io_buf
  raw_prep_io_cmds raw_commit_io_cmds : raw.
