(* ===== verification/IoResult.v ===== *)
(** * IoResult: what a request completes with

    The helpers at the top of [src/include/ublk/detail/queue.hpp]: which
    queues need buffers and registrations, and the conversion of whatever a
    handler's sender completes with into the result committed to the driver.
    Both queues use them. *)

From S2P Require Import Prelude Effects Protocol UblkCmd Sys Ledger Raw.

#[local] Open Scope Z_scope.

Definition need_alloc_buf (flags : Z) : bool :=
  negb (has flags (UBLK_F_SUPPORT_ZERO_COPY .| UBLK_F_USER_COPY)).

Definition need_io_buf (flags op_flags : Z) : bool :=
  let zero_copy := has flags UBLK_F_SUPPORT_ZERO_COPY in
  let auto_reg := has flags UBLK_F_AUTO_BUF_REG in
  let need_reg_buf := has op_flags UBLK_IO_F_NEED_REG_BUF in
  need_reg_buf || (zero_copy && negb auto_reg).

(** The value is converted to [int32_t], the zone address to [uint64_t]. *)
Definition extract_io_result (r : io_value) : Z * Z :=
  match r with
  | IoInt r => (swrap 32 r, 0)
  | IoStruct res zone_lba =>
      (swrap 32 res, match zone_lba with Some z => uwrap 64 z | None => 0 end)
  end.

Definition normalize_error (e : err) (v : Z) : Z :=
  match e with
  | ErrCode ec => ec
  | ErrPtr (SystemError ec) => ec
  | ErrPtr _ => v
  end.

Definition wrap_handle_io (sender : task io_value) : task (Z * Z) :=
  then_ (upon_error (then_ (stopped_as_error sender (ErrCode ECANCELED)) inl)
                    (fun e => just (inr (normalize_error e EIO))))
        (fun r => match r with
                  | inr code => (swrap 32 (- code), 0)
                  | inl v => extract_io_result v
                  end).

(** [handler_.handle_io(io_data)] *)
Definition handle_io (q_id tag : Z) (buf : option Z) : task io_value :=
  trigger (HandleIo q_id tag buf) id.

(** The descriptor in shared memory, read when the code dereferences it. *)
Definition read_iod (q_id tag : Z) : task ublksrv_io_desc :=
  trigger (ReadIod q_id tag) SetValue.

(** ** Specification: the result of every way a handler can complete *)

Definition io_outcome (c : completion io_value) : Z * Z :=
  match c with
  | SetValue v => extract_io_result v
  | SetError e => (swrap 32 (- normalize_error e EIO), 0)
  | SetStopped | Unfinished => (- ECANCELED, 0)
  end.

Lemma obeys_wrap_handle_io {S} (delta : S -> forall c, reply c -> option S) q tag buf s Q :
  (forall r : completion io_value, exists s', delta s (HandleIo q tag buf) r = Some s' /\
    match r with Unfinished => Q Unfinished s' | _ => Q (SetValue (io_outcome r)) s' end) ->
  obeys delta (wrap_handle_io (handle_io q tag buf)) s Q.
Proof.
  intros H. unfold wrap_handle_io, then_.
  repeat (apply obeys_let_value || apply obeys_upon_error).
  apply obeys_stopped_as_error. intros r. destruct (H r) as (s' & Hd & HQ).
  exists s'; split; [exact Hd|]. destruct r; exact HQ.
Qed.

Lemma exec_wrap_handle_io (K : env) q tag buf (h : history) :
  K h (HandleIo q tag buf) <> Unfinished ->
  exec K (wrap_handle_io (handle_io q tag buf)) h =
  (SetValue (io_outcome (K h (HandleIo q tag buf))),
   h ++ [existT (HandleIo q tag buf) (K h (HandleIo q tag buf))]).
Proof.
  intros Hf. unfold wrap_handle_io, then_.
  rewrite exec_let_value, exec_upon_error, exec_let_value, exec_stopped_as_error.
  cbn [exec handle_io trigger id]. destruct (K h (HandleIo q tag buf)) as [v|e| |];
    reflexivity || congruence.
Qed.

Lemma io_outcome_lba r : is_u 64 (snd (io_outcome r)).
Proof.
  destruct r as [[? |? []]|e| |]; cbn; (apply uwrap_is_u; lia) || (split; vm_compute; congruence).
Qed.

(** C31: a request always completes: whatever its handler's sender does - a
    value, an error of any kind, a stop - the wrapped sender yields a value, and
    the result it yields fits the driver's [int32_t]; an error yields the negated error
    code, [-EIO] when it carries none, and a stop [-ECANCELED]. *)
Theorem handler_result_total (K : env) q tag buf (h : history) :
  K h (HandleIo q tag buf) <> Unfinished ->
  let r := K h (HandleIo q tag buf) in
  exec K (wrap_handle_io (handle_io q tag buf)) h =
    (SetValue (io_outcome r), h ++ [existT (HandleIo q tag buf) r]) /\
  is_s 32 (fst (io_outcome r)) /\ is_u 64 (snd (io_outcome r)) /\
  (forall ec, r = SetError (ErrCode ec) \/ r = SetError (ErrPtr (SystemError ec)) ->
     0 < ec < 2 ^ 31 -> fst (io_outcome r) = - ec) /\
  (forall x, r = SetError (ErrPtr x) -> (forall ec, x <> SystemError ec) ->
     fst (io_outcome r) = - EIO) /\
  (r = SetStopped -> fst (io_outcome r) = - ECANCELED).
Proof.
  intros Hf r. split; [apply exec_wrap_handle_io, Hf|]. clearbody r.
  assert (forall a, is_s 32 (swrap 32 a)) as Hs
    by (intros; apply swrap_is_s; lia).
  assert (forall ec, 0 < ec < 2 ^ 31 -> swrap 32 (- ec) = - ec) as Hneg
    by (intros; apply swrap_id; [lia|range]).
  split_all.
  - destruct r as [[]|e| |]; cbn; apply Hs || (split; vm_compute; congruence).
  - apply io_outcome_lba.
  - intros ec [->| ->] Hec; cbn; apply Hneg, Hec.
  - intros x -> Hx. cbn. destruct x; try reflexivity. destruct (Hx code); reflexivity.
  - intros ->. reflexivity.
Qed.

Lemma handler_result_total_witness :
  let K : env := fun h c =>
    match c return reply c -> reply c with
    | HandleIo _ _ _ => fun _ => SetError (ErrPtr (SystemError 28))
    | _ => id
    end (ok_reply c) in
  fst (exec K (wrap_handle_io (handle_io 0 3 None)) []) = SetValue (-28, 0).
Proof.
  intros K. destruct (handler_result_total K 0 3 None []) as (H & _); [discriminate|].
  rewrite H. reflexivity.
Defined.
