(* ===== verification/TagProtocol.v ===== *)
(** * TagProtocol: the driver's protocol for one tag of a queue

    The abstract specification of the worker coroutines: the commands the
    driver documents for a tag ([FETCH_REQ], [NEED_GET_DATA],
    [COMMIT_AND_FETCH_REQ], and the registration of the request's pages around
    its use), as an automaton over calls and replies.  [Queue] proves that
    [IoQueue] refines it. *)

From S2P Require Import Prelude Effects Protocol UblkCmd Sys Raw IoResult.

#[local] Open Scope Z_scope.

(** Who owns the tag, and how far its request is. *)
Inductive tag_phase :=
  | NotFetched
  | NeedData                           (** the driver asked for the data buffer *)
  | Owned                              (** a request has been delivered *)
  | Described (reg : bool)             (** its descriptor has been read *)
  | Registered                         (** its pages are registered *)
  | Handling                           (** the handler runs *)
  | Handled (reg : bool) (res lba : Z) (** the handler has completed *)
  | Released (res lba : Z)             (** the pages are unregistered *)
  | Committing (res addr : Z)          (** the result is ready to be committed *)
  | Aborted                            (** the driver has ended the queue *)
  | FetchFailed (r : Z)
  | Refused (ec : Z)                   (** a registration command has failed *)
  | Cancelled.

Section TagProtocol.
Context (fd : fdref) (q_id flags tag : Z) (buf : option Z).

Let buf_addr : Z := match buf with Some a => uwrap 64 a | None => 0 end.

(** With automatic registration the buffer index is the tag, with fallback. *)
Let sqe_addr : Z :=
  if has flags UBLK_F_AUTO_BUF_REG then tag + UBLK_AUTO_BUF_REG_FALLBACK * 2 ^ 16 else 0.

Definition tag_cmd (result addr : Z) : ublksrv_io_cmd :=
  {| io_q_id := q_id; io_tag := tag; io_result := result; io_addr := addr |}.

(** The io_uring command allowed in a phase. *)
Definition allowed_cmd (s : tag_phase) : option (ioc * ublksrv_io_cmd * Z) :=
  match s with
  | NotFetched => Some (UBLK_U_IO_FETCH_REQ, tag_cmd 0 buf_addr, sqe_addr)
  | NeedData => Some (UBLK_U_IO_NEED_GET_DATA, tag_cmd 0 buf_addr, 0)
  | Described true => Some (UBLK_U_IO_REGISTER_IO_BUF, tag_cmd 0 tag, 0)
  | Handled true _ _ => Some (UBLK_U_IO_UNREGISTER_IO_BUF, tag_cmd 0 tag, 0)
  | Committing res addr =>
      Some (UBLK_U_IO_COMMIT_AND_FETCH_REQ, tag_cmd res addr, sqe_addr)
  | _ => None
  end.

(** The result of a command as the driver reports it. *)
Definition res_value (r : async_res) : option Z :=
  match r with
  | AsyncOk v => Some v
  | AsyncErr ec => Some (- ec)
  | AsyncStopped => None
  end.

Definition delivered (r : Z) : tag_phase :=
  if r =? UBLK_IO_RES_ABORT then Aborted
  else if r <? 0 then FetchFailed r
  else Owned.

(** The phase after a fetching command; [may_ask]: the driver may still ask
    for the buffer. *)
Definition after_fetch (may_ask : bool) (r : async_res) : tag_phase :=
  match res_value r with
  | None => Cancelled
  | Some v => if may_ask && (v =? UBLK_IO_RES_NEED_GET_DATA) then NeedData else delivered v
  end.

Definition after_registration (s : tag_phase) (r : async_res) : tag_phase :=
  match r with
  | AsyncOk _ => s
  | AsyncErr ec => Refused ec
  | AsyncStopped => Cancelled
  end.

Definition after_cmd (s : tag_phase) (r : async_res) : tag_phase :=
  match s with
  | NotFetched | Committing _ _ => after_fetch true r
  | NeedData => after_fetch false r
  | Described _ => after_registration Registered r
  | Handled _ res lba => after_registration (Released res lba) r
  | s => s
  end.

(** The address committed: the zone append location, or the buffer. *)
Definition commit_addr (iod : ublksrv_io_desc) (lba : Z) : Z :=
  if ublksrv_get_op iod =? UBLK_IO_OP_ZONE_APPEND then lba else buf_addr.

Definition after_handler (reg : bool) (r : completion io_value) : tag_phase :=
  match r with
  | Unfinished => Handling
  | r => Handled reg (fst (io_outcome r)) (snd (io_outcome r))
  end.

Definition tag_step (s : tag_phase) (c : call) : reply c -> option tag_phase :=
  match c return reply c -> option tag_phase with
  | UringIo fd' op cmd sqe => fun r =>
      if bool_decide (fd' = fd /\ allowed_cmd s = Some (op, cmd, sqe))
      then Some (after_cmd s r) else None
  | ReadIod q' t' => fun iod =>
      if bool_decide (q' = q_id /\ t' = tag) then
        match s with
        | Owned => Some (Described (need_io_buf flags (iod_op_flags iod)))
        | Handled false res lba | Released res lba => Some (Committing res (commit_addr iod lba))
        | _ => None
        end
      else None
  | HandleIo q' t' b => fun r =>
      if bool_decide (q' = q_id /\ t' = tag /\ b = buf) then
        match s with
        | Described false => Some (after_handler false r)
        | Registered => Some (after_handler true r)
        | _ => None
        end
      else None
  | _ => fun _ => None
  end.

(** ** What the protocol guarantees *)

(** The results the handler produced and the results committed, in order. *)
Definition handled_of (e : sigT reply) : list Z :=
  match e with
  | existT c r =>
      match c return reply c -> list Z with
      | HandleIo _ _ _ => fun r =>
          match r with Unfinished => [] | r => [fst (io_outcome r)] end
      | _ => fun _ => []
      end r
  end.

Definition committed_of (e : sigT reply) : list Z :=
  match projT1 e with
  | UringIo _ op cmd _ =>
      if bool_decide (op = UBLK_U_IO_COMMIT_AND_FETCH_REQ) then [io_result cmd] else []
  | _ => []
  end.

Definition handled (t : history) : list Z := flat_map handled_of t.
Definition committed (t : history) : list Z := flat_map committed_of t.

(** The results handled and not committed in a phase. *)
Definition uncommitted (s : tag_phase) (l : list Z) : Prop :=
  match s with
  | Handled _ res _ | Released res _ | Committing res _ => l = [res]
  | Refused _ | Cancelled => (length l <= 1)%nat
  | _ => l = []
  end.

Lemma tag_step_owner s c r s' :
  tag_step s c r = Some s' ->
  match c with
  | UringIo _ _ cmd _ => io_tag cmd = tag
  | ReadIod _ t | HandleIo _ t _ => t = tag
  | _ => False
  end.
Proof.
  destruct c; simpl; intros H; try discriminate H; case_bool_decide as Hb; try discriminate H;
    try tauto.
  destruct Hb as [_ Hb]. destruct s as [| | |[]| | |[]| | | | | |]; simplify_eq/=; reflexivity.
Qed.

(** One step keeps the account of handled and committed results. *)
Lemma tag_step_account s c r s' l :
  tag_step s c r = Some s' -> uncommitted s l ->
  exists l', uncommitted s' l' /\
    l ++ handled_of (existT c r) = committed_of (existT c r) ++ l'.
Proof.
  intros H Hl. destruct c; simpl in H; try discriminate H; case_bool_decide as Hb;
    try discriminate H.
  - injection H as <-. destruct Hb as [_ Hb].
    unfold after_cmd, after_fetch, after_registration, delivered, committed_of.
    destruct s as [| | |[]| | |[]| | | | | |]; simplify_eq/=; rewrite ?app_nil_r;
      destruct r as [v|ec|]; simpl; case_tests; simpl in *; simplify_eq/=;
      repeat first
        [ discriminate
        | exists []; split; [simpl; lia || reflexivity|reflexivity]
        | eexists; split; [|reflexivity]; simpl; lia || reflexivity ].
  - destruct s as [| | |[]| | |[]| | | | | |]; simplify_eq/=; rewrite ?app_nil_r;
      eexists; (split; [|reflexivity]); reflexivity.
  - destruct s as [| | |[]| | |[]| | | | | |]; simplify_eq/=; destruct r; simpl;
      eexists; (split; [|reflexivity]); reflexivity.
Qed.

(** Along every history the protocol accepts, the committed results are the
    handled ones, in order and each once; only the last may be missing. *)
Lemma accepts_account t s s' l :
  accepts tag_step s t = Some s' -> uncommitted s l ->
  exists l', uncommitted s' l' /\ l ++ handled t = committed t ++ l'.
Proof.
  revert s l; induction t as [|[c r] t IH]; intros s l; cbn [accepts].
  - intros [= <-] Hl. exists l. rewrite app_nil_r. auto.
  - destruct (tag_step s c r) as [s1|] eqn:E; [|discriminate]. intros Ht Hl.
    destruct (tag_step_account _ _ _ _ _ E Hl) as (l1 & Hl1 & H1).
    destruct (IH _ _ Ht Hl1) as (l' & Hl' & H2). exists l'; split; [assumption|].
    change (handled (existT c r :: t)) with (handled_of (existT c r) ++ handled t).
    change (committed (existT c r :: t)) with (committed_of (existT c r) ++ committed t).
    rewrite app_assoc, H1, <- !app_assoc, H2. reflexivity.
Qed.
End TagProtocol.

(** ** The protocol of a queue

    The product of the protocols of its tags, between the handler's
    [init_queue] and [destroy_queue] when the handler has them ([qh]): the
    queue is destroyed only after every tag has ended. *)

Definition tag_ended (s : tag_phase) : bool :=
  match s with
  | Aborted | FetchFailed _ | Refused _ | Cancelled => true
  | _ => false
  end.

Definition call_tag (c : call) : option nat :=
  match c with
  | UringIo _ _ cmd _ => Some (Z.to_nat (io_tag cmd))
  | ReadIod _ t | HandleIo _ t _ => Some (Z.to_nat t)
  | _ => None
  end.

Inductive queue_phase :=
  | QueueNew
  | InitEnded (c : completion unit)      (** [init_queue] did not succeed *)
  | Running (st : nat -> tag_phase)
  | Destroyed (st : nat -> tag_phase).

Section QueueProtocol.
Context (fd : fdref) (q_id flags depth : Z) (bufs : Z -> option Z).

Definition tags_step (i : nat) (s : tag_phase) (c : call) : reply c -> option tag_phase :=
  tag_step fd q_id flags (Z.of_nat i) (bufs (Z.of_nat i)) s c.

Definition all_ended (st : nat -> tag_phase) : bool :=
  forallb (fun i => tag_ended (st i)) (seq 0 (Z.to_nat depth)).

Definition queue_step (s : queue_phase) (c : call) : reply c -> option queue_phase :=
  match s with
  | QueueNew =>
      match c return reply c -> option queue_phase with
      | InitQueue q => fun r =>
          if q =? q_id then
            Some (match r with SetValue _ => Running (fun _ => NotFetched) | r => InitEnded r end)
          else None
      | _ => fun _ => None
      end
  | Running st =>
      match c return reply c -> option queue_phase with
      | DestroyQueue q => fun _ =>
          if (q =? q_id) && all_ended st then Some (Destroyed st) else None
      | c => fun r => option_map Running (product tags_step call_tag st c r)
      end
  | _ => fun _ => None
  end.

(** The exception a tag ended with, and what the queue completes with: the
    exception of the lowest tag that has one. *)
Definition tag_error (s : tag_phase) : option exn :=
  match s with
  | FetchFailed r => Some (SystemError (- r))
  | Refused ec => Some (SystemError ec)
  | _ => None
  end.

Definition queue_result (st : nat -> tag_phase) : completion unit :=
  match omap (fun i => tag_error (st i)) (seq 0 (Z.to_nat depth)) with
  | [] => SetValue tt
  | x :: _ => SetError (ErrPtr x)
  end.

(** How a queue ends in each phase. *)
Definition queue_done (qh : bool) (c : completion unit) (s : queue_phase) : Prop :=
  c = Unfinished \/
  match s with
  | QueueNew => False
  | InitEnded r => c = match r with
                       | SetError e => SetError (ErrPtr (as_except_ptr e))
                       | r => r
                       end
  | Running st => qh = false /\ all_ended st = true /\ c = queue_result st
  | Destroyed st => qh = true /\ all_ended st = true /\ c = queue_result st
  end.

Lemma tags_step_owner i s c r s' : tags_step i s c r = Some s' -> call_tag c = Some i.
Proof.
  intros H. apply tag_step_owner in H. destruct c; simpl in *; try contradiction;
    rewrite H, Nat2Z.id; reflexivity.
Qed.

(** Running the product protocol inside the queue's. *)
Lemma obeys_running {A} (p : task A) st (Q : completion A -> queue_phase -> Prop) :
  obeys (product tags_step call_tag) p st (fun c st' => Q c (Running st')) ->
  obeys queue_step p (Running st) Q.
Proof.
  revert st; induction p as [c|c k IH]; intros st; simpl; [auto|].
  intros H r. destruct (H r) as (st' & Hd & Hk). exists (Running st'). split; [|apply IH, Hk].
  destruct c; cbn [queue_step]; try (unfold product in Hd; discriminate Hd);
    rewrite Hd; reflexivity.
Qed.
End QueueProtocol.
