(* ===== verification/Queue.v ===== *)
(** * Queue: the per-command I/O queue

    [IoQueue] of [src/include/ublk/detail/queue.hpp]: its constructor and
    clean-up, the worker coroutine of a tag, and [run], which spawns one worker
    per tag on the queue's scheduler, joins them and rethrows the first error.
    The workers concurrently at their calls under any schedule. *)

From S2P Require Import Prelude Effects Protocol UblkCmd Utils Sys Ledger Raw IoResult TagProtocol.

#[local] Open Scope Z_scope.

Record IoQueue := {
  ublkc_fd_ : fdref;
  q_id_ : Z;
  flags_ : Z;
  queue_depth_ : Z;
  max_io_buf_bytes_ : Z;
  (** [QueueHandler<Handler>]: the handler has the per-queue callbacks. *)
  queue_handler : bool;
  iod_base_ : option Z;
  buf_bases_ : list Z;
}.

Definition set_iod_base (a : option Z) (q : IoQueue) : IoQueue :=
  {| ublkc_fd_ := ublkc_fd_ q; q_id_ := q_id_ q; flags_ := flags_ q;
     queue_depth_ := queue_depth_ q; max_io_buf_bytes_ := max_io_buf_bytes_ q;
     queue_handler := queue_handler q; iod_base_ := a; buf_bases_ := buf_bases_ q |}.

Definition set_buf_bases (l : list Z) (q : IoQueue) : IoQueue :=
  {| ublkc_fd_ := ublkc_fd_ q; q_id_ := q_id_ q; flags_ := flags_ q;
     queue_depth_ := queue_depth_ q; max_io_buf_bytes_ := max_io_buf_bytes_ q;
     queue_handler := queue_handler q; iod_base_ := iod_base_ q; buf_bases_ := l |}.

Definition PROT_READ : Z := 1.

(** How a scope that a queue runs in observes the end of a C++ function: with
    the object as it was left, and the exception if one was thrown. *)
Abbreviation ctor Q := (task (Q * option exn)).

(** The guard of the constructors: [cleanup] when the body throws. *)
Definition guarded_ctor {Q} (body : ctor Q) (cleanup : Q -> task Q) : task Q :=
  let_value body (fun '(q, e) =>
    match e with
    | None => just q
    | Some x => let_value (cleanup q) (fun _ => throw x)
    end).

(** [alloc_aligned] and [free_aligned] (utils.hpp). *)
Definition alloc_aligned (bytes alignment : Z) : task (option Z) :=
  trigger (AllocAligned bytes alignment) SetValue.

Definition free_aligned (p bytes alignment : Z) : task unit :=
  perform (FreeAligned p bytes alignment) id.

(** The loop that allocates the data buffers, [n] of them left; [base] is the
    vector so far. *)
Fixpoint alloc_bufs (max page : Z) (n : nat) (bases : list Z) : ctor (list Z) :=
  match n with
  | O => just (bases, None)
  | S n => let_value (alloc_aligned max page) (fun r =>
             match r with
             | Some p => alloc_bufs max page n (bases ++ [p])
             | None => just (bases, Some BadAlloc)
             end)
  end.

Fixpoint free_bufs (max page : Z) (bases : list Z) : task unit :=
  match bases with
  | [] => just tt
  | p :: bases => let_value (free_aligned p max page) (fun _ => free_bufs max page bases)
  end.

Definition iod_map_size (queue_depth : Z) : Z := queue_depth * sizeof ublksrv_io_desc_layout.

Definition map_iod (fd_raw q_id queue_depth : Z) : task sys_res :=
  trigger (Mmap (iod_map_size queue_depth) PROT_READ fd_raw (io_desc_offset q_id)) SetValue.

Definition get_buf_ (bases : list Z) (tag : Z) : option Z :=
  match bases with
  | [] => None
  | _ => bases !! Z.to_nat tag
  end.

Section IoQueueDef.
Context (page : Z).

Definition IoQueue_init (fd_raw : Z) (q : IoQueue) : ctor IoQueue :=
  let_value (map_iod fd_raw (q_id_ q) (queue_depth_ q)) (fun r =>
    match r with
    | SysErr errno => just (q, Some (SystemError errno))
    | SysOk addr =>
        let q := set_iod_base (Some addr) q in
        if need_alloc_buf (flags_ q) then
          let_value (alloc_bufs (max_io_buf_bytes_ q) page (Z.to_nat (queue_depth_ q)) [])
            (fun '(bases, e) => just (set_buf_bases bases q, e))
        else just (q, None)
    end).

Definition IoQueue_cleanup_ (q : IoQueue) : task IoQueue :=
  let_value (free_bufs (max_io_buf_bytes_ q) page (buf_bases_ q)) (fun _ =>
    let q := set_buf_bases [] q in
    match iod_base_ q with
    | Some a =>
        let_value (perform (Munmap a (iod_map_size (queue_depth_ q))) id) (fun _ =>
          just (set_iod_base None q))
    | None => just q
    end).

(** The constructor: the members are initialised from the arguments, then the
    body runs under the guard. *)
Definition IoQueue_ctor (ublkc_fd : fdref) (ublkc_fd_raw q_id flags queue_depth
    max_io_buf_bytes : Z) (qh : bool) : task IoQueue :=
  guarded_ctor
    (IoQueue_init ublkc_fd_raw
       {| ublkc_fd_ := ublkc_fd; q_id_ := q_id; flags_ := flags; queue_depth_ := queue_depth;
          max_io_buf_bytes_ := max_io_buf_bytes; queue_handler := qh;
          iod_base_ := None; buf_bases_ := [] |})
    IoQueue_cleanup_.

Definition IoQueue_dtor (q : IoQueue) : task unit :=
  then_ (IoQueue_cleanup_ q) (fun _ => tt).
End IoQueueDef.

(** [reinterpret_cast<uint64_t>] of a pointer. *)
Definition ptr_u64 (p : option Z) : Z := match p with Some a => uwrap 64 a | None => 0 end.

Section Worker.
Context (q : IoQueue) (tag : Z).

Let buf : option Z := get_buf_ (buf_bases_ q) tag.

Definition worker_buf_addr : Z := ptr_u64 buf.

Definition worker_sqe_addr : Z :=
  if has (flags_ q) UBLK_F_AUTO_BUF_REG then
    ublk_auto_buf_reg_to_sqe_addr
      {| abr_index := tag; abr_flags := UBLK_AUTO_BUF_REG_FALLBACK;
         abr_reserved0 := 0; abr_reserved1 := 0 |}
  else 0.

(** The answer to a fetch, and to the command that hands the buffer over when
    the driver asks for it. *)
Definition get_data_if_needed (r : Z) : task Z :=
  if r =? UBLK_IO_RES_NEED_GET_DATA then
    co_await (neg_error (raw_need_get_data (ublkc_fd_ q) (q_id_ q) tag worker_buf_addr))
  else just r.

(** The checks after a fetch, and the next round of the loop. *)
Definition check_fetched (r : Z) (k : task unit) : task unit :=
  if r =? UBLK_IO_RES_ABORT then just tt
  else if r <? 0 then throw (SystemError (- r))
  else k.

(** The body of [while (true)], observed for [fuel] rounds.  The assertion that
    a queue of a zoned device has no buffer address, [buf_addr == 0] where the
    operation is [ZONE_APPEND], is left out, as in a release build. *)
Fixpoint worker_loop (fuel : nat) : task unit :=
  match fuel with
  | O => Done Unfinished
  | S fuel =>
      let_value (read_iod (q_id_ q) tag) (fun iod =>
      let io_buf := need_io_buf (flags_ q) (iod_op_flags iod) in
      do! (if io_buf then raw_register_io_buf (ublkc_fd_ q) (q_id_ q) tag tag else just 0) in
      let! '(res, zone_lba) := wrap_handle_io (handle_io (q_id_ q) tag buf) in
      do! (if io_buf then raw_unregister_io_buf (ublkc_fd_ q) (q_id_ q) tag tag else just 0) in
      let_value (read_iod (q_id_ q) tag) (fun iod =>
      let curr_buf_addr :=
        if ublksrv_get_op iod =? UBLK_IO_OP_ZONE_APPEND then zone_lba else worker_buf_addr in
      let! r := neg_error (raw_commit_and_fetch_req (ublkc_fd_ q) (q_id_ q) tag res
                             curr_buf_addr worker_sqe_addr) in
      let_value (get_data_if_needed r) (fun r => check_fetched r (worker_loop fuel))))
  end.

Definition worker_ (fuel : nat) : task unit :=
  let! r := neg_error (raw_fetch_req (ublkc_fd_ q) (q_id_ q) tag worker_buf_addr
                         worker_sqe_addr) in
  let_value (get_data_if_needed r) (fun r => check_fetched r (worker_loop fuel)).
End Worker.

(** The exceptions the workers stored in [errs], in the order of the tags. *)
Definition worker_errors (cs : list (completion unit)) : list exn :=
  omap (fun c => match c with SetError e => Some (as_except_ptr e) | _ => None end) cs.

Definition rethrow_first (l : list exn) : task unit :=
  match l with [] => just tt | x :: _ => throw x end.

Definition all_tags (queue_depth : Z) : list Z := seqZ 0 queue_depth.

(** [handler_.init_queue], when the handler has it, with the guard that calls
    [destroy_queue] when the scope is left. *)
Definition with_init_queue (qh : bool) (q_id : Z) (body : task unit) : task unit :=
  if qh then
    do! (trigger (InitQueue q_id) id : task unit) in
    defer body (perform (DestroyQueue q_id) id)
  else body.

(** [run]: the workers under the schedule [sched], each observed for [fuel]
    rounds. *)
Definition IoQueue_run (fuel : nat) (sched : list nat) (q : IoQueue) : task unit :=
  with_init_queue (queue_handler q) (q_id_ q)
    (let_value (concurrently sched (map (fun tag => worker_ q tag fuel) (all_tags (queue_depth_ q))))
       (fun ps => match join_all ps with
                  | Some cs => rethrow_first (worker_errors cs)
                  | None => Done Unfinished
                  end)).

(** ** The worker refines the driver's protocol *)

(** How a worker ends in each final phase; in any other phase it has not. *)
Definition worker_done (c : completion unit) (s : tag_phase) : Prop :=
  match s with
  | Aborted => c = SetValue tt
  | FetchFailed r => c = SetError (ErrPtr (SystemError (- r)))
  | Refused ec => c = SetError (ErrPtr (SystemError ec))
  | Cancelled => c = SetStopped
  | _ => c = Unfinished
  end.

Section WorkerProtocol.
Context (q : IoQueue) (tag : Z).
Hypothesis Hq : is_u 16 (q_id_ q).
Hypothesis Htag : is_u 16 tag.

Let step := tag_step (ublkc_fd_ q) (q_id_ q) (flags_ q) tag (get_buf_ (buf_bases_ q) tag).
Let allowed := allowed_cmd (q_id_ q) (flags_ q) tag (get_buf_ (buf_bases_ q) tag).

Lemma worker_sqe_addr_packed :
  worker_sqe_addr q tag =
  if has (flags_ q) UBLK_F_AUTO_BUF_REG then tag + UBLK_AUTO_BUF_REG_FALLBACK * 2 ^ 16 else 0.
Proof.
  unfold worker_sqe_addr. destruct (has _ _); [|reflexivity].
  rewrite auto_buf_reg_sum.
  - cbn [abr_index abr_flags abr_reserved0 abr_reserved1]. lia.
  - unfold auto_buf_reg_ok; cbn [abr_index abr_flags abr_reserved0 abr_reserved1].
    split_all; (assumption || (apply (bool_decide_unpack _); vm_compute; exact I)).
Qed.

Lemma obeys_tag_cmd op result addr sqe s (Q : completion Z -> tag_phase -> Prop) :
  is_u 64 addr -> is_u 64 sqe -> allowed s = Some (op, tag_cmd (q_id_ q) tag result addr, sqe) ->
  (forall r, Q (lift_res r) (after_cmd s r)) ->
  obeys step (io_cmd (ublkc_fd_ q) op (q_id_ q) tag result addr sqe) s Q.
Proof.
  intros Ha Hs Hal HQ. apply obeys_trigger. intros r. eexists; split; [|apply HQ].
  cbn [step tag_step]. rewrite !uwrap_id by assumption.
  rewrite bool_decide_eq_true_2; [reflexivity|]. split; [reflexivity|exact Hal].
Qed.

Lemma worker_buf_addr_u64 : is_u 64 (worker_buf_addr q tag).
Proof.
  unfold worker_buf_addr, ptr_u64. destruct (get_buf_ _ _); [apply uwrap_is_u; lia|].
  split; vm_compute; congruence.
Qed.

Lemma worker_sqe_addr_u64 : is_u 64 (worker_sqe_addr q tag).
Proof.
  rewrite worker_sqe_addr_packed. unfold UBLK_AUTO_BUF_REG_FALLBACK. rewrite Z.shiftl_1_l.
  destruct (has _ _); range.
Qed.

Lemma allowed_sqe s op cmd :
  allowed s = Some (op, cmd, worker_sqe_addr q tag) <->
  allowed s = Some (op, cmd, if has (flags_ q) UBLK_F_AUTO_BUF_REG
                             then tag + UBLK_AUTO_BUF_REG_FALLBACK * 2 ^ 16 else 0).
Proof. rewrite worker_sqe_addr_packed; reflexivity. Qed.

(** After a fetching command, the worker goes on as the phase says. *)
Lemma obeys_fetched (r : async_res) (k : task unit) :
  obeys step k Owned worker_done ->
  match lift_res r with
  | SetValue v => obeys step (let_value (get_data_if_needed q tag v) (fun v => check_fetched v k))
                    (after_fetch true r) worker_done
  | SetError e => obeys step (let_value (get_data_if_needed q tag (- err_value e))
                                (fun v => check_fetched v k)) (after_fetch true r) worker_done
  | _ => after_fetch true r = Cancelled
  end.
Proof.
  intros Hk.
  assert (forall v, obeys step (check_fetched v k) (delivered v) worker_done) as Hcheck.
  { intros v. unfold check_fetched, delivered.
    destruct (v =? UBLK_IO_RES_ABORT); [reflexivity|].
    destruct (v <? 0); [reflexivity|exact Hk]. }
  assert (forall v, obeys step (let_value (get_data_if_needed q tag v)
                                  (fun v => check_fetched v k))
            (if v =? UBLK_IO_RES_NEED_GET_DATA then NeedData else delivered v) worker_done)
    as Hget.
  { intros v. apply obeys_let_value. unfold get_data_if_needed.
    destruct (v =? UBLK_IO_RES_NEED_GET_DATA); [|apply Hcheck].
    apply obeys_co_await, obeys_upon_error.
    apply obeys_tag_cmd; [apply worker_buf_addr_u64|split; vm_compute; congruence|reflexivity|].
    intros [v'|ec|]; cbn; [apply Hcheck|apply Hcheck|reflexivity]. }
  destruct r as [v|ec|]; cbn; [apply Hget|apply Hget|reflexivity].
Qed.

Lemma obeys_neg_fetch op result addr s k :
  is_u 64 addr -> allowed s = Some (op, tag_cmd (q_id_ q) tag result addr, worker_sqe_addr q tag) ->
  (forall r, after_cmd s r = after_fetch true r) ->
  obeys step k Owned worker_done ->
  obeys step (let_value (co_await (neg_error (io_cmd (ublkc_fd_ q) op (q_id_ q) tag result addr
                                                (worker_sqe_addr q tag))))
                (fun r => let_value (get_data_if_needed q tag r) (fun r => check_fetched r k)))
    s worker_done.
Proof.
  intros Ha Hal Hafter Hk. apply obeys_let_value, obeys_co_await, obeys_upon_error.
  apply obeys_tag_cmd; [assumption|apply worker_sqe_addr_u64|assumption|].
  intros r. rewrite Hafter. pose proof (obeys_fetched r k Hk) as H.
  destruct r; cbn in *; [exact H|exact H|reflexivity].
Qed.

(** A registration command, when the request needs one. *)
Lemma obeys_registration op s (k : task unit) :
  allowed s = Some (op, tag_cmd (q_id_ q) tag 0 tag, 0) ->
  (exists s', (forall r, after_cmd s r = after_registration s' r) /\ obeys step k s' worker_done) ->
  obeys step (let_value (co_await (io_cmd (ublkc_fd_ q) op (q_id_ q) tag 0 tag 0)) (fun _ => k))
    s worker_done.
Proof.
  intros Hal (s' & Hafter & Hk). apply obeys_let_value, obeys_co_await.
  apply obeys_tag_cmd; [range|split; vm_compute; congruence|assumption|].
  intros r. rewrite Hafter. destruct r; [exact Hk|reflexivity|reflexivity].
Qed.

Lemma obeys_read_iod s (k : ublksrv_io_desc -> task unit) :
  (forall iod, exists s', step s (ReadIod (q_id_ q) tag) iod = Some s' /\ obeys step (k iod) s' worker_done) ->
  obeys step (let_value (read_iod (q_id_ q) tag) k) s worker_done.
Proof. intros H. apply obeys_let_value, obeys_trigger. exact H. Qed.

Lemma step_read_iod s iod :
  step s (ReadIod (q_id_ q) tag) iod =
  match s with
  | Owned => Some (Described (need_io_buf (flags_ q) (iod_op_flags iod)))
  | Handled false res lba | Released res lba =>
      Some (Committing res (commit_addr (get_buf_ (buf_bases_ q) tag) iod lba))
  | _ => None
  end.
Proof. cbn [step tag_step]. rewrite bool_decide_eq_true_2 by auto. reflexivity. Qed.

(** The part of a round that follows the registration. *)
Let serve (reg : bool) (k : task unit) : task unit :=
  let! '(res, zone_lba) :=
    wrap_handle_io (handle_io (q_id_ q) tag (get_buf_ (buf_bases_ q) tag)) in
  do! (if reg then raw_unregister_io_buf (ublkc_fd_ q) (q_id_ q) tag tag else just 0) in
  let_value (read_iod (q_id_ q) tag) (fun iod =>
  let! r := neg_error (raw_commit_and_fetch_req (ublkc_fd_ q) (q_id_ q) tag res
      (if ublksrv_get_op iod =? UBLK_IO_OP_ZONE_APPEND then zone_lba
       else worker_buf_addr q tag) (worker_sqe_addr q tag)) in
  let_value (get_data_if_needed q tag r) (fun r => check_fetched r k)).

Lemma serve_obeys reg k :
  obeys step k Owned worker_done ->
  obeys step (serve reg k) (if reg then Registered else Described false) worker_done.
Proof.
  intros Hk. unfold serve.
  apply obeys_let_value, obeys_co_await, obeys_wrap_handle_io. intros r.
  exists (after_handler reg r). split.
  { cbn [step tag_step]. rewrite bool_decide_eq_true_2 by auto. destruct reg; reflexivity. }
  pose proof (io_outcome_lba r) as Hlba.
  assert (forall res lba s, (s = Handled false res lba \/ s = Released res lba) -> is_u 64 lba ->
    obeys step (let_value (read_iod (q_id_ q) tag) (fun iod =>
      let! r := neg_error (raw_commit_and_fetch_req (ublkc_fd_ q) (q_id_ q) tag res
        (if ublksrv_get_op iod =? UBLK_IO_OP_ZONE_APPEND then lba
         else worker_buf_addr q tag) (worker_sqe_addr q tag)) in
      let_value (get_data_if_needed q tag r) (fun r => check_fetched r k))) s worker_done)
    as Hcommit.
  { intros res lba s Hs Hl. apply obeys_read_iod. intros iod.
    exists (Committing res (commit_addr (get_buf_ (buf_bases_ q) tag) iod lba)). split.
    { rewrite step_read_iod. destruct Hs as [-> | ->]; reflexivity. }
    pose proof worker_buf_addr_u64. unfold commit_addr.
    apply obeys_neg_fetch; [case_tests; assumption|apply allowed_sqe; reflexivity|reflexivity|exact Hk]. }
  destruct r as [v|e| |]; [| | |reflexivity];
    cbn [after_handler then_obeys]; destruct (io_outcome _) as [res lba]; cbn [fst snd] in *;
    (destruct reg;
     [apply obeys_registration; [reflexivity|]; exists (Released res lba);
      split; [reflexivity|exact (Hcommit res lba _ (or_intror eq_refl) Hlba)]
     |apply obeys_let_value, obeys_co_await; exact (Hcommit res lba _ (or_introl eq_refl) Hlba)]).
Qed.

Lemma worker_loop_obeys fuel : obeys step (worker_loop q tag fuel) Owned worker_done.
Proof.
  induction fuel as [|fuel IH]; [reflexivity|]. cbn [worker_loop].
  apply obeys_read_iod. intros iod. eexists; split; [rewrite step_read_iod; reflexivity|].
  pose proof (serve_obeys (need_io_buf (flags_ q) (iod_op_flags iod)) _ IH) as Hserve.
  destruct (need_io_buf (flags_ q) (iod_op_flags iod)).
  - apply obeys_registration; [reflexivity|]. exists Registered. split; [reflexivity|exact Hserve].
  - apply obeys_let_value, obeys_co_await. exact Hserve.
Qed.

Lemma worker_obeys fuel : obeys step (worker_ q tag fuel) NotFetched worker_done.
Proof.
  unfold worker_. apply obeys_neg_fetch;
    [apply worker_buf_addr_u64|apply allowed_sqe; reflexivity|reflexivity|apply worker_loop_obeys].
Qed.
End WorkerProtocol.

(** ** Termination *)

Section Termination.
Context (K : env) (q : IoQueue) (tag : Z).
Hypothesis handler_completes : forall h buf, K h (HandleIo (q_id_ q) tag buf) <> Unfinished.

(** The driver aborts the commit of the [n]-th request from [h] on. *)
Definition aborts_after (h : history) (n : nat) : Prop :=
  forall t cmd sqe, (n <= length (handled t))%nat ->
    K (h ++ t) (UringIo (ublkc_fd_ q) UBLK_U_IO_COMMIT_AND_FETCH_REQ cmd sqe) = AsyncErr ENODEV.

Lemma aborts_after_app h t n :
  aborts_after h n -> aborts_after (h ++ t) (n - length (handled t))%nat.
Proof.
  intros H t' cmd sqe Hn. rewrite <- app_assoc. apply H.
  unfold handled in *. rewrite flat_map_app, length_app. lia.
Qed.

Lemma exec_io_cmd fd op t result addr sqe h :
  exec K (io_cmd fd op (q_id_ q) t result addr sqe) h =
  let c := UringIo fd op {| io_q_id := uwrap 16 (q_id_ q); io_tag := uwrap 16 t;
                            io_result := result; io_addr := uwrap 64 addr |} (uwrap 64 sqe) in
  (lift_res (K h c), h ++ [existT c (K h c)]).
Proof. reflexivity. Qed.

(** The rest of a round after a fetching command. *)
Lemma fetched_settles (r : Z) h (P : history -> Prop) :
  (r <> UBLK_IO_RES_ABORT -> forall t, handled t = [] -> P t) ->
  settles K (fun k => let_value (get_data_if_needed q tag r) (fun r => check_fetched r k)) h P.
Proof.
  intros HP. apply settles_let_value.
  - unfold get_data_if_needed. destruct (r =? _); [|discriminate].
    unfold neg_error, raw_need_get_data. rewrite exec_co_await, exec_upon_error, exec_io_cmd.
    cbv zeta. destruct (K h _); discriminate.
  - intros v t Hv.
    assert (r <> UBLK_IO_RES_ABORT -> handled t = []) as Ht.
    { intros _. revert Hv. unfold get_data_if_needed. destruct (r =? _).
      - unfold neg_error, raw_need_get_data. rewrite exec_co_await, exec_upon_error, exec_io_cmd.
        cbv zeta. destruct (K h _); intros [= _ Hx]; apply app_inv_head in Hx; rewrite <- Hx;
          reflexivity.
      - cbn. intros [= _ Hx]. rewrite <- (app_nil_r h) in Hx at 1.
        apply app_inv_head in Hx. rewrite <- Hx. reflexivity. }
    unfold check_fetched.
    destruct (Z.eqb_spec v UBLK_IO_RES_ABORT) as [|Hv']; [apply settles_done; discriminate|].
    destruct (v <? 0); [apply settles_done; discriminate|].
    apply settles_next. rewrite app_nil_r.
    assert (r <> UBLK_IO_RES_ABORT) as Hr.
    { intros ->. change (exec K _ h) with (SetValue UBLK_IO_RES_ABORT, h) in Hv. congruence. }
    apply HP; auto.
Qed.

Lemma registration_settles_pre (io_buf : bool) op h :
  fst (exec K (co_await (if io_buf then io_cmd (ublkc_fd_ q) op (q_id_ q) tag 0 tag 0 else just 0)) h)
  <> Unfinished.
Proof.
  rewrite exec_co_await. destruct io_buf; [|discriminate].
  rewrite exec_io_cmd. cbv zeta. destruct (K h _); discriminate.
Qed.

Lemma registration_handled (io_buf : bool) op h t v :
  exec K (co_await (if io_buf then io_cmd (ublkc_fd_ q) op (q_id_ q) tag 0 tag 0 else just 0)) h =
  (SetValue v, h ++ t) -> handled t = [].
Proof.
  rewrite exec_co_await. destruct io_buf.
  - rewrite exec_io_cmd. cbv zeta. destruct (K h _); intros [= _ Hx];
      apply app_inv_head in Hx; rewrite <- Hx; reflexivity.
  - cbn. intros [= _ Hx]. rewrite <- (app_nil_r h) in Hx at 1.
    apply app_inv_head in Hx. rewrite <- Hx. reflexivity.
Qed.

Lemma handled_app t1 t2 : handled (t1 ++ t2) = handled t1 ++ handled t2.
Proof. apply flat_map_app. Qed.

(** A round of the loop handles one request, and does not go on when the
    driver aborts its commit. *)
Definition worker_round (k : task unit) : task unit :=
  let_value (read_iod (q_id_ q) tag) (fun iod =>
  let io_buf := need_io_buf (flags_ q) (iod_op_flags iod) in
  do! (if io_buf then raw_register_io_buf (ublkc_fd_ q) (q_id_ q) tag tag else just 0) in
  let! '(res, zone_lba) :=
    wrap_handle_io (handle_io (q_id_ q) tag (get_buf_ (buf_bases_ q) tag)) in
  do! (if io_buf then raw_unregister_io_buf (ublkc_fd_ q) (q_id_ q) tag tag else just 0) in
  let_value (read_iod (q_id_ q) tag) (fun iod =>
  let curr_buf_addr :=
    if ublksrv_get_op iod =? UBLK_IO_OP_ZONE_APPEND then zone_lba else worker_buf_addr q tag in
  let! r := neg_error (raw_commit_and_fetch_req (ublkc_fd_ q) (q_id_ q) tag res
                         curr_buf_addr (worker_sqe_addr q tag)) in
  let_value (get_data_if_needed q tag r) (fun r => check_fetched r k))).

Lemma worker_loop_round fuel :
  worker_loop q tag (S fuel) = worker_round (worker_loop q tag fuel).
Proof. reflexivity. Qed.

Lemma worker_round_settles h :
  settles K worker_round h (fun t => length (handled t) = 1%nat /\ ~ aborts_after h 1).
Proof.
  apply settles_let_value; [discriminate|]. intros iod t1 H1.
  assert (handled t1 = []) as Ht1.
  { cbn in H1. injection H1 as _ Hx. apply app_inv_head in Hx. rewrite <- Hx. reflexivity. }
  cbv zeta. set (io_buf := need_io_buf _ _).
  apply settles_let_value; [apply registration_settles_pre|]. intros v2 t2 H2.
  apply registration_handled in H2.
  apply settles_let_value.
  { rewrite exec_co_await, exec_wrap_handle_io by apply handler_completes. discriminate. }
  intros [res lba] t3 H3.
  assert (length (handled t3) = 1%nat) as Ht3.
  { rewrite exec_co_await, exec_wrap_handle_io in H3 by apply handler_completes.
    injection H3 as _ Hx. apply app_inv_head in Hx. rewrite <- Hx.
    pose proof (handler_completes ((h ++ t1) ++ t2) (get_buf_ (buf_bases_ q) tag)) as Hc.
    unfold handled; cbn [flat_map handled_of]. rewrite app_nil_r.
    destruct (K _ (HandleIo _ _ _)); [reflexivity..|congruence]. }
  apply settles_let_value; [apply registration_settles_pre|]. intros v4 t4 H4.
  apply registration_handled in H4.
  apply settles_let_value; [discriminate|]. intros iod' t5 H5.
  assert (handled t5 = []) as Ht5.
  { cbn in H5. injection H5 as _ Hx. apply app_inv_head in Hx. rewrite <- Hx. reflexivity. }
  cbv zeta. unfold raw_commit_and_fetch_req, neg_error.
  apply settles_let_value.
  { rewrite exec_co_await, exec_upon_error, exec_io_cmd. cbv zeta.
    destruct (K _ (UringIo _ _ _ _)); discriminate. }
  intros r t6 H6.
  rewrite exec_co_await, exec_upon_error, exec_io_cmd in H6. cbv zeta in H6.
  set (cmd := Build_ublksrv_io_cmd _ _ _ _) in H6.
  set (hc := ((((h ++ t1) ++ t2) ++ t3) ++ t4) ++ t5) in *.
  apply fetched_settles. intros Hr t Ht. rewrite !handled_app, Ht, Ht1, H2, H4, Ht5.
  split.
  - destruct (K hc _); injection H6 as _ Hx; apply app_inv_head in Hx; rewrite <- Hx;
      simpl; rewrite ?app_nil_r; exact Ht3.
  - intros Hab. apply Hr. specialize (Hab (t1 ++ t2 ++ t3 ++ t4 ++ t5) cmd
      (uwrap 64 (worker_sqe_addr q tag))).
    rewrite !handled_app, Ht1, H2, H4, Ht5 in Hab. simpl in Hab.
    rewrite app_nil_r, Ht3 in Hab. specialize (Hab (le_n _)).
    rewrite !app_assoc in Hab. fold hc in Hab. rewrite Hab in H6.
    injection H6 as Hx _. symmetry. exact Hx.
Qed.

Lemma worker_loop_terminates n :
  forall h, aborts_after h n -> (1 <= n)%nat ->
  exists c h', c <> Unfinished /\
    forall fuel, (n <= fuel)%nat -> exec K (worker_loop q tag fuel) h = (c, h').
Proof.
  induction n as [|n IH]; intros h Hab Hn; [lia|].
  destruct (worker_round_settles h) as [(c & h' & Hc & H)|(t & (Ht & Hno) & H)].
  - exists c, h'. split; [assumption|]. intros [|fuel] Hf; [lia|].
    rewrite worker_loop_round. apply H.
  - destruct n as [|n]; [contradiction|].
    pose proof (aborts_after_app _ t _ Hab) as Hab'. rewrite Ht in Hab'.
    replace (S (S n) - 1)%nat with (S n) in Hab' by lia.
    destruct (IH _ Hab') as (c & h' & Hc & Hx); [lia|].
    exists c, h'. split; [assumption|]. intros [|fuel] Hf; [lia|].
    rewrite worker_loop_round, H. apply Hx. lia.
Qed.

Lemma worker_completes h n :
  aborts_after h n -> (1 <= n)%nat ->
  exists c h', c <> Unfinished /\
    forall fuel, (n <= fuel)%nat -> exec K (worker_ q tag fuel) h = (c, h').
Proof.
  intros Hab Hn.
  assert (settles K (fun k =>
      let! r := neg_error (raw_fetch_req (ublkc_fd_ q) (q_id_ q) tag (worker_buf_addr q tag)
                             (worker_sqe_addr q tag)) in
      let_value (get_data_if_needed q tag r) (fun r => check_fetched r k)) h
    (fun t => handled t = [])) as [(c & h' & Hc & H)|(t & Ht & H)].
  { unfold neg_error, raw_fetch_req. apply settles_let_value.
    - rewrite exec_co_await, exec_upon_error, exec_io_cmd. cbv zeta.
      destruct (K _ (UringIo _ _ _ _)); discriminate.
    - intros r t H. rewrite exec_co_await, exec_upon_error, exec_io_cmd in H. cbv zeta in H.
      apply fetched_settles. intros _ t' Ht'. rewrite handled_app, Ht', app_nil_r.
      destruct (K _ (UringIo _ _ _ _)); injection H as _ Hx; apply app_inv_head in Hx;
        rewrite <- Hx; reflexivity. }
  - exists c, h'. split; [assumption|]. intros fuel _. apply H.
  - pose proof (aborts_after_app _ t _ Hab) as Hab'. rewrite Ht, Nat.sub_0_r in Hab'.
    destruct (worker_loop_terminates n _ Hab' Hn) as (c & h' & Hc & Hx).
    exists c, h'. split; [assumption|]. intros fuel Hf. unfold worker_. rewrite H. auto.
Qed.
End Termination.

(** ** The queue refines the product protocol *)

Lemma worker_done_ended c s : worker_done c s -> c <> Unfinished -> tag_ended s = true.
Proof. destruct s; simpl; congruence. Qed.

Lemma worker_done_error c s :
  worker_done c s -> c <> Unfinished ->
  match c with SetError e => Some (as_except_ptr e) | _ => None end = tag_error s.
Proof. destruct s; simpl; intros -> H; try reflexivity; congruence. Qed.

Lemma all_tags_lookup d i tag :
  all_tags d !! i = Some tag -> tag = Z.of_nat i /\ (i < Z.to_nat d)%nat.
Proof. intros H. apply lookup_seqZ in H as [-> Hi]. lia. Qed.

Section QueueProtocolProof.
Context (q : IoQueue) (fuel : nat) (sched : list nat).
Hypothesis Hq : is_u 16 (q_id_ q).
Hypothesis Hdepth : is_u 16 (queue_depth_ q).

Let bufs := get_buf_ (buf_bases_ q).
Let delta := tags_step (ublkc_fd_ q) (q_id_ q) (flags_ q) bufs.
Let step := queue_step (ublkc_fd_ q) (q_id_ q) (flags_ q) (queue_depth_ q) bufs.

Definition queue_workers : list (task unit) :=
  map (fun tag => worker_ q tag fuel) (all_tags (queue_depth_ q)).

Lemma queue_workers_length : length queue_workers = Z.to_nat (queue_depth_ q).
Proof. unfold queue_workers, all_tags. rewrite length_map, length_seqZ. reflexivity. Qed.

(** Once every worker has completed, the phases tell how. *)
Lemma joined_result (ps : list (task unit)) cs st :
  length ps = Z.to_nat (queue_depth_ q) ->
  (forall i p, ps !! i = Some p -> obeys (delta i) p (st i) worker_done) ->
  join_all ps = Some cs ->
  all_ended (queue_depth_ q) st = true /\
  exec (fun _ c => ok_reply c) (rethrow_first (worker_errors cs)) [] =
    (queue_result (queue_depth_ q) st, []) /\
  exists c, rethrow_first (worker_errors cs) = Done c.
Proof.
  intros Hlen Hps Hjoin.
  pose proof (join_all_length _ _ Hjoin) as Hlcs. rewrite Hlen in Hlcs.
  assert (forall i c, cs !! i = Some c -> worker_done c (st i) /\ c <> Unfinished) as Hcs.
  { intros i c Hi. pose proof (join_all_lookup _ _ _ _ Hjoin Hi) as Hp.
    split; [exact (Hps i _ Hp)|]. intros ->.
    unfold join_all in Hjoin. apply mapM_Some in Hjoin.
    destruct (Forall2_lookup_r _ _ _ _ _ Hjoin Hi) as (p & Hp' & Hc).
    rewrite Hp in Hp'. injection Hp' as <-. discriminate Hc. }
  split; [|split].
  - apply forallb_forall. intros i Hi. apply in_seq in Hi.
    destruct (lookup_lt_is_Some_2 cs i) as [c Hc]; [lia|].
    destruct (Hcs i c Hc). eapply worker_done_ended; eassumption.
  - assert (worker_errors cs = omap (fun i => tag_error (st i)) (seq 0 (Z.to_nat (queue_depth_ q))))
      as ->.
    { rewrite <- Hlcs. clear Hlcs Hjoin Hps Hlen. revert st Hcs.
      induction cs as [|c cs IH]; intros st Hcs; [reflexivity|].
      destruct (Hcs 0%nat c eq_refl) as [Hd Hu].
      unfold worker_errors in *. cbn [length seq]. rewrite <- seq_shift. cbn [omap list_omap].
      rewrite (worker_done_error _ _ Hd Hu).
      rewrite (IH (fun i => st (S i))) by (intros i c' Hi; apply (Hcs (S i)); exact Hi).
      clear. change (list_omap ?A ?B ?f ?l) with (omap f l).
      assert (forall l : list nat, omap (fun i => tag_error (st (S i))) l =
                omap (fun i => tag_error (st i)) (map S l)) as Hshift.
      { induction l as [|i l IHl]; [reflexivity|]. simpl.
        destruct (tag_error (st (S i))); [f_equal|]; exact IHl. }
      destruct (tag_error (st 0%nat)); [f_equal|]; apply Hshift. }
    unfold queue_result, rethrow_first. destruct (omap _ _); reflexivity.
  - unfold rethrow_first. destruct (worker_errors cs); eexists; reflexivity.
Qed.

Definition run_body : task unit :=
  let_value (concurrently sched queue_workers) (fun ps =>
    match join_all ps with
    | Some cs => rethrow_first (worker_errors cs)
    | None => Done Unfinished
    end).

Lemma run_body_obeys :
  obeys step run_body (Running (fun _ => NotFetched)) (fun c s =>
    c = Unfinished \/ exists st, s = Running st /\ all_ended (queue_depth_ q) st = true /\
                                 c = queue_result (queue_depth_ q) st).
Proof.
  apply obeys_running. unfold run_body. apply obeys_let_value.
  eapply obeys_mono; [|apply (concurrently_obeys delta call_tag) with (Q := fun _ => worker_done)].
  - intros c st (ps & -> & Hlen & Hps). cbn [then_obeys].
    destruct (join_all ps) as [cs|] eqn:E; [|left; reflexivity].
    rewrite queue_workers_length in Hlen.
    destruct (joined_result ps cs st Hlen Hps E) as (Hall & Hex & c & Hc).
    rewrite Hc in *. injection Hex as ->. right. exists st. auto.
  - intros i s c r s'. apply tags_step_owner.
  - intros i p Hi. unfold queue_workers in Hi. rewrite list_lookup_fmap in Hi.
    destruct (all_tags _ !! i) as [tag|] eqn:E; [|discriminate]. injection Hi as <-.
    apply all_tags_lookup in E as [-> Hlt]. apply worker_obeys; [assumption|]. range.
Qed.

Lemma queue_run_obeys :
  obeys step (IoQueue_run fuel sched q)
    (if queue_handler q then QueueNew else Running (fun _ => NotFetched))
    (queue_done (queue_depth_ q) (queue_handler q)).
Proof.
  change (IoQueue_run fuel sched q) with (with_init_queue (queue_handler q) (q_id_ q) run_body).
  unfold with_init_queue.
  destruct (queue_handler q).
  - apply obeys_let_value, obeys_co_await, obeys_trigger. intros r.
    eexists; split; [cbn; rewrite Z.eqb_refl; reflexivity|].
    destruct r as [[]|e| |]; cbn [id then_obeys]; [|right; reflexivity..].
    apply obeys_defer. eapply obeys_mono; [|apply run_body_obeys].
    intros c s [->|(st & -> & Hall & ->)]; [left; reflexivity|].
    assert (obeys step (perform (DestroyQueue (q_id_ q)) id) (Running st) (fun cd s' =>
      cd = SetValue tt /\ s' = Destroyed st)) as Hd.
    { intros r. eexists; split; [|split; [destruct r; reflexivity|reflexivity]].
      cbn. rewrite Z.eqb_refl, Hall. reflexivity. }
    unfold guard_obeys. destruct (queue_result _ st) eqn:Eres; try (left; reflexivity);
      (eapply obeys_mono; [|exact Hd]); intros cd s' [-> ->]; right; rewrite Eres; auto.
  - eapply obeys_mono; [|apply run_body_obeys].
    intros c s [->|(st & -> & Hall & ->)]; [left; reflexivity|right; auto].
Qed.
End QueueProtocolProof.

(** ** Resources *)

Definition mems (max page : Z) (bases : list Z) : resources :=
  list_to_set_disj (map (fun p => RMem p max page) bases).

Lemma mems_snoc max page bases p :
  mems max page (bases ++ [p]) = mems max page bases ⊎ {[+ RMem p max page +]}.
Proof.
  unfold mems. rewrite map_app, list_to_set_disj_app. simpl. multiset_solver.
Qed.

Lemma alloc_bufs_obeys max page X n :
  forall bases, obeys ledger (alloc_bufs max page n bases) (X ⊎ mems max page bases) (fun c X' =>
    exists bases' e, c = SetValue (bases', e) /\ X' = X ⊎ mems max page bases' /\
      (e = None -> length bases' = (length bases + n)%nat)).
Proof.
  induction n as [|n IH]; intros bases; cbn [alloc_bufs].
  - exists bases, None. split_all; auto; lia.
  - apply obeys_let_value, obeys_trigger. intros r. eexists; split; [reflexivity|].
    cbn [then_obeys]. destruct r as [p|].
    + unfold acquire. rewrite <- (assoc_L (⊎)), <- mems_snoc.
      eapply obeys_mono; [|apply IH]. intros c X' (bases' & e & -> & -> & Hl).
      exists bases', e. split_all; auto. intros He. rewrite (Hl He), length_app. simpl. lia.
    + exists bases, (Some BadAlloc). split_all; auto. discriminate.
Qed.

Lemma free_bufs_obeys max page X bases :
  obeys ledger (free_bufs max page bases) (X ⊎ mems max page bases)
    (fun c X' => c = SetValue tt /\ X' = X).
Proof.
  induction bases as [|p bases IH]; cbn [free_bufs].
  - split; [reflexivity|]. unfold mems. simpl. multiset_solver.
  - apply obeys_let_value, obeys_trigger. intros []. exists (X ⊎ mems max page bases). split.
    + cbn [ledger]. unfold mems. simpl. rewrite release_in by multiset_solver.
      f_equal. multiset_solver.
    + exact IH.
Qed.

Lemma obeys_acquired {A} (p : task A) X X' Q :
  X = X' -> obeys ledger p X Q -> obeys ledger p X' Q.
Proof. intros ->; auto. Qed.

Section IoQueueLedger.
Context (page : Z).

(** What a queue holds. *)
Definition queue_held (q : IoQueue) : resources :=
  match iod_base_ q with
  | Some a => {[+ RMap a (iod_map_size (queue_depth_ q)) +]}
  | None => ∅
  end ⊎ mems (max_io_buf_bytes_ q) page (buf_bases_ q).

Definition emptied (q : IoQueue) : IoQueue := set_iod_base None (set_buf_bases [] q).

Lemma queue_cleanup_obeys X q :
  obeys ledger (IoQueue_cleanup_ page q) (X ⊎ queue_held q)
    (fun c X' => c = SetValue (emptied q) /\ X' = X).
Proof.
  unfold IoQueue_cleanup_, queue_held. apply obeys_let_value.
  eapply obeys_mono; cycle 1.
  - rewrite (assoc_L (⊎)). apply free_bufs_obeys.
  - intros c X' [-> ->]. cbn [then_obeys]. change (iod_base_ (set_buf_bases [] q)) with (iod_base_ q).
    destruct q as [? ? ? ? ? ? [a|] ?]; cbn [iod_base_ queue_depth_].
    + apply obeys_let_value, obeys_trigger. intros []. exists X. split; [|split; reflexivity].
      cbn [ledger queue_depth_ set_buf_bases]. apply release_acquire.
    + split; [reflexivity|]. multiset_solver.
Qed.

Lemma queue_dtor_obeys X q :
  obeys ledger (IoQueue_dtor page q) (X ⊎ queue_held q) (fun c X' => c = SetValue tt /\ X' = X).
Proof.
  apply obeys_let_value. eapply obeys_mono; [|apply queue_cleanup_obeys].
  intros c X' [-> ->]. split; reflexivity.
Qed.

(** A queue ready to run: its descriptors mapped and a buffer per tag when it
    needs them. *)
Definition queue_ready (q : IoQueue) : Prop :=
  is_Some (iod_base_ q) /\
  length (buf_bases_ q) = if need_alloc_buf (flags_ q) then Z.to_nat (queue_depth_ q) else 0%nat.

Lemma queue_ctor_obeys X fd fd_raw q_id flags depth max qh :
  obeys ledger (IoQueue_ctor page fd fd_raw q_id flags depth max qh) X (fun c X' =>
    match c with
    | SetValue q => X' = X ⊎ queue_held q /\ queue_ready q /\
        (ublkc_fd_ q, q_id_ q, flags_ q, queue_depth_ q, max_io_buf_bytes_ q, queue_handler q) =
        (fd, q_id, flags, depth, max, qh)
    | SetError _ => X' = X
    | _ => False
    end).
Proof.
  unfold IoQueue_ctor, guarded_ctor, IoQueue_init. cbn [q_id_ queue_depth_].
  apply obeys_let_value, obeys_let_value, obeys_trigger. intros [a|errno].
  - eexists; split; [reflexivity|]. cbn [then_obeys flags_ set_iod_base].
    destruct (need_alloc_buf flags) eqn:Hneed.
    + apply obeys_let_value. eapply obeys_mono; cycle 1.
      * cbn [max_io_buf_bytes_ set_iod_base queue_depth_].
        eapply obeys_acquired; [|apply alloc_bufs_obeys with (bases := [])].
        unfold mems; simpl. apply (right_id_L ∅ (⊎)).
      * intros c X' (bases & e & -> & -> & Hl). cbn [then_obeys].
        set (q := set_buf_bases bases _).
        assert (acquire (RMap a (iod_map_size depth)) X ⊎ mems max page bases = X ⊎ queue_held q)
          as ->.
        { change (queue_held q) with ({[+ RMap a (iod_map_size depth) +]} ⊎ mems max page bases).
          unfold acquire. generalize (mems max page bases). multiset_solver. }
        destruct e as [x|]; cbn [just obeys then_obeys].
        -- apply obeys_let_value. eapply obeys_mono; [|apply queue_cleanup_obeys].
           intros c' X' [-> ->]. reflexivity.
        -- split_all; [reflexivity| |reflexivity].
           split; [eexists; reflexivity|].
           change (length bases = if need_alloc_buf flags then Z.to_nat depth else 0%nat).
           rewrite Hneed. exact (Hl eq_refl).
    + cbn [just obeys then_obeys].
      split_all; [|split; [eexists; reflexivity|]|reflexivity]; cycle 1.
      { change (0%nat = if need_alloc_buf flags then Z.to_nat depth else 0%nat).
        rewrite Hneed. reflexivity. }
      change (queue_held _) with ({[+ RMap a (iod_map_size depth) +]} ⊎ (∅ : resources)).
      unfold acquire. multiset_solver.
  - eexists; split; [reflexivity|]. cbn [then_obeys just obeys].
    apply obeys_let_value. eapply obeys_mono; cycle 1.
    + eapply obeys_acquired; [|apply (queue_cleanup_obeys X)].
      change (queue_held _) with ((∅ : resources) ⊎ ∅). multiset_solver.
    + intros c' X' [-> ->]. reflexivity.
Qed.
End IoQueueLedger.

(** ** Theorems *)

(** A driver for a queue: it delivers a request on every fetch until [n] have
    been committed and then aborts; the handler completes with the tag. *)
Definition queue_driver (n : nat) : env := fun h c =>
  match c return reply c -> reply c with
  | UringIo _ op _ _ => fun d =>
      if bool_decide (op = UBLK_U_IO_COMMIT_AND_FETCH_REQ) && (n <=? S (length (committed h)))%nat
      then AsyncErr ENODEV else d
  | HandleIo _ t _ => fun _ => SetValue (IoInt t)
  | _ => id
  end (ok_reply c).

Definition sample_queue : IoQueue :=
  {| ublkc_fd_ := Fixed 0; q_id_ := 1; flags_ := UBLK_F_SUPPORT_ZERO_COPY; queue_depth_ := 2;
     max_io_buf_bytes_ := 4096; queue_handler := true; iod_base_ := Some 4096;
     buf_bases_ := [] |}.

(** C10: the worker of a tag refines the driver's protocol: against every
    driver and every handler, the calls it makes are, in every observation of
    its loop, accepted by the protocol of its tag; the way it completes is the
    one the final phase prescribes (a return when the driver aborts, the
    driver's or the registration's error otherwise); and the results it
    commits are the results of the handler, converted as documented, in order and each exactly
    once, the last one excepted when the tag ended before its commit. *)
Theorem worker_protocol (K : env) q tag fuel (h : history) :
  is_u 16 (q_id_ q) -> is_u 16 tag ->
  let '(c, h') := exec K (worker_ q tag fuel) h in
  exists t s, h' = h ++ t /\
    accepts (tag_step (ublkc_fd_ q) (q_id_ q) (flags_ q) tag (get_buf_ (buf_bases_ q) tag))
            NotFetched t = Some s /\
    worker_done c s /\
    exists l, uncommitted s l /\ handled t = committed t ++ l.
Proof.
  intros Hq Ht. destruct (exec K (worker_ q tag fuel) h) as [c h'] eqn:E.
  destruct (obeys_exec _ K _ _ _ h (worker_obeys q tag Hq Ht fuel)) as (t & s & Hh & Ha & Hd).
  rewrite E in *. exists t, s. split_all; [assumption..|].
  destruct (accepts_account _ _ _ _ _ _ _ _ [] Ha eq_refl) as (l & Hl & Heq).
  exists l. auto.
Qed.

Lemma worker_protocol_witness :
  let '(c, h') := exec (queue_driver 3) (worker_ sample_queue 1 10) [] in
  c = SetValue tt /\ handled h' = [1; 1; 1] /\ committed h' = [1; 1; 1] /\
  exists t s, h' = [] ++ t /\
    accepts (tag_step (Fixed 0) 1 UBLK_F_SUPPORT_ZERO_COPY 1 None) NotFetched t = Some s /\
    worker_done c s /\ exists l, uncommitted s l /\ handled t = committed t ++ l.
Proof.
  pose proof (worker_protocol (queue_driver 3) sample_queue 1 10 []
                ltac:(split; vm_compute; congruence) ltac:(split; vm_compute; congruence)) as H.
  destruct (exec (queue_driver 3) (worker_ sample_queue 1 10) []) as [c h'] eqn:E.
  vm_compute in E. injection E as <- <-. split_all; [reflexivity..|exact H].
Defined.

(** C27: the worker terminates: if every call of the handler completes and the
    driver aborts the commit of the [n]-th request at the latest, the worker
    completes, the same way however long its loop is observed beyond [n]
    rounds. *)
Theorem worker_terminates (K : env) q tag (h : history) n :
  (forall h buf, K h (HandleIo (q_id_ q) tag buf) <> Unfinished) ->
  aborts_after K q h n -> (1 <= n)%nat ->
  exists c h', c <> Unfinished /\
    forall fuel, (n <= fuel)%nat -> exec K (worker_ q tag fuel) h = (c, h').
Proof. intros Hc Hab Hn. exact (worker_completes K q tag Hc h n Hab Hn). Qed.

Lemma worker_terminates_witness :
  exists c h', c <> Unfinished /\
    forall fuel, (3 <= fuel)%nat ->
      exec (fun h c => match c return reply c -> reply c with
                       | UringIo _ op _ _ => fun d =>
                           if bool_decide (op = UBLK_U_IO_COMMIT_AND_FETCH_REQ) &&
                              (3 <=? length (handled h))%nat
                           then AsyncErr ENODEV else d
                       | _ => id
                       end (ok_reply c)) (worker_ sample_queue 1 fuel) [] = (c, h').
Proof.
  apply (worker_terminates _ sample_queue 1 [] 3); [discriminate| |lia].
  intros t cmd sqe Ht. rewrite app_nil_l, bool_decide_eq_true_2 by reflexivity.
  destruct (Nat.leb_spec 3 (length (handled t))); [reflexivity|lia].
Defined.

(** C11: a queue refines the product of its tags' protocols: under every
    schedule of its workers, every driver and every handler, each call is
    allowed by the protocol of the tag it belongs to; [init_queue] comes first
    and [destroy_queue] last, only once every tag has ended, also when workers
    fail; and [run] completes with the exception of the lowest tag that has
    one. *)
Theorem queue_run_protocol (K : env) q fuel sched (h : history) :
  is_u 16 (q_id_ q) -> is_u 16 (queue_depth_ q) ->
  let '(c, h') := exec K (IoQueue_run fuel sched q) h in
  exists t s, h' = h ++ t /\
    accepts (queue_step (ublkc_fd_ q) (q_id_ q) (flags_ q) (queue_depth_ q)
               (get_buf_ (buf_bases_ q)))
            (if queue_handler q then QueueNew else Running (fun _ => NotFetched)) t = Some s /\
    queue_done (queue_depth_ q) (queue_handler q) c s.
Proof.
  intros Hq Hd. destruct (exec K (IoQueue_run fuel sched q) h) as [c h'] eqn:E.
  destruct (obeys_exec _ K _ _ _ h (queue_run_obeys q fuel sched Hq Hd)) as (t & s & H).
  rewrite E in H. eauto.
Qed.

(** Two workers, alternating. *)
Definition sample_schedule : list nat := concat (repeat [0; 1]%nat 30).

Lemma queue_run_protocol_witness :
  let '(c, h') := exec (queue_driver 4) (IoQueue_run 10 sample_schedule sample_queue) [] in
  c = SetValue tt /\ committed h' = [0; 1; 0; 1; 0] /\
  exists t s, h' = [] ++ t /\
    accepts (queue_step (Fixed 0) 1 UBLK_F_SUPPORT_ZERO_COPY 2 (get_buf_ []))
            QueueNew t = Some s /\ queue_done 2 true c s.
Proof.
  pose proof (queue_run_protocol (queue_driver 4) sample_queue 10 sample_schedule []
                ltac:(split; vm_compute; congruence) ltac:(split; vm_compute; congruence)) as H.
  destruct (exec (queue_driver 4) (IoQueue_run 10 sample_schedule sample_queue) [])
    as [c h'] eqn:E.
  vm_compute in E. injection E as <- <-. split_all; [reflexivity..|exact H].
Defined.

(** C26: the life cycle of a queue loses and leaks nothing: a constructor that
    throws, at whatever allocation, has released what it had acquired; one
    that returns holds exactly the descriptor mapping and the buffers, one per
    tag when the mode needs them; and the destructor releases exactly that,
    each once. *)
Theorem queue_lifecycle page X fd fd_raw q_id flags depth max qh :
  obeys ledger (IoQueue_ctor page fd fd_raw q_id flags depth max qh) X (fun c X' =>
    match c with
    | SetValue q => X' = X ⊎ queue_held page q /\ queue_ready q
    | SetError _ => X' = X
    | _ => False
    end) /\
  forall q, obeys ledger (IoQueue_dtor page q) (X ⊎ queue_held page q)
              (fun c X' => c = SetValue tt /\ X' = X).
Proof.
  split; [|intros q; apply queue_dtor_obeys].
  eapply obeys_mono; [|apply queue_ctor_obeys]. intros [] X' H; tauto.
Qed.
