(* ===== verification/Handler.v ===== *)
(** * Handler: a handler in the place of the calls to it

    [src/include/ublk/handler.hpp]: what a queue hands to its handler and the
    operations a handler has.  The queues call an unknown handler ([HandleIo],
    [InitQueue], [DestroyQueue]); [inline] puts the operations of a given one
    there, which makes a program of the library and its user's code. *)

From S2P Require Import Prelude Effects Protocol UblkCmd Sys Ledger Raw IoResult TagProtocol Queue.
From Stdlib Require Import FunctionalExtensionality.

#[local] Open Scope Z_scope.

(** The descriptor [iod] points to is read with [read_iod]. *)
Record IoData := {
  io_data_q_id : Z;
  io_data_tag : Z;
  io_data_buf : option Z;
}.

(** [IoHandler] and [QueueHandler] *)
Record Handler := {
  h_handle_io : IoData -> task io_value;
  h_init_queue : Z -> task unit;
  h_destroy_queue : Z -> task unit;
}.

(** [destroy_queue] is a function that returns, so the caller always goes on. *)
Fixpoint inline (H : Handler) {A} (p : task A) : task A :=
  match p with
  | Done c => Done c
  | Vis c k =>
      match c return (reply c -> task A) -> task A with
      | HandleIo q t b => fun k =>
          connect (h_handle_io H {| io_data_q_id := q; io_data_tag := t; io_data_buf := b |}) k
      | InitQueue q => fun k => connect (h_init_queue H q) k
      | DestroyQueue q => fun k => connect (h_destroy_queue H q) (fun _ => k tt)
      | c => fun k => Vis c k
      end (fun r => inline H (k r))
  end.

Lemma connect_connect {A B D} (p : task A) (f : completion A -> task B) (g : completion B -> task D) :
  connect (connect p f) g = connect p (fun c => connect (f c) g).
Proof.
  induction p as [c|c k IH]; cbn [connect]; [reflexivity|].
  f_equal. apply functional_extensionality. exact IH.
Qed.

Section Inline.
Context (H : Handler).

Lemma inline_connect {A B} (p : task A) (f : completion A -> task B) :
  inline H (connect p f) = connect (inline H p) (fun c => inline H (f c)).
Proof.
  induction p as [c|c k IH]; cbn [connect inline]; [reflexivity|].
  apply functional_extensionality in IH. rewrite IH.
  destruct c; cbn [connect]; try reflexivity; rewrite connect_connect; reflexivity.
Qed.

Lemma inline_let_value {A B} (p : task A) (f : A -> task B) :
  inline H (let_value p f) = let_value (inline H p) (fun a => inline H (f a)).
Proof.
  unfold let_value. rewrite inline_connect. f_equal.
  apply functional_extensionality. intros []; reflexivity.
Qed.

Lemma inline_upon_error {A} (p : task A) f :
  inline H (upon_error p f) = upon_error (inline H p) (fun e => inline H (f e)).
Proof.
  unfold upon_error. rewrite inline_connect. f_equal.
  apply functional_extensionality. intros []; reflexivity.
Qed.

Lemma inline_co_await {A} (p : task A) : inline H (co_await p) = co_await (inline H p).
Proof. unfold co_await. rewrite inline_upon_error. reflexivity. Qed.

Lemma inline_stopped_as_error {A} (p : task A) e :
  inline H (stopped_as_error p e) = stopped_as_error (inline H p) e.
Proof.
  unfold stopped_as_error. rewrite inline_connect. f_equal.
  apply functional_extensionality. intros []; reflexivity.
Qed.

Lemma inline_wrap_handle_io (p : task io_value) : inline H (wrap_handle_io p) = wrap_handle_io (inline H p).
Proof.
  unfold wrap_handle_io, then_.
  rewrite inline_let_value, inline_upon_error, inline_let_value, inline_stopped_as_error. reflexivity.
Qed.

Lemma inline_neg_error (p : task Z) : inline H (neg_error p) = neg_error (inline H p).
Proof. unfold neg_error. rewrite inline_upon_error. reflexivity. Qed.

Lemma inline_handle_io q t b :
  inline H (handle_io q t b) = h_handle_io H {| io_data_q_id := q; io_data_tag := t; io_data_buf := b |}.
Proof.
  unfold handle_io, trigger, id. cbn [inline].
  induction (h_handle_io H _) as [c|c k IH]; cbn [connect]; [reflexivity|].
  f_equal. apply functional_extensionality. exact IH.
Qed.
End Inline.

Create Rewrite HintDb ublk_inline.
#[export] Hint Rewrite inline_let_value inline_co_await inline_neg_error inline_upon_error
  inline_stopped_as_error inline_wrap_handle_io inline_handle_io : ublk_inline.

(** ** A queue with its handler *)

(** [IoQueue::run] with the handler [H]: its workers call [handle_io], and
    [run] itself [init_queue] and [destroy_queue]. *)
Definition IoQueue_serve (H : Handler) (fuel : nat) (sched : list nat) (q : IoQueue) : task unit :=
  let workers := map (fun tag => inline H (worker_ q tag fuel)) (all_tags (queue_depth_ q)) in
  let body := let_value (concurrently sched workers) (fun ps =>
    match join_all ps with
    | Some cs => rethrow_first (worker_errors cs)
    | None => Done Unfinished
    end) in
  if queue_handler q then
    do! h_init_queue H (q_id_ q) in defer body (h_destroy_queue H (q_id_ q))
  else body.

(** The unknown handler. *)
Definition external : Handler := {|
  h_handle_io := fun d => handle_io (io_data_q_id d) (io_data_tag d) (io_data_buf d);
  h_init_queue := fun q => trigger (InitQueue q) id;
  h_destroy_queue := fun q => perform (DestroyQueue q) id;
|}.

Lemma inline_external {A} (p : task A) : inline external p = p.
Proof.
  induction p as [c|c k IH]; cbn [inline]; [reflexivity|].
  apply functional_extensionality in IH. rewrite IH.
  destruct c; cbn; f_equal; apply functional_extensionality; intros []; reflexivity.
Qed.

(** With the unknown handler, a queue with its handler is the queue. *)
Lemma IoQueue_serve_external fuel sched q : IoQueue_serve external fuel sched q = IoQueue_run fuel sched q.
Proof.
  unfold IoQueue_serve, IoQueue_run, with_init_queue. cbv zeta.
  rewrite (map_ext (fun tag => inline external (worker_ q tag fuel)) (fun tag => worker_ q tag fuel))
    by (intros; apply inline_external).
  reflexivity.
Qed.
