(* ===== verification/BatchLayout.v ===== *)
(** * BatchLayout: the memory of the batch queue

    [BatchIoQueue] of [src/include/ublk/detail/queue.hpp], the part that is
    not concurrent: its constructor and clean-up, the two commit buffers and
    the layout of their elements, byte by byte, as [set_result_] and
    [set_zone_lba_] write them.  The specification of an element is the
    driver's: [decode_element] reads one as [ublk_cmd.h] documents it, from the
    flags of the command alone. *)

From S2P Require Import Prelude Effects Protocol UblkCmd Utils Sys Ledger Raw IoResult Queue.

#[local] Open Scope Z_scope.

(** ** Bytes of memory *)

Definition mem := Z -> Z.

(** Little-endian store and load of [n] bytes. *)
Definition store_le (n : nat) (m : mem) (a v : Z) : mem := fun x =>
  if (a <=? x) && (x <? a + Z.of_nat n) then (v / 256 ^ (x - a)) mod 256 else m x.

Fixpoint load_le (n : nat) (m : mem) (a : Z) : Z :=
  match n with
  | O => 0
  | S n => m a + 256 * load_le n m (a + 1)
  end.

(** ** The object *)

Record BatchIoQueue := {
  b_ublkc_fd_ : fdref;
  b_q_id_ : Z;
  b_flags_ : Z;
  b_queue_depth_ : Z;
  b_max_io_buf_bytes_ : Z;
  b_queue_handler : bool;
  b_iod_base_ : option Z;
  commit_buf_size_ : Z;
  commit_buf_0 : option Z;
  commit_buf_1 : option Z;
  fetch_buf_size_ : Z;
  fetch_buf_0 : option Z;
  fetch_buf_1 : option Z;
  b_buf_bases_ : list Z;
}.

(** ** Commit elements *)

Section Elements.
Context (flags : Z).

Definition need_f_buf_addr_ : bool :=
  negb (has flags UBLK_F_AUTO_BUF_REG) && need_alloc_buf flags.

Definition need_f_zone_lba_ : bool := has flags UBLK_F_ZONED.

Definition get_batch_flags_ : Z :=
  let f := 0 in
  let f := if has flags UBLK_F_AUTO_BUF_REG then f .| UBLK_BATCH_F_AUTO_BUF_REG_FALLBACK
           else if need_f_buf_addr_ then f .| UBLK_BATCH_F_HAS_BUF_ADDR
           else f in
  if need_f_zone_lba_ then f .| UBLK_BATCH_F_HAS_ZONE_LBA else f.

Definition commit_element_size_ : Z :=
  let size := sizeof ublk_elem_header_layout in
  let size := if need_f_buf_addr_ then size + 8 else size in
  if need_f_zone_lba_ then size + 8 else size.

(** [base] is [commit_buf_[index]]. *)
Definition commit_f_hdr (base pos : Z) : Z := base + pos * commit_element_size_.

Definition commit_f_buf_addr (base pos : Z) : Z :=
  commit_f_hdr base pos + sizeof ublk_elem_header_layout.

Definition commit_f_zone_lba (base pos : Z) : Z :=
  let off := sizeof ublk_elem_header_layout in
  let off := if need_f_buf_addr_ then off + 8 else off in
  commit_f_hdr base pos + off.

(** The fields of [ublk_elem_header]: [tag], [buf_index], [result]. *)
Definition set_result_ (bases : list Z) (base pos tag res : Z) (m : mem) : mem :=
  let hdr := commit_f_hdr base pos in
  let m := store_le 2 m hdr tag in
  let m := store_le 4 m (hdr + 4) res in
  if has flags UBLK_F_AUTO_BUF_REG then store_le 2 m (hdr + 2) tag
  else if need_f_buf_addr_ then
    store_le 8 m (commit_f_buf_addr base pos) (ptr_u64 (bases !! Z.to_nat tag))
  else m.

Definition set_zone_lba_ (base pos lba : Z) (m : mem) : mem :=
  store_le 8 m (commit_f_zone_lba base pos) lba.
End Elements.

(** ** The driver's view of an element *)

Record element := {
  el_tag : Z;
  el_buf_index : Z;
  el_result : Z;
  el_buf_addr : option Z;
  el_zone_lba : option Z;
}.

Definition decode_element (batch_flags : Z) (m : mem) (a : Z) : element :=
  let off := 8 in
  let addr := has batch_flags UBLK_BATCH_F_HAS_BUF_ADDR in
  let off' := if addr then off + 8 else off in
  {| el_tag := load_le 2 m a;
     el_buf_index := load_le 2 m (a + 2);
     el_result := swrap 32 (load_le 4 m (a + 4));
     el_buf_addr := if addr then Some (load_le 8 m (a + off)) else None;
     el_zone_lba := if has batch_flags UBLK_BATCH_F_HAS_ZONE_LBA
                    then Some (load_le 8 m (a + off')) else None |}.

Definition element_bytes (batch_flags : Z) : Z :=
  8 + (if has batch_flags UBLK_BATCH_F_HAS_BUF_ADDR then 8 else 0)
    + (if has batch_flags UBLK_BATCH_F_HAS_ZONE_LBA then 8 else 0).

(** ** Memory lemmas *)

Lemma load_store_part n m a v : forall k j,
  (j + k <= n)%nat ->
  load_le k (store_le n m a v) (a + Z.of_nat j) = (v / 256 ^ Z.of_nat j) mod 256 ^ Z.of_nat k.
Proof.
  induction k as [|k IH]; intros j Hjk; [cbn; rewrite Z.mod_1_r; reflexivity|].
  cbn [load_le]. rewrite <- Z.add_assoc. replace (Z.of_nat j + 1) with (Z.of_nat (S j)) by lia.
  rewrite IH by lia. unfold store_le.
  destruct (Z.leb_spec a (a + Z.of_nat j)); [|lia].
  destruct (Z.ltb_spec (a + Z.of_nat j) (a + Z.of_nat n)); [|lia]. cbn [andb].
  replace (a + Z.of_nat j - a) with (Z.of_nat j) by lia.
  replace (256 ^ Z.of_nat (S j)) with (256 ^ Z.of_nat j * 256)
    by (rewrite Nat2Z.inj_succ, Z.pow_succ_r by lia; lia).
  rewrite <- Z.div_div by (try apply Z.pow_nonzero; lia).
  set (w := v / 256 ^ Z.of_nat j).
  replace (256 ^ Z.of_nat (S k)) with (256 * 256 ^ Z.of_nat k)
    by (rewrite Nat2Z.inj_succ, Z.pow_succ_r by lia; lia).
  rewrite Z.rem_mul_r by (try apply Z.pow_nonzero; lia). reflexivity.
Qed.

Lemma load_store n m a v : load_le n (store_le n m a v) a = v mod 256 ^ Z.of_nat n.
Proof.
  pose proof (load_store_part n m a v n 0 ltac:(lia)) as H.
  rewrite Z.add_0_r, Z.pow_0_r, Z.div_1_r in H. exact H.
Qed.

Lemma load_ext n m m' a :
  (forall x, a <= x < a + Z.of_nat n -> m x = m' x) -> load_le n m a = load_le n m' a.
Proof.
  revert a; induction n as [|n IH]; intros a H; [reflexivity|].
  cbn [load_le]. rewrite (H a) by lia. rewrite (IH (a + 1)) by (intros; apply H; lia). reflexivity.
Qed.

Lemma store_other n m a v x : ~ (a <= x < a + Z.of_nat n) -> store_le n m a v x = m x.
Proof.
  intros H. unfold store_le.
  destruct (Z.leb_spec a x), (Z.ltb_spec x (a + Z.of_nat n)); try reflexivity. lia.
Qed.

Lemma load_store_other n k m a b v :
  a + Z.of_nat n <= b \/ b + Z.of_nat k <= a -> load_le n (store_le k m b v) a = load_le n m a.
Proof. intros H. apply load_ext. intros x Hx. apply store_other. lia. Qed.

(** ** Element lemmas *)

Lemma sizeof_elem_header : sizeof ublk_elem_header_layout = 8.
Proof. reflexivity. Qed.

Lemma commit_element_size_le flags : 8 <= commit_element_size_ flags <= 24.
Proof. unfold commit_element_size_. rewrite sizeof_elem_header. case_tests; lia. Qed.

Lemma batch_flags_addr flags :
  has (get_batch_flags_ flags) UBLK_BATCH_F_HAS_BUF_ADDR = need_f_buf_addr_ flags.
Proof.
  unfold get_batch_flags_, need_f_buf_addr_.
  destruct (has flags UBLK_F_AUTO_BUF_REG), (need_alloc_buf flags), (need_f_zone_lba_ flags);
    reflexivity.
Qed.

Lemma batch_flags_zone flags :
  has (get_batch_flags_ flags) UBLK_BATCH_F_HAS_ZONE_LBA = need_f_zone_lba_ flags.
Proof.
  unfold get_batch_flags_, need_f_buf_addr_.
  destruct (has flags UBLK_F_AUTO_BUF_REG), (need_alloc_buf flags), (need_f_zone_lba_ flags);
    reflexivity.
Qed.

Lemma batch_element_bytes flags : element_bytes (get_batch_flags_ flags) = commit_element_size_ flags.
Proof.
  unfold element_bytes, commit_element_size_. rewrite batch_flags_addr, batch_flags_zone.
  rewrite sizeof_elem_header. case_tests; reflexivity.
Qed.

(** The bytes an element's writers touch. *)
Lemma set_result_other flags bases base pos tag res m x :
  ~ (commit_f_hdr flags base pos <= x < commit_f_hdr flags base pos + commit_element_size_ flags) ->
  set_result_ flags bases base pos tag res m x = m x.
Proof.
  intros Hx. unfold set_result_, commit_f_buf_addr. rewrite sizeof_elem_header.
  pose proof (commit_element_size_le flags).
  destruct (has flags UBLK_F_AUTO_BUF_REG); [rewrite !store_other by (cbn; lia); reflexivity|].
  destruct (need_f_buf_addr_ flags) eqn:E; [|rewrite !store_other by (cbn; lia); reflexivity].
  assert (16 <= commit_element_size_ flags)
    by (unfold commit_element_size_; rewrite E, sizeof_elem_header; case_tests; lia).
  rewrite !store_other by (cbn; lia). reflexivity.
Qed.

Lemma set_zone_lba_other flags base pos lba m x :
  need_f_zone_lba_ flags = true ->
  ~ (commit_f_hdr flags base pos <= x < commit_f_hdr flags base pos + commit_element_size_ flags) ->
  set_zone_lba_ flags base pos lba m x = m x.
Proof.
  intros Hz Hx. unfold set_zone_lba_, commit_f_zone_lba. apply store_other.
  unfold commit_element_size_ in *. rewrite Hz, sizeof_elem_header in *.
  destruct (need_f_buf_addr_ flags); cbn; lia.
Qed.

(** An element depends on its own bytes only. *)
Lemma decode_element_ext flags m m' base pos :
  (forall x, commit_f_hdr flags base pos <= x
             < commit_f_hdr flags base pos + commit_element_size_ flags -> m x = m' x) ->
  decode_element (get_batch_flags_ flags) m (commit_f_hdr flags base pos) =
  decode_element (get_batch_flags_ flags) m' (commit_f_hdr flags base pos).
Proof.
  intros H. unfold decode_element. rewrite batch_flags_addr, batch_flags_zone.
  unfold commit_element_size_ in H. rewrite sizeof_elem_header in H.
  destruct (need_f_buf_addr_ flags), (need_f_zone_lba_ flags); cbv zeta in *;
    f_equal; repeat match goal with
                    | |- Some _ = Some _ => f_equal
                    | |- swrap _ _ = swrap _ _ => f_equal
                    end; try reflexivity; apply load_ext; intros; apply H; lia.
Qed.

(** What the driver reads of an element just written. *)
Lemma set_result_decodes flags bases base pos tag res m :
  is_u 16 tag -> is_s 32 res ->
  let e := decode_element (get_batch_flags_ flags) (set_result_ flags bases base pos tag res m)
             (commit_f_hdr flags base pos) in
  el_tag e = tag /\ el_result e = res /\
  (has flags UBLK_F_AUTO_BUF_REG = true -> el_buf_index e = tag) /\
  el_buf_addr e = (if need_f_buf_addr_ flags then Some (ptr_u64 (bases !! Z.to_nat tag)) else None).
Proof.
  intros Ht Hr e. unfold e, decode_element, set_result_, commit_f_buf_addr.
  rewrite batch_flags_addr, sizeof_elem_header. set (a := commit_f_hdr flags base pos).
  assert (forall b, is_u 64 b -> b mod 256 ^ 8 = b) as H64 by (intros b Hb; apply Z.mod_small, Hb).
  assert (tag mod 256 ^ 2 = tag) as Ht' by (apply Z.mod_small; range).
  assert (swrap 32 (res mod 256 ^ 4) = res) as Hr'
    by (apply swrap_uwrap; [lia|assumption]).
  assert (is_u 64 (ptr_u64 (bases !! Z.to_nat tag))) as Hp.
  { unfold ptr_u64. destruct (bases !! _); [apply uwrap_is_u; lia|split; vm_compute; congruence]. }
  unfold need_f_buf_addr_. destruct (has flags UBLK_F_AUTO_BUF_REG); cbn [negb andb].
  - cbn [el_tag el_result el_buf_index el_buf_addr].
    rewrite !load_store, !(load_store_other _ 2 _ _ (a + 2)), !(load_store_other _ 4 _ _ (a + 4)),
      !load_store by lia. auto.
  - destruct (need_alloc_buf flags); cbn [el_tag el_result el_buf_index el_buf_addr];
      rewrite ?load_store, ?(load_store_other _ 8 _ _ (a + 8)), ?(load_store_other _ 4 _ _ (a + 4)),
        ?load_store by lia; split_all; auto; try discriminate.
    f_equal. apply H64, Hp.
Qed.

Lemma set_zone_lba_decodes flags base pos lba m :
  need_f_zone_lba_ flags = true -> is_u 64 lba ->
  let e := decode_element (get_batch_flags_ flags) m (commit_f_hdr flags base pos) in
  let e' := decode_element (get_batch_flags_ flags) (set_zone_lba_ flags base pos lba m)
              (commit_f_hdr flags base pos) in
  el_zone_lba e' = Some lba /\ el_tag e' = el_tag e /\ el_result e' = el_result e /\
  el_buf_index e' = el_buf_index e /\ el_buf_addr e' = el_buf_addr e.
Proof.
  intros Hz Hl e e'. unfold e, e', decode_element, set_zone_lba_, commit_f_zone_lba.
  rewrite batch_flags_addr, batch_flags_zone, sizeof_elem_header, Hz. cbv zeta.
  set (a := commit_f_hdr flags base pos).
  cbn [el_tag el_result el_buf_index el_buf_addr el_zone_lba].
  assert (lba mod 256 ^ Z.of_nat 8 = lba) as Hl' by (apply Z.mod_small, Hl).
  destruct (need_f_buf_addr_ flags);
    rewrite !load_store, Hl', !load_store_other by lia; auto.
Qed.
