(* ===== verification/BatchObject.v ===== *)
(** * BatchObject: the life cycle of the batch queue

    The constructor, [cleanup_] and destructor of [BatchIoQueue]
    ([src/include/ublk/detail/queue.hpp]): the descriptor mapping, the two
    commit buffers and the two fetch buffers, each pair one locked allocation,
    and the data buffers. *)

From S2P Require Import Prelude Effects Protocol UblkCmd Utils Sys Ledger Raw IoResult Queue BatchLayout.

#[local] Open Scope Z_scope.

Definition b_with_iod (a : option Z) (b : BatchIoQueue) : BatchIoQueue :=
  {| b_ublkc_fd_ := b_ublkc_fd_ b; b_q_id_ := b_q_id_ b; b_flags_ := b_flags_ b;
     b_queue_depth_ := b_queue_depth_ b; b_max_io_buf_bytes_ := b_max_io_buf_bytes_ b;
     b_queue_handler := b_queue_handler b; b_iod_base_ := a;
     commit_buf_size_ := commit_buf_size_ b; commit_buf_0 := commit_buf_0 b;
     commit_buf_1 := commit_buf_1 b; fetch_buf_size_ := fetch_buf_size_ b;
     fetch_buf_0 := fetch_buf_0 b; fetch_buf_1 := fetch_buf_1 b; b_buf_bases_ := b_buf_bases_ b |}.

Definition b_with_commit (size : Z) (p0 p1 : option Z) (b : BatchIoQueue) : BatchIoQueue :=
  {| b_ublkc_fd_ := b_ublkc_fd_ b; b_q_id_ := b_q_id_ b; b_flags_ := b_flags_ b;
     b_queue_depth_ := b_queue_depth_ b; b_max_io_buf_bytes_ := b_max_io_buf_bytes_ b;
     b_queue_handler := b_queue_handler b; b_iod_base_ := b_iod_base_ b;
     commit_buf_size_ := size; commit_buf_0 := p0; commit_buf_1 := p1;
     fetch_buf_size_ := fetch_buf_size_ b; fetch_buf_0 := fetch_buf_0 b;
     fetch_buf_1 := fetch_buf_1 b; b_buf_bases_ := b_buf_bases_ b |}.

Definition b_with_fetch (size : Z) (p0 p1 : option Z) (b : BatchIoQueue) : BatchIoQueue :=
  {| b_ublkc_fd_ := b_ublkc_fd_ b; b_q_id_ := b_q_id_ b; b_flags_ := b_flags_ b;
     b_queue_depth_ := b_queue_depth_ b; b_max_io_buf_bytes_ := b_max_io_buf_bytes_ b;
     b_queue_handler := b_queue_handler b; b_iod_base_ := b_iod_base_ b;
     commit_buf_size_ := commit_buf_size_ b; commit_buf_0 := commit_buf_0 b;
     commit_buf_1 := commit_buf_1 b; fetch_buf_size_ := size; fetch_buf_0 := p0;
     fetch_buf_1 := p1; b_buf_bases_ := b_buf_bases_ b |}.

Definition b_with_bufs (l : list Z) (b : BatchIoQueue) : BatchIoQueue :=
  {| b_ublkc_fd_ := b_ublkc_fd_ b; b_q_id_ := b_q_id_ b; b_flags_ := b_flags_ b;
     b_queue_depth_ := b_queue_depth_ b; b_max_io_buf_bytes_ := b_max_io_buf_bytes_ b;
     b_queue_handler := b_queue_handler b; b_iod_base_ := b_iod_base_ b;
     commit_buf_size_ := commit_buf_size_ b; commit_buf_0 := commit_buf_0 b;
     commit_buf_1 := commit_buf_1 b; fetch_buf_size_ := fetch_buf_size_ b;
     fetch_buf_0 := fetch_buf_0 b; fetch_buf_1 := fetch_buf_1 b; b_buf_bases_ := l |}.

Section BatchObject.
Context (page : Z).

(** [sizeof(uint16_t)] *)
Definition sizeof_u16 : Z := 2.

(** A pair of buffers of [size] bytes in one allocation, locked in memory;
    [set] stores the two addresses. *)
Definition alloc_pair (size : Z) (set : option Z -> option Z -> BatchIoQueue -> BatchIoQueue)
    (b : BatchIoQueue) (k : BatchIoQueue -> ctor BatchIoQueue) : ctor BatchIoQueue :=
  let_value (alloc_aligned (size * 2) page) (fun r =>
    match r with
    | None => just (b, Some BadAlloc)
    | Some p =>
        let b := set (Some p) (Some (p + size)) b in
        let_value (trigger (Mlock p (size * 2)) SetValue : task sys_res) (fun r =>
          match r with
          | SysErr errno => just (b, Some (SystemError errno))
          | SysOk _ => k b
          end)
    end).

Definition BatchIoQueue_init (fd_raw : Z) (b : BatchIoQueue) : ctor BatchIoQueue :=
  let_value (map_iod fd_raw (b_q_id_ b) (b_queue_depth_ b)) (fun r =>
    match r with
    | SysErr errno => just (b, Some (SystemError errno))
    | SysOk addr =>
        let b := b_with_iod (Some addr) b in
        let size := align_up (b_queue_depth_ b * commit_element_size_ (b_flags_ b)) page in
        let b := b_with_commit size (commit_buf_0 b) (commit_buf_1 b) b in
        alloc_pair size (b_with_commit size) b (fun b =>
        let size := align_up (b_queue_depth_ b * sizeof_u16) page in
        let b := b_with_fetch size (fetch_buf_0 b) (fetch_buf_1 b) b in
        alloc_pair size (b_with_fetch size) b (fun b =>
        if need_alloc_buf (b_flags_ b) then
          let_value (alloc_bufs (b_max_io_buf_bytes_ b) page (Z.to_nat (b_queue_depth_ b)) [])
            (fun '(bases, e) => just (b_with_bufs bases b, e))
        else just (b, None)))
    end).

(** [munlock] and [free_aligned] of a pair of buffers. *)
Definition free_pair (p : option Z) (size : Z) : task unit :=
  match p with
  | None => just tt
  | Some p =>
      let_value (perform (Munlock p (size * 2)) id) (fun _ => free_aligned p (size * 2) page)
  end.

Definition BatchIoQueue_cleanup_ (b : BatchIoQueue) : task BatchIoQueue :=
  let_value (free_bufs (b_max_io_buf_bytes_ b) page (b_buf_bases_ b)) (fun _ =>
  let b := b_with_bufs [] b in
  let_value (free_pair (fetch_buf_0 b) (fetch_buf_size_ b)) (fun _ =>
  let_value (free_pair (commit_buf_0 b) (commit_buf_size_ b)) (fun _ =>
  match b_iod_base_ b with
  | Some a =>
      let_value (perform (Munmap a (iod_map_size (b_queue_depth_ b))) id) (fun _ =>
        just (b_with_iod None b))
  | None => just b
  end))).

Definition BatchIoQueue_ctor (ublkc_fd : fdref) (ublkc_fd_raw q_id flags queue_depth
    max_io_buf_bytes : Z) (qh : bool) : task BatchIoQueue :=
  guarded_ctor
    (BatchIoQueue_init ublkc_fd_raw
       {| b_ublkc_fd_ := ublkc_fd; b_q_id_ := q_id; b_flags_ := flags;
          b_queue_depth_ := queue_depth; b_max_io_buf_bytes_ := max_io_buf_bytes;
          b_queue_handler := qh; b_iod_base_ := None;
          commit_buf_size_ := 0; commit_buf_0 := None; commit_buf_1 := None;
          fetch_buf_size_ := 0; fetch_buf_0 := None; fetch_buf_1 := None; b_buf_bases_ := [] |})
    BatchIoQueue_cleanup_.

Definition BatchIoQueue_dtor (b : BatchIoQueue) : task unit :=
  then_ (BatchIoQueue_cleanup_ b) (fun _ => tt).

(** ** What the object holds *)

(** A pair, locked or not. *)
Definition pair_held (p : option Z) (size : Z) (locked : bool) : resources :=
  match p with
  | None => ∅
  | Some p => {[+ RMem p (size * 2) page +]} ⊎ (if locked then {[+ RLock p (size * 2) +]} else ∅)
  end.

Definition batch_held_with (lc lf : bool) (b : BatchIoQueue) : resources :=
  match b_iod_base_ b with
  | Some a => {[+ RMap a (iod_map_size (b_queue_depth_ b)) +]}
  | None => ∅
  end ⊎ pair_held (commit_buf_0 b) (commit_buf_size_ b) lc
    ⊎ pair_held (fetch_buf_0 b) (fetch_buf_size_ b) lf
    ⊎ mems (b_max_io_buf_bytes_ b) page (b_buf_bases_ b).

Definition batch_held : BatchIoQueue -> resources := batch_held_with true true.

(** The memory a new allocation returns is not locked already. *)
Definition no_locks (X : resources) : Prop := forall a s, RLock a s ∉ X.

Definition batch_ready (b : BatchIoQueue) : Prop :=
  is_Some (b_iod_base_ b) /\
  (exists p, commit_buf_0 b = Some p /\ commit_buf_1 b = Some (p + commit_buf_size_ b)) /\
  (exists p, fetch_buf_0 b = Some p /\ fetch_buf_1 b = Some (p + fetch_buf_size_ b)) /\
  commit_buf_size_ b = align_up (b_queue_depth_ b * commit_element_size_ (b_flags_ b)) page /\
  fetch_buf_size_ b = align_up (b_queue_depth_ b * sizeof_u16) page /\
  length (b_buf_bases_ b) =
    if need_alloc_buf (b_flags_ b) then Z.to_nat (b_queue_depth_ b) else 0%nat.

(** ** Lemmas *)

Lemma unlock_held x y (X : resources) :
  (X ⊎ ({[+ x +]} ⊎ {[+ y +]})) ∖ {[+ y +]} = acquire x X.
Proof. unfold acquire. multiset_solver. Qed.

Lemma unlock_missing x y (X : resources) :
  y ∉ X -> y <> x -> (X ⊎ ({[+ x +]} ⊎ ∅)) ∖ {[+ y +]} = acquire x X.
Proof. unfold acquire. intros. multiset_solver. Qed.

Lemma free_pair_obeys X p size locked :
  no_locks X ->
  obeys ledger (free_pair p size) (X ⊎ pair_held p size locked)
    (fun c X' => c = SetValue tt /\ X' = X).
Proof.
  intros HX. destruct p as [p|]; [destruct locked|]; cbn [free_pair pair_held].
  1,2: apply obeys_let_value, obeys_trigger; intros []; eexists; (split; [reflexivity|]);
    cbn [id then_obeys]; apply obeys_trigger; intros [];
    exists X; (split; [|split; reflexivity]); cbn [ledger].
  - rewrite unlock_held. apply release_acquire.
  - rewrite unlock_missing by (apply HX || discriminate). apply release_acquire.
  - split; [reflexivity|]. multiset_solver.
Qed.

Lemma unlock_other x y a (X : resources) :
  (X ⊎ ({[+ a +]} ⊎ {[+ y +]}) ⊎ ({[+ x +]} ⊎ ∅)) ∖ {[+ y +]} = acquire x (X ⊎ ({[+ a +]} ⊎ ∅)).
Proof. unfold acquire. multiset_solver. Qed.

Lemma pair_no_lock p size p' size' :
  RLock p' size' <> RLock p (size * 2) -> RLock p' size' ∉ pair_held (Some p) size true.
Proof. intros H. cbn [pair_held]. multiset_solver. Qed.

Lemma pair_unlocked_no_locks p size : no_locks (pair_held p size false).
Proof. intros a s. destruct p; cbn [pair_held]; multiset_solver. Qed.

(** Freeing the second pair leaves the first, whose lock goes with the other's
    when the driver of the allocator hands out the same address twice. *)
Lemma obeys_free_pair {A} X pc sc lc pf sf lf (k : task A) Q :
  no_locks X ->
  (forall lc', obeys ledger k (X ⊎ pair_held pc sc lc') Q) ->
  obeys ledger (let_value (free_pair pf sf) (fun _ => k))
    (X ⊎ pair_held pc sc lc ⊎ pair_held pf sf lf) Q.
Proof.
  intros HX Hk.
  assert (forall lc', obeys ledger (free_pair pf sf) (X ⊎ pair_held pc sc lc' ⊎ pair_held pf sf lf)
    (fun c X' => c = SetValue tt /\ exists lc'', X' = X ⊎ pair_held pc sc lc'')) as H.
  { intros lc'. destruct pf as [pf|]; cbn [free_pair];
      [|split; [reflexivity|exists lc'; cbn [pair_held]; apply (right_id_L ∅ (⊎))]].
    apply obeys_let_value, obeys_trigger. intros []. eexists; split; [reflexivity|].
    cbn [id then_obeys]. apply obeys_trigger. intros []. cbn [ledger pair_held].
    destruct lf; [rewrite unlock_held, release_acquire; eauto|].
    destruct pc as [pc|]; [destruct lc'; [destruct (decide (RLock pf (sf * 2) = RLock pc (sc * 2)))
      as [E|E]|]|].
    - cbn [pair_held]. rewrite <- E, unlock_other, release_acquire.
      eexists; split; [reflexivity|]. split; [reflexivity|]. exists false. reflexivity.
    - rewrite unlock_missing; [rewrite release_acquire; eauto| |discriminate].
      pose proof (pair_no_lock pc sc pf (sf * 2) E). specialize (HX pf (sf * 2)). multiset_solver.
    - rewrite unlock_missing; [rewrite release_acquire; eauto| |discriminate].
      pose proof (pair_unlocked_no_locks (Some pc) sc pf (sf * 2)).
      specialize (HX pf (sf * 2)). multiset_solver.
    - rewrite unlock_missing; [rewrite release_acquire; eauto| |discriminate].
      specialize (HX pf (sf * 2)). cbn [pair_held]. multiset_solver. }
  apply obeys_let_value. eapply obeys_mono; [|apply H].
  intros c X' [-> [lc'' ->]]. apply Hk.
Qed.

Definition b_emptied (b : BatchIoQueue) : BatchIoQueue := b_with_iod None (b_with_bufs [] b).

Lemma iod_no_locks X (o : option Z) size :
  no_locks X -> no_locks (X ⊎ match o with Some a => {[+ RMap a size +]} | None => ∅ end).
Proof. intros HX a s. specialize (HX a s). destruct o; multiset_solver. Qed.

Lemma batch_cleanup_obeys X lc lf b :
  no_locks X ->
  obeys ledger (BatchIoQueue_cleanup_ b) (X ⊎ batch_held_with lc lf b)
    (fun c X' => c = SetValue (b_emptied b) /\ X' = X).
Proof.
  intros HX. unfold BatchIoQueue_cleanup_, batch_held_with.
  apply obeys_let_value. eapply obeys_mono; cycle 1.
  { rewrite (assoc_L (⊎)). apply free_bufs_obeys. }
  intros c X' [-> ->]. cbn [then_obeys].
  cbn [b_with_bufs fetch_buf_0 fetch_buf_size_ commit_buf_0 commit_buf_size_ b_iod_base_].
  pose proof (iod_no_locks X (b_iod_base_ b) (iod_map_size (b_queue_depth_ b)) HX) as HI.
  rewrite !(assoc_L (⊎)). apply obeys_free_pair; [exact HI|]. intros lc'.
  apply obeys_let_value. eapply obeys_mono; [|apply free_pair_obeys, HI].
  intros c X' [-> ->]. cbn [then_obeys]. unfold b_emptied.
  destruct (b_iod_base_ b) as [a|] eqn:E.
  - apply obeys_let_value, obeys_trigger. intros []. exists X. split; [|split; reflexivity].
    apply release_acquire.
  - split; [|apply (right_id_L ∅ (⊎))]. destruct b; cbn in E; subst; reflexivity.
Qed.

Lemma alloc_pair_obeys Y size set b k Q :
  Q (SetValue (b, Some BadAlloc)) Y ->
  (forall p, let b' := set (Some p) (Some (p + size)) b in
     (forall errno, Q (SetValue (b', Some (SystemError errno))) (Y ⊎ pair_held (Some p) size false)) /\
     obeys ledger (k b') (Y ⊎ pair_held (Some p) size true) Q) ->
  obeys ledger (alloc_pair size set b k) Y Q.
Proof.
  intros HN HP. apply obeys_let_value, obeys_trigger. intros [p|].
  - eexists; split; [reflexivity|]. cbn [then_obeys]. destruct (HP p) as [He Hk].
    apply obeys_let_value, obeys_trigger. intros [v|errno]; eexists; (split; [reflexivity|]);
      cbn [then_obeys just obeys].
    + cbn [pair_held] in Hk. rewrite (assoc_L (⊎)) in Hk. exact Hk.
    + specialize (He errno). cbn [pair_held] in He. rewrite (right_id_L ∅ (⊎)) in He. exact He.
  - eexists; split; [reflexivity|]. exact HN.
Qed.

(** How the body of the constructor leaves the object. *)
Definition init_left (X : resources) (c : completion (BatchIoQueue * option exn))
    (X' : resources) : Prop :=
  exists b e, c = SetValue (b, e) /\
    match e with
    | None => X' = X ⊎ batch_held b /\ batch_ready b
    | Some _ => exists lc lf, X' = X ⊎ batch_held_with lc lf b
    end.

Lemma held_eq X (I P F M : resources) : X ⊎ I ⊎ P ⊎ F ⊎ M = X ⊎ (I ⊎ P ⊎ F ⊎ M).
Proof. rewrite !(assoc_L (⊎)). reflexivity. Qed.

Lemma batch_init_obeys X fd fd_raw q_id flags depth max qh :
  obeys ledger
    (BatchIoQueue_init fd_raw
       {| b_ublkc_fd_ := fd; b_q_id_ := q_id; b_flags_ := flags;
          b_queue_depth_ := depth; b_max_io_buf_bytes_ := max;
          b_queue_handler := qh; b_iod_base_ := None;
          commit_buf_size_ := 0; commit_buf_0 := None; commit_buf_1 := None;
          fetch_buf_size_ := 0; fetch_buf_0 := None; fetch_buf_1 := None; b_buf_bases_ := [] |})
    X (init_left X).
Proof.
  unfold BatchIoQueue_init. cbn [b_q_id_ b_queue_depth_].
  apply obeys_let_value, obeys_trigger. intros [a|errno]; eexists; (split; [reflexivity|]);
    cbn [then_obeys]; cycle 1.
  { eexists _, (Some _). split; [reflexivity|]. exists true, true. unfold batch_held_with, mems.
    cbn [b_iod_base_ commit_buf_0 fetch_buf_0 b_buf_bases_ pair_held map list_to_set_disj].
    rewrite !(right_id_L ∅ (⊎)). reflexivity. }
  set (I := {[+ RMap a (iod_map_size depth) +]} : resources).
  change (acquire _ X) with (X ⊎ I).
  apply alloc_pair_obeys.
  { eexists _, (Some _). split; [reflexivity|]. exists true, true.
    change (batch_held_with true true _) with (I ⊎ ∅ ⊎ ∅ ⊎ (∅ : resources)).
    rewrite !(right_id_L ∅ (⊎)). reflexivity. }
  intros pc. cbv zeta. set (sc := align_up (b_queue_depth_ _ * _) page).
  set (P := pair_held (Some pc) sc). split.
  { intros errno. eexists _, (Some _). split; [reflexivity|]. exists false, true.
    change (batch_held_with false true _) with (I ⊎ P false ⊎ ∅ ⊎ (∅ : resources)).
    rewrite !(right_id_L ∅ (⊎)), (assoc_L (⊎)). reflexivity. }
  apply alloc_pair_obeys.
  { eexists _, (Some _). split; [reflexivity|]. exists true, true.
    change (batch_held_with true true _) with (I ⊎ P true ⊎ ∅ ⊎ (∅ : resources)).
    rewrite !(right_id_L ∅ (⊎)), (assoc_L (⊎)). reflexivity. }
  intros pf. cbv zeta. set (sf := align_up (b_queue_depth_ _ * sizeof_u16) page).
  set (F := pair_held (Some pf) sf). split.
  { intros errno. eexists _, (Some _). split; [reflexivity|]. exists true, false.
    change (batch_held_with true false _) with (I ⊎ P true ⊎ F false ⊎ (∅ : resources)).
    rewrite !(right_id_L ∅ (⊎)), !(assoc_L (⊎)). reflexivity. }
  cbn [b_flags_ b_with_fetch b_with_commit b_with_iod b_max_io_buf_bytes_ b_queue_depth_].
  assert (forall l, X ⊎ I ⊎ P true ⊎ F true ⊎ mems max page l =
                    X ⊎ (I ⊎ P true ⊎ F true ⊎ mems max page l)) as Hassoc
    by (intros; apply held_eq).
  destruct (need_alloc_buf flags) eqn:Hneed.
  - apply obeys_let_value. eapply obeys_mono; cycle 1.
    { eapply obeys_acquired; [|apply alloc_bufs_obeys with (bases := [])].
      unfold mems; cbn [map list_to_set_disj]. apply (right_id_L ∅ (⊎)). }
    intros c X' (bases & e & -> & -> & Hl). cbn [then_obeys just obeys].
    rewrite Hassoc. eexists _, e. split; [reflexivity|].
    destruct e as [x|]; [exists true, true; reflexivity|]. split; [reflexivity|].
    unfold batch_ready; split_all; try reflexivity; try (eexists; split; reflexivity).
    change (length bases = if need_alloc_buf flags then Z.to_nat depth else 0%nat).
    rewrite Hneed. exact (Hl eq_refl).
  - cbn [just obeys]. eexists _, None. split; [reflexivity|]. split.
    + rewrite <- (right_id_L ∅ (⊎) (X ⊎ I ⊎ P true ⊎ F true)). apply (Hassoc []).
    + unfold batch_ready; split_all; try reflexivity; try (eexists; split; reflexivity).
      change (0%nat = if need_alloc_buf flags then Z.to_nat depth else 0%nat).
      rewrite Hneed. reflexivity.
Qed.

Lemma batch_ctor_obeys X fd fd_raw q_id flags depth max qh :
  no_locks X ->
  obeys ledger (BatchIoQueue_ctor fd fd_raw q_id flags depth max qh) X (fun c X' =>
    match c with
    | SetValue b => X' = X ⊎ batch_held b /\ batch_ready b
    | SetError _ => X' = X
    | _ => False
    end).
Proof.
  intros HX. apply obeys_let_value. eapply obeys_mono; [|apply batch_init_obeys].
  intros c X' (b & e & -> & He). destruct e as [x|]; cbn [then_obeys].
  - destruct He as (lc & lf & ->). apply obeys_let_value.
    eapply obeys_mono; [|apply batch_cleanup_obeys, HX]. intros c X' [-> ->]. reflexivity.
  - exact He.
Qed.

Lemma batch_dtor_obeys X b :
  no_locks X ->
  obeys ledger (BatchIoQueue_dtor b) (X ⊎ batch_held b) (fun c X' => c = SetValue tt /\ X' = X).
Proof.
  intros HX. apply obeys_let_value. eapply obeys_mono; [|apply batch_cleanup_obeys, HX].
  intros c X' [-> ->]. split; reflexivity.
Qed.
End BatchObject.

(** ** Theorems *)

(** C25: the life cycle of the batch queue loses and leaks nothing: a
    constructor that throws - at the mapping, at either pair of buffers or at
    the lock of one, at a data buffer - has released all it had acquired; one
    that returns holds the mapping, the two locked pairs and the data buffers,
    with the second buffer of a pair right behind the first; and the
    destructor releases exactly that. *)
Theorem batch_lifecycle page X fd fd_raw q_id flags depth max qh :
  no_locks X ->
  obeys ledger (BatchIoQueue_ctor page fd fd_raw q_id flags depth max qh) X (fun c X' =>
    match c with
    | SetValue b => X' = X ⊎ batch_held page b /\ batch_ready page b
    | SetError _ => X' = X
    | _ => False
    end) /\
  forall b, obeys ledger (BatchIoQueue_dtor page b) (X ⊎ batch_held page b)
              (fun c X' => c = SetValue tt /\ X' = X).
Proof.
  intros HX. split; [apply batch_ctor_obeys, HX|intros b; apply batch_dtor_obeys, HX].
Qed.

(** No process memory is locked at first; the second [mlock] fails. *)
Lemma batch_lifecycle_witness :
  let K : env := fun h c =>
    match c return reply c -> reply c with
    | AllocAligned _ _ => fun _ => Some (8192 * (1 + Z.of_nat (length h)))
    | Mlock a _ => fun _ => if a <? 30000 then SysOk 0 else SysErr 12
    | _ => id
    end (ok_reply c) in
  let p := BatchIoQueue_ctor 4096 (Fixed 0) 5 0 0 4 4096 false in
  fst (exec K p []) = SetError (ErrPtr (SystemError 12)) /\
  exists t X', snd (exec K p []) = [] ++ t /\ accepts ledger ∅ t = Some X' /\ X' = ∅.
Proof.
  intros K p. split; [reflexivity|].
  destruct (batch_lifecycle 4096 ∅ (Fixed 0) 5 0 0 4 4096 false) as [Hctor _];
    [intros a s; multiset_solver|].
  destruct (obeys_exec _ K p ∅ _ [] Hctor) as (t & X' & Ht & Ha & HX).
  exists t, X'. split; [exact Ht|]. split; [exact Ha|].
  assert (fst (exec K p []) = SetError (ErrPtr (SystemError 12))) as E by reflexivity.
  rewrite E in HX. exact HX.
Defined.

(** ** Elements in the buffers of an object *)

Definition commit_base (b : BatchIoQueue) (index : Z) : option Z :=
  if index =? 0 then commit_buf_0 b else commit_buf_1 b.

(** The writes of a worker: its result, and the location of a zone append. *)
Definition write_element (b : BatchIoQueue) (append : bool) (base pos tag res lba : Z) (m : mem)
    : mem :=
  let m := set_result_ (b_flags_ b) (b_buf_bases_ b) base pos tag res m in
  if append then set_zone_lba_ (b_flags_ b) base pos lba m else m.

Section Elements.
Context (n : Z) (b : BatchIoQueue).
Hypothesis Hn : 0 <= n < 63.
Hypothesis Hready : batch_ready (2 ^ n) b.
Hypothesis Hdepth : is_u 16 (b_queue_depth_ b).

Let size := commit_element_size_ (b_flags_ b).
Let hdr base pos := commit_f_hdr (b_flags_ b) base pos.

(** Each half holds an element per tag. *)
Lemma commit_buf_fits : 0 <= b_queue_depth_ b * size <= commit_buf_size_ b.
Proof.
  destruct Hready as (_ & _ & _ & -> & _). pose proof (commit_element_size_le (b_flags_ b)).
  fold size in H. fold size. unfold is_u in Hdepth.
  assert (0 <= b_queue_depth_ b * size <= 65536 * 24) by nia. split; [lia|].
  assert (0 < 2 ^ n <= 2 ^ 62)
    by (split; [apply Z.pow_pos_nonneg; lia|apply Z.pow_le_mono_r; lia]).
  apply (align_up_bounds (b_queue_depth_ b * size) n); [lia..|range].
Qed.

Definition slot_ok (index pos base : Z) : Prop :=
  0 <= index <= 1 /\ 0 <= pos < b_queue_depth_ b /\ commit_base b index = Some base.

Lemma slot_bounds index pos base :
  slot_ok index pos base ->
  exists p, commit_buf_0 b = Some p /\ base = p + index * commit_buf_size_ b /\
    base <= hdr base pos /\ hdr base pos + size <= base + commit_buf_size_ b.
Proof.
  intros (Hi & Hp & Hb). pose proof commit_buf_fits.
  pose proof (commit_element_size_le (b_flags_ b)) as Hs. fold size in Hs.
  destruct Hready as (_ & (p & H0 & H1) & _). exists p. split; [assumption|].
  unfold commit_base in Hb. rewrite H0, H1 in Hb. unfold hdr, commit_f_hdr. fold size.
  split; [destruct (Z.eqb_spec index 0); injection Hb as <-; [lia|]|nia].
  assert (index = 1) as -> by lia. lia.
Qed.

Lemma slots_disjoint i pos base i' pos' base' :
  slot_ok i pos base -> slot_ok i' pos' base' -> (i, pos) <> (i', pos') ->
  hdr base pos + size <= hdr base' pos' \/ hdr base' pos' + size <= hdr base pos.
Proof.
  intros H H' Hne.
  destruct (slot_bounds _ _ _ H) as (p & Hp & -> & Hl & Hu).
  destruct (slot_bounds _ _ _ H') as (p' & Hp' & -> & Hl' & Hu').
  rewrite Hp in Hp'; injection Hp' as <-. destruct H as (Hi & _), H' as (Hi' & _).
  destruct (Z.eq_dec i i') as [<-|Hii].
  - assert (pos <> pos') by congruence.
    assert (forall x y, hdr x y = x + y * size) as E by reflexivity. rewrite !E.
    assert (8 <= size) by apply commit_element_size_le.
    destruct (Z.lt_total pos pos') as [|[|]]; [nia|lia|nia].
  - assert ((i = 0 /\ i' = 1) \/ (i = 1 /\ i' = 0)) as [[-> ->]|[-> ->]] by lia; lia.
Qed.

Lemma write_element_other append base pos tag res lba m x :
  (append = true -> need_f_zone_lba_ (b_flags_ b) = true) ->
  ~ (hdr base pos <= x < hdr base pos + size) ->
  write_element b append base pos tag res lba m x = m x.
Proof.
  intros Ha Hx. unfold write_element. destruct append.
  - rewrite set_zone_lba_other by auto. apply set_result_other, Hx.
  - apply set_result_other, Hx.
Qed.
End Elements.

(** C19: a commit element is what the driver reads: after a worker's writes to a
    slot of a commit buffer, the driver's decoding of that slot, by the flags
    the library sends with the command, yields the tag, the result, the buffer
    address or index of the mode and the zone append location; the element
    lies within its half of the allocation; and every other slot, of either
    buffer, decodes as before. *)
Theorem commit_element_written n b append index pos base tag res lba m :
  0 <= n < 63 -> batch_ready (2 ^ n) b -> is_u 16 (b_queue_depth_ b) ->
  slot_ok b index pos base ->
  is_u 16 tag -> is_s 32 res -> is_u 64 lba ->
  (append = true -> need_f_zone_lba_ (b_flags_ b) = true) ->
  let flags := get_batch_flags_ (b_flags_ b) in
  let at_ base pos := commit_f_hdr (b_flags_ b) base pos in
  let m' := write_element b append base pos tag res lba m in
  let e := decode_element flags m' (at_ base pos) in
  element_bytes flags = commit_element_size_ (b_flags_ b) /\
  el_tag e = tag /\ el_result e = res /\
  (has (b_flags_ b) UBLK_F_AUTO_BUF_REG = true -> el_buf_index e = tag) /\
  el_buf_addr e = (if need_f_buf_addr_ (b_flags_ b)
                   then Some (ptr_u64 (b_buf_bases_ b !! Z.to_nat tag)) else None) /\
  (append = true -> el_zone_lba e = Some lba) /\
  (exists p, commit_buf_0 b = Some p /\ p <= at_ base pos /\
     at_ base pos + element_bytes flags <= p + commit_buf_size_ b * 2) /\
  forall index' pos' base', slot_ok b index' pos' base' -> (index, pos) <> (index', pos') ->
    decode_element flags m' (at_ base' pos') = decode_element flags m (at_ base' pos').
Proof.
  intros Hn Hr Hd Hslot Ht Hres Hl Ha flags at_ m' e.
  split; [apply batch_element_bytes|].
  pose proof (set_result_decodes (b_flags_ b) (b_buf_bases_ b) base pos tag res m Ht Hres)
    as (H1 & H2 & H3 & H4).
  split_all.
  7: { intros i' pos' base' Hs' Hne. apply decode_element_ext. intros x Hx.
       apply (write_element_other b); [assumption|].
       destruct (slots_disjoint n b Hn Hr Hd _ _ _ _ _ _ Hslot Hs' Hne); lia. }
  6: { destruct (slot_bounds n b Hn Hr Hd _ _ _ Hslot) as (p & Hp & -> & Hlo & Hhi).
       exists p. split; [assumption|]. unfold flags. rewrite batch_element_bytes.
       pose proof (commit_buf_fits n b Hn Hr Hd). destruct Hslot as (Hi & _).
       unfold at_. split; nia. }
  all: unfold e, m', write_element; destruct append; try discriminate; try assumption;
    try (intros; discriminate);
    destruct (set_zone_lba_decodes (b_flags_ b) base pos lba
                (set_result_ (b_flags_ b) (b_buf_bases_ b) base pos tag res m) (Ha eq_refl) Hl)
      as (Hz1 & Hz2 & Hz3 & Hz4 & Hz5); unfold flags, at_;
    first [congruence | intros _; exact Hz1 | intros Hauto; rewrite Hz4; exact (H3 Hauto)].
Qed.

(** ** The preparation and the commits

    [run] writes an element per tag to the first buffer and hands it to the
    driver; the flusher hands over the first [nr] elements of a buffer. *)

Definition prep_elements (b : BatchIoQueue) (base : Z) (m : mem) : mem :=
  fold_left (fun m tag => set_result_ (b_flags_ b) (b_buf_bases_ b) base tag tag 0 m)
            (all_tags (b_queue_depth_ b)) m.

Definition prep_command (b : BatchIoQueue) (base : Z) : task Z :=
  raw_prep_io_cmds (b_ublkc_fd_ b) (b_q_id_ b) (get_batch_flags_ (b_flags_ b))
    (b_queue_depth_ b) (commit_element_size_ (b_flags_ b)) base
    (b_queue_depth_ b * commit_element_size_ (b_flags_ b)).

Definition commit_command (b : BatchIoQueue) (base nr : Z) : task Z :=
  raw_commit_io_cmds (b_ublkc_fd_ b) (b_q_id_ b) (get_batch_flags_ (b_flags_ b))
    nr (commit_element_size_ (b_flags_ b)) base (nr * commit_element_size_ (b_flags_ b)).

(** A batch command describes a range of whole elements inside the buffer. *)
Definition batch_command_ok (b : BatchIoQueue) (base nr : Z) (c : call) : Prop :=
  match c with
  | UringBatch _ _ cmd addr len =>
      batch_nr_elem cmd = nr /\ batch_elem_bytes cmd = element_bytes (batch_flags cmd) /\
      len = nr * batch_elem_bytes cmd /\ len <= commit_buf_size_ b /\ addr = base
  | _ => False
  end.

Lemma batch_flags_small flags : is_u 16 (get_batch_flags_ flags).
Proof.
  unfold get_batch_flags_, need_f_buf_addr_.
  destruct (has flags UBLK_F_AUTO_BUF_REG), (need_alloc_buf flags), (need_f_zone_lba_ flags);
    split; vm_compute; congruence.
Qed.

Lemma batch_command_lengths n b base nr op :
  0 <= n < 63 -> batch_ready (2 ^ n) b -> is_u 16 (b_queue_depth_ b) ->
  0 <= nr <= b_queue_depth_ b -> is_u 64 base ->
  all_calls (batch_command_ok b base nr)
    (batch_io_cmd (b_ublkc_fd_ b) op (b_q_id_ b) (get_batch_flags_ (b_flags_ b)) nr
       (commit_element_size_ (b_flags_ b)) base (nr * commit_element_size_ (b_flags_ b))).
Proof.
  intros Hn Hr Hd Hnr Hb. split; [|intros r; exact I].
  pose proof (commit_element_size_le (b_flags_ b)) as Hs.
  pose proof (commit_buf_fits n b Hn Hr Hd) as Hfit.
  set (size := commit_element_size_ (b_flags_ b)) in *.
  assert (0 <= nr * size <= 65535 * 24) by (unfold is_u in *; nia).
  cbn [batch_command_ok batch_nr_elem batch_elem_bytes batch_flags].
  rewrite (uwrap_id 16 nr), (uwrap_id 8 size), (uwrap_id 64 base), (uwrap_id 32 (nr * size)),
    (uwrap_id 16 (get_batch_flags_ _)) by (assumption || apply batch_flags_small || range).
  rewrite batch_element_bytes. fold size. split_all; try reflexivity. nia.
Qed.

Lemma prep_element_written n b base tag m :
  0 <= n < 63 -> batch_ready (2 ^ n) b -> is_u 16 (b_queue_depth_ b) ->
  slot_ok b 0 tag base ->
  let m' := set_result_ (b_flags_ b) (b_buf_bases_ b) base tag tag 0 m in
  let at_ pos := decode_element (get_batch_flags_ (b_flags_ b)) in
  (el_tag (at_ tag m' (commit_f_hdr (b_flags_ b) base tag)) = tag /\
   el_result (at_ tag m' (commit_f_hdr (b_flags_ b) base tag)) = 0) /\
  forall pos, slot_ok b 0 pos base -> pos <> tag ->
    at_ pos m' (commit_f_hdr (b_flags_ b) base pos) = at_ pos m (commit_f_hdr (b_flags_ b) base pos).
Proof.
  intros Hn Hr Hd Hslot m' at_. split.
  - destruct (set_result_decodes (b_flags_ b) (b_buf_bases_ b) base tag tag 0 m) as (H1 & H2 & _);
      [destruct Hslot as (_ & Ht & _); range|split; vm_compute; congruence|]. auto.
  - intros pos Hpos Hne. apply decode_element_ext. intros x Hx. apply set_result_other.
    destruct (slots_disjoint n b Hn Hr Hd _ _ _ _ _ _ Hslot Hpos ltac:(congruence)); lia.
Qed.

(** C34: the batch commands describe what is in the buffers: the preparation
    hands over one element per tag, each with its own tag and a zero result;
    and the length, element count and element size of the preparation and of
    every commit agree with each other and with the flags, are not truncated by
    the fields that carry them, and stay within the buffer. *)
Theorem batch_commands_describe n b base nr m :
  0 <= n < 63 -> batch_ready (2 ^ n) b -> is_u 16 (b_queue_depth_ b) ->
  commit_buf_0 b = Some base -> is_u 64 base -> 0 <= nr <= b_queue_depth_ b ->
  all_calls (batch_command_ok b base (b_queue_depth_ b)) (prep_command b base) /\
  all_calls (batch_command_ok b base nr) (commit_command b base nr) /\
  forall tag, 0 <= tag < b_queue_depth_ b ->
    let e := decode_element (get_batch_flags_ (b_flags_ b)) (prep_elements b base m)
               (commit_f_hdr (b_flags_ b) base tag) in
    el_tag e = tag /\ el_result e = 0.
Proof.
  intros Hn Hr Hd Hb Hu Hnr.
  split; [apply (batch_command_lengths n); auto; unfold is_u in *; lia|].
  split; [apply (batch_command_lengths n); auto|].
  assert (forall pos, 0 <= pos < b_queue_depth_ b -> slot_ok b 0 pos base) as Hslot
    by (intros; unfold slot_ok, commit_base; rewrite Hb; split_all; auto; lia).
  intros tag Ht e. unfold e, prep_elements. clear e.
  assert (tag ∈ all_tags (b_queue_depth_ b)) as Hin by (apply elem_of_seqZ; lia).
  assert (forall t, t ∈ all_tags (b_queue_depth_ b) -> 0 <= t < b_queue_depth_ b) as Hall
    by (intros t Htt; apply elem_of_seqZ in Htt; lia).
  set (good := fun m => el_tag (decode_element (get_batch_flags_ (b_flags_ b)) m
                 (commit_f_hdr (b_flags_ b) base tag)) = tag /\
               el_result (decode_element (get_batch_flags_ (b_flags_ b)) m
                 (commit_f_hdr (b_flags_ b) base tag)) = 0).
  assert (forall l m, (forall t, t ∈ l -> 0 <= t < b_queue_depth_ b) -> good m \/ tag ∈ l ->
    good (fold_left (fun m tag => set_result_ (b_flags_ b) (b_buf_bases_ b) base tag tag 0 m) l m))
    as Hfold.
  { induction l as [|t l IH]; intros m1 Hl [Hg|Hg]; cbn [fold_left]; auto; [inversion Hg|..];
      (destruct (prep_element_written n b base t m1 Hn Hr Hd) as [Hw Ho];
       [apply Hslot, Hl; left|]); (apply IH; [intros; apply Hl; right; assumption|]).
    - left. destruct (Z.eq_dec tag t) as [->|Hne]; [exact Hw|].
      unfold good. rewrite Ho by auto. exact Hg.
    - inversion Hg; subst; [left; exact Hw|right; assumption]. }
  apply Hfold; auto.
Qed.

Definition sample_batch : BatchIoQueue :=
  {| b_ublkc_fd_ := Fixed 0; b_q_id_ := 0; b_flags_ := UBLK_F_ZONED .| UBLK_F_USER_COPY;
     b_queue_depth_ := 4; b_max_io_buf_bytes_ := 4096; b_queue_handler := false;
     b_iod_base_ := Some 4096; commit_buf_size_ := 4096; commit_buf_0 := Some 65536;
     commit_buf_1 := Some 69632; fetch_buf_size_ := 4096; fetch_buf_0 := Some 131072;
     fetch_buf_1 := Some 135168; b_buf_bases_ := [] |}.

(** A zone append at sector 77 that moved 4096 bytes, in the second buffer. *)
Lemma commit_element_written_witness :
  let m' := write_element sample_batch true 69632 3 2 4096 77 (fun _ => 0) in
  decode_element 1 m' (69632 + 3 * 16) =
    {| el_tag := 2; el_buf_index := 0; el_result := 4096; el_buf_addr := None;
       el_zone_lba := Some 77 |} /\
  decode_element 1 m' (69632 + 2 * 16) = decode_element 1 (fun _ => 0) (69632 + 2 * 16).
Proof.
  intros m'. split; [vm_compute; reflexivity|].
  assert (batch_ready (2 ^ 12) sample_batch) as Hr.
  { unfold batch_ready. split_all; try reflexivity; try (eexists; split; reflexivity). }
  destruct (commit_element_written 12 sample_batch true 1 3 69632 2 4096 77 (fun _ => 0)
              ltac:(lia) Hr ltac:(split; vm_compute; congruence)
              ltac:(unfold slot_ok; split_all; vm_compute; reflexivity || congruence)
              ltac:(split; vm_compute; congruence) ltac:(split; vm_compute; congruence)
              ltac:(split; vm_compute; congruence) (fun _ => eq_refl))
    as (_ & _ & _ & _ & _ & _ & _ & H).
  apply (H 1 2 69632); [|congruence].
  unfold slot_ok; split_all; vm_compute; reflexivity || congruence.
Defined.

Lemma batch_commands_describe_witness :
  let e := decode_element 1 (prep_elements sample_batch 65536 (fun _ => 7)) (65536 + 2 * 16) in
  el_tag e = 2 /\ el_result e = 0 /\
  all_calls (batch_command_ok sample_batch 65536 3) (commit_command sample_batch 65536 3).
Proof.
  assert (batch_ready (2 ^ 12) sample_batch) as Hr.
  { unfold batch_ready. split_all; try reflexivity; try (eexists; split; reflexivity). }
  destruct (batch_commands_describe 12 sample_batch 65536 3 (fun _ => 7) ltac:(lia) Hr
              ltac:(split; vm_compute; congruence) eq_refl ltac:(split; vm_compute; congruence)
              ltac:(split; vm_compute; congruence)) as (_ & H2 & H3).
  destruct (H3 2 ltac:(split; vm_compute; congruence)) as [Ht Hres].
  split; [exact Ht|]. split; [exact Hres|exact H2].
Defined.
