(* ===== verification/Batch.v ===== *)
(** * Batch: the concurrency of the batch queue

    [BatchIoQueue::run] of [src/include/ublk/detail/queue.hpp]: a worker per
    tag, the flusher and the multishot fetch share one event loop, two commit
    buffers and a few variables.  Coroutines switch only where they await, so
    the system is a labelled machine whose step runs one coroutine from the
    completion that resumes it to its next [co_await]; [step] is that machine,
    executable, and the labels are the events that resume coroutines: the
    completions of the driver and of the handler, and the scheduler.

    The futex is condy's; the machine is given one through [Futex]. *)

From S2P Require Import Prelude Effects UblkCmd Sys IoResult.

#[local] Open Scope Z_scope.

(** ** The futex

    [futex_wait f eq]: the awaiting coroutine, [eq] telling whether the value
    is the expected one; yields whether it blocks.  [futex_notify]: yields
    whether a coroutine was woken. *)
Class Futex := {
  futex : Type;
  futex_new : futex;
  futex_wait : futex -> bool -> futex * bool;
  futex_notify : futex -> futex * bool;
}.

(** What the code relies on, each futex having one waiter: a wait blocks
    exactly when the value is the expected one, and a notification wakes the
    waiter there is. *)
Class FutexLaws (F : Futex) := {
  waiting : futex -> bool;
  futex_new_idle : waiting futex_new = false;
  futex_wait_blocks : forall f eq, waiting f = false ->
    snd (futex_wait f eq) = eq /\ waiting (fst (futex_wait f eq)) = eq;
  futex_notify_wakes : forall f,
    snd (futex_notify f) = waiting f /\ waiting (fst (futex_notify f)) = false;
}.

(** ** State *)

(** Where a worker is: about to run its loop, at one of its awaits, resumed
    from the futex, or completed. *)
Inductive worker_pc :=
  | WTop
  | WWaiting
  | WWoken
  | WRegistering
  | WHandling (io_buf : bool)
  | WUnregistering (res zone_lba : Z)
  | WReturned
  | WFailed (e : exn)
  | WStopped
  | WAssertFailed.

Inductive flusher_pc :=
  | FReady
  | FCommitting (cur_index nr taken : Z)  (** [taken]: elements the driver has read *)
  | FWaiting
  | FReturned
  | FFailed (e : exn)
  | FStopped.

(** An element of a commit buffer (its bytes are [BatchLayout]'s). *)
Record slot := { s_tag : nat; s_res : Z; s_lba : Z }.

(** The driver's side: the tags it owns, the tags it has delivered that the
    fetch callback has not seen, the results it has taken, and whether it has
    ever been given an element of a tag the server does not own. *)
Record driver := {
  d_owned : list bool;
  d_transit : list nat;
  d_committed : list (nat * Z);
  d_rejected : bool;
}.

Section Machine.
Context {F : Futex}.

Record FlusherState := {
  fl_index : Z;
  fl_pending : Z;
  fl_futex : futex;
  fl_pc : flusher_pc;
}.

Record WorkerState := {
  w_flag : bool;
  w_futex : futex;
  w_pc : worker_pc;
}.

Record state := {
  flusher : FlusherState;
  workers : list WorkerState;
  worker_stopped : bool;
  running_workers : Z;
  commit_bufs : Z -> Z -> slot;
  fetch_res : option Z;
  dev : driver;
  results : list (nat * Z);   (** what the handler has completed with *)
}.

Definition with_flusher (f : FlusherState) (s : state) : state :=
  {| flusher := f; workers := workers s; worker_stopped := worker_stopped s;
     running_workers := running_workers s; commit_bufs := commit_bufs s;
     fetch_res := fetch_res s; dev := dev s; results := results s |}.

Definition with_workers (l : list WorkerState) (s : state) : state :=
  {| flusher := flusher s; workers := l; worker_stopped := worker_stopped s;
     running_workers := running_workers s; commit_bufs := commit_bufs s;
     fetch_res := fetch_res s; dev := dev s; results := results s |}.

Definition with_running (n : Z) (s : state) : state :=
  {| flusher := flusher s; workers := workers s; worker_stopped := worker_stopped s;
     running_workers := n; commit_bufs := commit_bufs s;
     fetch_res := fetch_res s; dev := dev s; results := results s |}.

Definition with_bufs (b : Z -> Z -> slot) (s : state) : state :=
  {| flusher := flusher s; workers := workers s; worker_stopped := worker_stopped s;
     running_workers := running_workers s; commit_bufs := b;
     fetch_res := fetch_res s; dev := dev s; results := results s |}.

Definition with_fetch_end (r : Z) (s : state) : state :=
  {| flusher := flusher s; workers := workers s; worker_stopped := true;
     running_workers := running_workers s; commit_bufs := commit_bufs s;
     fetch_res := Some r; dev := dev s; results := results s |}.

Definition with_dev (d : driver) (s : state) : state :=
  {| flusher := flusher s; workers := workers s; worker_stopped := worker_stopped s;
     running_workers := running_workers s; commit_bufs := commit_bufs s;
     fetch_res := fetch_res s; dev := d; results := results s |}.

Definition with_result (t : nat) (res : Z) (s : state) : state :=
  {| flusher := flusher s; workers := workers s; worker_stopped := worker_stopped s;
     running_workers := running_workers s; commit_bufs := commit_bufs s;
     fetch_res := fetch_res s; dev := dev s; results := results s ++ [(t, res)] |}.

Definition set_fpc (pc : flusher_pc) (s : state) : state :=
  let f := flusher s in
  with_flusher {| fl_index := fl_index f; fl_pending := fl_pending f;
                  fl_futex := fl_futex f; fl_pc := pc |} s.

Definition set_ffutex (x : futex) (pc : flusher_pc) (s : state) : state :=
  let f := flusher s in
  with_flusher {| fl_index := fl_index f; fl_pending := fl_pending f;
                  fl_futex := x; fl_pc := pc |} s.

Definition set_pending (n : Z) (s : state) : state :=
  let f := flusher s in
  with_flusher {| fl_index := fl_index f; fl_pending := n;
                  fl_futex := fl_futex f; fl_pc := fl_pc f |} s.

Definition set_worker (t : nat) (w : WorkerState) (s : state) : state :=
  with_workers (<[t := w]> (workers s)) s.

Definition pc_worker (pc : worker_pc) (w : WorkerState) : WorkerState :=
  {| w_flag := w_flag w; w_futex := w_futex w; w_pc := pc |}.

Definition flag_worker (b : bool) (w : WorkerState) : WorkerState :=
  {| w_flag := b; w_futex := w_futex w; w_pc := w_pc w |}.

Definition futex_worker (x : futex) (pc : worker_pc) (w : WorkerState) : WorkerState :=
  {| w_flag := w_flag w; w_futex := x; w_pc := pc |}.

(** ** The code *)

Context (flags element_size : Z).

(** [flusher.futex.notify_one()] *)
Definition notify_flusher (s : state) : state :=
  let '(x, woken) := futex_notify (fl_futex (flusher s)) in
  set_ffutex x (if woken then FReady else fl_pc (flusher s)) s.

(** [worker.futex.notify_one()] *)
Definition notify_worker (t : nat) (s : state) : state :=
  match workers s !! t with
  | None => s
  | Some w =>
      let '(x, woken) := futex_notify (w_futex w) in
      set_worker t (futex_worker x (if woken then WWoken else w_pc w) w) s
  end.

(** The continuation of a worker in [run] that completes with a value or an
    error: [--running_workers], and the flusher is told when it was the last. *)
Definition worker_exit (t : nat) (w : WorkerState) (pc : worker_pc) (s : state) : state :=
  let s := set_worker t (pc_worker pc w) s in
  let s := with_running (running_workers s - 1) s in
  if running_workers s =? 0 then notify_flusher s else s.

(** A worker from the return of its wait to its next await. *)
Definition worker_resumed (t : nat) (w : WorkerState) (iod : ublksrv_io_desc) (s : state) : state :=
  if worker_stopped s then worker_exit t w WReturned s
  else if negb (w_flag w) then set_worker t (pc_worker WAssertFailed w) s
  else
    let w := flag_worker false w in
    if need_io_buf flags (iod_op_flags iod)
    then set_worker t (pc_worker WRegistering w) s
    else set_worker t (pc_worker (WHandling false) w) s.

(** A worker from the top of its loop to its next await. *)
Definition worker_top (t : nat) (w : WorkerState) (iod : ublksrv_io_desc) (s : state) : state :=
  if negb (worker_stopped s) && negb (w_flag w) then
    let '(x, blocked) := futex_wait (w_futex w) (negb (w_flag w)) in
    if blocked then set_worker t (futex_worker x WWaiting w) s
    else worker_resumed t (futex_worker x (w_pc w) w) iod s
  else worker_resumed t w iod s.

Definition set_slot (index pos : Z) (x : slot) (b : Z -> Z -> slot) : Z -> Z -> slot :=
  fun i p => if (i =? index) && (p =? pos) then x else b i p.

(** A worker from the end of a request to its next await: the result goes to
    the next slot of the current buffer, and the first one wakes the flusher. *)
Definition worker_finish (t : nat) (w : WorkerState) (res zone_lba : Z) (iod : ublksrv_io_desc)
    (s : state) : state :=
  let cur_index := fl_index (flusher s) in
  let pos := fl_pending (flusher s) in
  let lba := if ublksrv_get_op iod =? UBLK_IO_OP_ZONE_APPEND then zone_lba
             else s_lba (commit_bufs s cur_index pos) in
  let s := with_bufs (set_slot cur_index pos {| s_tag := t; s_res := res; s_lba := lba |}
                               (commit_bufs s)) s in
  let s := set_pending (uwrap 16 (pos + 1)) s in
  let s := if pos =? 0 then notify_flusher s else s in
  worker_top t w iod s.

(** The flusher from the top of its loop to its next await. *)
Definition flusher_top (s : state) : state :=
  let f := flusher s in
  let nr := fl_pending f in
  if 0 <? nr then
    with_flusher {| fl_index := 1 - fl_index f; fl_pending := 0; fl_futex := fl_futex f;
                    fl_pc := FCommitting (fl_index f) nr 0 |} s
  else if running_workers s =? 0 then set_fpc FReturned s
  else
    let '(x, blocked) := futex_wait (fl_futex f) (fl_pending f =? 0) in
    set_ffutex x (if blocked then FWaiting else FReady) s.

(** The completion of [commit_io_cmds]; on success the flusher goes through the
    scheduler before its next round. *)
Definition flusher_committed (nr : Z) (r : async_res) (s : state) : state :=
  match r with
  | AsyncOk v =>
      if v =? nr * element_size then set_fpc FReady s
      else set_fpc (FFailed (RuntimeError "commit_io_cmds returned unexpected byte count")) s
  | AsyncErr ec => set_fpc (FFailed (SystemError ec)) s
  | AsyncStopped => set_fpc FStopped s
  end.

(** The loop of [fetch_cb] over the tags of a completion. *)
Definition deliver_tag (t : nat) (s : state) : state :=
  match workers s !! t with
  | None => s
  | Some w => notify_worker t (set_worker t (flag_worker true w) s)
  end.

Definition fetch_cb (tags : list nat) (s : state) : state :=
  fold_left (fun s t => deliver_tag t s) tags s.

(** The end of the fetch: [worker_stopped = true] and every worker notified. *)
Definition fetch_end (r : Z) (s : state) : state :=
  fold_left (fun s t => notify_worker t s) (seq 0 (length (workers s))) (with_fetch_end r s).

(** ** Steps *)

Inductive label :=
  | LFlusher
  | LCommitTake                                     (** the driver takes an element *)
  | LCommitDone (r : async_res)
  | LWorker (t : nat) (iod : ublksrv_io_desc)       (** the scheduler runs a worker *)
  | LRegistered (t : nat) (r : async_res)
  | LHandled (t : nat) (c : completion io_value) (iod : ublksrv_io_desc)
  | LUnregistered (t : nat) (r : async_res) (iod : ublksrv_io_desc)
  | LDeliver (t : nat)                              (** the driver delivers a request *)
  | LFetched (n : nat)                              (** a completion with [n] tags *)
  | LFetchEnd (r : Z).

(** The driver takes the next element: it must be of a tag the server owns. *)
Definition driver_take (x : slot) (d : driver) : driver :=
  match d_owned d !! s_tag x with
  | Some false => {| d_owned := <[s_tag x := true]> (d_owned d); d_transit := d_transit d;
                     d_committed := d_committed d ++ [(s_tag x, s_res x)];
                     d_rejected := d_rejected d |}
  | _ => {| d_owned := d_owned d; d_transit := d_transit d; d_committed := d_committed d;
            d_rejected := true |}
  end.

Definition driver_deliver (t : nat) (d : driver) : driver :=
  {| d_owned := <[t := false]> (d_owned d); d_transit := d_transit d ++ [t];
     d_committed := d_committed d; d_rejected := d_rejected d |}.

Definition driver_seen (n : nat) (d : driver) : driver :=
  {| d_owned := d_owned d; d_transit := drop n (d_transit d);
     d_committed := d_committed d; d_rejected := d_rejected d |}.

Definition step (l : label) (s : state) : option state :=
  match l with
  | LFlusher => match fl_pc (flusher s) with FReady => Some (flusher_top s) | _ => None end
  | LCommitTake =>
      match fl_pc (flusher s) with
      | FCommitting cur nr taken =>
          if taken <? nr then
            Some (set_fpc (FCommitting cur nr (taken + 1))
                    (with_dev (driver_take (commit_bufs s cur taken) (dev s)) s))
          else None
      | _ => None
      end
  | LCommitDone r =>
      match fl_pc (flusher s) with
      | FCommitting cur nr taken =>
          (* the driver reports the bytes of the elements it has taken *)
          if match r with AsyncOk v => v =? taken * element_size | _ => true end
          then Some (flusher_committed nr r s) else None
      | _ => None
      end
  | LWorker t iod =>
      match workers s !! t with
      | Some w => match w_pc w with
                  | WTop => Some (worker_top t w iod s)
                  | WWoken => Some (worker_resumed t w iod s)
                  | _ => None
                  end
      | None => None
      end
  | LRegistered t r =>
      match workers s !! t with
      | Some w => match w_pc w with
                  | WRegistering =>
                      Some match r with
                           | AsyncOk _ => set_worker t (pc_worker (WHandling true) w) s
                           | AsyncErr ec => worker_exit t w (WFailed (SystemError ec)) s
                           | AsyncStopped => set_worker t (pc_worker WStopped w) s
                           end
                  | _ => None
                  end
      | None => None
      end
  | LHandled t c iod =>
      match workers s !! t, c with
      | Some _, Unfinished => None
      | Some w, c =>
          match w_pc w with
          | WHandling io_buf =>
              let '(res, zone_lba) := io_outcome c in
              let s := with_result t res s in
              Some (if io_buf then set_worker t (pc_worker (WUnregistering res zone_lba) w) s
                    else worker_finish t w res zone_lba iod s)
          | _ => None
          end
      | None, _ => None
      end
  | LUnregistered t r iod =>
      match workers s !! t with
      | Some w => match w_pc w with
                  | WUnregistering res zone_lba =>
                      Some match r with
                           | AsyncOk _ => worker_finish t w res zone_lba iod s
                           | AsyncErr ec => worker_exit t w (WFailed (SystemError ec)) s
                           | AsyncStopped => set_worker t (pc_worker WStopped w) s
                           end
                  | _ => None
                  end
      | None => None
      end
  | LDeliver t =>
      match fetch_res s, d_owned (dev s) !! t with
      | None, Some true => Some (with_dev (driver_deliver t (dev s)) s)
      | _, _ => None
      end
  | LFetched n =>
      match fetch_res s with
      | None =>
          if (0 <? n)%nat && (n <=? length (d_transit (dev s)))%nat then
            Some (fetch_cb (take n (d_transit (dev s))) (with_dev (driver_seen n (dev s)) s))
          else None
      | Some _ => None
      end
  | LFetchEnd r =>
      match fetch_res s with
      | None => if r <? 0 then Some (fetch_end r s) else None
      | Some _ => None
      end
  end.

Fixpoint steps (ls : list label) (s : state) : option state :=
  match ls with
  | [] => Some s
  | l :: ls => match step l s with Some s' => steps ls s' | None => None end
  end.

(** [run] after [prep_io_cmds], which hands every tag to the driver: [N] tags,
    the coroutines spawned and not yet started.  The first buffer still holds
    the elements of the preparation. *)
Definition init (N : nat) (lba0 : Z) : state :=
  {| flusher := {| fl_index := 0; fl_pending := 0; fl_futex := futex_new; fl_pc := FReady |};
     workers := repeat {| w_flag := false; w_futex := futex_new; w_pc := WTop |} N;
     worker_stopped := false;
     running_workers := Z.of_nat N;
     commit_bufs := fun _ p => {| s_tag := Z.to_nat p; s_res := 0; s_lba := lba0 |};
     fetch_res := None;
     dev := {| d_owned := repeat true N; d_transit := []; d_committed := [];
               d_rejected := false |};
     results := [] |}.

(** What [run] completes with, once everything has: the error of the lowest
    worker that has one, else the flusher's, else the fetch's unless the
    driver aborted it. *)
Definition worker_error (w : WorkerState) : option exn :=
  match w_pc w with WFailed e => Some e | _ => None end.

Definition run_result (s : state) : completion unit :=
  match omap worker_error (workers s) with
  | e :: _ => SetError (ErrPtr e)
  | [] =>
      match fl_pc (flusher s) with
      | FFailed e => SetError (ErrPtr e)
      | _ =>
          match fetch_res s with
          | Some r => if r =? UBLK_IO_RES_ABORT then SetValue tt
                      else SetError (ErrPtr (SystemError (- r)))
          | None => Unfinished
          end
      end
  end.
End Machine.
