(* ===== verification/BatchInv.v ===== *)
(** * BatchInv: the invariant of the batch queue

    What holds in every state [Batch.step] reaches, and the lemmas that each
    operation of the machine keeps it.  Each tag is in one place - with the
    driver, in transit, flagged, with its worker, or queued in a commit buffer -
    and the results of a tag are those committed followed by those in flight. *)

From S2P Require Import Prelude Effects UblkCmd Sys IoResult Batch.

#[local] Open Scope Z_scope.

(** ** Lists *)

Definition cnt (t : nat) (l : list nat) : nat := count_occ Nat.eq_dec l t.

Lemma cnt_app t l1 l2 : cnt t (l1 ++ l2) = (cnt t l1 + cnt t l2)%nat.
Proof. apply count_occ_app. Qed.

Lemma cnt_cons t x l : cnt t (x :: l) = ((if decide (x = t) then 1 else 0) + cnt t l)%nat.
Proof. unfold cnt. simpl. destruct (Nat.eq_dec x t), (decide (x = t)); simpl; congruence. Qed.

Lemma cnt_elem t l : t ∈ l -> (0 < cnt t l)%nat.
Proof. intros H. apply list_elem_of_In in H. apply (count_occ_In Nat.eq_dec) in H. exact H. Qed.

Lemma nodup_bound (N : nat) (l : list nat) t :
  (forall x, (cnt x l <= 1)%nat) -> Forall (fun x => (x < N)%nat) l -> (t < N)%nat -> cnt t l = 0%nat ->
  (length l < N)%nat.
Proof.
  intros Hc Hr Ht H0.
  assert (List.NoDup (t :: l)) as Hnd.
  { constructor; [apply (count_occ_not_In Nat.eq_dec), H0|].
    apply (NoDup_count_occ Nat.eq_dec). intros x; apply Hc. }
  apply (NoDup_incl_length (l' := seq 0 N)) in Hnd; [rewrite length_seq in Hnd; simpl in Hnd; lia|].
  intros x [<-|Hx]; apply in_seq; [lia|].
  rewrite Forall_forall in Hr. specialize (Hr x). rewrite list_elem_of_In in Hr. specialize (Hr Hx). lia.
Qed.

Lemma nodup_le (N : nat) (l : list nat) :
  (forall x, (cnt x l <= 1)%nat) -> Forall (fun x => (x < N)%nat) l -> (length l <= N)%nat.
Proof.
  intros Hc Hr.
  assert (List.NoDup l) as Hnd by (apply (NoDup_count_occ Nat.eq_dec); intros x; apply Hc).
  apply (NoDup_incl_length (l' := seq 0 N)) in Hnd; [rewrite length_seq in Hnd; exact Hnd|].
  intros x Hx; apply in_seq. rewrite Forall_forall in Hr. specialize (Hr x).
  rewrite list_elem_of_In in Hr. specialize (Hr Hx). lia.
Qed.

(** The results of a tag in a log, and in slots. *)
Definition res_of (t : nat) (l : list (nat * Z)) : list Z :=
  flat_map (fun p => if decide (fst p = t) then [snd p] else []) l.

Definition slot_res (t : nat) (l : list slot) : list Z :=
  flat_map (fun x => if decide (s_tag x = t) then [s_res x] else []) l.

Lemma res_of_app t l1 l2 : res_of t (l1 ++ l2) = res_of t l1 ++ res_of t l2.
Proof. apply flat_map_app. Qed.

Lemma slot_res_app t l1 l2 : slot_res t (l1 ++ l2) = slot_res t l1 ++ slot_res t l2.
Proof. apply flat_map_app. Qed.

Lemma slot_res_nil t l : cnt t (map s_tag l) = 0%nat -> slot_res t l = [].
Proof.
  induction l as [|x l IH]; [reflexivity|]. simpl map. rewrite cnt_cons. simpl.
  destruct (decide (s_tag x = t)); [lia|]. intros H; apply IH. lia.
Qed.

Definition slots_of (b : Z -> slot) (lo hi : Z) : list slot := map b (seqZ lo (hi - lo)).

Lemma slots_of_empty b lo : slots_of b lo lo = [].
Proof. unfold slots_of. rewrite Z.sub_diag. reflexivity. Qed.

Lemma slots_of_cons b lo hi : lo < hi -> slots_of b lo hi = b lo :: slots_of b (lo + 1) hi.
Proof.
  intros H. unfold slots_of. rewrite seqZ_cons by lia. simpl.
  replace (Z.pred (hi - lo)) with (hi - (lo + 1)) by lia.
  replace (Z.succ lo) with (lo + 1) by lia. reflexivity.
Qed.

Lemma slots_of_snoc b lo hi : lo <= hi -> slots_of b lo (hi + 1) = slots_of b lo hi ++ [b hi].
Proof.
  intros H. unfold slots_of. replace (hi + 1 - lo) with ((hi - lo) + 1) by lia.
  rewrite seqZ_app by lia. rewrite map_app. simpl.
  replace (lo + (hi - lo)) with hi by lia. reflexivity.
Qed.

Lemma slots_of_ext b b' lo hi :
  (forall p, lo <= p < hi -> b p = b' p) -> slots_of b lo hi = slots_of b' lo hi.
Proof.
  intros H. apply map_ext_in. intros p Hp. apply H.
  rewrite <- list_elem_of_In, elem_of_seqZ in Hp. lia.
Qed.

Lemma slots_of_length b lo hi : lo <= hi -> Z.of_nat (length (slots_of b lo hi)) = hi - lo.
Proof. intros H. unfold slots_of. rewrite length_map, length_seqZ. lia. Qed.

Section Invariant.
Context {F : Futex} {FL : FutexLaws F}.
Context (flags element_size : Z) (N : nat).
Hypothesis Helem : 0 < element_size.
Hypothesis HN : is_u 16 (Z.of_nat N).

(** ** The invariant *)

(** The elements the driver has not taken: those of the commit in flight, then
    those of the current buffer. *)
Definition in_flight (s : state) : list slot :=
  match fl_pc (flusher s) with
  | FCommitting cur nr taken => slots_of (commit_bufs s cur) taken nr
  | _ => []
  end.

Definition current (s : state) : list slot :=
  slots_of (commit_bufs s (fl_index (flusher s))) 0 (fl_pending (flusher s)).

Definition queued (s : state) : list slot := in_flight s ++ current s.

Definition busy (pc : worker_pc) : bool :=
  match pc with WRegistering | WHandling _ | WUnregistering _ _ => true | _ => false end.

(** A worker that has lost its tag. *)
Definition dead (pc : worker_pc) : bool :=
  match pc with WFailed _ | WStopped => true | _ => false end.

(** A worker [running_workers] no longer counts. *)
Definition exited (pc : worker_pc) : bool :=
  match pc with WReturned | WFailed _ => true | _ => false end.

Definition flusher_lost (pc : flusher_pc) : bool :=
  match pc with FFailed _ | FStopped => true | _ => false end.

Definition is_wwaiting (pc : worker_pc) : bool := match pc with WWaiting => true | _ => false end.
Definition is_fwaiting (pc : flusher_pc) : bool := match pc with FWaiting => true | _ => false end.

Definition places (t : nat) (w : WorkerState) (o : bool) (s : state) : nat :=
  (Nat.b2n o + cnt t (d_transit (dev s)) + Nat.b2n (w_flag w) + Nat.b2n (busy (w_pc w))
   + cnt t (map s_tag (queued s)))%nat.

Definition held_result (w : WorkerState) : list Z :=
  match w_pc w with WUnregistering res _ => [res] | _ => [] end.

(** What the system knows of the tag [t], whose worker is [w]. *)
Record tag_ok (t : nat) (w : WorkerState) (s : state) : Prop := {
  tag_place : exists o, d_owned (dev s) !! t = Some o /\ (places t w o s <= 1)%nat /\
    (dead (w_pc w) = true -> places t w o s = 0%nat) /\
    (dead (w_pc w) = false -> flusher_lost (fl_pc (flusher s)) = false -> places t w o s = 1%nat);
  tag_log : exists rest, res_of t (results s) = res_of t (d_committed (dev s)) ++ rest /\
    (dead (w_pc w) = false -> flusher_lost (fl_pc (flusher s)) = false ->
     rest = slot_res t (queued s) ++ held_result w);
  tag_futex : waiting (w_futex w) = is_wwaiting (w_pc w);
  tag_waits : w_pc w = WWaiting -> w_flag w = false /\ worker_stopped s = false;
  tag_woken : w_pc w = WWoken -> w_flag w = true \/ worker_stopped s = true;
  tag_assert : w_pc w <> WAssertFailed;
}.

Record global_ok (s : state) : Prop := {
  g_workers : length (workers s) = N;
  g_owned : length (d_owned (dev s)) = N;
  g_index : fl_index (flusher s) = 0 \/ fl_index (flusher s) = 1;
  g_pending : 0 <= fl_pending (flusher s);
  g_commit : match fl_pc (flusher s) with
             | FCommitting cur nr taken => cur = 1 - fl_index (flusher s) /\ 0 <= taken <= nr /\ nr <= Z.of_nat N
             | _ => True
             end;
  g_range : Forall (fun t => (t < N)%nat) (d_transit (dev s) ++ map s_tag (queued s));
  g_rejected : d_rejected (dev s) = false;
  g_stopped : worker_stopped s = true <-> is_Some (fetch_res s);
  g_futex : waiting (fl_futex (flusher s)) = is_fwaiting (fl_pc (flusher s));
}.

(** The flusher sleeps only when there is nothing to do and someone left to
    wake it, and has returned only when there is nothing left. *)
Definition flusher_ok (s : state) : Prop :=
  match fl_pc (flusher s) with
  | FWaiting => fl_pending (flusher s) = 0 /\ running_workers s <> 0
  | FReturned => fl_pending (flusher s) = 0 /\ running_workers s = 0
  | _ => True
  end.

Definition live_count (l : list WorkerState) : Z :=
  foldr (fun w n => (if exited (w_pc w) then 0 else 1) + n) 0 l.

Record inv (s : state) : Prop := {
  inv_global : global_ok s;
  inv_flusher : flusher_ok s;
  inv_running : running_workers s = live_count (workers s);
  inv_tags : forall t w, workers s !! t = Some w -> tag_ok t w s;
}.

(** [inv] while worker [t] runs: it counts as running, and is in state [w],
    whatever its entry says. *)
Record inv_at (t : nat) (w : WorkerState) (s : state) : Prop := {
  at_global : global_ok s;
  at_flusher : flusher_ok s;
  at_lt : (t < N)%nat;
  at_running : forall w', running_workers s =
    live_count (<[t := w']> (workers s)) + (if exited (w_pc w') then 1 else 0);
  at_tag : tag_ok t w s;
  at_tags : forall t' w', t' <> t -> workers s !! t' = Some w' -> tag_ok t' w' s;
}.

Lemma live_count_insert l t (w w' : WorkerState) :
  l !! t = Some w ->
  live_count (<[t := w']> l) =
  live_count l - (if exited (w_pc w) then 0 else 1) + (if exited (w_pc w') then 0 else 1).
Proof.
  revert t; induction l as [|x l IH]; intros [|t] H; [discriminate..| |].
  - injection H as ->. simpl. lia.
  - specialize (IH _ H). simpl in *. lia.
Qed.

Lemma inv_inv_at t w s :
  inv s -> workers s !! t = Some w -> exited (w_pc w) = false -> inv_at t w s.
Proof.
  intros [Hg Hf Hr Ht] Hw Hx. split; auto.
  - rewrite <- (g_workers s Hg). eapply lookup_lt_Some; eassumption.
  - intros w'. rewrite Hr, (live_count_insert _ _ _ w' Hw), Hx.
    destruct (exited (w_pc w')); lia.
Qed.

(** The worker comes to rest in a state that counts as running. *)
Lemma inv_at_rest t w s :
  inv_at t w s -> exited (w_pc w) = false -> inv (set_worker t w s).
Proof.
  intros [Hg Hf Hlt Hr Ht Hts] Hx.
  assert (forall t' w', tag_ok t' w' s -> tag_ok t' w' (set_worker t w s)) as Hk
    by (intros t' w' []; split; assumption).
  split.
  - destruct Hg. split; try assumption. cbn. rewrite length_insert. assumption.
  - exact Hf.
  - change (running_workers s = live_count (<[t := w]> (workers s))).
    rewrite (Hr w), Hx. lia.
  - intros t' w' Hw'. apply Hk. cbn in Hw'. apply list_lookup_insert_Some in Hw'.
    destruct Hw' as [(<- & -> & _)|[Hne Hw']]; auto.
Qed.

Lemma live_count_nonneg l : 0 <= live_count l.
Proof. induction l as [|x l IH]; simpl; [lia|]. destruct (exited _); lia. Qed.

(** ** Notifications *)

Lemma notify_flusher_eq s :
  global_ok s ->
  exists x, waiting x = false /\
    notify_flusher s =
    set_ffutex x (if is_fwaiting (fl_pc (flusher s)) then FReady else fl_pc (flusher s)) s.
Proof.
  intros Hg. unfold notify_flusher.
  destruct (futex_notify_wakes (fl_futex (flusher s))) as [Hw Hi].
  destruct (futex_notify (fl_futex (flusher s))) as [x woken]. simpl in *.
  rewrite (g_futex s Hg) in Hw. subst woken. exists x. auto.
Qed.

Lemma queued_wake x s :
  queued (set_ffutex x (if is_fwaiting (fl_pc (flusher s)) then FReady else fl_pc (flusher s)) s)
  = queued s.
Proof. unfold queued, in_flight, current. simpl. destruct (fl_pc (flusher s)); reflexivity. Qed.

Lemma tag_ok_wake t w x s :
  tag_ok t w s ->
  tag_ok t w (set_ffutex x (if is_fwaiting (fl_pc (flusher s)) then FReady else fl_pc (flusher s)) s).
Proof.
  intros [Hp Hl ? ? ? ?]. split; auto; unfold places; rewrite queued_wake; simpl.
  - destruct Hp as (o & Ho & H1 & H2 & H3). exists o. split_all; auto.
    intros Hd Hf. apply H3; auto. destruct (fl_pc (flusher s)); auto.
  - destruct Hl as (rest & Hr & H). exists rest. split; [assumption|].
    intros Hd Hf. apply H; auto. destruct (fl_pc (flusher s)); auto.
Qed.

(** Everything but [flusher_ok], which a wake-up establishes. *)
Lemma global_wake x s :
  global_ok s -> waiting x = false ->
  global_ok (set_ffutex x (if is_fwaiting (fl_pc (flusher s)) then FReady else fl_pc (flusher s)) s).
Proof.
  intros [] Hx. split; auto; simpl.
  - destruct (fl_pc (flusher s)); auto.
  - rewrite queued_wake. assumption.
  - rewrite Hx. destruct (fl_pc (flusher s)); reflexivity.
Qed.

Lemma flusher_wake x s :
  (fl_pc (flusher s) = FReturned -> fl_pending (flusher s) = 0 /\ running_workers s = 0) ->
  flusher_ok (set_ffutex x (if is_fwaiting (fl_pc (flusher s)) then FReady else fl_pc (flusher s)) s).
Proof. unfold flusher_ok. simpl. destruct (fl_pc (flusher s)); simpl; auto. Qed.

(** ** Workers *)

Lemma workers_keep {s s' : state} t w :
  dev s' = dev s -> queued s' = queued s -> fl_pc (flusher s') = fl_pc (flusher s) ->
  results s' = results s -> worker_stopped s' = worker_stopped s ->
  tag_ok t w s -> tag_ok t w s'.
Proof.
  intros Hd Hq Hf Hr Hs [Hp Hl ? ? ? ?].
  split; auto; unfold places in *; rewrite ?Hd, ?Hq, ?Hf, ?Hr, ?Hs; assumption.
Qed.

Lemma inv_at_exit t w pc s :
  inv_at t w s -> tag_ok t (pc_worker pc w) s -> exited pc = true ->
  inv (worker_exit t w pc s).
Proof.
  intros [Hg Hf Hlt Hr Ht Hts] Hpc Hx. unfold worker_exit.
  set (s1 := with_running _ (set_worker t (pc_worker pc w) s)).
  assert (running_workers s1 = live_count (workers s1)) as Hrun.
  { change (running_workers s - 1 = live_count (<[t := pc_worker pc w]> (workers s))).
    rewrite (Hr (pc_worker pc w)). simpl. rewrite Hx. lia. }
  assert (forall t' w', tag_ok t' w' s -> tag_ok t' w' s1) as Hk
    by (intros t' w'; apply workers_keep; reflexivity).
  assert (global_ok s1) as Hg1.
  { destruct Hg. split; try assumption. simpl. rewrite length_insert. assumption. }
  assert (forall t' w', workers s1 !! t' = Some w' -> tag_ok t' w' s1) as Htags.
  { intros t' w' Hw'. apply Hk. simpl in Hw'. apply list_lookup_insert_Some in Hw'.
    destruct Hw' as [(<- & <- & _)|[Hne Hw']]; auto. }
  assert (fl_pc (flusher s1) = FReturned -> False) as Hret.
  { intros E. unfold flusher_ok in Hf. change (fl_pc (flusher s1)) with (fl_pc (flusher s)) in E.
    rewrite E in Hf. pose proof (live_count_nonneg (workers s1)).
    rewrite <- Hrun in H. simpl in H. lia. }
  destruct (Z.eqb_spec (running_workers s1) 0) as [H0|H0].
  - destruct (notify_flusher_eq s1 Hg1) as (x & Hxw & ->). split.
    + apply global_wake; assumption.
    + apply flusher_wake. intros E; destruct (Hret E).
    + exact Hrun.
    + intros t' w' Hw'. apply tag_ok_wake, Htags, Hw'.
  - split; auto. unfold flusher_ok in *. change (flusher s1) with (flusher s) in *.
    destruct (fl_pc (flusher s)); auto; [tauto|destruct Hret; reflexivity].
Qed.

(** A change of the worker's own state that keeps its tag where it is. *)
Lemma tag_ok_pc t w w' s :
  tag_ok t w s ->
  (Nat.b2n (w_flag w') + Nat.b2n (busy (w_pc w')) =
   Nat.b2n (w_flag w) + Nat.b2n (busy (w_pc w)))%nat ->
  dead (w_pc w) = false -> dead (w_pc w') = false -> held_result w' = held_result w ->
  waiting (w_futex w') = is_wwaiting (w_pc w') ->
  (w_pc w' = WWaiting -> w_flag w' = false /\ worker_stopped s = false) ->
  (w_pc w' = WWoken -> w_flag w' = true \/ worker_stopped s = true) ->
  w_pc w' <> WAssertFailed ->
  tag_ok t w' s.
Proof.
  intros [(o & Ho & H1 & H2 & H3) (rest & Hr & Hl) _ _ _ _] Hb Hd Hd' Hh Hf Hw Hk Ha.
  assert (places t w' o s = places t w o s) as Hpl by (unfold places; lia).
  split; auto.
  - exists o. rewrite Hpl. split_all; auto. congruence.
  - exists rest. rewrite Hh. split; auto.
Qed.

(** A worker resumed with its flag set or the queue stopped. *)
Lemma worker_resumed_inv t w iod s :
  inv_at t w s -> busy (w_pc w) = false -> dead (w_pc w) = false -> held_result w = [] ->
  waiting (w_futex w) = false -> w_flag w = true \/ worker_stopped s = true ->
  inv (worker_resumed flags t w iod s).
Proof.
  intros H Hb Hd Hh Hf Hor. pose proof (at_tag _ _ _ H) as Ht. unfold worker_resumed.
  destruct (worker_stopped s) eqn:Hs.
  - apply inv_at_exit; [assumption| |reflexivity].
    eapply tag_ok_pc; try exact Ht; simpl; auto; try discriminate. rewrite Hb. reflexivity.
  - destruct Hor as [Hflag|]; [|discriminate]. rewrite Hflag. simpl.
    assert (forall pc, busy pc = true -> is_wwaiting pc = false -> held_result (pc_worker pc w) = [] ->
      inv (set_worker t (pc_worker pc (flag_worker false w)) s)) as Hset.
    { intros pc Hpb Hpw Hph.
      assert (tag_ok t (pc_worker pc (flag_worker false w)) s) as Ht'.
      { eapply tag_ok_pc; try exact Ht; simpl; auto.
        all: try (rewrite Hflag, Hb, Hpb; reflexivity); try (rewrite Hh; exact Hph);
          try (rewrite Hpw; assumption); destruct pc; auto; discriminate. }
      apply inv_at_rest; [|destruct pc; auto; discriminate].
      destruct H. split; auto. }
    destruct (need_io_buf _ _); apply Hset; reflexivity.
Qed.

Lemma worker_top_inv t w iod s :
  inv_at t w s -> busy (w_pc w) = false -> dead (w_pc w) = false -> held_result w = [] ->
  waiting (w_futex w) = false ->
  inv (worker_top flags t w iod s).
Proof.
  intros H Hb Hd Hh Hf. pose proof (at_tag _ _ _ H) as Ht. unfold worker_top.
  destruct (worker_stopped s) eqn:Hs; cbn [negb andb].
  { apply worker_resumed_inv; auto. }
  destruct (w_flag w) eqn:Hflag; cbn [negb].
  { apply worker_resumed_inv; auto. }
  destruct (futex_wait_blocks (w_futex w) true Hf) as [Hblk Hwait].
  destruct (futex_wait (w_futex w) true) as [x blocked]. simpl in *. subst blocked.
  apply inv_at_rest; [|reflexivity].
  destruct H. split; auto.
  eapply tag_ok_pc; try exact Ht; simpl; auto; try discriminate. rewrite Hb. reflexivity.
Qed.

(** ** The end of a request *)

Definition finish_slot (t : nat) (res lba : Z) (s : state) : state :=
  let pos := fl_pending (flusher s) in
  set_pending (pos + 1)
    (with_bufs (set_slot (fl_index (flusher s)) pos {| s_tag := t; s_res := res; s_lba := lba |}
                  (commit_bufs s)) s).

Lemma queued_finish t res lba s :
  global_ok s ->
  queued (finish_slot t res lba s) = queued s ++ [{| s_tag := t; s_res := res; s_lba := lba |}].
Proof.
  intros Hg. unfold queued, finish_slot, in_flight, current. simpl.
  rewrite slots_of_snoc by apply (g_pending s Hg).
  unfold set_slot at 3. rewrite !Z.eqb_refl. simpl.
  rewrite app_assoc. f_equal. f_equal.
  - pose proof (g_commit s Hg) as Hc. destruct (fl_pc (flusher s)) as [|cur nr taken| | | |];
      try reflexivity. apply slots_of_ext. intros p _. unfold set_slot.
    destruct (Z.eqb_spec cur (fl_index (flusher s))); [|reflexivity].
    destruct (g_index s Hg); lia.
  - apply slots_of_ext. intros p Hp. unfold set_slot.
    destruct (Z.eqb_spec p (fl_pending (flusher s))); [lia|]. rewrite andb_false_r. reflexivity.
Qed.

Lemma cnt_range_zero (l : list nat) x :
  Forall (fun t => (t < N)%nat) l -> (N <= x)%nat -> cnt x l = 0%nat.
Proof.
  intros Hl Hx. apply (count_occ_not_In Nat.eq_dec). intros Hin.
  rewrite Forall_forall in Hl. specialize (Hl x). rewrite list_elem_of_In in Hl.
  specialize (Hl Hin). lia.
Qed.

Lemma places_queued t w o s : (cnt t (map s_tag (queued s)) <= places t w o s)%nat.
Proof. unfold places. lia. Qed.

(** There is room for the result of a worker that holds a request. *)
Lemma slots_left t w s :
  inv_at t w s -> busy (w_pc w) = true -> fl_pending (flusher s) < Z.of_nat N.
Proof.
  intros H Hb. pose proof (at_global _ _ _ H) as Hg.
  pose proof (g_range s Hg) as Hr. apply Forall_app in Hr as [_ Hr].
  assert (cnt t (map s_tag (queued s)) = 0%nat) as H0.
  { destruct (tag_place _ _ _ (at_tag _ _ _ H)) as (o & _ & H1 & _).
    unfold places in H1. rewrite Hb in H1. simpl in H1. lia. }
  assert (forall x, (cnt x (map s_tag (queued s)) <= 1)%nat) as Hc.
  { intros x. destruct (Nat.lt_ge_cases x N) as [Hx|Hx];
      [|rewrite (cnt_range_zero _ _ Hr Hx); lia].
    destruct (Nat.eq_dec x t) as [->|Hne]; [lia|].
    destruct (lookup_lt_is_Some_2 (workers s) x) as [w' Hw']; [rewrite (g_workers s Hg); lia|].
    destruct (tag_place _ _ _ (at_tags _ _ _ H x w' Hne Hw')) as (o & _ & H1 & _).
    pose proof (places_queued x w' o s). lia. }
  pose proof (nodup_bound N _ t Hc Hr (at_lt _ _ _ H) H0) as Hlen.
  rewrite length_map in Hlen. unfold queued in Hlen. rewrite length_app in Hlen.
  pose proof (slots_of_length (commit_bufs s (fl_index (flusher s))) 0 (fl_pending (flusher s))
                (g_pending s Hg)) as Hp. fold (current s) in Hp. lia.
Qed.

Lemma finish_slot_inv t w res lba lba' s :
  inv_at t (pc_worker (WUnregistering res lba) w) s ->
  let s' := finish_slot t res lba' s in
  let s'' := if fl_pending (flusher s) =? 0 then notify_flusher s' else s' in
  inv_at t (pc_worker WTop w) s''.
Proof.
  intros H s' s''. pose proof (at_global _ _ _ H) as Hg.
  pose proof (queued_finish t res lba' s Hg) as Hq. fold s' in Hq.
  assert (fl_pc (flusher s) <> FReturned) as Hret.
  { intros E. pose proof (at_flusher _ _ _ H) as Hf. unfold flusher_ok in Hf. rewrite E in Hf.
    pose proof (at_running _ _ _ H (pc_worker WReturned w)) as Hr. simpl in Hr.
    pose proof (live_count_nonneg (<[t := pc_worker WReturned w]> (workers s))). lia. }
  assert (global_ok s') as Hg'.
  { pose proof (g_range s Hg) as Hrange. pose proof (at_lt _ _ _ H) as Hlt.
    destruct Hg. split; try assumption; try (simpl; lia).
    rewrite Hq, map_app, app_assoc. apply Forall_app; split; [assumption|].
    constructor; [exact Hlt|constructor]. }
  assert (forall t' w', t' <> t -> tag_ok t' w' s -> tag_ok t' w' s') as Hother.
  { intros t' w' Hne [Hp Hl ? ? ? ?].
    assert (forall o, places t' w' o s' = places t' w' o s) as Hpl.
    { intros o. unfold places. rewrite Hq, map_app, cnt_app. simpl map. rewrite cnt_cons. simpl.
      destruct (decide (t = t')); [congruence|]. simpl. lia. }
    split; auto.
    - destruct Hp as (o & Ho). exists o. rewrite Hpl. exact Ho.
    - rewrite Hq, slot_res_app. simpl. destruct (decide (t = t')); [congruence|].
      rewrite app_nil_r. exact Hl. }
  assert (tag_ok t (pc_worker WTop w) s') as Htag.
  { destruct (at_tag _ _ _ H) as [(o & Ho & H1 & _ & H3) (rest & Hr & Hl) Hfx _ _ _].
    assert (places t (pc_worker WTop w) o s' = places t (pc_worker (WUnregistering res lba) w) o s)
      as Hpl.
    { unfold places. rewrite Hq, map_app, cnt_app. simpl map. rewrite cnt_cons. simpl.
      destruct (decide (t = t)); [|congruence]. simpl. lia. }
    split; auto; try discriminate.
    - exists o. rewrite Hpl. split_all; auto. discriminate.
    - exists rest. split; [exact Hr|]. intros Hd Hf. rewrite (Hl eq_refl Hf), Hq, slot_res_app.
      simpl. destruct (decide (t = t)); [|congruence]. rewrite app_nil_r. reflexivity. }
  unfold s''. destruct (Z.eqb_spec (fl_pending (flusher s)) 0) as [H0|H0].
  - destruct (notify_flusher_eq s' Hg') as (x & Hx & ->). split.
    + apply global_wake; assumption.
    + apply flusher_wake. intros E; destruct (Hret E).
    + apply H.
    + intros w'. apply (at_running _ _ _ H w').
    + apply tag_ok_wake, Htag.
    + intros t' w' Hne Hw'. apply tag_ok_wake, Hother; [assumption|].
      apply (at_tags _ _ _ H); assumption.
  - split; auto.
    + pose proof (at_flusher _ _ _ H) as Hf. unfold flusher_ok in *. simpl.
      destruct (fl_pc (flusher s)); auto; [lia|congruence].
    + apply H.
    + intros w'. apply (at_running _ _ _ H w').
    + intros t' w' Hne Hw'. apply Hother; [assumption|]. apply (at_tags _ _ _ H); assumption.
Qed.

Lemma worker_top_pc pc t w iod s :
  worker_top flags t (pc_worker pc w) iod s = worker_top flags t w iod s.
Proof.
  unfold worker_top, worker_resumed, worker_exit. simpl.
  destruct (worker_stopped s), (w_flag w); simpl; try reflexivity.
Qed.

Lemma worker_finish_inv t w res lba iod s :
  inv_at t (pc_worker (WUnregistering res lba) w) s -> inv (worker_finish flags t w res lba iod s).
Proof.
  intros H. unfold worker_finish.
  pose proof (slots_left _ _ _ H eq_refl) as Hpos.
  pose proof (g_pending s (at_global _ _ _ H)).
  rewrite uwrap_id by range.
  set (lba' := if ublksrv_get_op iod =? _ then _ else _).
  change (set_pending (fl_pending (flusher s) + 1) _) with (finish_slot t res lba' s).
  pose proof (finish_slot_inv t w res lba lba' s H) as Hs. cbv zeta in Hs.
  rewrite <- (worker_top_pc WTop). apply worker_top_inv; try reflexivity; [exact Hs|].
  rewrite (tag_futex _ _ _ (at_tag _ _ _ Hs)). reflexivity.
Qed.

(** The elements not taken yet fit a buffer. *)
Lemma queued_bound s :
  inv s -> Z.of_nat (length (in_flight s)) + fl_pending (flusher s) <= Z.of_nat N.
Proof.
  intros H. pose proof (inv_global _ H) as Hg.
  pose proof (g_range s Hg) as Hr. apply Forall_app in Hr as [_ Hr].
  assert (forall x, (cnt x (map s_tag (queued s)) <= 1)%nat) as Hc.
  { intros x. destruct (Nat.lt_ge_cases x N) as [Hx|Hx];
      [|rewrite (cnt_range_zero _ _ Hr Hx); lia].
    destruct (lookup_lt_is_Some_2 (workers s) x) as [w' Hw']; [rewrite (g_workers s Hg); lia|].
    destruct (tag_place _ _ _ (inv_tags _ H x w' Hw')) as (o & _ & H1 & _).
    pose proof (places_queued x w' o s). lia. }
  pose proof (nodup_le N _ Hc Hr) as Hlen.
  rewrite length_map in Hlen. unfold queued in Hlen. rewrite length_app in Hlen.
  pose proof (slots_of_length (commit_bufs s (fl_index (flusher s))) 0 (fl_pending (flusher s))
                (g_pending s Hg)) as Hp. fold (current s) in Hp. lia.
Qed.

(** ** The flusher *)

(** A flusher step that moves no tag and changes no worker. *)
Lemma flusher_step_inv s s' :
  inv s -> workers s' = workers s -> running_workers s' = running_workers s ->
  dev s' = dev s -> results s' = results s -> worker_stopped s' = worker_stopped s ->
  queued s' = queued s -> (flusher_lost (fl_pc (flusher s')) = false ->
                           flusher_lost (fl_pc (flusher s)) = false) ->
  global_ok s' -> flusher_ok s' -> inv s'.
Proof.
  intros [Hg Hf Hr Ht] Hw Hn Hd Hres Hst Hq Hl Hg' Hf'. split; auto.
  - rewrite Hn, Hw. assumption.
  - intros t w Hwt. rewrite Hw in Hwt. destruct (Ht t w Hwt) as [(o & Ho & H1 & H2 & H3)
      (rest & Hrest & Hlog) ? ? ? ?].
    split; auto; rewrite ?Hd, ?Hres, ?Hst, ?Hq; auto.
    + assert (places t w o s' = places t w o s) as Hpl by (unfold places; rewrite Hd, Hq; reflexivity).
      exists o. rewrite Hpl. split_all; auto.
    + exists rest. split; auto.
Qed.

Lemma flusher_top_inv s : inv s -> fl_pc (flusher s) = FReady -> inv (flusher_top s).
Proof.
  intros H Hpc. pose proof (inv_global _ H) as Hg. pose proof (queued_bound s H) as Hbound.
  unfold flusher_top. destruct (Z.ltb_spec 0 (fl_pending (flusher s))) as [Hp|Hp].
  - assert (queued (with_flusher {| fl_index := 1 - fl_index (flusher s); fl_pending := 0;
        fl_futex := fl_futex (flusher s);
        fl_pc := FCommitting (fl_index (flusher s)) (fl_pending (flusher s)) 0 |} s) = queued s) as Hq.
    { unfold queued, in_flight, current. rewrite Hpc. simpl. rewrite slots_of_empty, app_nil_r.
      reflexivity. }
    apply (flusher_step_inv s); auto; [rewrite Hpc; reflexivity| |exact I].
    destruct Hg. split; auto; simpl; try lia.
    + rewrite Hq. assumption.
    + rewrite g_futex0, Hpc. reflexivity.
  - pose proof (g_pending s Hg) as Hp0. assert (fl_pending (flusher s) = 0) as H0 by lia.
    assert (forall x pc, match pc with FCommitting _ _ _ => False | _ => True end ->
      queued (set_ffutex x pc s) = queued s) as Hq.
    { intros x pc Hx. unfold queued, in_flight. rewrite Hpc. simpl. destruct pc; tauto. }
    destruct (Z.eqb_spec (running_workers s) 0) as [Hr|Hr].
    + change (set_fpc FReturned s) with (set_ffutex (fl_futex (flusher s)) FReturned s).
      apply (flusher_step_inv s); auto; [rewrite Hpc; reflexivity| |split; assumption].
      destruct Hg. split; auto; try (rewrite Hq by exact I; assumption);
        try exact I; simpl; rewrite g_futex0, Hpc; reflexivity.
    + rewrite H0, Z.eqb_refl.
      destruct (futex_wait_blocks (fl_futex (flusher s)) true) as [Hblk Hwait];
        [rewrite (g_futex s Hg), Hpc; reflexivity|].
      destruct (futex_wait (fl_futex (flusher s)) true) as [x blocked]. simpl in *. subst blocked.
      apply (flusher_step_inv s); auto; [rewrite Hpc; reflexivity| |split; assumption].
      destruct Hg. split; auto; try (rewrite Hq by exact I; assumption); exact I.
Qed.

Lemma flusher_committed_inv cur nr taken r s :
  inv s -> fl_pc (flusher s) = FCommitting cur nr taken ->
  match r with AsyncOk v => v =? taken * element_size | _ => true end = true ->
  inv (flusher_committed element_size nr r s).
Proof.
  intros H Hpc Hr. pose proof (inv_global _ H) as Hg. pose proof (g_commit s Hg) as Hc.
  rewrite Hpc in Hc.
  (* the elements in flight are lost with a failed flusher *)
  assert (forall pc, flusher_lost pc = true -> is_fwaiting pc = false -> inv (set_fpc pc s)) as Hlost.
  { intros pc Hl Hw.
    assert (queued (set_fpc pc s) = current s) as Hq by (unfold queued, in_flight; simpl;
      destruct pc; discriminate || reflexivity).
    assert (forall t, cnt t (map s_tag (current s)) <= cnt t (map s_tag (queued s)))%nat as Hle
      by (intros t; unfold queued; rewrite map_app, cnt_app; lia).
    split.
    - destruct Hg. split; auto; simpl.
      + destruct pc; auto; discriminate.
      + rewrite Hq. unfold queued in g_range0. rewrite map_app in g_range0.
        apply Forall_app in g_range0 as [? Hx]. apply Forall_app in Hx as [_ ?].
        apply Forall_app; auto.
      + rewrite g_futex0, Hpc, Hw. reflexivity.
    - unfold flusher_ok. simpl. destruct pc; auto; discriminate.
    - apply (inv_running _ H).
    - intros t w Hwt. destruct (inv_tags _ H t w Hwt) as [(o & Ho & H1 & H2 & H3)
        (rest & Hrest & Hlog) ? ? ? ?].
      split; auto; simpl.
      + exists o. unfold places in *. rewrite Hq. simpl. specialize (Hle t).
        split_all; auto; [lia| |rewrite Hl; discriminate]. intros Hd. specialize (H2 Hd). lia.
      + exists rest. split; auto. rewrite Hl. discriminate. }
  unfold flusher_committed. destruct r as [v|ec|]; [|apply Hlost; reflexivity..].
  apply Z.eqb_eq in Hr. subst v.
  destruct (Z.eqb_spec (taken * element_size) (nr * element_size)) as [E|E];
    [|apply Hlost; reflexivity].
  assert (taken = nr) as -> by nia.
  assert (queued (set_fpc FReady s) = queued s) as Hq.
  { unfold queued, in_flight. rewrite Hpc. simpl. rewrite slots_of_empty. reflexivity. }
  apply (flusher_step_inv s); auto; [rewrite Hpc; reflexivity| |exact I].
  destruct Hg. split; auto; try (rewrite Hq; assumption);
    try exact I; simpl; rewrite g_futex0, Hpc; reflexivity.
Qed.

(** ** The driver *)

Lemma commit_take_inv cur nr taken s :
  inv s -> fl_pc (flusher s) = FCommitting cur nr taken -> taken < nr ->
  inv (set_fpc (FCommitting cur nr (taken + 1))
         (with_dev (driver_take (commit_bufs s cur taken) (dev s)) s)).
Proof.
  intros H Hpc Hlt. pose proof (inv_global _ H) as Hg. pose proof (g_commit s Hg) as Hc.
  rewrite Hpc in Hc. destruct Hc as (Hcur & Htk & Hnr).
  set (x := commit_bufs s cur taken). set (s' := set_fpc _ _).
  assert (queued s = x :: queued s') as Hq.
  { unfold queued, in_flight. rewrite Hpc. simpl. rewrite slots_of_cons by lia. reflexivity. }
  pose proof (g_range s Hg) as Hrange. rewrite Hq in Hrange. simpl map in Hrange.
  apply Forall_app in Hrange as [Htr Hrange]. apply Forall_cons in Hrange as [Hx Hrange].
  destruct (lookup_lt_is_Some_2 (workers s) (s_tag x)) as [wx Hwx]; [rewrite (g_workers s Hg); lia|].
  destruct (tag_place _ _ _ (inv_tags _ H _ _ Hwx)) as (ox & Hox & Hp1 & Hp2 & _).
  assert (cnt (s_tag x) (map s_tag (queued s)) = S (cnt (s_tag x) (map s_tag (queued s')))) as Hcx.
  { rewrite Hq. simpl map. rewrite cnt_cons. destruct (decide _); [reflexivity|congruence]. }
  assert (ox = false) as -> by (unfold places in Hp1; destruct ox; simpl in Hp1; [lia|reflexivity]).
  assert (dead (w_pc wx) = false) as Hdead.
  { destruct (dead (w_pc wx)); [|reflexivity]. specialize (Hp2 eq_refl). unfold places in Hp2. lia. }
  assert (driver_take x (dev s) =
    {| d_owned := <[s_tag x := true]> (d_owned (dev s)); d_transit := d_transit (dev s);
       d_committed := d_committed (dev s) ++ [(s_tag x, s_res x)];
       d_rejected := d_rejected (dev s) |}) as Htake by (unfold driver_take; rewrite Hox; reflexivity).
  assert (dev s' = driver_take x (dev s)) as Hdev by reflexivity.
  rewrite Htake in Hdev.
  split.
  - destruct Hg. split; auto; try (rewrite Hdev; simpl; rewrite ?length_insert; assumption).
    + simpl. lia.
    + rewrite Hdev. simpl. apply Forall_app; auto.
    + simpl. rewrite g_futex0, Hpc. reflexivity.
  - exact I.
  - apply (inv_running _ H).
  - intros t w Hwt. change (workers s' !! t) with (workers s !! t) in Hwt.
    destruct (inv_tags _ H t w Hwt) as [(o & Ho & H1 & H2 & H3) (rest & Hrest & Hlog) ? ? ? ?].
    rewrite Hpc in H3, Hlog. simpl in H3, Hlog.
    split; auto; rewrite Hdev; simpl.
    + destruct (decide (s_tag x = t)) as [Et|Hne].
      * rewrite <- Et in *. rewrite Hwx in Hwt; injection Hwt as <-.
        rewrite Hox in Ho; injection Ho as <-.
        exists true. rewrite list_lookup_insert_eq by (eapply lookup_lt_Some, Hox).
        assert (places (s_tag x) wx true s' = places (s_tag x) wx false s) as Hpl
          by (unfold places; rewrite Hdev, Hcx; simpl; lia).
        rewrite Hpl. split_all; auto.
      * exists o. rewrite list_lookup_insert_ne by assumption.
        assert (places t w o s' = places t w o s) as Hpl.
        { unfold places. rewrite Hdev, Hq. simpl map. rewrite cnt_cons. simpl.
          destruct (decide (s_tag x = t)); [congruence|]. lia. }
        rewrite Hpl. split_all; auto.
    + rewrite res_of_app. simpl. rewrite Hq in Hlog. simpl in Hlog.
      destruct (decide (s_tag x = t)) as [Et|Hne].
      * rewrite <- Et in *. rewrite Hwx in Hwt; injection Hwt as <-.
        specialize (Hlog Hdead eq_refl). simpl in Hlog. subst rest.
        eexists. rewrite Hrest, <- app_assoc. split; [reflexivity|]. auto.
      * rewrite app_nil_r. exists rest. auto.
Qed.

Lemma driver_deliver_inv t s :
  inv s -> d_owned (dev s) !! t = Some true -> inv (with_dev (driver_deliver t (dev s)) s).
Proof.
  intros H Ht. pose proof (inv_global _ H) as Hg. set (s' := with_dev _ s).
  assert (t < N)%nat as Hlt by (rewrite <- (g_owned s Hg); eapply lookup_lt_Some, Ht).
  split.
  - destruct Hg. split; auto; simpl; rewrite ?length_insert; auto.
    change (queued s') with (queued s). rewrite <- app_assoc.
    apply Forall_app in g_range0 as [? ?]. apply Forall_app; split; [assumption|].
    apply Forall_app; split; [repeat constructor; assumption|assumption].
  - apply (inv_flusher _ H).
  - apply (inv_running _ H).
  - intros t' w Hw. destruct (inv_tags _ H t' w Hw) as [(o & Ho & H1 & H2 & H3) ? ? ? ? ?].
    split; auto. simpl.
    destruct (decide (t = t')) as [<-|Hne].
    + rewrite Ht in Ho; injection Ho as <-. exists false.
      rewrite list_lookup_insert_eq by (eapply lookup_lt_Some, Ht).
      assert (places t w false s' = places t w true s) as Hpl.
      { unfold places. change (queued s') with (queued s). simpl.
        rewrite cnt_app, cnt_cons. destruct (decide (t = t)); [simpl; lia|congruence]. }
      rewrite Hpl. split_all; auto.
    + exists o. rewrite list_lookup_insert_ne by assumption.
      assert (places t' w o s' = places t' w o s) as Hpl.
      { unfold places. change (queued s') with (queued s). simpl.
        rewrite cnt_app, cnt_cons. destruct (decide (t = t')); [congruence|simpl; lia]. }
      rewrite Hpl. split_all; auto.
Qed.

(** ** The fetch callback *)

(** What a notification does to a worker. *)
Definition woken (w : WorkerState) : WorkerState :=
  futex_worker (fst (futex_notify (w_futex w))) (if is_wwaiting (w_pc w) then WWoken else w_pc w) w.

Lemma notify_worker_eq t w s :
  workers s !! t = Some w -> waiting (w_futex w) = is_wwaiting (w_pc w) ->
  notify_worker t s = set_worker t (woken w) s.
Proof.
  intros Hw Hf. unfold notify_worker, woken. rewrite Hw.
  destruct (futex_notify_wakes (w_futex w)) as [Hs _]. rewrite Hf in Hs.
  destruct (futex_notify (w_futex w)) as [x b]. simpl in *. subst b. reflexivity.
Qed.

Lemma woken_idle w : waiting (w_futex (woken w)) = false.
Proof. apply futex_notify_wakes. Qed.

(** The first tag in transit is seen by the callback. *)
Definition see_tag (s : state) : state :=
  match d_transit (dev s) with
  | [] => s
  | t :: _ => deliver_tag t (with_dev (driver_seen 1 (dev s)) s)
  end.

Lemma deliver_tag_dev t d s : deliver_tag t (with_dev d s) = with_dev d (deliver_tag t s).
Proof.
  unfold deliver_tag, notify_worker. cbn [workers with_dev].
  destruct (workers s !! t) as [w|]; [|reflexivity].
  cbn [set_worker with_workers workers with_dev].
  destruct (<[t := _]> (workers s) !! t) as [w'|]; [|reflexivity].
  destruct (futex_notify (w_futex w')); reflexivity.
Qed.

Lemma deliver_tag_devs t s : dev (deliver_tag t s) = dev s.
Proof.
  unfold deliver_tag, notify_worker. destruct (workers s !! t); [|reflexivity].
  destruct (_ !! t) as [w'|]; [|reflexivity]. destruct (futex_notify (w_futex w')); reflexivity.
Qed.

Lemma fetch_cb_see n s :
  (n <= length (d_transit (dev s)))%nat ->
  fetch_cb (take n (d_transit (dev s))) (with_dev (driver_seen n (dev s)) s) = Nat.iter n see_tag s.
Proof.
  revert s; induction n as [|n IH]; intros s Hn.
  - simpl. unfold driver_seen. simpl. destruct s as [? ? ? ? ? ? [] ?]; reflexivity.
  - rewrite Nat.iter_succ_r. destruct (d_transit (dev s)) as [|t tr] eqn:E; simpl in Hn; [lia|].
    assert (see_tag s = with_dev (driver_seen 1 (dev s)) (deliver_tag t s)) as Hsee
      by (unfold see_tag; rewrite E; apply deliver_tag_dev).
    assert (d_transit (dev (see_tag s)) = tr) as Htr
      by (rewrite Hsee; simpl; rewrite E; reflexivity).
    rewrite <- IH by (rewrite Htr; lia).
    rewrite Htr. simpl take. unfold fetch_cb at 1. simpl fold_left. f_equal.
    rewrite deliver_tag_dev, Hsee. unfold with_dev; simpl. f_equal.
    unfold driver_seen. simpl. rewrite E. reflexivity.
Qed.

Lemma see_tag_inv s : inv s -> inv (see_tag s).
Proof.
  intros H. pose proof (inv_global _ H) as Hg. unfold see_tag.
  destruct (d_transit (dev s)) as [|t tr] eqn:E; [exact H|].
  pose proof (g_range s Hg) as Hrange. rewrite E in Hrange. simpl in Hrange.
  apply Forall_cons in Hrange as [Hlt Hrange].
  destruct (lookup_lt_is_Some_2 (workers s) t) as [w Hw]; [rewrite (g_workers s Hg); lia|].
  pose proof (inv_tags _ H t w Hw) as Htag.
  set (d := driver_seen 1 (dev s)). set (w1 := flag_worker true w).
  assert (deliver_tag t (with_dev d s) = with_dev d (set_worker t (woken w1) s)) as ->.
  { rewrite deliver_tag_dev. f_equal. unfold deliver_tag. rewrite Hw.
    erewrite notify_worker_eq; [|simpl; apply list_lookup_insert_eq; eapply lookup_lt_Some, Hw
                                |exact (tag_futex _ _ _ Htag)].
    unfold set_worker, with_workers; simpl. rewrite list_insert_insert_eq. reflexivity. }
  set (s' := with_dev d _).
  assert (queued s' = queued s) as Hq by reflexivity.
  destruct Htag as [(o & Ho & H1 & H2 & H3) (rest & Hrest & Hlog) Hf Hwt Hwk Has].
  assert (w_flag w = false) as Hflag.
  { unfold places in H1. rewrite E, cnt_cons in H1. destruct (decide (t = t)); [|congruence].
    destruct (w_flag w); [simpl in H1; lia|reflexivity]. }
  assert (exited (w_pc (woken w1)) = exited (w_pc w)) as Hex
    by (unfold woken; simpl; destruct (w_pc w); reflexivity).
  split.
  - destruct Hg. split; auto; simpl; rewrite ?length_insert, ?E; auto.
  - apply (inv_flusher _ H).
  - change (running_workers s = live_count (<[t := woken w1]> (workers s))).
    rewrite (live_count_insert _ _ _ _ Hw), Hex, (inv_running _ H). destruct (exited _); lia.
  - intros t' w' Hw'. simpl in Hw'. apply list_lookup_insert_Some in Hw'.
    destruct Hw' as [(<- & <- & _)|[Hne Hw']].
    + assert (places t (woken w1) o s' = places t w o s) as Hpl.
      { unfold places. rewrite Hq. simpl. rewrite E, cnt_cons, Hflag. simpl.
        destruct (decide (t = t)); [|congruence].
        destruct (w_pc w); simpl; rewrite ?drop_0; lia. }
      assert (dead (w_pc (woken w1)) = dead (w_pc w)) as Hd
        by (unfold woken; simpl; destruct (w_pc w); reflexivity).
      assert (held_result (woken w1) = held_result w) as Hh
        by (unfold held_result, woken; simpl; destruct (w_pc w); reflexivity).
      split; auto.
      * exists o. rewrite Hpl, Hd. auto.
      * exists rest. rewrite Hd, Hh, Hq. auto.
      * rewrite woken_idle. unfold woken; simpl. destruct (w_pc w); reflexivity.
      * unfold woken; simpl. destruct (w_pc w); discriminate.
      * unfold woken; simpl. destruct (w_pc w); simpl; congruence.
    + destruct (inv_tags _ H t' w' Hw') as [(o' & Ho' & H1' & H2' & H3') ? ? ? ? ?].
      split; auto. exists o'.
      assert (places t' w' o' s' = places t' w' o' s) as Hpl.
      { unfold places. rewrite Hq. simpl. rewrite E, cnt_cons.
        destruct (decide (t = t')); [congruence|]. simpl. rewrite ?drop_0. reflexivity. }
      rewrite Hpl. auto.
Qed.

Lemma iter_inv n s : inv s -> inv (Nat.iter n see_tag s).
Proof. intros H. induction n as [|n IH]; [exact H|]. simpl. apply see_tag_inv, IH. Qed.

(** The notifications at the end of the fetch reach every worker. *)
Lemma notify_all k s :
  (forall t w, workers s !! t = Some w -> waiting (w_futex w) = is_wwaiting (w_pc w)) ->
  (k <= length (workers s))%nat ->
  exists l, fold_left (fun s t => notify_worker t s) (seq 0 k) s = with_workers l s /\
    length l = length (workers s) /\
    forall t, l !! t = (if (t <? k)%nat then woken else id) <$> workers s !! t.
Proof.
  intros Hf. induction k as [|k IH]; intros Hk.
  - exists (workers s). split_all; [destruct s; reflexivity|reflexivity|].
    intros t. simpl. destruct (workers s !! t); reflexivity.
  - destruct IH as (l & IH & Hlen & Hl); [lia|].
    rewrite seq_S, fold_left_app, IH. simpl.
    destruct (lookup_lt_is_Some_2 (workers s) k) as [w Hw]; [lia|].
    assert (l !! k = Some w) as Hlk.
    { rewrite Hl, Hw. destruct (Nat.ltb_spec k k); [lia|reflexivity]. }
    erewrite (notify_worker_eq k w); [|exact Hlk|exact (Hf k w Hw)].
    exists (<[k := woken w]> l). split_all; [reflexivity|rewrite length_insert; exact Hlen|].
    intros t. destruct (decide (k = t)) as [<-|Hne].
    + rewrite list_lookup_insert_eq by (eapply lookup_lt_Some, Hlk).
      rewrite Hw. destruct (Nat.ltb_spec k (S k)); [reflexivity|lia].
    + rewrite list_lookup_insert_ne, Hl by assumption.
      destruct (Nat.ltb_spec t k), (Nat.ltb_spec t (S k)); reflexivity || lia.
Qed.

Lemma live_count_ext l l' :
  length l = length l' ->
  (forall t w w', l !! t = Some w -> l' !! t = Some w' -> exited (w_pc w) = exited (w_pc w')) ->
  live_count l = live_count l'.
Proof.
  revert l'; induction l as [|x l IH]; intros [|x' l'] Hlen H; try discriminate; [reflexivity|].
  simpl. rewrite (H 0%nat x x' eq_refl eq_refl). f_equal. apply IH; [simpl in Hlen; lia|].
  intros t w w' Ht Ht'. apply (H (S t) w w' Ht Ht').
Qed.

Lemma fetch_end_inv r s : inv s -> inv (fetch_end r s).
Proof.
  intros H. pose proof (inv_global _ H) as Hg. unfold fetch_end.
  destruct (notify_all (length (workers s)) (with_fetch_end r s)) as (l & -> & Hlen & Hl);
    [intros t w Hw; exact (tag_futex _ _ _ (inv_tags _ H t w Hw))|reflexivity|].
  set (s' := with_workers l _).
  assert (forall t w', l !! t = Some w' -> exists w, workers s !! t = Some w /\ w' = woken w) as Hold.
  { intros t w' Hw'. pose proof (lookup_lt_Some _ _ _ Hw') as Hlt. rewrite Hlen in Hlt.
    simpl in Hlt. rewrite Hl in Hw'. simpl in Hw'.
    destruct (Nat.ltb_spec t (length (workers s))); [|lia].
    destruct (workers s !! t) as [w|]; [|discriminate]. injection Hw' as <-. eauto. }
  split.
  - destruct Hg. split; auto; simpl; [rewrite Hlen; assumption|].
    split; [intros _; eexists; reflexivity|reflexivity].
  - apply (inv_flusher _ H).
  - change (running_workers s = live_count l). rewrite (inv_running _ H).
    apply live_count_ext; [symmetry; exact Hlen|].
    intros t w w' Hw Hw'. destruct (Hold t w' Hw') as (w0 & Hw0 & ->).
    rewrite Hw in Hw0; injection Hw0 as <-. unfold woken; simpl. destruct (w_pc w); reflexivity.
  - intros t w' Hw'. destruct (Hold t w' Hw') as (w & Hw & ->).
    destruct (inv_tags _ H t w Hw) as [(o & Ho & H1 & H2 & H3) (rest & Hrest & Hlog) Hf Hwt Hwk Has].
    assert (places t (woken w) o s' = places t w o s) as Hpl.
    { unfold places, woken. simpl. change (queued s') with (queued s).
      destruct (w_pc w); reflexivity. }
    assert (dead (w_pc (woken w)) = dead (w_pc w)) as Hd
      by (unfold woken; simpl; destruct (w_pc w); reflexivity).
    assert (held_result (woken w) = held_result w) as Hh
      by (unfold held_result, woken; simpl; destruct (w_pc w); reflexivity).
    split; auto.
    + exists o. rewrite Hpl, Hd. auto.
    + exists rest. rewrite Hd, Hh. auto.
    + rewrite woken_idle. unfold woken; simpl. destruct (w_pc w); reflexivity.
    + unfold woken; simpl. destruct (w_pc w); discriminate.
    + unfold woken; simpl. destruct (w_pc w); simpl; congruence.
Qed.
End Invariant.
