(* ===== verification/BatchProof.v ===== *)
(** * BatchProof: the batch queue is safe, exact, live and ends

    The invariant of [BatchInv] holds in every reachable state; its
    consequences are the properties of the batch queue. *)

From S2P Require Import Prelude Effects UblkCmd Sys IoResult Batch BatchInv.

#[local] Open Scope Z_scope.

Section Reachability.
Context {F : Futex} {FL : FutexLaws F}.
Context (flags element_size : Z) (N : nat).
Hypothesis Helem : 0 < element_size.
Hypothesis HN : is_u 16 (Z.of_nat N).

Abbreviation inv := (inv N).

(** The states of the queue: [N] tags, [lba0] what the first buffer held. *)
Definition reachable (lba0 : Z) (s : state) : Prop :=
  exists ls, steps flags element_size ls (init N lba0) = Some s.

(** A worker that ends with a request loses its tag. *)
Lemma dead_tag_ok t w pc s :
  tag_ok t w s -> busy (w_pc w) = true -> dead pc = true -> waiting (w_futex w) = false ->
  tag_ok t (pc_worker pc w) s.
Proof.
  intros [(o & Ho & H1 & _ & _) (rest & Hrest & _) _ _ _ _] Hb Hd Hf.
  assert (places t (pc_worker pc w) o s = 0%nat) as H0.
  { unfold places in *. rewrite Hb in H1. simpl in *.
    destruct pc; try discriminate; simpl; lia. }
  split.
  - exists o. rewrite H0. split_all; auto. simpl. congruence.
  - exists rest. split; auto. simpl. congruence.
  - simpl. rewrite Hf. destruct pc; reflexivity || discriminate.
  - simpl. destruct pc; discriminate.
  - simpl. destruct pc; discriminate.
  - simpl. destruct pc; discriminate.
Qed.

Lemma busy_idle t (w : WorkerState) s :
  tag_ok t w s -> busy (w_pc w) = true -> waiting (w_futex w) = false.
Proof. intros H Hb. rewrite (tag_futex _ _ _ H). destruct (w_pc w); reflexivity || discriminate. Qed.

Lemma busy_live pc : busy pc = true -> exited pc = false.
Proof. destruct pc; reflexivity || discriminate. Qed.

Lemma ended_request_inv t w r s (k : state) :
  inv s -> workers s !! t = Some w -> busy (w_pc w) = true -> inv k ->
  inv (match r with
       | AsyncOk _ => k
       | AsyncErr ec => worker_exit t w (WFailed (SystemError ec)) s
       | AsyncStopped => set_worker t (pc_worker WStopped w) s
       end).
Proof.
  intros H Hw Hb Hk. pose proof (inv_tags _ _ H t w Hw) as Ht.
  pose proof (inv_inv_at N t w s H Hw (busy_live _ Hb)) as Hat.
  pose proof (busy_idle _ _ _ Ht Hb) as Hidle.
  destruct r as [v|ec|]; [exact Hk| |].
  - apply inv_at_exit; [exact Hat|apply dead_tag_ok; auto|reflexivity].
  - apply inv_at_rest; [|reflexivity]. destruct Hat. split; auto. apply dead_tag_ok; auto.
Qed.

Lemma registered_inv t w s :
  inv s -> workers s !! t = Some w -> w_pc w = WRegistering ->
  inv (set_worker t (pc_worker (WHandling true) w) s).
Proof.
  intros H Hw Hpc. pose proof (inv_tags _ _ H t w Hw) as Ht.
  assert (busy (w_pc w) = true) as Hb by (rewrite Hpc; reflexivity).
  pose proof (inv_inv_at N t w s H Hw (busy_live _ Hb)) as Hat.
  apply inv_at_rest; [|reflexivity]. destruct Hat. split; auto.
  eapply tag_ok_pc; try exact Ht; simpl; auto; rewrite ?Hpc; try reflexivity; try discriminate.
  - unfold held_result. rewrite Hpc. reflexivity.
  - exact (busy_idle _ _ _ Ht Hb).
Qed.

(** The handler's completion: the result is recorded and the worker holds it. *)
Lemma handled_inv_at t w io_buf res lba s :
  inv s -> workers s !! t = Some w -> w_pc w = WHandling io_buf ->
  inv_at N t (pc_worker (WUnregistering res lba) w) (with_result t res s).
Proof.
  intros H Hw Hpc. pose proof (inv_tags _ _ H t w Hw) as Ht.
  assert (busy (w_pc w) = true) as Hb by (rewrite Hpc; reflexivity).
  destruct (inv_inv_at N t w s H Hw (busy_live _ Hb)) as [Hg Hf Hlt Hr _ Hts].
  assert (forall t' w', t' <> t -> tag_ok t' w' s -> tag_ok t' w' (with_result t res s)) as Hother.
  { intros t' w' Hne [Hp (rest & Hrest & Hlog) ? ? ? ?]. split; auto.
    exists rest. simpl. rewrite res_of_app. simpl.
    destruct (decide (t = t')); [congruence|]. rewrite app_nil_r. auto. }
  split; auto.
  - destruct Hg. split; assumption.
  - pose proof (busy_idle _ _ _ Ht Hb) as Hidle.
    destruct Ht as [(o & Ho & H1 & H2 & H3) (rest & Hrest & Hlog) _ _ _ _].
    rewrite Hpc in H2, H3, Hlog. simpl in H2, H3, Hlog.
    assert (places t (pc_worker (WUnregistering res lba) w) o (with_result t res s) = places t w o s)
      as Hpl by (unfold places; simpl; rewrite Hpc; reflexivity).
    split; try discriminate; [|simpl|exact Hidle].
    + exists o. rewrite Hpl. split_all; auto; try discriminate.
    + exists (rest ++ [res]). rewrite res_of_app, Hrest. simpl.
      destruct (decide (t = t)); [|congruence]. rewrite <- app_assoc. split; [reflexivity|].
      intros _ Hfl. rewrite (Hlog eq_refl Hfl). unfold held_result. rewrite Hpc, app_nil_r.
      reflexivity.
Qed.

Lemma pc_worker_eta (w : WorkerState) pc : w_pc w = pc -> pc_worker pc w = w.
Proof. intros <-. destruct w; reflexivity. Qed.

Lemma step_inv l s s' : inv s -> step flags element_size l s = Some s' -> inv s'.
Proof.
  intros H Hs. destruct l as [| |r|t iod|t r|t c iod|t r iod|t|n|r]; cbn [step] in Hs.
  - destruct (fl_pc (flusher s)) eqn:E; try discriminate. injection Hs as <-.
    apply flusher_top_inv; assumption.
  - destruct (fl_pc (flusher s)) as [|cur nr taken| | | |] eqn:E; try discriminate.
    destruct (Z.ltb_spec taken nr); [|discriminate]. injection Hs as <-.
    eapply commit_take_inv; eassumption.
  - destruct (fl_pc (flusher s)) as [|cur nr taken| | | |] eqn:E; try discriminate.
    destruct (match r with AsyncOk v => _ | _ => _ end) eqn:Er; [|discriminate].
    injection Hs as <-. eapply flusher_committed_inv; eassumption.
  - destruct (workers s !! t) as [w|] eqn:Hw; [|discriminate].
    pose proof (inv_tags _ _ H t w Hw) as Ht.
    destruct (w_pc w) eqn:E; try discriminate; injection Hs as <-;
      assert (inv_at N t w s) as Hat by (apply inv_inv_at; auto; rewrite E; reflexivity).
    + apply worker_top_inv with (N := N); auto; rewrite ?(tag_futex _ _ _ Ht), ?E; try reflexivity.
      unfold held_result; rewrite E; reflexivity.
    + apply worker_resumed_inv with (N := N); auto; rewrite ?(tag_futex _ _ _ Ht), ?E; try reflexivity.
      * unfold held_result; rewrite E; reflexivity.
      * apply (tag_woken _ _ _ Ht E).
  - destruct (workers s !! t) as [w|] eqn:Hw; [|discriminate].
    destruct (w_pc w) eqn:E; try discriminate. injection Hs as <-.
    apply ended_request_inv; auto; [rewrite E; reflexivity|]. apply registered_inv; auto.
  - destruct (workers s !! t) as [w|] eqn:Hw; [|discriminate].
    assert (exists io_buf res lba, w_pc w = WHandling io_buf /\ io_outcome c = (res, lba) /\
      s' = if io_buf then set_worker t (pc_worker (WUnregistering res lba) w) (with_result t res s)
           else worker_finish flags t w res lba iod (with_result t res s))
      as (io_buf & res & lba & E & Eo & ->).
    { destruct c; try discriminate; destruct (w_pc w) as [| | | |io_buf| | | | |]; try discriminate;
        destruct (io_outcome _) as [res lba]; injection Hs as <-; exists io_buf, res, lba; auto. }
    pose proof (handled_inv_at t w io_buf res lba s H Hw E) as Hat. destruct io_buf.
    + apply inv_at_rest; [exact Hat|reflexivity].
    + eapply worker_finish_inv; eassumption.
  - destruct (workers s !! t) as [w|] eqn:Hw; [|discriminate].
    destruct (w_pc w) as [| | | | |res lba| | | |] eqn:E; try discriminate. injection Hs as <-.
    apply ended_request_inv; auto; [rewrite E; reflexivity|].
    eapply worker_finish_inv; try eassumption. rewrite (pc_worker_eta w _ E).
    apply inv_inv_at; auto. rewrite E; reflexivity.
  - destruct (fetch_res s); [discriminate|]. destruct (_ !! t) as [[]|] eqn:E; try discriminate.
    injection Hs as <-. apply driver_deliver_inv; assumption.
  - destruct (fetch_res s); [discriminate|].
    destruct (_ && _) eqn:E; [|discriminate]. injection Hs as <-.
    apply andb_true_iff in E as [_ E]. apply Nat.leb_le in E.
    rewrite fetch_cb_see by assumption. apply iter_inv; assumption.
  - destruct (fetch_res s); [discriminate|]. destruct (r <? 0); [|discriminate].
    injection Hs as <-. apply fetch_end_inv; assumption.
Qed.

Lemma lookup_repeat {A} (x : A) n t : (t < n)%nat -> repeat x n !! t = Some x.
Proof. revert t; induction n as [|n IH]; intros [|t] H; simpl; try lia; auto. apply IH; lia. Qed.

Lemma init_inv lba0 : inv (init N lba0).
Proof.
  split.
  - split; simpl; rewrite ?repeat_length; auto; try lia.
    + split; [discriminate|]. intros [x Hx]. discriminate.
    + apply futex_new_idle.
  - exact I.
  - simpl. clear HN. induction N as [|n IH]; [reflexivity|]. simpl repeat. simpl. rewrite <- IH. lia.
  - intros t w Hw. simpl in Hw.
    assert (t < N)%nat as Hlt.
    { apply lookup_lt_Some in Hw. rewrite repeat_length in Hw. exact Hw. }
    apply list_elem_of_lookup_2, list_elem_of_In, repeat_spec in Hw. subst w.
    split; simpl; try discriminate.
    + exists true. rewrite lookup_repeat by assumption. unfold places. simpl. split_all; auto; discriminate.
    + exists []. auto.
    + apply futex_new_idle.
Qed.

Lemma steps_inv ls : forall s s', inv s -> steps flags element_size ls s = Some s' -> inv s'.
Proof.
  induction ls as [|l ls IH]; intros s s' H Hs; simpl in Hs; [injection Hs as <-; exact H|].
  destruct (step flags element_size l s) as [s1|] eqn:E; [|discriminate].
  eapply IH; [|exact Hs]. eapply step_inv; eassumption.
Qed.

Lemma reachable_inv lba0 s : reachable lba0 s -> inv s.
Proof. intros [ls H]. eapply steps_inv; [apply (init_inv lba0)|exact H]. Qed.

(** ** The buffers *)

Lemma notify_flusher_bufs s : commit_bufs (notify_flusher s) = commit_bufs s.
Proof. unfold notify_flusher. destruct (futex_notify _) as [x []]; reflexivity. Qed.

Lemma worker_exit_bufs t w pc s : commit_bufs (worker_exit t w pc s) = commit_bufs s.
Proof.
  unfold worker_exit. set (s1 := with_running _ _). destruct (running_workers s1 =? 0);
    [rewrite notify_flusher_bufs|]; reflexivity.
Qed.

Lemma worker_top_bufs t w iod s : commit_bufs (worker_top flags t w iod s) = commit_bufs s.
Proof.
  assert (forall w, commit_bufs (worker_resumed flags t w iod s) = commit_bufs s) as Hr.
  { intros w'. unfold worker_resumed. destruct (worker_stopped s); [apply worker_exit_bufs|].
    destruct (w_flag w'); simpl; [destruct (need_io_buf _ _)|]; reflexivity. }
  unfold worker_top. destruct (_ && _); [|apply Hr].
  destruct (futex_wait _ _) as [x []]; [reflexivity|apply Hr].
Qed.

Lemma worker_finish_bufs t w res lba iod s i p :
  i <> fl_index (flusher s) -> commit_bufs (worker_finish flags t w res lba iod s) i p = commit_bufs s i p.
Proof.
  intros Hi. unfold worker_finish. rewrite worker_top_bufs.
  destruct (fl_pending (flusher s) =? 0); [rewrite notify_flusher_bufs|];
    simpl; unfold set_slot; destruct (Z.eqb_spec i (fl_index (flusher s))); simpl; congruence.
Qed.

Lemma deliver_tag_bufs t s : commit_bufs (deliver_tag t s) = commit_bufs s.
Proof.
  unfold deliver_tag, notify_worker. destruct (workers s !! t); [|reflexivity].
  destruct (_ !! t) as [w'|]; [|reflexivity]. destruct (futex_notify (w_futex w')); reflexivity.
Qed.

Lemma fetch_cb_bufs l : forall s, commit_bufs (fetch_cb l s) = commit_bufs s.
Proof.
  induction l as [|t l IH]; intros s; [reflexivity|]. unfold fetch_cb in *. simpl.
  rewrite IH. apply deliver_tag_bufs.
Qed.

Lemma notify_all_bufs l : forall s, commit_bufs (fold_left (fun s t => notify_worker t s) l s) = commit_bufs s.
Proof.
  induction l as [|t l IH]; intros s; [reflexivity|]. simpl. rewrite IH.
  unfold notify_worker. destruct (workers s !! t) as [w|]; [|reflexivity].
  destruct (futex_notify (w_futex w)); reflexivity.
Qed.

(** A step writes to the current buffer only. *)
Lemma step_bufs l s s' i p :
  step flags element_size l s = Some s' -> i <> fl_index (flusher s) ->
  commit_bufs s' i p = commit_bufs s i p.
Proof.
  intros Hs Hi. destruct l as [| |r|t iod|t r|t c iod|t r iod|t|n|r]; cbn [step] in Hs.
  - destruct (fl_pc (flusher s)); try discriminate. injection Hs as <-. unfold flusher_top.
    destruct (0 <? _); [reflexivity|]. destruct (_ =? 0); [reflexivity|].
    destruct (futex_wait _ _) as [x []]; reflexivity.
  - destruct (fl_pc (flusher s)); try discriminate. destruct (_ <? _); [|discriminate].
    injection Hs as <-. reflexivity.
  - destruct (fl_pc (flusher s)); try discriminate. destruct (match r with AsyncOk v => _ | _ => _ end);
      [|discriminate].
    injection Hs as <-. unfold flusher_committed. destruct r; try reflexivity.
    destruct (_ =? _); reflexivity.
  - destruct (workers s !! t) as [w|]; [|discriminate].
    destruct (w_pc w) eqn:E; try discriminate; injection Hs as <-; [rewrite worker_top_bufs; reflexivity|].
    unfold worker_resumed. destruct (worker_stopped s); [rewrite worker_exit_bufs; reflexivity|].
    destruct (w_flag w); simpl; [destruct (need_io_buf _ _)|]; reflexivity.
  - destruct (workers s !! t) as [w|]; [|discriminate].
    destruct (w_pc w); try discriminate. injection Hs as <-.
    destruct r; try reflexivity. rewrite worker_exit_bufs; reflexivity.
  - destruct (workers s !! t) as [w|]; [|discriminate].
    destruct c; try discriminate; destruct (w_pc w) as [| | | |[]| | | | |]; try discriminate;
      destruct (io_outcome _) as [res lba]; injection Hs as <-; try reflexivity;
      rewrite worker_finish_bufs by exact Hi; reflexivity.
  - destruct (workers s !! t) as [w|]; [|discriminate].
    destruct (w_pc w); try discriminate. injection Hs as <-.
    destruct r; [apply worker_finish_bufs, Hi|rewrite worker_exit_bufs; reflexivity|reflexivity].
  - destruct (fetch_res s); [discriminate|]. destruct (_ !! t) as [[]|]; try discriminate.
    injection Hs as <-. reflexivity.
  - destruct (fetch_res s); [discriminate|]. destruct (_ && _); [|discriminate].
    injection Hs as <-. rewrite fetch_cb_bufs. reflexivity.
  - destruct (fetch_res s); [discriminate|]. destruct (r <? 0); [|discriminate].
    injection Hs as <-. unfold fetch_end. rewrite notify_all_bufs. reflexivity.
Qed.

Lemma slot_res_length t l : length (slot_res t l) = cnt t (map s_tag l).
Proof.
  induction l as [|x l IH]; [reflexivity|]. simpl map. rewrite cnt_cons. simpl.
  destruct (decide (s_tag x = t)); simpl; rewrite IH; reflexivity.
Qed.

(** ** Shutdown *)

(** The work left once the fetch has ended. *)
Definition pc_work (pc : worker_pc) : Z :=
  match pc with
  | WRegistering => 24
  | WHandling _ => 18
  | WUnregistering _ _ => 12
  | WTop | WWoken => 6
  | _ => 0
  end.

Definition flusher_work (pc : flusher_pc) : Z :=
  match pc with
  | FReady => 1
  | FCommitting _ nr taken => 2 + (nr - taken)
  | _ => 0
  end.

Definition workers_work (l : list WorkerState) : Z := foldr (fun w n => pc_work (w_pc w) + n) 0 l.

Definition work (s : state) : Z :=
  workers_work (workers s) + 4 * fl_pending (flusher s) + flusher_work (fl_pc (flusher s)).

Lemma pc_work_nonneg pc : 0 <= pc_work pc.
Proof. destruct pc; simpl; lia. Qed.

Lemma workers_work_nonneg l : 0 <= workers_work l.
Proof.
  induction l as [|w l IH]; simpl; [lia|]. pose proof (pc_work_nonneg (w_pc w)). lia.
Qed.

Lemma workers_work_insert l t (w w' : WorkerState) :
  l !! t = Some w ->
  workers_work (<[t := w']> l) = workers_work l - pc_work (w_pc w) + pc_work (w_pc w').
Proof.
  revert t; induction l as [|x l IH]; intros [|t] H; [discriminate..| |].
  - injection H as ->. simpl. lia.
  - specialize (IH _ H). simpl in *. lia.
Qed.

Lemma work_nonneg s : inv s -> 0 <= work s.
Proof.
  intros H. pose proof (inv_global _ _ H) as Hg. unfold work.
  pose proof (workers_work_nonneg (workers s)). pose proof (g_pending _ s Hg).
  pose proof (g_commit _ s Hg). destruct (fl_pc (flusher s)); simpl; lia.
Qed.

(** Waking the flusher is at most one unit of work. *)
Lemma work_notify s :
  0 <= flusher_work (fl_pc (flusher s)) -> work (notify_flusher s) <= work s + 1.
Proof.
  intros H. unfold notify_flusher, work. destruct (futex_notify _) as [x []]; simpl; lia.
Qed.

Lemma notify_flusher_work s :
  0 <= flusher_work (fl_pc (flusher s)) -> 0 <= flusher_work (fl_pc (flusher (notify_flusher s))).
Proof.
  intros H. unfold notify_flusher. destruct (futex_notify _) as [x []]; simpl; lia.
Qed.

Lemma notify_flusher_workers s : workers (notify_flusher s) = workers s.
Proof. unfold notify_flusher. destruct (futex_notify _) as [x []]; reflexivity. Qed.

Lemma notify_flusher_stopped s : worker_stopped (notify_flusher s) = worker_stopped s.
Proof. unfold notify_flusher. destruct (futex_notify _) as [x []]; reflexivity. Qed.

Lemma work_set t w0 w s :
  workers s !! t = Some w0 ->
  work (set_worker t w s) = work s - pc_work (w_pc w0) + pc_work (w_pc w).
Proof. intros H. unfold work. simpl. rewrite (workers_work_insert _ _ _ _ H). lia. Qed.

Lemma work_exit t w0 w pc s :
  0 <= flusher_work (fl_pc (flusher s)) -> workers s !! t = Some w0 -> exited pc = true ->
  work (worker_exit t w pc s) <= work s - pc_work (w_pc w0) + 1.
Proof.
  intros Hf Hw Hx. unfold worker_exit. set (s1 := with_running _ _).
  assert (work s1 = work s - pc_work (w_pc w0)) as E.
  { change (work s1) with (work (set_worker t (pc_worker pc w) s)).
    rewrite (work_set _ _ _ _ Hw). destruct pc; try discriminate; simpl; lia. }
  destruct (running_workers s1 =? 0); [|lia].
  pose proof (work_notify s1 Hf). lia.
Qed.

Lemma worker_top_stopped t w iod s :
  worker_stopped s = true -> worker_top flags t w iod s = worker_exit t w WReturned s.
Proof. intros H. unfold worker_top, worker_resumed. rewrite H. reflexivity. Qed.

Lemma work_finish t w0 w res lba iod s :
  0 <= fl_pending (flusher s) -> 0 <= flusher_work (fl_pc (flusher s)) ->
  worker_stopped s = true -> workers s !! t = Some w0 -> 12 <= pc_work (w_pc w0) ->
  work (worker_finish flags t w res lba iod s) < work s.
Proof.
  intros Hp Hf Hst Hw Hpc. unfold worker_finish.
  set (s1 := set_pending _ _).
  assert (work s1 <= work s + 4) as H1.
  { unfold work. simpl. pose proof (Z.mod_le (fl_pending (flusher s) + 1) (2 ^ 16)).
    unfold uwrap. lia. }
  set (s2 := if fl_pending (flusher s) =? 0 then notify_flusher s1 else s1).
  assert (work s2 <= work s1 + 1 /\ 0 <= flusher_work (fl_pc (flusher s2)) /\
          workers s2 = workers s /\ worker_stopped s2 = true) as (H2 & H3 & H4 & H5).
  { unfold s2. destruct (_ =? 0).
    - rewrite notify_flusher_workers, notify_flusher_stopped. pose proof (work_notify s1 Hf).
      split_all; auto. apply notify_flusher_work, Hf.
    - split_all; auto. lia. }
  rewrite worker_top_stopped by exact H5. rewrite <- H4 in Hw.
  pose proof (work_exit t w0 w WReturned s2 H3 Hw eq_refl). lia.
Qed.

(** After the end of the fetch every step takes work away. *)
Lemma step_work l s s' :
  inv s -> is_Some (fetch_res s) -> step flags element_size l s = Some s' -> work s' < work s.
Proof.
  intros H Hr Hs. pose proof (inv_global _ _ H) as Hg.
  pose proof (proj2 (g_stopped _ s Hg) Hr) as Hst. pose proof (g_pending _ s Hg) as Hp.
  pose proof (g_commit _ s Hg) as Hc.
  assert (0 <= flusher_work (fl_pc (flusher s))) as Hf
    by (destruct (fl_pc (flusher s)); simpl; lia).
  assert (forall t w pc, workers s !! t = Some w -> pc_work pc < pc_work (w_pc w) ->
    work (set_worker t (pc_worker pc w) s) < work s) as Hset.
  { intros t w pc Hw Hpc. rewrite (work_set _ _ _ _ Hw). simpl. lia. }
  assert (forall t w pc, workers s !! t = Some w -> exited pc = true -> 6 <= pc_work (w_pc w) ->
    work (worker_exit t w pc s) < work s) as Hexit.
  { intros t w pc Hw Hx Hpc. pose proof (work_exit t w w pc s Hf Hw Hx). lia. }
  destruct Hr as [res Hres].
  destruct l as [| |r|t iod|t r|t c iod|t r iod|t|n|r]; cbn [step] in Hs.
  - destruct (fl_pc (flusher s)) eqn:E; try discriminate. injection Hs as <-. unfold flusher_top.
    destruct (Z.ltb_spec 0 (fl_pending (flusher s))); [unfold work; simpl; rewrite E; simpl; lia|].
    destruct (_ =? 0); [unfold work; simpl; rewrite E; simpl; lia|].
    destruct (futex_wait_blocks (fl_futex (flusher s)) (fl_pending (flusher s) =? 0)) as [Hb _];
      [rewrite (g_futex _ s Hg), E; reflexivity|].
    destruct (futex_wait _ _) as [x b]. simpl in Hb. subst b.
    assert (fl_pending (flusher s) = 0) as -> by lia.
    unfold work; simpl; rewrite E; simpl; lia.
  - destruct (fl_pc (flusher s)) eqn:E; try discriminate. destruct (Z.ltb_spec taken nr); [|discriminate].
    injection Hs as <-. unfold work; simpl; rewrite E; simpl; lia.
  - destruct (fl_pc (flusher s)) eqn:E; try discriminate.
    destruct (match r with AsyncOk v => _ | _ => _ end); [|discriminate].
    injection Hs as <-. unfold flusher_committed.
    destruct r; [destruct (_ =? _)| |]; unfold work; simpl; rewrite E; simpl; lia.
  - destruct (workers s !! t) as [w|] eqn:Hw; [|discriminate].
    destruct (w_pc w) eqn:E; try discriminate; injection Hs as <-.
    + rewrite worker_top_stopped by exact Hst. apply Hexit; auto. rewrite E; simpl; lia.
    + unfold worker_resumed. rewrite Hst. apply Hexit; auto. rewrite E; simpl; lia.
  - destruct (workers s !! t) as [w|] eqn:Hw; [|discriminate].
    destruct (w_pc w) eqn:E; try discriminate. injection Hs as <-.
    destruct r; [apply Hset|apply Hexit|apply Hset]; auto; rewrite E; simpl; lia.
  - destruct (workers s !! t) as [w|] eqn:Hw; [|discriminate].
    destruct c; try discriminate; destruct (w_pc w) as [| | | |io_buf| | | | |] eqn:E; try discriminate;
      destruct (io_outcome _) as [res' lba]; injection Hs as <-;
      change (work s) with (work (with_result t res' s));
      (destruct io_buf;
       [rewrite (work_set t w) by exact Hw; simpl; rewrite E; simpl; lia
       |apply work_finish with (w0 := w); auto; rewrite E; simpl; lia]).
  - destruct (workers s !! t) as [w|] eqn:Hw; [|discriminate].
    destruct (w_pc w) eqn:E; try discriminate. injection Hs as <-.
    destruct r; [apply work_finish with (w0 := w)|apply Hexit|apply Hset]; auto; rewrite E; simpl; lia.
  - rewrite Hres in Hs; discriminate.
  - rewrite Hres in Hs; discriminate.
  - rewrite Hres in Hs; discriminate.
Qed.

(** A system that cannot move after the end of the fetch has completed. *)
Lemma stuck_finished s :
  inv s -> is_Some (fetch_res s) ->
  (forall t w, workers s !! t = Some w -> w_pc w <> WStopped) ->
  (forall l, step flags element_size l s = None) ->
  (forall t w, workers s !! t = Some w -> exited (w_pc w) = true) /\
  (fl_pc (flusher s) = FReturned \/ flusher_lost (fl_pc (flusher s)) = true).
Proof.
  intros H Hr Hns Hstuck. pose proof (inv_global _ _ H) as Hg.
  pose proof (proj2 (g_stopped _ s Hg) Hr) as Hst.
  assert (forall t w, workers s !! t = Some w -> exited (w_pc w) = true) as Hexit.
  { intros t w Hw. pose proof (inv_tags _ _ H t w Hw) as Ht.
    pose (iod := Build_ublksrv_io_desc 0 0 0 0).
    destruct (w_pc w) eqn:E; try reflexivity; exfalso.
    - specialize (Hstuck (LWorker t iod)). cbn in Hstuck. rewrite Hw, E in Hstuck. discriminate.
    - destruct (tag_waits _ _ _ Ht E). congruence.
    - specialize (Hstuck (LWorker t iod)). cbn in Hstuck. rewrite Hw, E in Hstuck. discriminate.
    - specialize (Hstuck (LRegistered t (AsyncErr 5))). cbn in Hstuck. rewrite Hw, E in Hstuck.
      discriminate.
    - specialize (Hstuck (LHandled t SetStopped iod)). cbn in Hstuck. rewrite Hw, E in Hstuck.
      discriminate.
    - specialize (Hstuck (LUnregistered t (AsyncErr 5) iod)). cbn in Hstuck.
      rewrite Hw, E in Hstuck. discriminate.
    - apply (Hns t w Hw E).
    - apply (tag_assert _ _ _ Ht E). }
  split; [exact Hexit|].
  assert (running_workers s = 0) as Hrun.
  { rewrite (inv_running _ _ H). clear - Hexit. induction (workers s) as [|w l IH]; [reflexivity|].
    simpl. rewrite (Hexit 0%nat w eq_refl). apply IH. intros t w' Hw'. apply (Hexit (S t) w' Hw'). }
  pose proof (inv_flusher _ _ H) as Hfl. unfold flusher_ok in Hfl.
  destruct (fl_pc (flusher s)) eqn:E; auto; exfalso.
  - specialize (Hstuck LFlusher). cbn in Hstuck. rewrite E in Hstuck. discriminate.
  - specialize (Hstuck (LCommitDone (AsyncErr 5))). cbn in Hstuck. rewrite E in Hstuck. discriminate.
  - destruct Hfl. congruence.
Qed.
End Reachability.

(** ** A futex and a run, for the witnesses *)

(** A futex with one waiter: whether it waits. *)
#[local] Instance bool_futex : Futex := {|
  futex := bool;
  futex_new := false;
  futex_wait := fun f eq => (f || eq, eq);
  futex_notify := fun f => (false, f);
|}.

#[local] Instance bool_futex_laws : FutexLaws bool_futex.
Proof.
  refine {| waiting := (fun f => f) : futex -> bool |}.
  - reflexivity.
  - intros f eq Hf. simpl. rewrite Hf. auto.
  - intros f. auto.
Defined.

Definition iod0 : ublksrv_io_desc := Build_ublksrv_io_desc 0 0 0 0.

(** Two tags: both requests delivered in one completion, the first committed
    while the second is handled, which then goes to the other buffer; the queue
    is stopped before the second commit. *)
Definition sample_run : list label :=
  [LFlusher; LWorker 0 iod0; LWorker 1 iod0; LDeliver 1; LDeliver 0; LFetched 2;
   LWorker 1 iod0; LWorker 0 iod0; LHandled 1 (SetValue (IoInt 4096)) iod0; LFlusher;
   LHandled 0 (SetError (ErrPtr (RuntimeError "handler"))) iod0; LCommitTake;
   LCommitDone (AsyncOk 16); LFetchEnd UBLK_IO_RES_ABORT].

Definition sample_shutdown : list label :=
  sample_run ++ [LWorker 1 iod0; LWorker 0 iod0; LFlusher; LCommitTake; LCommitDone (AsyncOk 16);
                 LFlusher].

Definition reaches (ls : list label) (s : state) : Prop := steps 0 16 ls (init 2 0) = Some s.

(** ** Theorems *)

(** C1: results are committed exactly once: in every reachable state of the
    batch queue, the driver has never been handed an element of a tag the
    server does not own, and the results of each tag are those the driver has
    taken, in order, followed by at most one that is in flight (nothing is lost
    unless a command of the queue itself has failed). *)
Theorem batch_exactly_once {F : Futex} {FL : FutexLaws F} flags element_size N lba0 s t w :
  0 < element_size -> is_u 16 (Z.of_nat N) ->
  reachable flags element_size N lba0 s -> workers s !! t = Some w ->
  d_rejected (dev s) = false /\
  exists rest, res_of t (results s) = res_of t (d_committed (dev s)) ++ rest /\
    (dead (w_pc w) = false -> flusher_lost (fl_pc (flusher s)) = false ->
     (length rest <= 1)%nat /\ rest = slot_res t (queued s) ++ held_result w).
Proof.
  intros He HN Hr Hw. pose proof (reachable_inv _ _ _ He HN _ _ Hr) as Hinv.
  split; [apply (g_rejected _ _ (inv_global _ _ Hinv))|].
  destruct (inv_tags _ _ Hinv t w Hw) as [(o & _ & H1 & _) (rest & Hrest & Hlog) _ _ _ _].
  exists rest. split; [exact Hrest|]. intros Hd Hf. specialize (Hlog Hd Hf).
  split; [|exact Hlog]. subst rest. rewrite length_app, slot_res_length.
  unfold places, held_result in *. destruct (w_pc w); simpl in *; lia.
Qed.

Lemma batch_exactly_once_witness :
  exists s w, reaches sample_run s /\ workers s !! 0%nat = Some w /\
    res_of 0 (results s) = [- EIO] /\ res_of 1 (d_committed (dev s)) = [4096] /\
    d_rejected (dev s) = false /\
    exists rest, res_of 0 (results s) = res_of 0 (d_committed (dev s)) ++ rest /\
      (dead (w_pc w) = false -> flusher_lost (fl_pc (flusher s)) = false ->
       (length rest <= 1)%nat /\ rest = slot_res 0 (queued s) ++ held_result w).
Proof.
  destruct (steps 0 16 sample_run (init 2 0)) as [s|] eqn:E; [|vm_compute in E; discriminate].
  destruct (workers s !! 0%nat) as [w|] eqn:Ew.
  - exists s, w. split; [exact E|]. split; [exact Ew|].
    pose proof (batch_exactly_once 0 16 2 0 s 0 w ltac:(lia) ltac:(split; vm_compute; congruence)
                  (ex_intro _ sample_run E) Ew) as H.
    split; [|split; [|exact H]]; clear H Ew w; vm_compute in E; injection E as <-; reflexivity.
  - exfalso. vm_compute in E. injection E as <-. discriminate Ew.
Defined.

(** C13: the commit buffers are safe: in every reachable state the elements
    waiting for the driver, in both buffers together, are at most one per tag,
    so a slot written is always within its buffer and the 16-bit count never
    wraps; and no step changes the buffer of a commit in flight. *)
Theorem batch_buffers_safe {F : Futex} {FL : FutexLaws F} flags element_size N lba0 s :
  0 < element_size -> is_u 16 (Z.of_nat N) ->
  reachable flags element_size N lba0 s ->
  0 <= fl_pending (flusher s) /\
  Z.of_nat (length (in_flight s)) + fl_pending (flusher s) <= Z.of_nat N /\
  (forall t w io_buf, workers s !! t = Some w ->
     w_pc w = WHandling io_buf \/ (exists res lba, w_pc w = WUnregistering res lba) ->
     fl_pending (flusher s) < Z.of_nat N) /\
  forall cur nr taken, fl_pc (flusher s) = FCommitting cur nr taken ->
    nr <= Z.of_nat N /\ cur <> fl_index (flusher s) /\
    forall l s', step flags element_size l s = Some s' ->
      forall p, commit_bufs s' cur p = commit_bufs s cur p.
Proof.
  intros He HN Hr. pose proof (reachable_inv _ _ _ He HN _ _ Hr) as Hinv.
  pose proof (inv_global _ _ Hinv) as Hg.
  split; [apply (g_pending _ _ Hg)|]. split; [apply queued_bound, Hinv|]. split.
  - intros t w io_buf Hw Hpc.
    assert (busy (w_pc w) = true) as Hb
      by (destruct Hpc as [->|(res & lba & ->)]; reflexivity).
    apply (slots_left N t w); [|exact Hb]. apply inv_inv_at; auto. apply busy_live, Hb.
  - intros cur nr taken Hpc. pose proof (g_commit _ _ Hg) as Hc. rewrite Hpc in Hc.
    destruct Hc as (Hcur & _ & Hnr).
    assert (cur <> fl_index (flusher s)) as Hne by (destruct (g_index _ _ Hg); lia).
    split_all; auto. intros l s' Hs p. eapply step_bufs; eassumption.
Qed.

Lemma batch_buffers_safe_witness :
  exists s, reaches (take 10 sample_run) s /\ fl_pc (flusher s) = FCommitting 0 1 0 /\
    0 <= fl_pending (flusher s) /\
    Z.of_nat (length (in_flight s)) + fl_pending (flusher s) <= 2.
Proof.
  destruct (steps 0 16 (take 10 sample_run) (init 2 0)) as [s|] eqn:E;
    [|vm_compute in E; discriminate].
  exists s. split; [exact E|].
  destruct (batch_buffers_safe 0 16 2 0 s ltac:(lia) ltac:(split; vm_compute; congruence)
              (ex_intro _ (take 10 sample_run) E)) as (H1 & H2 & _).
  split; [|split; [exact H1|exact H2]]. clear H1 H2. vm_compute in E. injection E as <-. reflexivity.
Defined.

(** C12: no wake-up is lost: in every reachable state, a flusher that sleeps has
    nothing to commit and a worker left that will wake it; a worker that
    sleeps has no request and the queue is not stopped; the flag of a worker
    that resumes is set or the queue is stopped, so its assertion never fails;
    and the count of running workers is exact. *)
Theorem batch_no_lost_wakeup {F : Futex} {FL : FutexLaws F} flags element_size N lba0 s :
  0 < element_size -> is_u 16 (Z.of_nat N) ->
  reachable flags element_size N lba0 s ->
  (fl_pc (flusher s) = FWaiting -> fl_pending (flusher s) = 0 /\ running_workers s <> 0) /\
  (fl_pc (flusher s) = FReturned -> fl_pending (flusher s) = 0 /\ running_workers s = 0) /\
  running_workers s = live_count (workers s) /\
  forall t w, workers s !! t = Some w ->
    (w_pc w = WWaiting -> w_flag w = false /\ worker_stopped s = false) /\
    (w_pc w = WWoken -> w_flag w = true \/ worker_stopped s = true) /\
    w_pc w <> WAssertFailed.
Proof.
  intros He HN Hr. pose proof (reachable_inv _ _ _ He HN _ _ Hr) as Hinv.
  pose proof (inv_flusher _ _ Hinv) as Hf. unfold flusher_ok in Hf.
  split; [intros E; rewrite E in Hf; exact Hf|]. split; [intros E; rewrite E in Hf; exact Hf|].
  split; [apply (inv_running _ _ Hinv)|].
  intros t w Hw. destruct (inv_tags _ _ Hinv t w Hw). auto.
Qed.

Lemma batch_no_lost_wakeup_witness :
  exists s, reaches (take 3 sample_run) s /\ fl_pc (flusher s) = FWaiting /\
    fl_pending (flusher s) = 0 /\ running_workers s <> 0.
Proof.
  destruct (steps 0 16 (take 3 sample_run) (init 2 0)) as [s|] eqn:E;
    [|vm_compute in E; discriminate].
  exists s. split; [exact E|].
  destruct (batch_no_lost_wakeup 0 16 2 0 s ltac:(lia) ltac:(split; vm_compute; congruence)
              (ex_intro _ (take 3 sample_run) E)) as (H & _).
  assert (fl_pc (flusher s) = FWaiting) as Hpc
    by (clear H; vm_compute in E; injection E as <-; reflexivity).
  split; [exact Hpc|exact (H Hpc)].
Defined.

(** C2: the queue shuts down: once the fetch has ended, every step takes away
    from a measure of the work left, so that only finitely many steps remain,
    and a state that has none left - no worker having been cancelled - has
    every worker completed and the flusher completed; when the flusher
    returned, every result of every tag whose worker did not fail has been
    committed. *)
Theorem batch_shutdown {F : Futex} {FL : FutexLaws F} flags element_size N lba0 s :
  0 < element_size -> is_u 16 (Z.of_nat N) ->
  reachable flags element_size N lba0 s -> is_Some (fetch_res s) ->
  (forall l s', step flags element_size l s = Some s' -> 0 <= work s' < work s) /\
  ((forall l, step flags element_size l s = None) ->
   (forall t w, workers s !! t = Some w -> w_pc w <> WStopped) ->
   (forall t w, workers s !! t = Some w -> exited (w_pc w) = true) /\
   (fl_pc (flusher s) = FReturned \/ flusher_lost (fl_pc (flusher s)) = true) /\
   (fl_pc (flusher s) = FReturned -> forall t w, workers s !! t = Some w ->
      dead (w_pc w) = false -> res_of t (results s) = res_of t (d_committed (dev s)))).
Proof.
  intros He HN Hr Hend. pose proof (reachable_inv _ _ _ He HN _ _ Hr) as Hinv. split.
  - intros l s' Hs. split; [eapply (work_nonneg N), step_inv; eassumption|].
    eapply (step_work _ _ N); eassumption.
  - intros Hstuck Hns.
    destruct (stuck_finished flags element_size N s Hinv Hend Hns Hstuck) as [Hexit Hfl].
    split_all; auto. intros Hret t w Hw Hd.
    destruct (inv_tags _ _ Hinv t w Hw) as [_ (rest & Hrest & Hlog) _ _ _ _].
    rewrite Hret in Hlog. specialize (Hlog Hd eq_refl).
    pose proof (inv_flusher _ _ Hinv) as Hf. unfold flusher_ok in Hf. rewrite Hret in Hf.
    assert (rest = []) as ->; [|rewrite app_nil_r in Hrest; exact Hrest].
    rewrite Hlog. unfold queued, in_flight, current, held_result. rewrite Hret.
    destruct Hf as [-> _]. rewrite slots_of_empty. simpl. pose proof (Hexit t w Hw).
    destruct (w_pc w); reflexivity || discriminate.
Qed.

Lemma batch_shutdown_witness :
  exists s, reaches sample_run s /\ work s = 17 /\
    (forall l s', step 0 16 l s = Some s' -> 0 <= work s' < work s) /\
    exists s', reaches sample_shutdown s' /\ fl_pc (flusher s') = FReturned /\
      res_of 0 (results s') = res_of 0 (d_committed (dev s')) /\
      run_result s' = SetValue tt.
Proof.
  destruct (steps 0 16 sample_run (init 2 0)) as [s|] eqn:E; [|vm_compute in E; discriminate].
  exists s. split; [exact E|].
  assert (is_Some (fetch_res s)) as Hend
    by (clear - E; vm_compute in E; injection E as <-; eexists; reflexivity).
  destruct (batch_shutdown 0 16 2 0 s ltac:(lia) ltac:(split; vm_compute; congruence)
              (ex_intro _ sample_run E) Hend) as [H _].
  split; [clear H Hend; vm_compute in E; injection E as <-; reflexivity|].
  split; [exact H|]. clear H Hend E s.
  destruct (steps 0 16 sample_shutdown (init 2 0)) as [s|] eqn:E; [|vm_compute in E; discriminate].
  exists s. split; [exact E|]. vm_compute in E. injection E as <-. auto.
Defined.
