(* ===== verification/BatchLive.v ===== *)
(** * BatchLive: every request of the batch queue is answered

    Between two deliveries of the driver only finitely many steps are possible,
    and when none is left every result has been committed: under any scheduler
    that goes on running what can run, no request waits for ever. *)

From S2P Require Import Prelude Effects UblkCmd Sys IoResult Batch BatchInv BatchProof.

#[local] Open Scope Z_scope.

Section Live.
Context {F : Futex} {FL : FutexLaws F}.
Context (flags element_size : Z) (N : nat).
Hypothesis Helem : 0 < element_size.
Hypothesis HN : is_u 16 (Z.of_nat N).

Abbreviation inv := (inv N).

(** What is left to do for a worker, a flagged request included; for a request
    in transit; for the end of the fetch. *)
Definition worker_effort (w : WorkerState) : Z := pc_work (w_pc w) + (if w_flag w then 30 else 0).

Definition workers_effort (l : list WorkerState) : Z := foldr (fun w n => worker_effort w + n) 0 l.

Definition effort (s : state) : Z :=
  workers_effort (workers s) + 4 * fl_pending (flusher s) + flusher_work (fl_pc (flusher s)) +
  40 * Z.of_nat (length (d_transit (dev s))) +
  (match fetch_res s with None => 6 * Z.of_nat N + 1 | Some _ => 0 end).

Lemma workers_effort_nonneg l : 0 <= workers_effort l.
Proof using Type.
  induction l as [|w l IH]; simpl; [lia|]. pose proof (pc_work_nonneg (w_pc w)).
  unfold worker_effort. destruct (w_flag w); lia.
Qed.

Lemma effort_nonneg s : inv s -> 0 <= effort s.
Proof using Type.
  intros H. pose proof (inv_global _ _ H) as Hg. unfold effort.
  pose proof (workers_effort_nonneg (workers s)). pose proof (g_pending _ s Hg).
  pose proof (g_commit _ s Hg). destruct (fl_pc (flusher s)), (fetch_res s); simpl; lia.
Qed.

Lemma workers_effort_insert l t (w w' : WorkerState) :
  l !! t = Some w ->
  workers_effort (<[t := w']> l) = workers_effort l - worker_effort w + worker_effort w'.
Proof using Type.
  revert t; induction l as [|x l IH]; intros [|t] H; [discriminate..| |].
  - injection H as ->. simpl. lia.
  - specialize (IH _ H). simpl in *. lia.
Qed.

Lemma effort_set t w0 w s :
  workers s !! t = Some w0 ->
  effort (set_worker t w s) = effort s - worker_effort w0 + worker_effort w.
Proof using Type. intros H. unfold effort. simpl. rewrite (workers_effort_insert _ _ _ _ H). lia. Qed.

Lemma effort_notify s :
  0 <= flusher_work (fl_pc (flusher s)) -> effort (notify_flusher s) <= effort s + 1.
Proof using Type.
  intros H. unfold notify_flusher, effort. destruct (futex_notify _) as [x []]; simpl; lia.
Qed.

Lemma effort_exit t w0 w pc s :
  0 <= flusher_work (fl_pc (flusher s)) -> workers s !! t = Some w0 -> exited pc = true ->
  effort (worker_exit t w pc s) <= effort s - worker_effort w0 + (if w_flag w then 31 else 1).
Proof using Type.
  intros Hf Hw Hx. unfold worker_exit. set (s1 := with_running _ _).
  assert (effort s1 = effort s - worker_effort w0 + if w_flag w then 30 else 0) as E.
  { change (effort s1) with (effort (set_worker t (pc_worker pc w) s)).
    rewrite (effort_set _ _ _ _ Hw). unfold worker_effort at 2.
    destruct pc; try discriminate; simpl; destruct (w_flag w); lia. }
  pose proof (effort_notify s1 Hf).
  destruct (running_workers s1 =? 0), (w_flag w); lia.
Qed.

Lemma effort_resumed t w0 w iod s :
  0 <= flusher_work (fl_pc (flusher s)) -> workers s !! t = Some w0 ->
  effort (worker_resumed flags t w iod s) <= effort s - worker_effort w0 + (if w_flag w then 31 else 1).
Proof using Type.
  intros Hf Hw. unfold worker_resumed. destruct (worker_stopped s); [apply effort_exit; auto|].
  destruct (w_flag w) eqn:E; cbn [negb].
  - destruct (need_io_buf _ _); rewrite (effort_set _ _ _ _ Hw); unfold worker_effort; simpl; lia.
  - rewrite (effort_set _ _ _ _ Hw). unfold worker_effort at 2. simpl. rewrite E. lia.
Qed.

Lemma effort_top t w0 w iod s :
  0 <= flusher_work (fl_pc (flusher s)) -> workers s !! t = Some w0 ->
  effort (worker_top flags t w iod s) <= effort s - worker_effort w0 + (if w_flag w then 31 else 1).
Proof using Type.
  intros Hf Hw. unfold worker_top.
  destruct (negb (worker_stopped s) && negb (w_flag w)) eqn:E; [|apply effort_resumed; auto].
  apply andb_prop in E as [_ E]. destruct (w_flag w) eqn:Ef; [discriminate|].
  destruct (futex_wait _ _) as [x []].
  - rewrite (effort_set _ _ _ _ Hw). unfold worker_effort at 2. simpl. rewrite Ef. lia.
  - eapply Z.le_trans; [apply (effort_resumed t w0); auto|]. simpl. rewrite Ef. lia.
Qed.

Lemma effort_finish t w res lba iod s :
  0 <= fl_pending (flusher s) -> 0 <= flusher_work (fl_pc (flusher s)) ->
  workers s !! t = Some w -> 12 <= pc_work (w_pc w) ->
  effort (worker_finish flags t w res lba iod s) < effort s.
Proof using Type.
  intros Hp Hf Hw Hpc. unfold worker_finish.
  set (s1 := set_pending _ _).
  assert (effort s1 <= effort s + 4) as H1.
  { unfold effort. simpl. pose proof (Z.mod_le (fl_pending (flusher s) + 1) (2 ^ 16)).
    unfold uwrap. lia. }
  set (s2 := if fl_pending (flusher s) =? 0 then notify_flusher s1 else s1).
  assert (effort s2 <= effort s1 + 1 /\ 0 <= flusher_work (fl_pc (flusher s2)) /\
          workers s2 = workers s) as (H2 & H3 & H4).
  { unfold s2. destruct (_ =? 0).
    - rewrite notify_flusher_workers. pose proof (effort_notify s1 Hf).
      split_all; auto. apply notify_flusher_work, Hf.
    - split_all; auto. lia. }
  rewrite <- H4 in Hw. pose proof (effort_top t w w iod s2 H3 Hw) as H5.
  unfold worker_effort in H5. destruct (w_flag w); lia.
Qed.

(** Telling a worker costs it at most one more round. *)
Lemma effort_notify_worker t s : effort (notify_worker t s) <= effort s + 6.
Proof using Type.
  unfold notify_worker. destruct (workers s !! t) as [w|] eqn:Hw; [|lia].
  destruct (futex_notify _) as [x woken]. rewrite (effort_set _ _ _ _ Hw). unfold worker_effort. simpl.
  pose proof (pc_work_nonneg (w_pc w)). destruct woken; simpl; lia.
Qed.

Lemma effort_deliver t s : effort (deliver_tag t s) <= effort s + 36.
Proof using Type.
  unfold deliver_tag. destruct (workers s !! t) as [w|] eqn:Hw; [|lia].
  eapply Z.le_trans; [apply effort_notify_worker|]. rewrite (effort_set _ _ _ _ Hw).
  unfold worker_effort. simpl. destruct (w_flag w); lia.
Qed.

Lemma effort_fetch_cb tags : forall s, effort (fetch_cb tags s) <= effort s + 36 * Z.of_nat (length tags).
Proof using Type.
  unfold fetch_cb. induction tags as [|t tags IH]; intros s; cbn [fold_left length]; [lia|].
  eapply Z.le_trans; [apply IH|]. pose proof (effort_deliver t s). lia.
Qed.

Lemma effort_notify_all l : forall s,
  effort (fold_left (fun s t => notify_worker t s) l s) <= effort s + 6 * Z.of_nat (length l).
Proof using Type.
  induction l as [|t l IH]; intros s; cbn [fold_left length]; [lia|].
  eapply Z.le_trans; [apply IH|]. pose proof (effort_notify_worker t s). lia.
Qed.

(** Every step but a delivery takes effort away. *)
Lemma step_effort l s s' :
  inv s -> step flags element_size l s = Some s' ->
  match l with LDeliver _ => effort s' = effort s + 40 | _ => effort s' < effort s end.
Proof using Type.
  intros H Hs. pose proof (inv_global _ _ H) as Hg. pose proof (g_pending _ s Hg) as Hp.
  pose proof (g_commit _ s Hg) as Hc.
  assert (0 <= flusher_work (fl_pc (flusher s))) as Hf
    by (destruct (fl_pc (flusher s)); simpl; lia).
  assert (forall t w pc, workers s !! t = Some w -> pc_work pc < pc_work (w_pc w) ->
    effort (set_worker t (pc_worker pc w) s) < effort s) as Hset.
  { intros t w pc Hw Hpc. rewrite (effort_set _ _ _ _ Hw). unfold worker_effort. simpl.
    destruct (w_flag w); lia. }
  assert (forall t w pc, workers s !! t = Some w -> exited pc = true -> 6 <= pc_work (w_pc w) ->
    effort (worker_exit t w pc s) < effort s) as Hexit.
  { intros t w pc Hw Hx Hpc. pose proof (effort_exit t w w pc s Hf Hw Hx) as He.
    unfold worker_effort in He. destruct (w_flag w); lia. }
  destruct l as [| |r|t iod|t r|t c iod|t r iod|t|n|r]; cbn [step] in Hs.
  - destruct (fl_pc (flusher s)) eqn:E; try discriminate. injection Hs as <-. unfold flusher_top.
    destruct (Z.ltb_spec 0 (fl_pending (flusher s))); [unfold effort; simpl; rewrite E; simpl; lia|].
    destruct (_ =? 0); [unfold effort; simpl; rewrite E; simpl; lia|].
    destruct (futex_wait_blocks (fl_futex (flusher s)) (fl_pending (flusher s) =? 0)) as [Hb _];
      [rewrite (g_futex _ s Hg), E; reflexivity|].
    destruct (futex_wait _ _) as [x b]. simpl in Hb. subst b.
    assert (fl_pending (flusher s) = 0) as -> by lia. unfold effort; simpl; rewrite E; simpl; lia.
  - destruct (fl_pc (flusher s)) eqn:E; try discriminate. destruct (Z.ltb_spec taken nr); [|discriminate].
    injection Hs as <-. unfold effort, driver_take; simpl; rewrite E; simpl.
    destruct (d_owned (dev s) !! _) as [[]|]; simpl; lia.
  - destruct (fl_pc (flusher s)) eqn:E; try discriminate.
    destruct (match r with AsyncOk v => _ | _ => _ end); [|discriminate].
    injection Hs as <-. unfold flusher_committed.
    destruct r; [destruct (_ =? _)| |]; unfold effort; simpl; rewrite E; simpl; lia.
  - destruct (workers s !! t) as [w|] eqn:Hw; [|discriminate].
    destruct (w_pc w) eqn:E; try discriminate; injection Hs as <-;
      [pose proof (effort_top t w w iod s Hf Hw) as He|pose proof (effort_resumed t w w iod s Hf Hw) as He];
      unfold worker_effort in He; rewrite E in He; simpl in He; destruct (w_flag w); lia.
  - destruct (workers s !! t) as [w|] eqn:Hw; [|discriminate].
    destruct (w_pc w) eqn:E; try discriminate. injection Hs as <-.
    destruct r; [apply Hset|apply Hexit|apply Hset]; auto; rewrite E; simpl; lia.
  - destruct (workers s !! t) as [w|] eqn:Hw; [|discriminate].
    destruct c; try discriminate; destruct (w_pc w) as [| | | |io_buf| | | | |] eqn:E; try discriminate;
      destruct (io_outcome _) as [res' lba]; injection Hs as <-;
      change (effort s) with (effort (with_result t res' s));
      (destruct io_buf;
       [rewrite (effort_set t w) by exact Hw; unfold worker_effort; simpl; rewrite E; simpl;
          destruct (w_flag w); lia
       |apply effort_finish; auto; rewrite E; simpl; lia]).
  - destruct (workers s !! t) as [w|] eqn:Hw; [|discriminate].
    destruct (w_pc w) eqn:E; try discriminate. injection Hs as <-.
    destruct r; [apply effort_finish|apply Hexit|apply Hset]; auto; rewrite E; simpl; lia.
  - destruct (fetch_res s) eqn:Hr; [discriminate|]. destruct (d_owned (dev s) !! t) as [[]|]; try discriminate.
    injection Hs as <-. unfold effort. simpl. rewrite Hr, length_app. simpl. lia.
  - destruct (fetch_res s) eqn:Hr; [discriminate|].
    destruct (Nat.ltb_spec 0 n); [|discriminate].
    destruct (Nat.leb_spec n (length (d_transit (dev s)))); [|discriminate]. injection Hs as <-.
    eapply Z.le_lt_trans; [apply effort_fetch_cb|]. rewrite length_take. unfold effort. simpl.
    rewrite Hr, length_drop. lia.
  - destruct (fetch_res s) eqn:Hr; [discriminate|]. destruct (r <? 0); [|discriminate]. injection Hs as <-.
    unfold fetch_end. eapply Z.le_lt_trans; [apply effort_notify_all|]. rewrite length_seq, (g_workers _ s Hg).
    unfold effort. simpl. rewrite Hr. lia.
Qed.

Fixpoint deliveries (ls : list label) : Z :=
  match ls with
  | [] => 0
  | LDeliver _ :: ls => 1 + deliveries ls
  | _ :: ls => deliveries ls
  end.

Lemma steps_effort ls : forall s s',
  inv s -> steps flags element_size ls s = Some s' ->
  Z.of_nat (length ls) + effort s' <= effort s + 41 * deliveries ls.
Proof using Helem HN.
  induction ls as [|l ls IH]; intros s s' H; cbn [steps length deliveries]; [intros [= <-]; lia|].
  destruct (step flags element_size l s) as [s1|] eqn:E; [|discriminate]. intros Hs.
  pose proof (step_effort l s s1 H E) as Hl.
  assert (inv s1) as H1 by (eapply step_inv; eassumption).
  specialize (IH s1 s' H1 Hs). destruct l; lia.
Qed.

(** A system that can only receive requests has answered those it has had. *)
Lemma quiet_answered s :
  inv s -> flusher_lost (fl_pc (flusher s)) = false ->
  (forall l, match l with LDeliver _ | LFetchEnd _ => True | _ => step flags element_size l s = None end) ->
  queued s = [] /\
  (forall t w, workers s !! t = Some w -> busy (w_pc w) = false) /\
  (fetch_res s = None -> d_transit (dev s) = []).
Proof using Type.
  intros H Hl Hq. pose proof (inv_global _ _ H) as Hg. split_all.
  - pose proof (inv_flusher _ _ H) as Hf. unfold flusher_ok in Hf. unfold queued, in_flight, current.
    destruct (fl_pc (flusher s)) eqn:E; try discriminate.
    + specialize (Hq LFlusher). cbn in Hq. rewrite E in Hq. discriminate.
    + specialize (Hq (LCommitDone (AsyncErr 5))). cbn in Hq. rewrite E in Hq. discriminate.
    + destruct Hf as [-> _]. apply slots_of_empty.
    + destruct Hf as [-> _]. apply slots_of_empty.
  - intros t w Hw. pose (iod := Build_ublksrv_io_desc 0 0 0 0).
    destruct (w_pc w) eqn:E; try reflexivity.
    + specialize (Hq (LRegistered t (AsyncErr 5))). cbn in Hq. rewrite Hw, E in Hq. discriminate.
    + specialize (Hq (LHandled t SetStopped iod)). cbn in Hq. rewrite Hw, E in Hq. discriminate.
    + specialize (Hq (LUnregistered t (AsyncErr 5) iod)). cbn in Hq. rewrite Hw, E in Hq. discriminate.
  - intros Hr. specialize (Hq (LFetched 1)). cbn in Hq. rewrite Hr in Hq.
    destruct (d_transit (dev s)); [reflexivity|discriminate].
Qed.
End Live.

(** C7: every request is answered: in any run of the batch queue, from any
    reachable state, all steps but the driver's deliveries consume an effort
    that each delivery raises by a fixed amount, so between deliveries only
    finitely many steps are possible; and in a state where nothing but a
    delivery or the end of the fetch can happen - the flusher not lost - every
    result the handler has completed with has been committed for each tag whose
    worker has not failed, and a worker that waits has given its tag back to
    the driver, which has nothing in transit. *)
Theorem batch_progress {F : Futex} {FL : FutexLaws F} flags element_size N lba0 s :
  0 < element_size -> is_u 16 (Z.of_nat N) -> reachable flags element_size N lba0 s ->
  (forall ls s', steps flags element_size ls s = Some s' ->
     Z.of_nat (length ls) <= effort N s + 41 * deliveries ls) /\
  (flusher_lost (fl_pc (flusher s)) = false ->
   (forall l, match l with LDeliver _ | LFetchEnd _ => True | _ => step flags element_size l s = None end) ->
   forall t w, workers s !! t = Some w -> dead (w_pc w) = false ->
     res_of t (results s) = res_of t (d_committed (dev s)) /\
     (w_pc w = WWaiting -> d_owned (dev s) !! t = Some true /\ d_transit (dev s) = [])).
Proof.
  intros He HN Hr. pose proof (reachable_inv _ _ _ He HN _ _ Hr) as H. split.
  - intros ls s' Hs. pose proof (steps_effort flags element_size N He HN ls s s' H Hs).
    assert (0 <= effort N s'); [|lia]. apply effort_nonneg. clear - H Hs He HN.
    revert s H Hs. induction ls as [|l ls IH]; intros s H; cbn [steps]; [intros [= <-]; exact H|].
    destruct (step flags element_size l s) as [s1|] eqn:E; [|discriminate]. apply IH.
    eapply step_inv; eassumption.
  - intros Hl Hq t w Hw Hd.
    destruct (quiet_answered flags element_size N s H Hl Hq) as (Hnone & Hbusy & Htransit).
    destruct (inv_tags _ _ H t w Hw) as [(o & Ho & _ & _ & Hplace) (rest & Hrest & Hlog) _ Hwait _ _].
    specialize (Hplace Hd Hl). specialize (Hlog Hd Hl). rewrite Hnone in Hlog.
    pose proof (Hbusy t w Hw) as Hb. split.
    + rewrite Hrest, Hlog. cbn [slot_res flat_map app]. unfold held_result.
      destruct (w_pc w); try discriminate; apply app_nil_r.
    + intros E. destruct (Hwait E) as [Hflag Hstop].
      assert (d_transit (dev s) = []) as Ht.
      { apply Htransit. destruct (fetch_res s) eqn:Er; [|reflexivity].
        rewrite (proj2 (g_stopped _ s (inv_global _ _ H)) (mk_is_Some _ _ Er)) in Hstop. discriminate. }
      split; [|exact Ht]. unfold places in Hplace. rewrite Ht, Hflag, Hb, Hnone in Hplace.
      destruct o; [exact Ho|discriminate].
Qed.

(** One request of two tags, answered. *)
Definition sample_service_run : list label :=
  [LFlusher; LWorker 0 iod0; LWorker 1 iod0; LDeliver 1; LFetched 1; LWorker 1 iod0;
   LHandled 1 (SetValue (IoInt 512)) iod0; LFlusher; LCommitTake; LCommitDone (AsyncOk 16); LFlusher].

Lemma batch_progress_witness :
  exists s, steps (F := bool_futex) 0 16 sample_service_run (init 2 0) = Some s /\
    res_of 1 (results s) = [512] /\ res_of 1 (results s) = res_of 1 (d_committed (dev s)).
Proof.
  destruct (steps (F := bool_futex) 0 16 sample_service_run (init 2 0)) as [s|] eqn:E;
    [|vm_compute in E; discriminate].
  exists s. split; [reflexivity|].
  destruct (workers s !! 1%nat) as [w|] eqn:Hw;
    [|exfalso; vm_compute in E; injection E as <-; discriminate Hw].
  destruct (batch_progress (F := bool_futex) (FL := bool_futex_laws) 0 16 2 0 s ltac:(lia)
    ltac:(split; vm_compute; congruence) (ex_intro _ sample_service_run E)) as [_ H].
  assert (flusher_lost (fl_pc (flusher s)) = false) as Hl
    by (clear H Hw; vm_compute in E; injection E as <-; reflexivity).
  assert (forall l, match l with LDeliver _ | LFetchEnd _ => True | _ => step 0 16 l s = None end) as Hq.
  { clear H Hw Hl. vm_compute in E. injection E as <-.
    intros [| |r|[|[|t]] iod|[|[|t]] r|[|[|t]] [] iod|[|[|t]] r iod|t|[|n]|r]; exact I || reflexivity. }
  assert (dead (w_pc w) = false) as Hd
    by (clear H Hl Hq; vm_compute in E; injection E as <-; injection Hw as <-; reflexivity).
  destruct (H Hl Hq 1%nat w Hw Hd) as [Hres _]. split; [|exact Hres].
  clear - E. vm_compute in E. injection E as <-. reflexivity.
Defined.
