(* ===== verification/Fetch.v ===== *)
(** * Fetch: the buffers of the multishot fetch

    [fetch_io_cmds] of [src/include/ublk/raw.hpp] and the fetch callback of
    [BatchIoQueue::run] ([detail/queue.hpp]).  The driver writes the tags of
    the requests it delivers into two buffers the server provides, filling each
    from its start to its end before it goes on to the other; the callback
    follows with an offset of its own, and provides a buffer again once its
    last tag has been read.  [Batch] has what the callback does with a tag. *)

From S2P Require Import Prelude UblkCmd Utils Sys Raw BatchObject.

#[local] Open Scope Z_scope.

(** ** fetch_io_cmds *)

Definition IOSQE_BUFFER_SELECT : Z := 1 .<< 5.
Definition IORING_URING_CMD_MULTISHOT : Z := 1 .<< 1.

(** [sqe]: the entry as condy has prepared it. *)
Definition fetch_io_cmds (bgid q_id : Z) (sqe : fetch_sqe) : fetch_sqe :=
  {| sqe_cmd_op := UBLK_U_IO_FETCH_IO_CMDS;
     sqe_cmd := {| batch_q_id := uwrap 16 q_id; batch_flags := 0; batch_nr_elem := 0;
                   batch_elem_bytes := sizeof_u16 |};
     sqe_flags := sqe_flags sqe .| IOSQE_BUFFER_SELECT;
     sqe_rw_flags := sqe_rw_flags sqe .| IORING_URING_CMD_MULTISHOT;
     sqe_buf_group := bgid |}.

(** ** The callback *)

(** One call of [fetch_cb]: the entries of the completion's buffer it reads,
    the offset it leaves and the buffer it provides again, if any.  [off] and
    the sizes are [size_t]s. *)
Definition fetch_range (off : Z) (r : cqe) : list Z * Z * option Z :=
  let nr_tags := uwrap 64 (cqe_res r) / sizeof_u16 in
  let end_ := uwrap 64 (off + nr_tags) in
  let tags := seqZ off (end_ - off) in
  let consumed := negb (cqe_num_buffers r =? 0) in
  if consumed then (tags, 0, Some (cqe_bid r)) else (tags, end_, None).

(** With what the buffers hold: the tags it delivers. *)
Definition fetch_cb_step (fetch_buf : Z -> Z -> Z) (off : Z) (r : cqe) : list Z * Z * option Z :=
  let '(js, off, push) := fetch_range off r in (map (fetch_buf (cqe_bid r)) js, off, push).

(** ** The buffers, shared by the driver and the server

    The driver's side is that of a ring of provided buffers in incremental
    mode: it writes at the head buffer, from where it left off, posts a
    completion per delivery, and leaves the buffer when it is full.  The
    requests it may deliver are those it owns: a queue has [depth] of them, and
    the server owns those that have been delivered to it until it commits
    them. *)

Section Ring.
(** Tags a buffer holds; requests of the queue; bytes of a tag. *)
Context (cap depth elem_bytes : Z).

Record ring := {
  fetch_bufs : Z -> Z -> Z;
  avail : list Z;          (** the buffers provided, the head first *)
  pos : Z;                 (** tags written to the head *)
  cq : list (cqe * list Z);  (** completions posted, with the tags of each *)
  off : Z;                 (** the callback's offset *)
  pushes : Z;              (** buffers the server has provided so far *)
  sent : list Z;           (** every tag delivered *)
  seen : list Z;           (** every tag the callback has handed on *)
  committed : Z;           (** how many of those have been committed *)
}.

Definition outstanding (s : ring) : Z := Z.of_nat (length (sent s)) - committed s.

Definition write_tags (mem : Z -> Z -> Z) (b at_ : Z) (tags : list Z) : Z -> Z -> Z := fun b' i =>
  if bool_decide (b' = b /\ at_ <= i < at_ + Z.of_nat (length tags))
  then default 0 (tags !! Z.to_nat (i - at_)) else mem b' i.

Inductive event :=
  | Deliver (tags : list Z)   (** the driver posts a completion *)
  | Callback                  (** the oldest completion is handled *)
  | Commit.                   (** a request is given back to the driver *)

Definition deliver (tags : list Z) (s : ring) : option ring :=
  let n := Z.of_nat (length tags) in
  match avail s with
  | [] => None
  | b :: rest =>
      if bool_decide (0 < n /\ outstanding s + n <= depth /\ pos s + n <= cap) then
        let full := pos s + n =? cap in
        Some {| fetch_bufs := write_tags (fetch_bufs s) b (pos s) tags;
                avail := if full then rest else avail s;
                pos := if full then 0 else pos s + n;
                cq := cq s ++ [({| cqe_res := n * elem_bytes; cqe_bid := b;
                                   cqe_num_buffers := if full then 1 else 0 |}, tags)];
                off := off s; pushes := pushes s; sent := sent s ++ tags; seen := seen s;
                committed := committed s |}
      else None
  end.

Definition callback (s : ring) : option ring :=
  match cq s with
  | [] => None
  | (r, _) :: cq =>
      let '(tags, off, push) := fetch_cb_step (fetch_bufs s) (off s) r in
      Some {| fetch_bufs := fetch_bufs s;
              avail := avail s ++ match push with Some b => [b] | None => [] end;
              pos := pos s; cq := cq; off := off;
              pushes := pushes s + match push with Some _ => 1 | None => 0 end;
              sent := sent s; seen := seen s ++ tags; committed := committed s |}
  end.

Definition commit (s : ring) : option ring :=
  if committed s <? Z.of_nat (length (seen s)) then
    Some {| fetch_bufs := fetch_bufs s; avail := avail s; pos := pos s; cq := cq s; off := off s;
            pushes := pushes s; sent := sent s; seen := seen s; committed := committed s + 1 |}
  else None.

Definition ring_step (e : event) (s : ring) : option ring :=
  match e with
  | Deliver tags => deliver tags s
  | Callback => callback s
  | Commit => commit s
  end.

Fixpoint ring_steps (es : list event) (s : ring) : option ring :=
  match es with
  | [] => Some s
  | e :: es => match ring_step e s with Some s' => ring_steps es s' | None => None end
  end.

(** After the two [push]es of [run]. *)
Definition ring_init (mem : Z -> Z -> Z) : ring :=
  {| fetch_bufs := mem; avail := [0; 1]; pos := 0; cq := []; off := 0; pushes := 2; sent := [];
     seen := []; committed := 0 |}.

(** *** The invariant *)

Hypothesis Helem : elem_bytes = sizeof_u16.
Hypothesis Hdepth : 1 <= depth <= cap.
Hypothesis Hcap : cap < 2 ^ 32.

Abbreviation size := (fun tags : list Z => Z.of_nat (length tags)).

(** The completions posted, read from buffer [cur] at [off] on: each lies where
    the one before it ended, with its tags still in place, and they end at
    [pos] of the driver's buffer [kcur]. *)
Fixpoint pending (mem : Z -> Z -> Z) (cur off : Z) (cq : list (cqe * list Z)) (kcur pos : Z) : Prop :=
  match cq with
  | [] => cur = kcur /\ off = pos
  | (r, tags) :: cq =>
      cqe_bid r = cur /\ 0 < size tags /\ cqe_res r = size tags * elem_bytes /\ off + size tags <= cap /\
      map (mem cur) (seqZ off (size tags)) = tags /\
      if cqe_num_buffers r =? 0 then off + size tags < cap /\ pending mem cur (off + size tags) cq kcur pos
      else off + size tags = cap /\ pending mem (1 - cur) 0 cq kcur pos
  end.

(** The buffers used up by the completions posted. *)
Fixpoint used_up (cq : list (cqe * list Z)) : nat :=
  match cq with
  | [] => O
  | (r, _) :: cq => (if cqe_num_buffers r =? 0 then O else 1%nat) + used_up cq
  end.

Definition unread (cq : list (cqe * list Z)) : list Z := concat (map snd cq).

Record ring_inv (s : ring) : Prop := {
  inv_order : seen s ++ unread (cq s) = sent s;
  inv_owned : outstanding s <= depth;
  inv_committed : 0 <= committed s <= size (seen s);
  inv_room : 0 <= pos s < cap;
  inv_off : 0 <= off s < cap;
  inv_cur : pushes s mod 2 = 0 \/ pushes s mod 2 = 1;
  inv_pending : pending (fetch_bufs s) (pushes s mod 2) (off s) (cq s)
    (if Nat.even (used_up (cq s)) then pushes s mod 2 else 1 - pushes s mod 2) (pos s);
  inv_avail : match used_up (cq s) with
              | O => avail s = [pushes s mod 2; 1 - pushes s mod 2]
              | S O => avail s = [1 - pushes s mod 2]
              | _ => False
              end;
}.

(** What is pending covers the buffers it uses up. *)
Lemma pending_size mem cq : forall cur off kcur pos,
  off < cap -> pending mem cur off cq kcur pos ->
  size (unread cq) = Z.of_nat (used_up cq) * cap + pos - off.
Proof using Hdepth.
  induction cq as [|[r tags] cq IH]; intros cur off kcur pos Ho; cbn [pending used_up].
  - intros [-> ->]. cbn. lia.
  - intros (_ & Hn & _ & _ & _ & H). unfold unread in *. cbn [map concat snd].
    rewrite length_app, Nat2Z.inj_add.
    destruct (cqe_num_buffers r =? 0); destruct H as [Hoff H]; (apply IH in H; [rewrite H|]; nia).
Qed.

(** The driver's writes leave what is pending in place: what is pending in the
    driver's buffer lies below them. *)
Lemma write_tags_below mem b p tags cur o n :
  cur <> b \/ o + n <= p -> map (write_tags mem b p tags cur) (seqZ o n) = map (mem cur) (seqZ o n).
Proof using Type.
  intros H. apply map_ext_in. intros i Hi. apply list_elem_of_In, elem_of_seqZ in Hi.
  unfold write_tags. rewrite bool_decide_eq_false_2; [reflexivity|]. intros [-> Hb].
  destruct H; [congruence|lia].
Qed.

Lemma write_tags_there mem b p tags :
  map (write_tags mem b p tags b) (seqZ p (size tags)) = tags.
Proof using Type.
  apply list_eq. intros i. rewrite list_lookup_fmap. destruct (decide (i < length tags)%nat) as [Hi|Hi].
  - rewrite lookup_seqZ_lt by lia. cbn. unfold write_tags. rewrite bool_decide_eq_true_2 by lia.
    destruct (lookup_lt_is_Some_2 tags i Hi) as [x Hx]. rewrite Hx. f_equal.
    replace (Z.to_nat (p + Z.of_nat i - p)) with i by lia. rewrite Hx. reflexivity.
  - rewrite lookup_seqZ_ge, lookup_ge_None_2 by lia. reflexivity.
Qed.

Lemma pending_frame mem cq tags : forall cur off kcur pos,
  off < cap -> (used_up cq <= 1)%nat -> kcur = (if Nat.even (used_up cq) then cur else 1 - cur) ->
  pending mem cur off cq kcur pos -> pending (write_tags mem kcur pos tags) cur off cq kcur pos.
Proof using Hdepth.
  induction cq as [|[r l] cq IH]; intros cur off kcur pos Ho Hu Hk; cbn [pending used_up] in *; [auto|].
  intros (Hb & Hn & Hr & Hc & Hm & H).
  assert (cur <> kcur \/ off + size l <= pos) as Hbelow.
  { destruct (cqe_num_buffers r =? 0); destruct H as [Hoff H].
    - pose proof (pending_size _ _ _ _ _ _ Hoff H) as Hs.
      destruct (used_up cq) as [|[|]]; cbn in *; [right; lia|left; lia|lia].
    - left. destruct (used_up cq); cbn in *; lia. }
  split_all; try assumption; [rewrite write_tags_below; assumption|].
  destruct (cqe_num_buffers r =? 0); destruct H as [Hoff H]; (split; [exact Hoff|]); apply IH; try assumption; try lia.
  destruct (used_up cq) as [|]; cbn in *; [|lia]. rewrite Hk. cbn. lia.
Qed.

(** A delivery continues what is pending. *)
Lemma pending_snoc mem cq r tags : forall cur off kcur pos,
  0 < size tags -> cqe_res r = size tags * elem_bytes -> cqe_bid r = kcur ->
  cqe_num_buffers r = (if pos + size tags =? cap then 1 else 0) -> pos + size tags <= cap ->
  map (mem kcur) (seqZ pos (size tags)) = tags ->
  pending mem cur off cq kcur pos ->
  pending mem cur off (cq ++ [(r, tags)]) (if pos + size tags =? cap then 1 - kcur else kcur)
    (if pos + size tags =? cap then 0 else pos + size tags).
Proof using Type.
  induction cq as [|[r' l] cq IH]; intros cur off kcur pos Hn Hr Hb Hf Hc Hm; cbn [pending app].
  - intros [-> ->]. split_all; try assumption. rewrite Hf.
    destruct (Z.eqb_spec (pos + size tags) cap); cbn; lia.
  - intros (Hb' & Hn' & Hr' & Hc' & Hm' & H). split_all; try assumption.
    destruct (cqe_num_buffers r' =? 0); destruct H as [Hoff H]; (split; [exact Hoff|]); apply IH; assumption.
Qed.

Lemma used_up_snoc cq r tags :
  used_up (cq ++ [(r, tags)]) = (used_up cq + if (cqe_num_buffers r =? 0)%Z then 0 else 1)%nat.
Proof using Type. induction cq as [|[r' l] cq IH]; cbn; [lia|]. rewrite IH. lia. Qed.

Lemma unread_snoc cq r tags : unread (cq ++ [(r, tags)]) = unread cq ++ tags.
Proof using Type. unfold unread. rewrite map_app, concat_app. cbn. rewrite app_nil_r. reflexivity. Qed.

Lemma ring_init_inv mem : ring_inv (ring_init mem).
Proof using Hdepth. split; unfold outstanding; cbn; auto; lia. Qed.

Lemma used_up_bound s : ring_inv s -> (used_up (cq s) <= 1)%nat.
Proof using Type. intros H. pose proof (inv_avail s H). destruct (used_up (cq s)) as [|[|]]; try lia; contradiction. Qed.

Lemma deliver_inv tags s s' : ring_inv s -> deliver tags s = Some s' -> ring_inv s'.
Proof using Hdepth.
  intros H Hd. pose proof (used_up_bound s H) as Hu. destruct H as [Ho Hown Hcom Hroom Hoff Hcur Hp Ha].
  set (cur := pushes s mod 2) in *. set (kcur := if Nat.even (used_up (cq s)) then cur else 1 - cur) in *.
  assert (exists rest, avail s = kcur :: rest /\
    rest = match used_up (cq s) with O => [1 - cur] | _ => [] end) as (rest & Hav & Hrest).
  { destruct (used_up (cq s)) as [|[|]]; rewrite ?Ha; [eauto|eauto|contradiction]. }
  unfold deliver in Hd. rewrite Hav in Hd. case_bool_decide as Hg; [|discriminate]. injection Hd as <-.
  destruct Hg as (Hn & Hout & Hfit).
  assert (size (sent s) = size (seen s) + size (unread (cq s))) as Hlen
    by (rewrite <- Ho, length_app; lia).
  pose proof (pending_size _ _ _ _ _ _ (proj2 Hoff) Hp) as Hsize.
  unfold outstanding in *.
  split; cbn [seen cq sent committed pos off pushes avail fetch_bufs].
  - rewrite unread_snoc, app_assoc, Ho. reflexivity.
  - unfold outstanding. cbn [sent committed]. rewrite length_app. lia.
  - exact Hcom.
  - destruct (Z.eqb_spec (pos s + size tags) cap); lia.
  - exact Hoff.
  - exact Hcur.
  - replace (if Nat.even (used_up (cq s ++ _)) then _ else _)
      with (if pos s + size tags =? cap then 1 - kcur else kcur).
    + apply pending_snoc; cbn [cqe_res cqe_bid cqe_num_buffers]; try assumption; try reflexivity.
      * apply write_tags_there.
      * apply pending_frame; try assumption; try lia. reflexivity.
    + rewrite used_up_snoc. cbn [cqe_num_buffers]. unfold kcur, cur.
      destruct (used_up (cq s)) as [|[|]], (pos s + size tags =? cap); cbn; lia.
  - rewrite used_up_snoc. cbn [cqe_num_buffers]. destruct (Z.eqb_spec (pos s + size tags) cap) as [Hfull|Hfull]; cbn.
    + destruct (used_up (cq s)) as [|[|]]; [subst rest; reflexivity| |lia].
      (* a second full buffer would hold more requests than the queue has *)
      exfalso. cbn in Hsize. lia.
    + rewrite Nat.add_0_r. destruct (used_up (cq s)) as [|[|]]; try (subst rest; reflexivity); lia.
Qed.
(** The callback reads the tags of the completion it handles, where the driver
    has put them. *)
Lemma callback_reads s r tags cq' :
  ring_inv s -> cq s = (r, tags) :: cq' ->
  fetch_cb_step (fetch_bufs s) (off s) r =
    (tags, if cqe_num_buffers r =? 0 then off s + size tags else 0,
     if cqe_num_buffers r =? 0 then None else Some (pushes s mod 2)) /\
  cqe_bid r = pushes s mod 2 /\ off s + size tags <= cap.
Proof using Helem Hcap.
  intros [_ _ _ _ Hoff _ Hp _] E. rewrite E in Hp. cbn [pending] in Hp.
  destruct Hp as (Hb & Hn & Hr & Hc & Hm & _). split; [|auto].
  unfold fetch_cb_step, fetch_range. rewrite Hr, Helem. unfold sizeof_u16.
  rewrite (uwrap_id 64 (size tags * 2)) by range. rewrite Z.div_mul by lia.
  rewrite (uwrap_id 64 (off s + size tags)) by range.
  replace (off s + size tags - off s) with (size tags) by lia.
  rewrite Hb. destruct (cqe_num_buffers r =? 0); cbn [negb]; rewrite Hm; reflexivity.
Qed.

Lemma mod2_next n : n mod 2 = 0 \/ n mod 2 = 1 -> (n + 1) mod 2 = 1 - n mod 2.
Proof using Type. intros H. rewrite <- Z.add_mod_idemp_l by lia. destruct H as [-> | ->]; reflexivity. Qed.

Lemma callback_inv s s' : ring_inv s -> callback s = Some s' -> ring_inv s'.
Proof using Helem Hdepth Hcap.
  intros H Hd. pose proof (used_up_bound s H) as Hu. unfold callback in Hd.
  destruct (cq s) as [|[r tags] cq'] eqn:E; [discriminate|].
  destruct (callback_reads s r tags cq' H E) as (Hread & Hb & Hc). rewrite Hread in Hd. injection Hd as <-.
  destruct H as [Ho Hown Hcom Hroom Hoff Hcur Hp Ha]. rewrite E in Ho, Hp, Ha.
  unfold outstanding in *. cbn [pending used_up unread map concat snd] in *.
  destruct Hp as (_ & Hn & _ & _ & _ & Hp).
  assert (seen s ++ tags ++ unread cq' = sent s) as Ho' by exact Ho.
  split; cbn [seen cq sent committed pos off pushes avail fetch_bufs]; unfold outstanding;
    cbn [sent committed]; rewrite <- ?app_assoc, ?length_app; try lia; try assumption.
  - destruct (cqe_num_buffers r =? 0); lia.
  - destruct (cqe_num_buffers r =? 0); [rewrite Z.add_0_r; exact Hcur|rewrite mod2_next by exact Hcur; lia].
  - destruct (cqe_num_buffers r =? 0); destruct Hp as [Hc' Hp].
    + rewrite Z.add_0_r. exact Hp.
    + rewrite mod2_next by exact Hcur. destruct (used_up cq') as [|]; cbn in *; [|lia].
      exact Hp.
  - destruct (cqe_num_buffers r =? 0); cbn in *.
    + rewrite Z.add_0_r, app_nil_r. exact Ha.
    + rewrite mod2_next by exact Hcur. destruct (used_up cq') as [|]; cbn in *; [|lia].
      rewrite Ha. cbn. f_equal. f_equal. lia.
Qed.

Lemma commit_inv s s' : ring_inv s -> commit s = Some s' -> ring_inv s'.
Proof using Type.
  intros [Ho Hown Hcom Hroom Hoff Hcur Hp Ha]. unfold commit.
  destruct (Z.ltb_spec (committed s) (size (seen s))); [|discriminate]. intros [= <-].
  unfold outstanding in *. split; unfold outstanding; cbn; assumption || lia.
Qed.

Lemma ring_steps_inv es : forall s s', ring_inv s -> ring_steps es s = Some s' -> ring_inv s'.
Proof using Helem Hdepth Hcap.
  induction es as [|e es IH]; intros s s' H; cbn [ring_steps]; [intros [= <-]; exact H|].
  destruct (ring_step e s) as [s1|] eqn:E; [|discriminate]. intros Hs. eapply IH; [|exact Hs].
  destruct e; cbn [ring_step] in E; [eapply deliver_inv|eapply callback_inv|eapply commit_inv]; eassumption.
Qed.
End Ring.

(** C17: the tags of the requests reach the workers as the driver delivered
    them: for a queue of any depth, with the buffers the constructor allocates,
    however deliveries, callbacks and commits follow each other, the tags handed
    on and those still to be read are, in order, exactly the tags delivered;
    the callback always reads the completion it handles, at the place and in
    the buffer the driver wrote it, within the buffer; a buffer it provides
    again takes the slot its [assert] expects, the number of buffers provided
    before modulo two; and the driver never finds the ring empty or its buffer
    full, so the fetch does not end for want of a buffer. *)
Theorem fetch_ring_delivers (k depth bgid q_id : Z) sqe mem es s :
  1 <= k < 31 -> 1 <= depth < 2 ^ 16 ->
  let cap := align_up (depth * sizeof_u16) (2 ^ k) / sizeof_u16 in
  let elem_bytes := batch_elem_bytes (sqe_cmd (fetch_io_cmds bgid q_id sqe)) in
  ring_steps cap depth elem_bytes es (ring_init mem) = Some s ->
  seen s ++ unread (cq s) = sent s /\
  avail s <> [] /\ 0 <= pos s < cap /\
  forall r tags cq', cq s = (r, tags) :: cq' ->
    let '(out, off', push) := fetch_cb_step (fetch_bufs s) (off s) r in
    out = tags /\ 0 <= cqe_bid r < 2 /\ 0 <= off s /\ off s + Z.of_nat (length tags) <= cap /\
    forall b, push = Some b -> b = pushes s mod 2.
Proof.
  intros Hk Hd cap elem_bytes Hs. unfold sizeof_u16 in *.
  assert (0 < 2 ^ k <= 2 ^ 30) as Hpow.
  { split; [apply Z.pow_pos_nonneg; lia|apply Z.pow_le_mono_r; lia]. }
  pose proof (align_up_bounds (depth * 2) k ltac:(lia) ltac:(lia) ltac:(lia)) as Ha.
  assert (1 <= depth <= cap /\ cap < 2 ^ 32) as [H1 H2].
  { pose proof (Z.div_mod (align_up (depth * 2) (2 ^ k)) 2 ltac:(lia)).
    pose proof (Z.mod_pos_bound (align_up (depth * 2) (2 ^ k)) 2 ltac:(lia)). unfold cap. lia. }
  assert (ring_inv cap depth elem_bytes s) as Hinv.
  { eapply (ring_steps_inv cap depth elem_bytes eq_refl H1 H2); [|exact Hs]. apply ring_init_inv, H1. }
  pose proof (used_up_bound _ _ _ s Hinv) as Hu.
  split_all; try apply Hinv.
  - pose proof (inv_avail _ _ _ _ Hinv) as Hv.
    destruct (used_up (cq s)) as [|[|]]; [rewrite Hv; discriminate|rewrite Hv; discriminate|contradiction].
  - intros r tags cq' E. destruct (callback_reads cap depth elem_bytes eq_refl H2 s r tags cq' Hinv E)
      as (-> & Hb & Hc). rewrite Hb. pose proof (Z.mod_pos_bound (pushes s) 2 eq_refl).
    split_all; try lia; try apply Hinv; [reflexivity|]. intros b Hpush.
    destruct (cqe_num_buffers r =? 0); congruence.
Qed.

(** A queue of two requests with buffers of two tags: a delivery that fills a
    buffer, one that goes to the other, the first buffer provided again. *)
Definition sample_events : list event :=
  [Deliver [0; 1]; Callback; Commit; Deliver [0]; Commit; Deliver [1]; Callback; Callback].

Lemma fetch_ring_delivers_witness :
  let sqe := {| sqe_cmd_op := UBLK_U_IO_FETCH_IO_CMDS; sqe_cmd := Build_ublk_batch_io 0 0 0 0;
                sqe_flags := 0; sqe_rw_flags := 0; sqe_buf_group := 0 |} in
  match ring_steps 2 2 2 sample_events (ring_init (fun _ _ => 0)) with
  | Some s => seen s = [0; 1; 0; 1] /\ avail s = [0; 1] /\ seen s ++ unread (cq s) = sent s
  | None => False
  end.
Proof.
  intros sqe. destruct (ring_steps 2 2 2 sample_events (ring_init (fun _ _ => 0))) as [s|] eqn:E.
  - assert (Some s = ring_steps 2 2 2 sample_events (ring_init (fun _ _ => 0))) as Es by (symmetry; exact E).
    split; [|split].
    + revert Es. vm_compute. intros [= ->]. reflexivity.
    + revert Es. vm_compute. intros [= ->]. reflexivity.
    + exact (proj1 (fetch_ring_delivers 2 2 0 0 sqe (fun _ _ => 0) sample_events s
        ltac:(lia) ltac:(lia) E)).
  - vm_compute in E. discriminate.
Defined.
