(* ===== verification/BatchRun.v ===== *)
(** * BatchRun: running the batch queue

    [BatchIoQueue::run] of [src/include/ublk/detail/queue.hpp] from the
    preparation on, as an operation: the flusher, the workers and the fetch
    of [Batch] make their calls, in the order a schedule gives, until all have
    completed.  A run is related to the machine: [Batch.step] with the moves of
    the driver left out is what the operation does between its calls, so what
    holds of every state the machine reaches holds of every run whose replies
    the driver can account for. *)

From S2P Require Import Prelude Effects Protocol UblkCmd Sys Raw IoResult Queue BatchLayout BatchObject Batch BatchInv BatchProof Fetch.

#[local] Open Scope Z_scope.

(** ** What resumes a coroutine

    The labels of the machine without the driver's own moves, a completion of
    the fetch with the tags it holds. *)

Inductive event :=
  | EFlusher
  | ECommitDone (r : async_res)
  | EWorker (t : nat) (iod : ublksrv_io_desc)
  | ERegistered (t : nat) (r : async_res)
  | EHandled (t : nat) (c : completion io_value) (iod : ublksrv_io_desc)
  | EUnregistered (t : nat) (r : async_res) (iod : ublksrv_io_desc)
  | EFetched (tags : list nat)
  | EFetchEnd (r : Z).

(** The coroutine that proceeds: a schedule is a list of these. *)
Inductive turn := TFlusher | TWorker (t : nat) | TFetch.

(** The completion of a sender of a command, as the driver gave it. *)
Definition driver_reply (c : completion Z) : async_res :=
  match c with
  | SetValue v => AsyncOk v
  | SetError e => AsyncErr (err_value e)
  | _ => AsyncStopped
  end.

Section BatchRun.
Context {F : Futex} (b : BatchIoQueue).

Abbreviation q_id := (b_q_id_ b).
Abbreviation element_size := (commit_element_size_ (b_flags_ b)).
Abbreviation depth := (b_queue_depth_ b).

(** What the code does when [e] resumes it. *)
Definition resume (e : event) (s : state) : state :=
  match e with
  | EFlusher => flusher_top s
  | ECommitDone r => match fl_pc (flusher s) with
                     | FCommitting _ nr _ => flusher_committed element_size nr r s
                     | _ => s
                     end
  | EWorker t iod => default s (step (b_flags_ b) element_size (LWorker t iod) s)
  | ERegistered t r => default s (step (b_flags_ b) element_size (LRegistered t r) s)
  | EHandled t c iod => default s (step (b_flags_ b) element_size (LHandled t c iod) s)
  | EUnregistered t r iod => default s (step (b_flags_ b) element_size (LUnregistered t r iod) s)
  | EFetched tags => fetch_cb tags s
  | EFetchEnd r => fetch_end r s
  end.

(** The run between two turns: the machine's variables, the callback's offset,
    whether the fetch has been cancelled, and what has happened. *)
Record run_state := {
  run_vars : state;
  fetch_off : Z;
  fetch_stopped : bool;
  log : list event;
}.

Definition happen (e : event) (x : run_state) : run_state :=
  {| run_vars := resume e (run_vars x); fetch_off := fetch_off x; fetch_stopped := fetch_stopped x;
     log := log x ++ [e] |}.

(** The address of a fetch buffer. *)
Definition fetch_buf_ (bid : Z) : Z := ptr_u64 (if bid =? 0 then fetch_buf_0 b else fetch_buf_1 b).

(** A command is awaited; the coroutine goes on with the driver's reply. *)
Definition await_command (p : task Z) (f : async_res -> task run_state) : task run_state :=
  connect p (fun c => f (driver_reply c)).

(** The descriptor, in memory shared with the driver, as a turn finds it. *)
Definition tag_iod (t : nat) : task ublksrv_io_desc := trigger (ReadIod q_id (Z.of_nat t)) SetValue.

(** In the place of a descriptor that is not read. *)
Definition no_iod : ublksrv_io_desc := Build_ublksrv_io_desc 0 0 0 0.

(** The flusher's turn: to its next await, or the completion of its commit. *)
Definition flusher_turn (x : run_state) : task run_state :=
  match fl_pc (flusher (run_vars x)) with
  | FReady => just (happen EFlusher x)
  | FCommitting cur nr _ =>
      await_command (commit_command b (ptr_u64 (commit_base b cur)) nr) (fun r => just (happen (ECommitDone r) x))
  | _ => just x
  end.

(** A worker's.  A handler that never completes is one whose worker has no
    further turn, so there is nothing more to observe. *)
Definition worker_turn (t : nat) (x : run_state) : task run_state :=
  match workers (run_vars x) !! t with
  | None => just x
  | Some w =>
      match w_pc w with
      | WTop | WWoken =>
          let_value (if negb (worker_stopped (run_vars x)) && w_flag w then tag_iod t else just no_iod)
            (fun iod => just (happen (EWorker t iod) x))
      | WRegistering =>
          await_command (raw_register_io_buf (b_ublkc_fd_ b) q_id (Z.of_nat t) (Z.of_nat t))
            (fun r => just (happen (ERegistered t r) x))
      | WHandling io_buf =>
          connect (trigger (HandleIo q_id (Z.of_nat t) (get_buf_ (b_buf_bases_ b) (Z.of_nat t))) id) (fun c =>
            match c with
            | Unfinished => Done Unfinished
            | _ => let_value (if io_buf then just no_iod else tag_iod t)
                     (fun iod => just (happen (EHandled t c iod) x))
            end)
      | WUnregistering _ _ =>
          await_command (raw_unregister_io_buf (b_ublkc_fd_ b) q_id (Z.of_nat t) (Z.of_nat t))
            (fun r => let_value (match r with AsyncOk _ => tag_iod t | _ => just no_iod end)
                        (fun iod => just (happen (EUnregistered t r iod) x)))
      | _ => just x
      end
  end.

(** The entries the callback reads from the completion's buffer. *)
Fixpoint read_tags (bid : Z) (js : list Z) : task (list nat) :=
  match js with
  | [] => just []
  | j :: js =>
      let_value (trigger (ReadTag q_id bid j) SetValue) (fun tag =>
      let_value (read_tags bid js) (fun tags => just (Z.to_nat tag :: tags)))
  end.

Definition push_buffer (bid : Z) : task Z :=
  trigger (PushBuffer q_id (fetch_buf_ bid) (fetch_buf_size_ b)) SetValue.

(** [fetch_cb]: its [assert]s stop the program. *)
Definition fetch_callback (r : cqe) (x : run_state) : task run_state :=
  if cqe_res r <? 0 then Done Unfinished
  else
    let '(js, off, push) := fetch_range (fetch_off x) r in
    let_value (read_tags (cqe_bid r) js) (fun tags =>
    let x := happen (EFetched tags) x in
    let x := {| run_vars := run_vars x; fetch_off := off; fetch_stopped := fetch_stopped x; log := log x |} in
    match push with
    | None => just x
    | Some bid => let_value (push_buffer bid) (fun r => if r =? bid then just x else Done Unfinished)
    end).

(** The entry of the fetch, as condy prepares it, and the group of its buffers. *)
Context (sqe : fetch_sqe) (bgid : Z).

(** The fetch's: the callback, or its end. *)
Definition fetch_turn (x : run_state) : task run_state :=
  if fetch_stopped x || bool_decide (is_Some (fetch_res (run_vars x))) then just x
  else
    let_value (trigger (UringFetch (b_ublkc_fd_ b) (fetch_io_cmds bgid q_id sqe)) SetValue) (fun r =>
    match r with
    | FetchMore r => fetch_callback r x
    | FetchDone (AsyncOk v) => just (happen (EFetchEnd v) x)
    | FetchDone (AsyncErr ec) => just (happen (EFetchEnd (- ec)) x)
    | FetchDone AsyncStopped =>
        just {| run_vars := run_vars x; fetch_off := fetch_off x; fetch_stopped := true; log := log x |}
    end).

Definition batch_turn (t : turn) (x : run_state) : task run_state :=
  match t with
  | TFlusher => flusher_turn x
  | TWorker t => worker_turn t x
  | TFetch => fetch_turn x
  end.

Fixpoint batch_turns (sched : list turn) (x : run_state) : task run_state :=
  match sched with
  | [] => just x
  | t :: sched => let_value (batch_turn t x) (batch_turns sched)
  end.

Definition run_start (lba0 : Z) : run_state :=
  {| run_vars := init (Z.to_nat depth) lba0; fetch_off := 0; fetch_stopped := false; log := [] |}.

(** [when_all(fetch, scope.join())] and the errors after it: nothing until
    every coroutine and the fetch have completed. *)
Definition worker_completed (w : WorkerState) : bool :=
  match w_pc w with WReturned | WFailed _ | WStopped => true | _ => false end.

Definition flusher_completed (s : state) : bool :=
  match fl_pc (flusher s) with FReturned | FFailed _ | FStopped => true | _ => false end.

Definition all_completed (x : run_state) : bool :=
  forallb worker_completed (workers (run_vars x)) && flusher_completed (run_vars x) &&
  (fetch_stopped x || bool_decide (is_Some (fetch_res (run_vars x)))).

Definition batch_result (x : run_state) : completion unit :=
  if negb (all_completed x) then Unfinished
  else if fetch_stopped x then SetStopped
  else run_result (run_vars x).

(** After the preparation: the fetch buffers provided, the coroutines run. *)
Definition batch_service (lba0 : Z) (sched : list turn) : task unit :=
  let_value (push_buffer 0) (fun _ =>
  let_value (push_buffer 1) (fun _ =>
  let_value (batch_turns sched (run_start lba0)) (fun x => Done (batch_result x)))).
End BatchRun.

(** ** The driver left out *)

Section Refinement.
Context {F : Futex} {FL : FutexLaws F} (b : BatchIoQueue).

Abbreviation flags := (b_flags_ b).
Abbreviation element_size := (commit_element_size_ (b_flags_ b)).

(** What of a state the code can see. *)
Definition no_driver : driver := {| d_owned := []; d_transit := []; d_committed := []; d_rejected := false |}.

Definition code_pc (pc : flusher_pc) : flusher_pc :=
  match pc with FCommitting cur nr _ => FCommitting cur nr 0 | pc => pc end.

Definition erase (s : state) : state := with_dev no_driver (set_fpc (code_pc (fl_pc (flusher s))) s).

Lemma erase_notify_flusher s : erase (notify_flusher s) = notify_flusher (erase s).
Proof using Type. unfold erase, notify_flusher. cbn. destruct (futex_notify _) as [x []]; reflexivity. Qed.

Lemma erase_notify_worker t s : erase (notify_worker t s) = notify_worker t (erase s).
Proof using Type.
  unfold erase, notify_worker. cbn. destruct (workers s !! t) as [w|]; [|reflexivity].
  destruct (futex_notify _) as [x []]; reflexivity.
Qed.

Lemma erase_deliver_tag t s : erase (deliver_tag t s) = deliver_tag t (erase s).
Proof using Type.
  unfold deliver_tag. change (workers (erase s)) with (workers s).
  destruct (workers s !! t) as [w|]; [|reflexivity]. rewrite erase_notify_worker. reflexivity.
Qed.

Lemma erase_fetch_cb tags : forall s, erase (fetch_cb tags s) = fetch_cb tags (erase s).
Proof using Type.
  unfold fetch_cb. induction tags as [|t tags IH]; intros s; cbn [fold_left]; [reflexivity|].
  rewrite IH, erase_deliver_tag. reflexivity.
Qed.

Lemma erase_fetch_end r s : erase (fetch_end r s) = fetch_end r (erase s).
Proof using Type.
  unfold fetch_end. change (workers (erase s)) with (workers s).
  change (with_fetch_end r (erase s)) with (erase (with_fetch_end r s)).
  generalize (with_fetch_end r s). induction (seq 0 (length (workers s))) as [|t l IH]; intros s0;
    cbn [fold_left]; [reflexivity|]. rewrite IH, erase_notify_worker. reflexivity.
Qed.

Lemma erase_worker_exit t w pc s : erase (worker_exit t w pc s) = worker_exit t w pc (erase s).
Proof using Type.
  unfold worker_exit. cbn. destruct (_ =? _); [|reflexivity]. rewrite erase_notify_flusher. reflexivity.
Qed.

Lemma erase_worker_resumed t w iod s :
  erase (worker_resumed flags t w iod s) = worker_resumed flags t w iod (erase s).
Proof using Type.
  unfold worker_resumed. change (worker_stopped (erase s)) with (worker_stopped s).
  destruct (worker_stopped s); [apply erase_worker_exit|]. destruct (negb _); [reflexivity|].
  destruct (need_io_buf _ _); reflexivity.
Qed.

Lemma erase_worker_top t w iod s :
  erase (worker_top flags t w iod s) = worker_top flags t w iod (erase s).
Proof using Type.
  unfold worker_top. change (worker_stopped (erase s)) with (worker_stopped s).
  destruct (_ && _); [|apply erase_worker_resumed]. destruct (futex_wait _ _) as [x []]; [reflexivity|].
  apply erase_worker_resumed.
Qed.

Lemma erase_worker_finish t w res lba iod s :
  erase (worker_finish flags t w res lba iod s) = worker_finish flags t w res lba iod (erase s).
Proof using Type.
  unfold worker_finish. rewrite erase_worker_top. change (fl_pending (flusher (erase s))) with (fl_pending (flusher s)).
  destruct (_ =? 0); [rewrite erase_notify_flusher|]; reflexivity.
Qed.

Lemma erase_flusher_top s : erase (flusher_top s) = flusher_top (erase s).
Proof using Type.
  unfold flusher_top. cbn. destruct (0 <? _); [reflexivity|]. destruct (_ =? 0); [reflexivity|].
  destruct (futex_wait _ _) as [x []]; reflexivity.
Qed.

Lemma erase_committed nr r s :
  erase (flusher_committed element_size nr r s) = flusher_committed element_size nr r (erase s).
Proof using Type. destruct r; [unfold flusher_committed; destruct (_ =? _)|..]; reflexivity. Qed.

Lemma fl_pc_erase s : fl_pc (flusher (erase s)) = code_pc (fl_pc (flusher s)).
Proof using Type. reflexivity. Qed.

#[local] Ltac erased :=
  cbn [from_option id]; rewrite ?erase_worker_exit, ?erase_worker_top, ?erase_worker_resumed,
    ?erase_worker_finish; reflexivity.

(** The code does the same whatever the driver has done. *)
Lemma erase_resume e s : erase (resume b e s) = resume b e (erase s).
Proof using Type.
  destruct e as [|r|t iod|t r|t c iod|t r iod|tags|r]; cbn [resume step].
  - apply erase_flusher_top.
  - rewrite fl_pc_erase. destruct (fl_pc (flusher s)); cbn [code_pc]; try reflexivity. apply erase_committed.
  - change (workers (erase s)) with (workers s). destruct (workers s !! t) as [w|]; [|reflexivity].
    destruct (w_pc w); erased.
  - change (workers (erase s)) with (workers s). destruct (workers s !! t) as [w|]; [|reflexivity].
    destruct (w_pc w); try reflexivity. destruct r; erased.
  - change (workers (erase s)) with (workers s). destruct (workers s !! t) as [w|]; [|reflexivity].
    destruct c; try reflexivity; destruct (w_pc w); try reflexivity;
      destruct (io_outcome _); destruct io_buf; erased.
  - change (workers (erase s)) with (workers s). destruct (workers s !! t) as [w|]; [|reflexivity].
    destruct (w_pc w); try reflexivity. destruct r; erased.
  - apply erase_fetch_cb.
  - apply erase_fetch_end.
Qed.

(** *** The results recorded

    A result is recorded when a handler completes, and by nothing else. *)

Definition recorded (e : event) (s : state) : list (nat * Z) :=
  match e with
  | EHandled t Unfinished _ => []
  | EHandled t c _ =>
      match workers s !! t with
      | Some w => match w_pc w with WHandling _ => [(t, fst (io_outcome c))] | _ => [] end
      | None => []
      end
  | _ => []
  end.

Lemma results_notify_flusher s : results (notify_flusher s) = results s.
Proof using Type. unfold notify_flusher. destruct (futex_notify _) as [x []]; reflexivity. Qed.

Lemma results_notify_worker t s : results (notify_worker t s) = results s.
Proof using Type.
  unfold notify_worker. destruct (workers s !! t) as [w|]; [|reflexivity].
  destruct (futex_notify _) as [x []]; reflexivity.
Qed.

Lemma results_worker_exit t w pc s : results (worker_exit t w pc s) = results s.
Proof using Type. unfold worker_exit. destruct (_ =? _); [rewrite results_notify_flusher; reflexivity|reflexivity]. Qed.

Lemma results_worker_resumed t w iod s : results (worker_resumed flags t w iod s) = results s.
Proof using Type.
  unfold worker_resumed. destruct (worker_stopped s); [rewrite results_worker_exit; reflexivity|].
  destruct (negb _); [reflexivity|]. destruct (need_io_buf _ _); reflexivity.
Qed.

Lemma results_worker_top t w iod s : results (worker_top flags t w iod s) = results s.
Proof using Type.
  unfold worker_top. destruct (_ && _); [|rewrite results_worker_resumed; reflexivity].
  destruct (futex_wait _ _) as [x []]; [reflexivity|rewrite results_worker_resumed; reflexivity].
Qed.

Lemma results_worker_finish t w res lba iod s : results (worker_finish flags t w res lba iod s) = results s.
Proof using Type.
  unfold worker_finish. rewrite results_worker_top. destruct (_ =? 0); [rewrite results_notify_flusher; reflexivity|reflexivity].
Qed.

Lemma results_notified {A} (f : A -> nat) l : forall s,
  results (fold_left (fun s t => notify_worker (f t) s) l s) = results s.
Proof using Type.
  induction l as [|t l IH]; intros s; cbn [fold_left]; [reflexivity|]. rewrite IH. rewrite results_notify_worker; reflexivity.
Qed.

Lemma results_fetch_cb tags : forall s, results (fetch_cb tags s) = results s.
Proof using Type.
  unfold fetch_cb. induction tags as [|t tags IH]; intros s; cbn [fold_left]; [reflexivity|].
  rewrite IH. unfold deliver_tag. destruct (workers s !! t); [rewrite results_notify_worker; reflexivity|reflexivity].
Qed.

#[local] Ltac recorded :=
  cbn [from_option id]; rewrite ?app_nil_r, ?results_worker_exit, ?results_worker_top,
    ?results_worker_resumed, ?results_worker_finish; reflexivity.

Lemma results_resume e s : results (resume b e s) = results s ++ recorded e s.
Proof using Type.
  destruct e as [|r|t iod|t r|t c iod|t r iod|tags|r]; cbn [resume step recorded].
  - unfold flusher_top. destruct (0 <? _); [|destruct (_ =? 0); [|destruct (futex_wait _ _) as [x []]]]; recorded.
  - destruct (fl_pc _); try recorded. unfold flusher_committed. destruct r; [destruct (_ =? _)|..]; recorded.
  - destruct (workers s !! t) as [w|]; [|recorded]. destruct (w_pc w); recorded.
  - destruct (workers s !! t) as [w|]; [|recorded]. destruct (w_pc w); try recorded. destruct r; recorded.
  - destruct (workers s !! t) as [w|]; [|destruct c; recorded].
    destruct c; try recorded; destruct (w_pc w); try recorded;
      destruct (io_outcome _); destruct io_buf; recorded.
  - destruct (workers s !! t) as [w|]; [|recorded]. destruct (w_pc w); try recorded. destruct r; recorded.
  - rewrite app_nil_r. apply results_fetch_cb.
  - rewrite app_nil_r. exact (results_notified id _ (with_fetch_end r s)).
Qed.

(** *** Accounting for a run

    The event a step of the machine is for the code, if it is one; the others
    are the driver's own moves. *)
Definition label_event (l : label) (s : state) : option event :=
  match l with
  | LFlusher => Some EFlusher
  | LCommitTake | LDeliver _ => None
  | LCommitDone r => Some (ECommitDone r)
  | LWorker t iod => Some (EWorker t iod)
  | LRegistered t r => Some (ERegistered t r)
  | LHandled t c iod => Some (EHandled t c iod)
  | LUnregistered t r iod => Some (EUnregistered t r iod)
  | LFetched n => Some (EFetched (take n (d_transit (dev s))))
  | LFetchEnd r => Some (EFetchEnd r)
  end.

(** The driver accounts for the events [es]: with moves of its own between
    them, each is a step it allows, from [s0] to the second state. *)
Inductive accounts (s0 : state) : list event -> state -> Prop :=
  | accounts_start : accounts s0 [] s0
  | accounts_driver es s l s' : accounts s0 es s -> label_event l s = None ->
      step flags element_size l s = Some s' -> accounts s0 es s'
  | accounts_event es s l e s' : accounts s0 es s -> label_event l s = Some e ->
      step flags element_size l s = Some s' -> accounts s0 (es ++ [e]) s'.

(** The same, computed from the steps. *)
Fixpoint account (ls : list label) (es : list event) (s : state) : option (list event * state) :=
  match ls with
  | [] => Some (es, s)
  | l :: ls =>
      match step flags element_size l s with
      | Some s' => account ls (match label_event l s with Some e => es ++ [e] | None => es end) s'
      | None => None
      end
  end.

Lemma account_accounts s0 ls : forall es s es' s',
  accounts s0 es s -> account ls es s = Some (es', s') -> accounts s0 es' s'.
Proof using Type.
  induction ls as [|l ls IH]; intros es s es' s' H; cbn [account]; [intros [= <- <-]; exact H|].
  destruct (step _ _ l s) as [s1|] eqn:E; [|discriminate]. apply IH.
  destruct (label_event l s) eqn:El; econstructor; eassumption.
Qed.

(** The driver's moves change nothing the code sees. *)
Lemma driver_move l s s' :
  label_event l s = None -> step flags element_size l s = Some s' ->
  erase s' = erase s.
Proof using Type.
  destruct l; try discriminate; intros _; cbn [step].
  - destruct (fl_pc (flusher s)) eqn:E; try discriminate. destruct (_ <? _); [|discriminate].
    intros [= <-]. unfold erase. cbn. rewrite E. reflexivity.
  - destruct (fetch_res s); [discriminate|]. destruct (_ !! _) as [[]|]; try discriminate.
    intros [= <-]. reflexivity.
Qed.

(** A step that is an event does what the code does. *)
Lemma event_step l s s' e :
  label_event l s = Some e -> step flags element_size l s = Some s' ->
  erase s' = resume b e (erase s).
Proof using Type.
  intros He Hs. rewrite <- erase_resume.
  destruct l; try discriminate; injection He as <-; cbn [resume];
    try (rewrite Hs; reflexivity); cbn [step] in Hs.
  - destruct (fl_pc _); try discriminate. injection Hs as <-. reflexivity.
  - destruct (fl_pc _) eqn:E; try discriminate.
    destruct (match r with AsyncOk v => _ | _ => _ end); [|discriminate]. injection Hs as <-. reflexivity.
  - destruct (fetch_res s); [discriminate|]. destruct (_ && _); [|discriminate]. injection Hs as <-.
    rewrite !erase_fetch_cb. reflexivity.
  - destruct (fetch_res s); [discriminate|]. destruct (_ <? _); [|discriminate]. injection Hs as <-. reflexivity.
Qed.

Lemma accounts_nil s0 s : accounts s0 [] s -> erase s = erase s0.
Proof using Type.
  remember [] as es eqn:E. induction 1 as [|es s l s' H IH Hl Hs|es s l e s' H IH Hl Hs]; [reflexivity| |].
  - rewrite (driver_move _ _ _ Hl Hs). auto.
  - destruct es; discriminate.
Qed.

Lemma accounts_snoc s0 es e s' :
  accounts s0 (es ++ [e]) s' -> exists s, accounts s0 es s /\ erase s' = resume b e (erase s).
Proof using Type.
  remember (es ++ [e]) as es' eqn:E. induction 1 as [|es' s l s' H IH Hl Hs|es' s l e' s' H IH Hl Hs].
  - destruct es; discriminate.
  - destruct (IH E) as (s1 & H1 & H2). exists s1. rewrite (driver_move _ _ _ Hl Hs). auto.
  - apply app_inj_tail in E as [-> ->]. exists s. split; [exact H|]. eapply event_step; eassumption.
Qed.

Lemma steps_app ls1 ls2 : forall s,
  steps flags element_size (ls1 ++ ls2) s =
  match steps flags element_size ls1 s with Some s' => steps flags element_size ls2 s' | None => None end.
Proof using Type.
  induction ls1 as [|l ls1 IH]; intros s; [reflexivity|]. cbn [app steps].
  destruct (step _ _ l s); [apply IH|reflexivity].
Qed.

Lemma accounts_reachable lba0 es s :
  let N := Z.to_nat (b_queue_depth_ b) in
  accounts (init N lba0) es s -> reachable flags element_size N lba0 s.
Proof using Type.
  intros N. induction 1 as [|es s l s' H [ls IH] Hl Hs|es s l e s' H [ls IH] Hl Hs].
  - exists []. reflexivity.
  - exists (ls ++ [l]). rewrite steps_app, IH. cbn [steps]. rewrite Hs. reflexivity.
  - exists (ls ++ [l]). rewrite steps_app, IH. cbn [steps]. rewrite Hs. reflexivity.
Qed.

(** *** A run and its history *)

Context (sqe : fetch_sqe) (bgid lba0 : Z).

Abbreviation N := (Z.to_nat (b_queue_depth_ b)).
Abbreviation s0 := (init N lba0).

(** The results of the handler in a history, by tag. *)
Definition batch_handled_by (c : call) : reply c -> list (nat * Z) :=
  match c return reply c -> list (nat * Z) with
  | HandleIo _ t _ => fun r => [(Z.to_nat t, fst (io_outcome r))]
  | _ => fun _ => []
  end.

Definition batch_handled (h : history) : list (nat * Z) :=
  flat_map (fun y => batch_handled_by (projT1 y) (projT2 y)) h.

(** A batch command of the run: the elements of a commit buffer, at most one
    per tag. *)
Definition commit_ok (c : call) : Prop :=
  match c with
  | UringBatch _ _ _ _ _ =>
      exists index nr, 0 <= index <= 1 /\ 0 <= nr <= Z.of_nat N /\
        all_calls (eq c) (commit_command b (ptr_u64 (commit_base b index)) nr)
  | _ => True
  end.

(** What a run has recorded is what the handler has completed with; and a state
    of the machine that accounts for the run is, to the code, the run's. *)
Definition agrees (x : run_state) (h : history) : Prop :=
  results (run_vars x) = batch_handled h /\
  forall s, accounts s0 (log x) s ->
    erase s = erase (run_vars x) /\ Forall (fun y => commit_ok (projT1 y)) h.

Lemma batch_handled_app h t : batch_handled (h ++ t) = batch_handled h ++ batch_handled t.
Proof using Type. apply flat_map_app. Qed.

Lemma agrees_start : agrees (run_start b lba0) [].
Proof using Type. split; [reflexivity|]. intros s H. split; [apply (accounts_nil _ _ H)|constructor]. Qed.

(** Calls between two events. *)
Definition quiet (t : history) : Prop :=
  batch_handled t = [] /\ Forall (fun y => commit_ok (projT1 y)) t.

Lemma agrees_quiet x x' h t :
  agrees x h -> run_vars x' = run_vars x -> log x' = log x -> quiet t -> agrees x' (h ++ t).
Proof using Type.
  intros [Hr Ha] Hv Hl [Hq Hc]. unfold agrees. rewrite Hv, Hl, batch_handled_app, Hq, app_nil_r.
  split; [exact Hr|]. intros s Hs. destruct (Ha s Hs). auto using Forall_app_2.
Qed.

Lemma agrees_happen e x h t :
  agrees x h -> recorded e (run_vars x) = batch_handled t ->
  (forall s, accounts s0 (log x) s -> erase s = erase (run_vars x) ->
     Forall (fun y => commit_ok (projT1 y)) t) ->
  agrees (happen b e x) (h ++ t).
Proof using Type.
  intros [Hr Ha] He Hc. unfold agrees. cbn [happen run_vars log]. rewrite results_resume, He, Hr, batch_handled_app.
  split; [reflexivity|]. intros s Hs. apply accounts_snoc in Hs as (s1 & H1 & ->).
  destruct (Ha s1 H1) as [E Hh]. rewrite E, <- erase_resume. eauto using Forall_app_2.
Qed.

Hypothesis Hdepth : is_u 16 (b_queue_depth_ b).

Lemma element_size_pos : 0 < element_size.
Proof using Type. unfold commit_element_size_. destruct (need_f_buf_addr_ _), (need_f_zone_lba_ _); reflexivity. Qed.

Lemma accounts_inv es s : accounts s0 es s -> inv N s.
Proof using FL Hdepth.
  intros H. eapply reachable_inv; [apply element_size_pos| |eapply accounts_reachable, H].
  destruct Hdepth. split; rewrite Z2Nat.id; assumption.
Qed.

(** The command of a commit, in a state the machine accounts for. *)
Lemma commit_command_ok x s es cur nr taken c :
  accounts s0 es s -> erase s = erase (run_vars x) -> fl_pc (flusher (run_vars x)) = FCommitting cur nr taken ->
  all_calls (eq c) (commit_command b (ptr_u64 (commit_base b cur)) nr) -> commit_ok c.
Proof using FL Hdepth.
  intros Hs E Hpc Hc. destruct c; try exact I. cbn [commit_ok]. exists cur, nr.
  pose proof (inv_global _ _ (accounts_inv _ _ Hs)) as Hg.
  pose proof (f_equal (fun s => fl_pc (flusher s)) E) as Ef. cbn beta in Ef. rewrite !fl_pc_erase, Hpc in Ef.
  pose proof (g_commit _ _ Hg) as Hcommit. pose proof (g_index _ _ Hg).
  destruct (fl_pc (flusher s)); try discriminate. injection Ef as -> ->.
  split; [lia|]. split; [lia|exact Hc].
Qed.

Lemma read_tags_quiet K bid js : forall h tags h',
  exec K (read_tags b bid js) h = (SetValue tags, h') -> exists t, h' = h ++ t /\ quiet t.
Proof using Type.
  induction js as [|j js IH]; intros h tags h'; cbn [read_tags].
  - intros [= <- <-]. exists []. rewrite app_nil_r. repeat split. constructor.
  - rewrite exec_let_value, exec_trigger, exec_let_value.
    destruct (exec K (read_tags b bid js) _) as [[l|e| |] h1] eqn:E; try discriminate. intros [= <- <-].
    destruct (IH _ _ _ E) as (t & -> & Hq & Hc). eexists. rewrite <- app_assoc. split; [reflexivity|].
    split; [exact Hq|]. constructor; [exact I|exact Hc].
Qed.

Lemma flusher_turn_agrees K x h x' h' :
  agrees x h -> exec K (flusher_turn b x) h = (SetValue x', h') -> agrees x' h'.
Proof using FL Hdepth.
  intros H. unfold flusher_turn. destruct (fl_pc (flusher (run_vars x))) eqn:Hpc;
    try (intros [= <- <-]; exact H).
  - intros [= <- <-]. rewrite <- (app_nil_r h). apply agrees_happen; [exact H|reflexivity|constructor].
  - cbn. intros [= <- <-]. apply agrees_happen; [exact H|reflexivity|]. intros s Hs E.
    constructor; [|constructor]. eapply commit_command_ok; [exact Hs|exact E|exact Hpc|].
    split; [reflexivity|intros; exact I].
Qed.

Lemma worker_turn_agrees K t x h x' h' :
  agrees x h -> exec K (worker_turn b t x) h = (SetValue x', h') -> agrees x' h'.
Proof using Type.
  intros H. unfold worker_turn. destruct (workers (run_vars x) !! t) as [w|] eqn:Hw;
    [|intros [= <- <-]; exact H].
  destruct (w_pc w) eqn:Hpc; try (intros [= <- <-]; exact H).
  1,2: rewrite exec_let_value; destruct (_ && _); cbn; intros [= <- <-];
    [|rewrite <- (app_nil_r h)]; (apply agrees_happen; [exact H|reflexivity|intros; repeat constructor]).
  - cbn. intros [= <- <-]. apply agrees_happen; [exact H|reflexivity|intros; repeat constructor].
  - cbn. set (c := K h _). destruct c as [v|e| |] eqn:Ec; cbn; try discriminate; destruct io_buf; cbn;
      intros [= <- <-]; rewrite <- ?app_assoc; (apply agrees_happen; [exact H| |intros; repeat constructor]);
      cbn [recorded]; rewrite Hw, Hpc; cbn; rewrite Nat2Z.id; reflexivity.
  - unfold await_command. rewrite exec_connect. cbn. destruct (K h _) as [v|ec|]; cbn; intros [= <- <-];
      rewrite <- ?app_assoc; (apply agrees_happen; [exact H|reflexivity|intros; repeat constructor]).
Qed.

Lemma fetch_turn_agrees K x h x' h' :
  agrees x h -> exec K (fetch_turn b sqe bgid x) h = (SetValue x', h') -> agrees x' h'.
Proof using Type.
  intros H. unfold fetch_turn. destruct (_ || _); [intros [= <- <-]; exact H|].
  rewrite exec_let_value, exec_trigger. destruct (K h _) as [r|[v|ec|]] eqn:Er; cbn [exec];
    [|intros [= <- <-]; apply agrees_happen; [exact H|reflexivity|intros; repeat constructor]..|
     intros [= <- <-]; apply (agrees_quiet x); try reflexivity; [exact H|repeat constructor]].
  unfold fetch_callback. destruct (cqe_res r <? 0); [discriminate|].
  destruct (fetch_range (fetch_off x) r) as [[js off] push]. rewrite exec_let_value.
  destruct (exec K (read_tags b _ js) _) as [[tags|e| |] h1] eqn:Et; try discriminate.
  destruct (read_tags_quiet _ _ _ _ _ _ Et) as (t & -> & Hq & Hc). rewrite <- app_assoc.
  set (x1 := Build_run_state _ _ _ _).
  assert (agrees x1 (h ++ [existT (UringFetch (b_ublkc_fd_ b) (fetch_io_cmds bgid (b_q_id_ b) sqe)) (FetchMore r)] ++ t))
    as Hx1.
  { apply (agrees_happen (EFetched tags) x); [exact H|exact (eq_sym Hq)|]. intros. constructor; [exact I|exact Hc]. }
  destruct push as [bid|]; [|intros [= <- <-]; exact Hx1].
  rewrite exec_let_value. unfold push_buffer. rewrite exec_trigger. destruct (_ =? bid); [|discriminate].
  intros [= <- <-]. apply (agrees_quiet x1); try reflexivity; [exact Hx1|repeat constructor].
Qed.

Lemma batch_turns_agrees K sched : forall x h x' h',
  agrees x h -> exec K (batch_turns b sqe bgid sched x) h = (SetValue x', h') -> agrees x' h'.
Proof using FL Hdepth.
  induction sched as [|t sched IH]; intros x h x' h' H; cbn [batch_turns]; [intros [= <- <-]; exact H|].
  rewrite exec_let_value. destruct (exec K (batch_turn b sqe bgid t x) h) as [[x1|e| |] h1] eqn:E; try discriminate.
  apply IH. destruct t; cbn [batch_turn] in E;
    [eapply flusher_turn_agrees|eapply worker_turn_agrees|eapply fetch_turn_agrees]; eassumption.
Qed.

Lemma live_count_zero (l : list WorkerState) t w :
  live_count l = 0 -> l !! t = Some w -> exited (w_pc w) = true.
Proof using Type.
  revert t. induction l as [|w' l IH]; intros [|t] Hz Hw; try discriminate;
    change (live_count (w' :: l)) with ((if exited (w_pc w') then 0 else 1) + live_count l) in Hz;
    pose proof (live_count_nonneg l); destruct (exited (w_pc w')) eqn:E; try lia.
  - injection Hw as <-. exact E.
  - eapply IH; [exact Hz|exact Hw].
Qed.

(** A run without an error whose flusher was not cancelled: every worker has
    returned, and nothing is left in the buffers. *)
Lemma completed_clean x s es :
  accounts s0 es s -> erase s = erase (run_vars x) -> batch_result x = SetValue tt ->
  fl_pc (flusher s) <> FStopped ->
  fl_pc (flusher s) = FReturned /\ forall t w, workers s !! t = Some w -> w_pc w = WReturned.
Proof using FL Hdepth.
  intros Hs E Hr Hf. pose proof (accounts_inv _ _ Hs) as Hinv.
  assert (workers (run_vars x) = workers s) as Ew by exact (f_equal workers (eq_sym E)).
  pose proof (f_equal (fun s => fl_pc (flusher s)) E) as Ef. cbn beta in Ef. rewrite !fl_pc_erase in Ef.
  unfold batch_result in Hr. destruct (all_completed x) eqn:Hall; [|discriminate]. cbn [negb] in Hr.
  destruct (fetch_stopped x); [discriminate|]. unfold run_result in Hr. rewrite Ew in Hr.
  destruct (omap worker_error (workers s)) as [|e l] eqn:Herr; [|discriminate].
  apply andb_true_iff in Hall as [Hall _]. apply andb_true_iff in Hall as [Hall Hfl].
  unfold flusher_completed in Hfl. rewrite Ew in Hall.
  assert (fl_pc (flusher s) = FReturned) as Hret.
  { destruct (fl_pc (flusher (run_vars x))); try discriminate;
      destruct (fl_pc (flusher s)); cbn [code_pc] in Ef; try discriminate; reflexivity || congruence. }
  split; [exact Hret|]. intros t w Hw.
  pose proof (inv_flusher _ _ Hinv) as Hz. unfold flusher_ok in Hz. rewrite Hret in Hz.
  destruct Hz as [_ Hz]. rewrite (inv_running _ _ Hinv) in Hz.
  pose proof (live_count_zero _ t w Hz Hw) as Hx.
  assert (worker_error w = None) as He.
  { destruct (worker_error w) as [e|] eqn:We; [|reflexivity]. exfalso.
    assert (e ∈ omap worker_error (workers s)) as Hin; [|rewrite Herr in Hin; inversion Hin].
    apply list_elem_of_omap. exists w. split; [eapply list_elem_of_lookup_2, Hw|exact We]. }
  unfold worker_error in He. destruct (w_pc w); try discriminate; reflexivity.
Qed.
End Refinement.

(** ** The calls of a run *)

Section RunCalls.
Context {F : Futex} (b : BatchIoQueue) (sqe : fetch_sqe) (bgid lba0 : Z) (P : call -> Prop).
Hypothesis HBatch : forall op cmd addr len, P (UringBatch (b_ublkc_fd_ b) op cmd addr len).
Hypothesis HIo : forall op cmd addr, P (UringIo (b_ublkc_fd_ b) op cmd addr).
Hypothesis HFetch : forall e, P (UringFetch (b_ublkc_fd_ b) e).
Hypothesis HIod : forall q t, P (ReadIod q t).
Hypothesis HHandle : forall q t buf, P (HandleIo q t buf).
Hypothesis HTag : forall q bid j, P (ReadTag q bid j).
Hypothesis HPush : forall q addr len, P (PushBuffer q addr len).

Lemma one_call {A} c (f : reply c -> completion A) : P c -> all_calls P (trigger c f : task A).
Proof using Type. split; [assumption|intros; exact I]. Qed.

Lemma read_tags_calls bid js : all_calls P (read_tags b bid js).
Proof using HTag.
  induction js as [|j js IH]; [exact I|]. apply all_calls_let_value; [apply one_call, HTag|].
  intros tag. apply all_calls_let_value; [exact IH|intros; exact I].
Qed.

Lemma batch_turn_calls t x : all_calls P (batch_turn b sqe bgid t x).
Proof using HBatch HIo HFetch HIod HHandle HTag HPush.
  assert (forall (p : task ublksrv_io_desc) x (f : ublksrv_io_desc -> event), all_calls P p ->
    all_calls P (let_value p (fun iod => just (happen b (f iod) x)))) as Hiod.
  { intros. apply all_calls_let_value; [assumption|intros; exact I]. }
  assert (forall t, all_calls P (tag_iod b t)) as Ht by (intros; apply one_call, HIod).
  destruct t as [|t|]; cbn [batch_turn].
  - unfold flusher_turn. destruct (fl_pc _); try exact I.
    apply all_calls_connect; [apply one_call, HBatch|intros; exact I].
  - unfold worker_turn. destruct (workers _ !! t) as [w|]; [|exact I].
    destruct (w_pc w); try exact I;
      try (apply (Hiod _ x (EWorker t)); destruct (_ && _); exact I || apply Ht);
      (apply all_calls_connect; [apply one_call; apply HIo || apply HHandle|]).
    + intros; exact I.
    + intros c; destruct c; try exact I; apply Hiod; destruct io_buf; exact I || apply Ht.
    + intros c. apply (Hiod _ x (EUnregistered t (driver_reply c))). destruct (driver_reply c); exact I || apply Ht.
  - unfold fetch_turn. destruct (_ || _); [exact I|].
    apply all_calls_let_value; [apply one_call, HFetch|]. intros [r|[v|ec|]]; try exact I.
    unfold fetch_callback. destruct (_ <? _); [exact I|]. destruct (fetch_range _ r) as [[js off] push].
    apply all_calls_let_value; [apply read_tags_calls|]. intros tags. destruct push; [|exact I].
    apply all_calls_let_value; [apply one_call, HPush|]. intros r'. destruct (_ =? _); exact I.
Qed.

Lemma batch_service_calls sched : all_calls P (batch_service b sqe bgid lba0 sched).
Proof using HBatch HIo HFetch HIod HHandle HTag HPush.
  unfold batch_service. do 2 (apply all_calls_let_value; [apply one_call, HPush|intros _]).
  apply all_calls_let_value; [|intros; exact I].
  generalize (run_start b lba0). induction sched as [|t sched IH]; intros x; [exact I|].
  apply all_calls_let_value; [apply batch_turn_calls|exact IH].
Qed.
End RunCalls.

(** ** Theorem *)

(** C3: the run of the batch queue is what the machine of [Batch] says, and its
    results are exact: whatever the driver and the handler reply, under every
    schedule, if the driver can account for its replies by moves of its own
    between them, the machine is in a reachable state that is, to the code, the
    state of the run; every batch command the run has issued describes the
    elements of one of the commit buffers, at most one per tag; and when the
    run completes without an error - its flusher not cancelled - the results
    the handler has completed with, tag by tag and in their order, are exactly
    those the driver has taken. *)
Theorem batch_run_exact {F : Futex} {FL : FutexLaws F} (K : env) b sqe bgid lba0 sched x (h : history) s :
  is_u 16 (b_queue_depth_ b) ->
  exec K (batch_turns b sqe bgid sched (run_start b lba0)) [] = (SetValue x, h) ->
  let N := Z.to_nat (b_queue_depth_ b) in
  accounts b (init N lba0) (log x) s ->
  reachable (b_flags_ b) (commit_element_size_ (b_flags_ b)) N lba0 s /\
  erase s = erase (run_vars x) /\
  Forall (fun y => commit_ok b (projT1 y)) h /\
  (batch_result x = SetValue tt -> fl_pc (flusher s) <> FStopped ->
   forall t, (t < N)%nat -> res_of t (batch_handled h) = res_of t (d_committed (dev s))).
Proof.
  intros Hd Hx N Hs.
  destruct (batch_turns_agrees b sqe bgid lba0 Hd K sched _ _ _ _ (agrees_start b lba0) Hx) as [Hres Ha].
  destruct (Ha s Hs) as [E Hc]. split; [exact (accounts_reachable _ _ _ _ Hs)|].
  split; [exact E|]. split; [exact Hc|]. intros Hok Hf t Ht.
  destruct (completed_clean b lba0 Hd x s _ Hs E Hok Hf) as [Hret Hw].
  pose proof (accounts_inv b lba0 Hd _ _ Hs) as Hinv.
  assert (t < length (workers s))%nat as Hlt by (rewrite (g_workers _ _ (inv_global _ _ Hinv)); exact Ht).
  destruct (lookup_lt_is_Some_2 _ _ Hlt) as [w Ew]. specialize (Hw t w Ew).
  assert (batch_handled h = results s) as -> by (rewrite <- Hres; exact (f_equal results (eq_sym E))).
  destruct (inv_tags _ _ Hinv t w Ew) as [_ (rest & Hrest & Hlog) _ _ _ _].
  rewrite Hrest, Hlog by (rewrite ?Hw, ?Hret; reflexivity).
  pose proof (inv_flusher _ _ Hinv) as Hz. unfold flusher_ok in Hz. rewrite Hret in Hz. destruct Hz as [Hz _].
  unfold queued, in_flight, current, held_result. rewrite Hret, Hw, Hz, slots_of_empty. apply app_nil_r.
Qed.

#[local] Existing Instance bool_futex.
#[local] Existing Instance bool_futex_laws.

(** Four tags: requests 0 and 1 in one completion, their results in one commit,
    request 0 again, and the driver's abort. *)
Definition is_fetch (c : call) : bool := match c with UringFetch _ _ => true | _ => false end.

Definition batch_driver : env := fun h c =>
  match c return reply c -> reply c with
  | UringBatch _ _ _ _ len => fun _ => AsyncOk len
  | UringFetch _ _ => fun _ =>
      match length (List.filter (fun y => is_fetch (projT1 y)) h) with
      | O => FetchMore {| cqe_res := 4; cqe_bid := 0; cqe_num_buffers := 0 |}
      | S O => FetchMore {| cqe_res := 2; cqe_bid := 0; cqe_num_buffers := 0 |}
      | _ => FetchDone (AsyncErr (- UBLK_IO_RES_ABORT))
      end
  | PushBuffer _ addr _ => fun _ => if addr =? 131072 then 0 else 1
  | ReadTag _ _ j => fun _ => default 0 ([0; 1; 0] !! Z.to_nat j)
  | HandleIo _ t _ => fun _ => SetValue (IoInt (512 * (t + 1)))
  | _ => fun r => r
  end (ok_reply c).

Definition sample_turns : list turn :=
  [TFlusher; TWorker 0; TWorker 1; TWorker 2; TWorker 3; TFetch; TWorker 0; TWorker 1; TWorker 1;
   TWorker 0; TFlusher; TFlusher; TFlusher; TFetch; TWorker 0; TWorker 0; TFlusher; TFlusher; TFetch;
   TWorker 3; TWorker 2; TWorker 1; TWorker 0; TFlusher].

Definition sample_labels : list label :=
  [LFlusher; LWorker 0 iod0; LWorker 1 iod0; LWorker 2 iod0; LWorker 3 iod0; LDeliver 0; LDeliver 1;
   LFetched 2; LWorker 0 iod0; LWorker 1 iod0; LHandled 1 (SetValue (IoInt 1024)) iod0;
   LHandled 0 (SetValue (IoInt 512)) iod0; LFlusher; LCommitTake; LCommitTake; LDeliver 0;
   LCommitDone (AsyncOk 32); LFlusher; LFetched 1; LWorker 0 iod0;
   LHandled 0 (SetValue (IoInt 512)) iod0; LFlusher; LCommitTake; LCommitDone (AsyncOk 16);
   LFetchEnd UBLK_IO_RES_ABORT; LWorker 3 iod0; LWorker 2 iod0; LWorker 1 iod0; LWorker 0 iod0;
   LFlusher].

Definition sample_sqe : fetch_sqe :=
  {| sqe_cmd_op := UBLK_U_IO_FETCH_IO_CMDS; sqe_cmd := Build_ublk_batch_io 0 0 0 0;
     sqe_flags := 0; sqe_rw_flags := 0; sqe_buf_group := 0 |}.

Lemma batch_run_exact_witness :
  exists x h s,
    exec batch_driver (batch_turns sample_batch sample_sqe 0 sample_turns
                         (run_start sample_batch 0)) [] = (SetValue x, h) /\
    batch_result x = SetValue tt /\
    batch_handled h = [(1%nat, 1024); (0%nat, 512); (0%nat, 512)] /\
    d_committed (dev s) = batch_handled h /\
    (forall t, (t < 4)%nat -> res_of t (batch_handled h) = res_of t (d_committed (dev s))).
Proof.
  destruct (exec batch_driver (batch_turns sample_batch sample_sqe 0 sample_turns
                         (run_start sample_batch 0)) []) as [[x|e| |] h] eqn:E;
    [|vm_compute in E; discriminate..].
  destruct (account sample_batch sample_labels [] (init 4 0)) as [[es s]|] eqn:Ea;
    [|vm_compute in Ea; discriminate].
  exists x, h, s.
  assert (batch_result x = SetValue tt /\ batch_handled h = [(1%nat, 1024); (0%nat, 512); (0%nat, 512)] /\
          log x = es /\ d_committed (dev s) = batch_handled h /\ fl_pc (flusher s) = FReturned)
    as (Hr & Hh & Hl & Hc & Hf)
    by (vm_compute in E, Ea; injection E as <- <-; injection Ea as <- <-; repeat split).
  split; [reflexivity|]. split; [exact Hr|]. split; [exact Hh|]. split; [exact Hc|].
  destruct (batch_run_exact batch_driver sample_batch sample_sqe 0 0 sample_turns x h s
    ltac:(split; vm_compute; congruence) E) as (_ & _ & _ & H).
  - rewrite Hl. eapply account_accounts; [apply accounts_start|exact Ea].
  - apply H; [exact Hr|]. rewrite Hf. discriminate.
Defined.
