(* ===== verification/BatchTag.v ===== *)
(** * BatchTag: the calls of the batch queue's workers

    The protocol of a tag of [BatchIoQueue] ([src/include/ublk/detail/queue.hpp]),
    as [TagProtocol] is that of [IoQueue]: a request is delivered by the fetch
    callback's reading its tag; its pages are registered exactly when its
    descriptor asks for it, before the handler is called, and unregistered
    after; the handler is called once per delivery.  [BatchRun]'s operation
    keeps it whatever the driver, the handler and the schedule do. *)

From S2P Require Import Prelude Effects Protocol UblkCmd Sys Raw IoResult TagProtocol Queue BatchLayout BatchObject Batch BatchInv BatchProof Fetch BatchRun.

#[local] Open Scope Z_scope.

(** ** The protocol *)

(** How far the request of a tag is. *)
Inductive request :=
  | Between                  (** none, or its result is on its way *)
  | Read (io_buf : bool)     (** its descriptor has been read *)
  | Held                     (** its pages are registered *)
  | Served                   (** the handler has completed, the pages are registered *)
  | Ended.                   (** a registration command has failed *)

(** [due]: deliveries the handler has not been called for. *)
Record tag_state := { due : nat; at_ : request }.

#[global] Instance request_eq_dec : EqDecision request.
Proof. solve_decision. Defined.

Section BatchTag.
Context (fd : fdref) (q_id flags : Z) (bufs : list Z).

Definition goes (r : request) (s : tag_state) : tag_state := {| due := due s; at_ := r |}.

(** The registration command allowed, and where it leads. *)
Definition registration (s : request) : option (ioc * request) :=
  match s with
  | Read true => Some (UBLK_U_IO_REGISTER_IO_BUF, Held)
  | Served => Some (UBLK_U_IO_UNREGISTER_IO_BUF, Between)
  | _ => None
  end.

Definition batch_tag_step (i : nat) (s : tag_state) (c : call) : reply c -> option tag_state :=
  let tag := Z.of_nat i in
  match c return reply c -> option tag_state with
  | UringIo fd' op cmd sqe => fun r =>
      match registration (at_ s) with
      | Some (op', next) =>
          if bool_decide (fd' = fd /\ op = op' /\ cmd = tag_cmd q_id tag 0 tag /\ sqe = 0)
          then Some (goes (match r with AsyncOk _ => next | _ => Ended end) s) else None
      | None => None
      end
  | ReadIod q t => fun iod =>
      if bool_decide (q = q_id /\ t = tag) then
        match at_ s with
        | Between | Read _ => Some (goes (Read (need_io_buf flags (iod_op_flags iod))) s)
        | Served => Some s
        | _ => None
        end
      else None
  | HandleIo q t buf => fun _ =>
      if bool_decide (q = q_id /\ t = tag /\ buf = get_buf_ bufs tag) then
        match due s, at_ s with
        | S n, Read false => Some {| due := n; at_ := Between |}
        | S n, Held => Some {| due := n; at_ := Served |}
        | _, _ => None
        end
      else None
  | _ => fun _ => None
  end.

(** The callback has read the tag. *)
Definition delivered (t : nat) (st : nat -> tag_state) : nat -> tag_state :=
  fun i => if decide (i = t) then {| due := S (due (st i)); at_ := at_ (st i) |} else st i.

(** All tags; the commands of the queue as a whole are allowed at any time. *)
Definition batch_tags_step (st : nat -> tag_state) (c : call) : reply c -> option (nat -> tag_state) :=
  match c return reply c -> option (nat -> tag_state) with
  | ReadTag _ _ _ => fun t => Some (delivered (Z.to_nat t) st)
  | UringBatch _ _ _ _ _ | UringFetch _ _ | PushBuffer _ _ _ => fun _ => Some st
  | c => fun r => product batch_tag_step call_tag st c r
  end.

Definition no_request : nat -> tag_state := fun _ => {| due := 0; at_ := Between |}.

(** ** What it guarantees: a call of the handler per delivery *)

Definition calls_handler (t : nat) (y : sigT reply) : nat :=
  match projT1 y with HandleIo _ t' _ => if decide (Z.to_nat t' = t) then 1 else 0 | _ => 0 end%nat.

Definition delivers (t : nat) (y : sigT reply) : nat :=
  let 'existT c r := y in
  match c return reply c -> nat with
  | ReadTag _ _ _ => fun t' => if decide (Z.to_nat t' = t) then 1 else 0
  | _ => fun _ => 0
  end%nat r.

Definition total (f : sigT reply -> nat) (h : history) : nat := foldr (fun y n => f y + n)%nat O h.

Lemma batch_step_due t st c r st' :
  batch_tags_step st c r = Some st' ->
  (due (st' t) + calls_handler t (existT c r) = due (st t) + delivers t (existT c r))%nat.
Proof using Type.
  intros H. destruct c; cbn [batch_tags_step call_tag product batch_tag_step] in H; try discriminate H;
    cbn [calls_handler delivers projT1]; unfold product in H; cbn [call_tag batch_tag_step] in H.
  - destruct (registration _) as [[op' next]|]; [|discriminate]. case_bool_decide; [|discriminate].
    injection H as <-. destruct (decide _) as [->|]; reflexivity.
  - injection H as <-. reflexivity.
  - injection H as <-. reflexivity.
  - injection H as <-. reflexivity.
  - injection H as <-. unfold delivered. destruct (decide (t = _)) as [->|]; destruct (decide _); cbn; try congruence; lia.
  - case_bool_decide; [|discriminate]. destruct (at_ _) eqn:E; try discriminate; injection H as <-;
      destruct (decide _) as [->|]; reflexivity.
  - case_bool_decide; [|discriminate]. destruct (due (st _)) eqn:Ed; [discriminate|].
    destruct (at_ _) as [|[]| | |] eqn:E; try discriminate; injection H as <-;
      destruct (decide (t = _)) as [->|]; destruct (decide _); cbn; try congruence; lia.
Qed.

Lemma batch_due t h : forall st st',
  accepts batch_tags_step st h = Some st' ->
  (due (st' t) + total (calls_handler t) h = due (st t) + total (delivers t) h)%nat.
Proof using Type.
  induction h as [|[c r] h IH]; intros st st'; cbn [accepts total foldr]; [intros [= <-]; lia|].
  destruct (batch_tags_step st c r) as [st1|] eqn:E; [|discriminate]. intros H.
  apply IH in H. apply (batch_step_due t) in E. unfold total in H. lia.
Qed.
End BatchTag.

(** ** The workers keep it *)

(** A worker, and its tag in the protocol. *)
Definition worker_ok {F : Futex} {FL : FutexLaws F} (w : WorkerState) (s : tag_state) : Prop :=
  waiting (w_futex w) = is_wwaiting (w_pc w) /\
  let flag := Nat.b2n (w_flag w) in
  match w_pc w with
  | WTop | WWaiting | WWoken =>
      (at_ s = Between \/ exists r, at_ s = Read r) /\ (flag <= due s)%nat
  | WRegistering => at_ s = Read true /\ (1 + flag <= due s)%nat
  | WHandling r => at_ s = (if r then Held else Read false) /\ (1 + flag <= due s)%nat
  | WUnregistering _ _ => at_ s = Served /\ (flag <= due s)%nat
  | _ => True
  end.

Section Workers.
Context {F : Futex} {FL : FutexLaws F} (b : BatchIoQueue) (sqe : fetch_sqe) (bgid : Z).

Abbreviation flags := (b_flags_ b).
Abbreviation q_id := (b_q_id_ b).
Abbreviation tags_step := (batch_tags_step (b_ublkc_fd_ b) (b_q_id_ b) (b_flags_ b) (b_buf_bases_ b)).

Hypothesis Hq : is_u 16 q_id.

(** All workers; all but one. *)
Definition workers_ok (st : nat -> tag_state) (l : list WorkerState) : Prop :=
  Z.of_nat (length l) <= 2 ^ 16 /\ forall t w, l !! t = Some w -> worker_ok w (st t).

Definition others_ok (t : nat) (st : nat -> tag_state) (l : list WorkerState) : Prop :=
  Z.of_nat (length l) <= 2 ^ 16 /\ forall t' w, t' <> t -> l !! t' = Some w -> worker_ok w (st t').

Lemma workers_others t st l : workers_ok st l -> others_ok t st l.
Proof using Type. intros [H1 H2]. split; auto. Qed.

Lemma others_set t st l w : others_ok t st l -> worker_ok w (st t) -> workers_ok st (<[t := w]> l).
Proof using Type.
  intros [Hl H] Hw. split; [rewrite length_insert; exact Hl|]. intros t' w' E.
  apply list_lookup_insert_Some in E as [(<- & -> & _)|[Hne E]]; auto.
Qed.

(** The state of another tag changes. *)
Lemma others_ext t st st' l :
  others_ok t st l -> (forall i, i <> t -> st' i = st i) -> others_ok t st' l.
Proof using Type. intros [Hl H] E. split; [exact Hl|]. intros t' w Hne Hw. rewrite E by exact Hne. eauto. Qed.

(** *** What the code does to the list of workers *)

Lemma workers_exit t w pc s : workers (worker_exit t w pc s) = <[t := pc_worker pc w]> (workers s).
Proof using Type. unfold worker_exit. destruct (_ =? _); [rewrite notify_flusher_workers|]; reflexivity. Qed.

Lemma workers_flusher_top s : workers (flusher_top s) = workers s.
Proof using Type.
  unfold flusher_top. destruct (0 <? _); [reflexivity|]. destruct (_ =? 0); [reflexivity|].
  destruct (futex_wait _ _) as [x []]; reflexivity.
Qed.

Lemma workers_committed n nr r s : workers (flusher_committed n nr r s) = workers s.
Proof using Type. unfold flusher_committed. destruct r; [destruct (_ =? _)|..]; reflexivity. Qed.

Lemma exit_ok t st s w pc :
  others_ok t st (workers s) -> waiting (w_futex w) = false -> dead pc || exited pc = true ->
  workers_ok st (workers (worker_exit t w pc s)).
Proof using Type.
  intros H Hf Hx. rewrite workers_exit. apply others_set; [exact H|]. unfold worker_ok. cbn.
  rewrite Hf. destruct pc; try discriminate; split; reflexivity || exact I.
Qed.

(** [iod] has been read, if the worker is to go on with it. *)
Definition iod_read (t : nat) (st : nat -> tag_state) (w : WorkerState) iod (s : state) : Prop :=
  worker_stopped s = false -> w_flag w = true ->
  at_ (st t) = Read (need_io_buf flags (iod_op_flags iod)).

Lemma resumed_ok t st s w iod :
  others_ok t st (workers s) -> waiting (w_futex w) = false -> iod_read t st w iod s ->
  (Nat.b2n (w_flag w) <= due (st t))%nat ->
  workers_ok st (workers (worker_resumed flags t w iod s)).
Proof using Type.
  intros H Hf Ha Hd. unfold worker_resumed, iod_read in *.
  destruct (worker_stopped s); [apply exit_ok; auto|]. destruct (w_flag w) eqn:E; cbn [negb].
  - specialize (Ha eq_refl eq_refl).
    destruct (need_io_buf _ _) eqn:En; (apply others_set; [exact H|]); unfold worker_ok; cbn;
      rewrite Hf; cbn in Hd; auto with lia.
  - apply others_set; [exact H|]. split; [exact Hf|exact I].
Qed.

Lemma top_ok t st s w iod :
  others_ok t st (workers s) -> waiting (w_futex w) = false -> iod_read t st w iod s ->
  at_ (st t) = Between \/ (exists r, at_ (st t) = Read r) -> (Nat.b2n (w_flag w) <= due (st t))%nat ->
  workers_ok st (workers (worker_top flags t w iod s)).
Proof using Type.
  intros H Hf Hr Ha Hd. unfold worker_top. destruct (negb (worker_stopped s) && negb (w_flag w)) eqn:E;
    [|apply resumed_ok; assumption].
  apply andb_true_iff in E as [_ E]. rewrite E.
  destruct (futex_wait_blocks (w_futex w) true Hf) as [Hb Hw].
  destruct (futex_wait _ _) as [x blocked]; cbn in Hb, Hw; subst blocked.
  apply others_set; [exact H|]. split; [exact Hw|]. cbn. auto.
Qed.

Lemma finish_ok t st s w res lba iod :
  others_ok t st (workers s) -> waiting (w_futex w) = false ->
  at_ (st t) = Read (need_io_buf flags (iod_op_flags iod)) -> (Nat.b2n (w_flag w) <= due (st t))%nat ->
  workers_ok st (workers (worker_finish flags t w res lba iod s)).
Proof using Type.
  intros H Hf Ha Hd. unfold worker_finish. apply top_ok; eauto; [|intros ? ?; exact Ha].
  destruct (_ =? 0); [rewrite notify_flusher_workers|]; exact H.
Qed.

Lemma notify_ok t st s : workers_ok st (workers s) -> workers_ok st (workers (notify_worker t s)).
Proof using Type.
  intros H. unfold notify_worker. destruct (workers s !! t) as [w|] eqn:E; [|exact H].
  destruct (futex_notify_wakes (w_futex w)) as [Hw Hx]. destruct (futex_notify _) as [x woken].
  cbn in Hw, Hx. subst woken. destruct (proj2 H t w E) as [Hf Hp]. rewrite Hf.
  apply others_set; [apply workers_others, H|]. unfold worker_ok. cbn. rewrite Hx.
  destruct (w_pc w) eqn:Epc; cbn in *; split; auto.
Qed.

Lemma fetch_end_ok st r s : workers_ok st (workers s) -> workers_ok st (workers (fetch_end r s)).
Proof using Type.
  unfold fetch_end. intros H. change (workers s) with (workers (with_fetch_end r s)) in H. revert H.
  generalize (with_fetch_end r s). generalize (seq 0 (length (workers s))).
  intros l. induction l as [|t l IH]; intros s0 H; [exact H|]. apply IH, notify_ok, H.
Qed.

(** *** Deliveries *)

Definition tags_delivered (tags : list nat) (st : nat -> tag_state) : nat -> tag_state :=
  fold_left (fun st t => delivered t st) tags st.

Lemma deliver_tag_ok t st s :
  workers_ok st (workers s) -> workers_ok (delivered t st) (workers (deliver_tag t s)).
Proof using Type.
  intros H.
  assert (others_ok t (delivered t st) (workers s)) as Ho.
  { apply (others_ext t st); [apply workers_others, H|]. intros i Hi. unfold delivered.
    rewrite decide_False by exact Hi. reflexivity. }
  unfold deliver_tag. destruct (workers s !! t) as [w|] eqn:E.
  - apply notify_ok, others_set; [exact Ho|]. destruct (proj2 H t w E) as [Hf Hp].
    split; [exact Hf|]. unfold delivered. rewrite decide_True by reflexivity. cbn.
    destruct (w_pc w), (w_flag w); cbn in *; intuition lia.
  - split; [apply H|]. intros t' w Hw. apply Ho; [congruence|exact Hw].
Qed.

Lemma fetch_cb_ok tags : forall st s,
  workers_ok st (workers s) -> workers_ok (tags_delivered tags st) (workers (fetch_cb tags s)).
Proof using Type.
  unfold fetch_cb, tags_delivered. induction tags as [|t tags IH]; intros st s H; [exact H|].
  apply IH, deliver_tag_ok, H.
Qed.

Lemma read_tags_obeys bid js : forall st,
  obeys tags_step (read_tags b bid js) st (fun c st' =>
    exists tags, c = SetValue tags /\ st' = tags_delivered tags st).
Proof using Type.
  induction js as [|j js IH]; intros st; cbn [read_tags]; [exists []; auto|].
  apply obeys_let_value, obeys_trigger. intros t. eexists; split; [reflexivity|]. cbn [then_obeys].
  apply obeys_let_value. eapply obeys_mono; [|apply IH]. intros c st' (tags & -> & ->).
  exists (Z.to_nat t :: tags). auto.
Qed.

(** *** Turns *)

Definition turn_done (c : completion run_state) (st : nat -> tag_state) : Prop :=
  match c with SetValue x => workers_ok st (workers (run_vars x)) | _ => True end.

Abbreviation keeps p st := (obeys tags_step p st turn_done).

Definition put (t : nat) (s : tag_state) (st : nat -> tag_state) : nat -> tag_state :=
  fun i => if decide (i = t) then s else st i.

Lemma others_put t st s l : workers_ok st l -> others_ok t (put t s st) l.
Proof using Type.
  intros H. apply (others_ext t st); [apply workers_others, H|]. intros i Hi. unfold put.
  rewrite decide_False by exact Hi. reflexivity.
Qed.

Lemma put_at t s st : put t s st t = s.
Proof using Type. unfold put. apply decide_True. reflexivity. Qed.

(** Reading the descriptor between two requests. *)
Lemma iod_obeys t st (Q : completion ublksrv_io_desc -> (nat -> tag_state) -> Prop) :
  at_ (st t) = Between \/ (exists r, at_ (st t) = Read r) ->
  (forall iod, Q (SetValue iod) (put t (goes (Read (need_io_buf flags (iod_op_flags iod))) (st t)) st)) ->
  obeys tags_step (tag_iod b t) st Q.
Proof using Type.
  intros Ha HQ. apply obeys_trigger. intros iod. exists (put t (goes (Read (need_io_buf flags (iod_op_flags iod))) (st t)) st).
  split; [|apply HQ]. cbn [batch_tags_step]. unfold product. cbn [call_tag batch_tag_step].
  rewrite Nat2Z.id, bool_decide_eq_true_2 by auto. destruct Ha as [->|[r ->]]; reflexivity.
Qed.

(** The registration command of a phase. *)
Lemma registration_obeys t st op next f :
  Z.of_nat t < 2 ^ 16 -> registration (at_ (st t)) = Some (op, next) ->
  (forall r, obeys tags_step (f r) (put t (goes (match r with AsyncOk _ => next | _ => Ended end) (st t)) st) turn_done) ->
  keeps (await_command (io_cmd (b_ublkc_fd_ b) op q_id (Z.of_nat t) 0 (Z.of_nat t) 0) f) st.
Proof using Hq.
  intros Ht Hr Hf. apply obeys_connect, obeys_trigger. intros r.
  exists (put t (goes (match r with AsyncOk _ => next | _ => Ended end) (st t)) st). split.
  - cbn [batch_tags_step]. unfold product. cbn [call_tag io_tag batch_tag_step].
    rewrite (uwrap_id 16 (Z.of_nat t)), (uwrap_id 16 q_id), (uwrap_id 64 (Z.of_nat t)), (uwrap_id 64 0)
      by (assumption || range).
    rewrite Nat2Z.id, Hr, bool_decide_eq_true_2 by auto. reflexivity.
  - destruct r; apply Hf.
Qed.

(** A worker that may go on with a request: from the top of its loop, or woken. *)
Lemma worker_starts t x st w (go : nat -> WorkerState -> ublksrv_io_desc -> state -> state) :
  workers_ok st (workers (run_vars x)) ->
  (forall iod, resume b (EWorker t iod) (run_vars x) = go t w iod (run_vars x)) ->
  (forall st iod, others_ok t st (workers (run_vars x)) -> waiting (w_futex w) = false ->
     iod_read t st w iod (run_vars x) -> at_ (st t) = Between \/ (exists r, at_ (st t) = Read r) ->
     (Nat.b2n (w_flag w) <= due (st t))%nat -> workers_ok st (workers (go t w iod (run_vars x)))) ->
  waiting (w_futex w) = false -> at_ (st t) = Between \/ (exists r, at_ (st t) = Read r) ->
  (Nat.b2n (w_flag w) <= due (st t))%nat ->
  keeps (let_value (if negb (worker_stopped (run_vars x)) && w_flag w then tag_iod b t else just no_iod)
           (fun iod => just (happen b (EWorker t iod) x))) st.
Proof using Type.
  intros H Hgo Hok Hf Ha Hd. apply obeys_let_value. destruct (_ && _) eqn:E.
  - apply iod_obeys; [exact Ha|]. intros iod. cbn [then_obeys obeys just turn_done happen run_vars].
    rewrite Hgo. apply Hok; rewrite ?put_at; eauto; [apply others_put, H|]. intros _ _. rewrite put_at. reflexivity.
  - cbn [then_obeys obeys just turn_done happen run_vars]. rewrite Hgo.
    apply Hok; auto; [apply workers_others, H|]. intros Hs Hfl. rewrite Hs, Hfl in E. discriminate.
Qed.

(** The handler. *)
Lemma handling_keeps t x st w io_buf :
  workers_ok st (workers (run_vars x)) -> workers (run_vars x) !! t = Some w -> w_pc w = WHandling io_buf ->
  keeps (worker_turn b t x) st.
Proof using Type.
  intros H Hw Hpc. destruct (proj2 H t w Hw) as [Hf Hp]. rewrite Hpc in Hp, Hf. cbn [is_wwaiting] in Hf.
  destruct Hp as [Ha Hd]. unfold worker_turn. rewrite Hw, Hpc. apply obeys_connect, obeys_trigger. intros c.
  destruct (due (st t)) as [|n] eqn:Edue; [lia|].
  set (s := {| due := n; at_ := if io_buf then Served else Between |}). exists (put t s st). split.
  { cbn [batch_tags_step]. unfold product. cbn [call_tag batch_tag_step].
    rewrite Nat2Z.id, bool_decide_eq_true_2, Edue, Ha by auto. unfold s. destruct io_buf; reflexivity. }
  assert (c <> Unfinished -> keeps (let_value (if io_buf then just no_iod else tag_iod b t)
    (fun iod => just (happen b (EHandled t c iod) x))) (put t s st)) as Hc;
    [|destruct c; try (apply Hc; discriminate); exact I].
  intros Hc. apply obeys_let_value. destruct io_buf.
  - cbn [then_obeys obeys just turn_done happen run_vars resume step]. rewrite Hw, Hpc.
    destruct c; try contradiction; destruct (io_outcome _) as [res lba]; cbn [from_option id];
      (apply others_set; [apply others_put, H|]); rewrite put_at; (split; [exact Hf|]); cbn;
      split; reflexivity || lia.
  - apply iod_obeys; [left; rewrite put_at; reflexivity|]. intros iod.
    cbn [then_obeys obeys just turn_done happen run_vars resume step]. rewrite Hw, Hpc.
    destruct c; try contradiction; destruct (io_outcome _) as [res lba]; cbn [from_option id];
      (apply finish_ok; [apply (others_ext t st); [apply workers_others, H|]|exact Hf|..]);
      try (intros i Hi; unfold put; rewrite !decide_False by exact Hi; reflexivity);
      rewrite !put_at; cbn; reflexivity || lia.
Qed.

Lemma worker_turn_keeps t x st :
  workers_ok st (workers (run_vars x)) -> keeps (worker_turn b t x) st.
Proof using Hq.
  intros H. destruct (workers (run_vars x) !! t) as [w|] eqn:Hw; [|unfold worker_turn; rewrite Hw; exact H].
  destruct (proj2 H t w Hw) as [Hf Hp].
  assert (Z.of_nat t < 2 ^ 16) as Ht by (apply lookup_lt_Some in Hw; destruct H; lia).
  destruct (w_pc w) eqn:Hpc; cbn [is_wwaiting] in Hf;
    try (unfold worker_turn; rewrite Hw, Hpc; exact H).
  - unfold worker_turn. rewrite Hw, Hpc. destruct Hp as [Ha Hd].
    apply (worker_starts t x st w (worker_top flags)); auto using top_ok.
    intros iod. cbn [resume step]. rewrite Hw, Hpc. reflexivity.
  - unfold worker_turn. rewrite Hw, Hpc. destruct Hp as [Ha Hd].
    apply (worker_starts t x st w (worker_resumed flags)); auto using resumed_ok.
    intros iod. cbn [resume step]. rewrite Hw, Hpc. reflexivity.
  - unfold worker_turn. rewrite Hw, Hpc. destruct Hp as [Ha Hd].
    eapply registration_obeys; [exact Ht|rewrite Ha; reflexivity|]. intros r.
    cbn [obeys just turn_done happen run_vars resume step]. rewrite Hw, Hpc. destruct r; cbn [from_option id].
    + apply others_set; [apply others_put, H|]. rewrite put_at. split; [exact Hf|]. cbn. auto.
    + apply exit_ok; [apply others_put, H|exact Hf|reflexivity].
    + apply others_set; [apply others_put, H|]. split; [exact Hf|exact I].
  - eapply handling_keeps; eassumption.
  - unfold worker_turn. rewrite Hw, Hpc. destruct Hp as [Ha Hd].
    eapply registration_obeys; [exact Ht|rewrite Ha; reflexivity|]. intros r. apply obeys_let_value.
    destruct r as [v|ec|].
    + apply iod_obeys; [left; rewrite put_at; reflexivity|]. intros iod.
      cbn [then_obeys obeys just turn_done happen run_vars resume step]. rewrite Hw, Hpc. cbn [from_option id].
      apply finish_ok; [apply (others_ext t st); [apply workers_others, H|]|exact Hf|..];
        try (intros i Hi; unfold put; rewrite !decide_False by exact Hi; reflexivity);
        rewrite !put_at; cbn; reflexivity || assumption.
    + cbn [then_obeys obeys just turn_done happen run_vars resume step]. rewrite Hw, Hpc. cbn [from_option id].
      apply exit_ok; [apply others_put, H|exact Hf|reflexivity].
    + cbn [then_obeys obeys just turn_done happen run_vars resume step]. rewrite Hw, Hpc. cbn [from_option id].
      apply others_set; [apply others_put, H|]. split; [exact Hf|exact I].
Qed.

Lemma flusher_turn_keeps x st : workers_ok st (workers (run_vars x)) -> keeps (flusher_turn b x) st.
Proof using Type.
  intros H. unfold flusher_turn. destruct (fl_pc (flusher (run_vars x))) eqn:Hpc; try exact H.
  - cbn [obeys just turn_done happen run_vars resume]. rewrite workers_flusher_top. exact H.
  - apply obeys_connect, obeys_trigger. intros r. exists st. split; [reflexivity|].
    cbn [obeys just turn_done happen run_vars resume]. rewrite Hpc, workers_committed. exact H.
Qed.

Lemma fetch_turn_keeps x st : workers_ok st (workers (run_vars x)) -> keeps (fetch_turn b sqe bgid x) st.
Proof using Type.
  intros H. unfold fetch_turn. destruct (_ || _); [exact H|].
  apply obeys_let_value, obeys_trigger. intros r. exists st. split; [reflexivity|].
  destruct r as [r|[v|ec|]]; cbn [then_obeys]; [|exact (fetch_end_ok _ _ _ H)|exact (fetch_end_ok _ _ _ H)|exact H].
  unfold fetch_callback. destruct (_ <? _); [exact I|]. destruct (fetch_range _ r) as [[js off] push].
  apply obeys_let_value. eapply obeys_mono; [|apply read_tags_obeys].
  intros c st' (tags & -> & ->). cbn [then_obeys]. pose proof (fetch_cb_ok tags _ _ H) as H'.
  destruct push; [|exact H'].
  apply obeys_let_value, obeys_trigger. intros r'. eexists; split; [reflexivity|]. cbn [then_obeys].
  destruct (_ =? _); [exact H'|exact I].
Qed.

Lemma batch_turns_keeps sched : forall x st,
  workers_ok st (workers (run_vars x)) -> keeps (batch_turns b sqe bgid sched x) st.
Proof using Hq.
  induction sched as [|t sched IH]; intros x st H; [exact H|]. apply obeys_let_value.
  eapply obeys_mono; [|destruct t; [apply flusher_turn_keeps|apply worker_turn_keeps|apply fetch_turn_keeps]; exact H].
  intros [x'|e| |] st' Hx; cbn [then_obeys]; [apply IH, Hx|exact I..].
Qed.

Lemma start_ok lba0 : is_u 16 (b_queue_depth_ b) -> workers_ok no_request (workers (run_vars (run_start b lba0))).
Proof using Type.
  intros [H1 H2]. cbn [run_start run_vars init workers]. split; [rewrite repeat_length; lia|].
  intros t w Hw. apply list_elem_of_lookup_2, list_elem_of_In, List.repeat_spec in Hw as ->.
  split; [apply futex_new_idle|]. cbn. auto.
Qed.

Lemma batch_service_keeps lba0 sched :
  is_u 16 (b_queue_depth_ b) ->
  obeys tags_step (batch_service b sqe bgid lba0 sched) no_request (fun _ _ => True).
Proof using FL Hq.
  intros Hd. unfold batch_service. do 2 (apply obeys_let_value, obeys_trigger; intros ?; eexists; split; [reflexivity|]; cbn [then_obeys]).
  apply obeys_let_value. eapply obeys_mono; [|apply batch_turns_keeps, start_ok, Hd].
  intros [x|e| |] st _; exact I.
Qed.
End Workers.

(** ** Theorem *)

(** C8: the batch queue serves its tags by their protocol: whatever the driver,
    the handler and the runtime reply and whatever the schedule, the calls of
    [run] are those the protocol of the tags allows - the pages of a request
    are registered exactly when its descriptor says they must be, with its tag
    as the index, before the handler is called with the buffer of the tag, and
    unregistered before anything else is done for it; a tag whose registration
    has failed is left alone - and for each tag the handler has been called
    once for every delivery of the tag, but for those still due. *)
Theorem batch_worker_protocol {F : Futex} {FL : FutexLaws F} (K : env) b sqe bgid lba0 sched :
  is_u 16 (b_queue_depth_ b) -> is_u 16 (b_q_id_ b) ->
  let h := snd (exec K (batch_service b sqe bgid lba0 sched) []) in
  exists st,
    accepts (batch_tags_step (b_ublkc_fd_ b) (b_q_id_ b) (b_flags_ b) (b_buf_bases_ b)) no_request h = Some st /\
    forall t, (due (st t) + total (calls_handler t) h = total (delivers t) h)%nat.
Proof.
  intros Hd Hq h.
  destruct (obeys_exec _ K _ _ _ [] (batch_service_keeps b sqe bgid Hq lba0 sched Hd)) as (h' & st & Hh & Ha & _).
  fold h in Hh. cbn [app] in Hh. subst h'. exists st. split; [exact Ha|].
  intros t. rewrite (batch_due _ _ _ _ _ _ _ _ Ha). reflexivity.
Qed.

#[local] Existing Instance bool_futex.
#[local] Existing Instance bool_futex_laws.

(** The run of [BatchRun] with a queue whose pages are registered. *)
Definition zero_copy_queue : BatchIoQueue :=
  {| b_ublkc_fd_ := Fixed 0; b_q_id_ := 0; b_flags_ := UBLK_F_SUPPORT_ZERO_COPY;
     b_queue_depth_ := 4; b_max_io_buf_bytes_ := 4096; b_queue_handler := false;
     b_iod_base_ := Some 4096; commit_buf_size_ := 4096; commit_buf_0 := Some 65536;
     commit_buf_1 := Some 69632; fetch_buf_size_ := 4096; fetch_buf_0 := Some 131072;
     fetch_buf_1 := Some 135168; b_buf_bases_ := [] |}.

Definition zero_copy_turns : list turn :=
  [TFetch; TWorker 0; TWorker 1; TWorker 1; TWorker 0; TWorker 1; TWorker 1; TWorker 0; TWorker 0].

Lemma batch_worker_protocol_witness :
  let h := snd (exec batch_driver (batch_service zero_copy_queue sample_sqe 0 0 zero_copy_turns) []) in
  total (calls_handler 1) h = 1%nat /\
  exists st,
    accepts (batch_tags_step (Fixed 0) 0 UBLK_F_SUPPORT_ZERO_COPY []) no_request h = Some st /\
    forall t, (due (st t) + total (calls_handler t) h = total (delivers t) h)%nat.
Proof.
  intros h. split; [vm_compute; reflexivity|].
  apply (batch_worker_protocol batch_driver zero_copy_queue sample_sqe 0 0 zero_copy_turns);
    apply (bool_decide_unpack _); vm_compute; exact I.
Defined.
