(* ===== verification/BatchEnd.v ===== *)
(** * BatchEnd: the batch queue's run ends

    The operation of [BatchRun] is driven by a schedule; this file shows that
    every fair schedule is long enough.  The part of the queue's invariant that
    does not depend on the driver - who sleeps, who is awake, who is counted -
    holds of every run, so a round in which every coroutine has its turn either
    does something or finds everything completed. *)

From S2P Require Import Prelude Effects UblkCmd Sys Raw IoResult Queue BatchLayout BatchObject Batch BatchInv BatchProof Fetch BatchRun BatchTag.

#[local] Open Scope Z_scope.

Section BatchEnd.
Context {F : Futex} {FL : FutexLaws F} (b : BatchIoQueue).

Abbreviation flags := (b_flags_ b).
Abbreviation element_size := (commit_element_size_ (b_flags_ b)).

(** ** The invariant of the coroutines *)

(** A worker that will neither run nor be counted again. *)
Definition lost (pc : worker_pc) : bool :=
  match pc with WStopped | WAssertFailed => true | _ => false end.

Definition awake_ok (stopped : bool) (w : WorkerState) : Prop :=
  waiting (w_futex w) = is_wwaiting (w_pc w) /\
  (w_pc w = WWaiting -> w_flag w = false /\ stopped = false) /\
  (w_pc w = WWoken -> w_flag w = true \/ stopped = true) /\
  lost (w_pc w) = false.

Record vars_ok (s : state) : Prop := {
  v_stopped : worker_stopped s = true <-> is_Some (fetch_res s);
  v_pending : is_u 16 (fl_pending (flusher s));
  v_futex : waiting (fl_futex (flusher s)) = is_fwaiting (fl_pc (flusher s));
  v_commit : match fl_pc (flusher s) with
             | FCommitting _ nr taken => is_u 16 nr /\ taken = 0
             | _ => True
             end;
}.

Record coroutines_ok (s : state) : Prop := {
  co_vars : vars_ok s;
  co_flusher : flusher_ok s;
  co_running : running_workers s = live_count (workers s);
  co_awake : forall t w, workers s !! t = Some w -> awake_ok (worker_stopped s) w;
}.

(** While worker [t] runs: it is counted, and the others are in order. *)
Record running_at (t : nat) (s : state) : Prop := {
  ra_vars : vars_ok s;
  ra_flusher : flusher_ok s;
  ra_running : forall w', running_workers s =
    live_count (<[t := w']> (workers s)) + (if exited (w_pc w') then 1 else 0);
  ra_awake : forall t' w', t' <> t -> workers s !! t' = Some w' -> awake_ok (worker_stopped s) w';
}.

Lemma running_of t w s :
  coroutines_ok s -> workers s !! t = Some w -> exited (w_pc w) = false -> running_at t s.
Proof using Type.
  intros [Hv Hf Hr Ha] Hw Hx. split; auto; [|eauto].
  intros w'. rewrite Hr, (live_count_insert _ _ _ w' Hw), Hx. destruct (exited (w_pc w')); lia.
Qed.

Lemma running_positive t s : running_at t s -> 0 < running_workers s.
Proof using Type.
  intros H. pose (w := {| w_flag := false; w_futex := futex_new; w_pc := WReturned |}).
  rewrite (ra_running t s H w). pose proof (live_count_nonneg (<[t := w]> (workers s))). simpl. lia.
Qed.

(** The worker comes to rest. *)
Lemma rests t w s :
  running_at t s -> exited (w_pc w) = false -> awake_ok (worker_stopped s) w ->
  coroutines_ok (set_worker t w s).
Proof using Type.
  intros [Hv Hf Hr Ha] Hx Hw. split.
  - destruct Hv. split; assumption.
  - exact Hf.
  - change (running_workers s = live_count (<[t := w]> (workers s))). rewrite (Hr w), Hx. lia.
  - intros t' w' E. cbn in E. apply list_lookup_insert_Some in E as [(<- & <- & _)|[Hne E]]; eauto.
Qed.

(** A notification wakes a flusher that sleeps, and does nothing else. *)
Lemma notify_flusher_is s :
  waiting (fl_futex (flusher s)) = is_fwaiting (fl_pc (flusher s)) ->
  exists x, waiting x = false /\
    notify_flusher s = set_ffutex x (if is_fwaiting (fl_pc (flusher s)) then FReady else fl_pc (flusher s)) s.
Proof using Type.
  intros Hf. unfold notify_flusher. destruct (futex_notify_wakes (fl_futex (flusher s))) as [Hw Hi].
  destruct (futex_notify (fl_futex (flusher s))) as [x woken]. simpl in *.
  rewrite Hf in Hw. subst woken. exists x. auto.
Qed.

Lemma vars_wake x s :
  vars_ok s -> waiting x = false ->
  vars_ok (set_ffutex x (if is_fwaiting (fl_pc (flusher s)) then FReady else fl_pc (flusher s)) s).
Proof using Type.
  intros [] Hx. split; auto; simpl; destruct (fl_pc (flusher s)); simpl in *; auto.
Qed.

Lemma exits t w pc s :
  running_at t s -> waiting (w_futex w) = false -> exited pc = true -> coroutines_ok (worker_exit t w pc s).
Proof using Type.
  intros H Hw Hx. pose proof (running_positive _ _ H) as Hpos. destruct H as [Hv Hf Hr Ha].
  unfold worker_exit. set (s1 := with_running _ (set_worker t (pc_worker pc w) s)).
  assert (running_workers s1 = live_count (workers s1)) as Hrun.
  { change (running_workers s - 1 = live_count (<[t := pc_worker pc w]> (workers s))).
    rewrite (Hr (pc_worker pc w)). simpl. rewrite Hx. lia. }
  assert (vars_ok s1) as Hv1 by (destruct Hv; split; assumption).
  assert (forall t' w', workers s1 !! t' = Some w' -> awake_ok (worker_stopped s1) w') as Ha1.
  { intros t' w' E. cbn in E. apply list_lookup_insert_Some in E as [(<- & <- & _)|[Hne E]]; [|eauto].
    unfold awake_ok. simpl. rewrite Hw. destruct pc; try discriminate; split_all; auto; discriminate. }
  assert (fl_pc (flusher s1) <> FReturned) as Hret.
  { intros E. unfold flusher_ok in Hf. change (fl_pc (flusher s1)) with (fl_pc (flusher s)) in E.
    rewrite E in Hf. lia. }
  destruct (Z.eqb_spec (running_workers s1) 0) as [H0|H0].
  - destruct (notify_flusher_is s1 (v_futex _ Hv1)) as (x & Hxw & ->). split.
    + apply vars_wake; assumption.
    + unfold flusher_ok. simpl. change (flusher s1) with (flusher s) in *.
      destruct (fl_pc (flusher s)); simpl; auto. congruence.
    + exact Hrun.
    + exact Ha1.
  - split; auto. unfold flusher_ok in *. change (flusher s1) with (flusher s) in *.
    destruct (fl_pc (flusher s)); auto; [tauto|congruence].
Qed.

Lemma resumes t w iod s :
  running_at t s -> waiting (w_futex w) = false -> w_flag w = true \/ worker_stopped s = true ->
  coroutines_ok (worker_resumed flags t w iod s).
Proof using Type.
  intros H Hw Hor. unfold worker_resumed. destruct (worker_stopped s) eqn:Hs; [apply exits; auto|].
  destruct Hor as [Hf|]; [|discriminate]. rewrite Hf. cbn [negb].
  destruct (need_io_buf _ _); (apply rests; [exact H|reflexivity|]); unfold awake_ok; simpl; rewrite Hw;
    split_all; auto; discriminate.
Qed.

Lemma tops t w iod s :
  running_at t s -> waiting (w_futex w) = false -> coroutines_ok (worker_top flags t w iod s).
Proof using Type.
  intros H Hw. unfold worker_top. destruct (worker_stopped s) eqn:Hs; cbn [negb andb].
  { apply resumes; auto. }
  destruct (w_flag w) eqn:Hflag; cbn [negb].
  { apply resumes; auto. }
  destruct (futex_wait_blocks (w_futex w) true Hw) as [Hblk Hwait].
  destruct (futex_wait (w_futex w) true) as [x blocked]. simpl in *. subst blocked.
  apply rests; [exact H|reflexivity|]. unfold awake_ok. simpl. rewrite Hs. split_all; auto; discriminate.
Qed.

Lemma finishes t w res lba iod s :
  running_at t s -> waiting (w_futex w) = false -> coroutines_ok (worker_finish flags t w res lba iod s).
Proof using Type.
  intros H Hw. pose proof (running_positive _ _ H) as Hpos. destruct H as [Hv Hf Hr Ha].
  unfold worker_finish. set (s1 := set_pending _ _). apply tops; [|exact Hw].
  assert (vars_ok s1) as Hv1.
  { destruct Hv. split; auto. change (is_u 16 (uwrap 16 (fl_pending (flusher s) + 1))). apply uwrap_is_u; lia. }
  assert (fl_pc (flusher s1) <> FReturned) as Hret.
  { intros E. unfold flusher_ok in Hf. change (fl_pc (flusher s1)) with (fl_pc (flusher s)) in E.
    rewrite E in Hf. lia. }
  destruct (Z.eqb_spec (fl_pending (flusher s)) 0) as [H0|H0].
  - destruct (notify_flusher_is s1 (v_futex _ Hv1)) as (x & Hxw & ->). split; auto.
    + apply vars_wake; assumption.
    + unfold flusher_ok. simpl. destruct (fl_pc (flusher s)) eqn:E; simpl; auto. contradiction.
  - split; auto. unfold flusher_ok in *. change (fl_pc (flusher s1)) with (fl_pc (flusher s)) in *.
    destruct (fl_pc (flusher s)); auto; [tauto|congruence].
Qed.

(** ** The flusher *)

Lemma flusher_tops s :
  coroutines_ok s -> fl_pc (flusher s) = FReady -> coroutines_ok (flusher_top s).
Proof using Type.
  intros [Hv Hf Hr Ha] E. unfold flusher_top.
  destruct (Z.ltb_spec 0 (fl_pending (flusher s))) as [Hp|Hp].
  { split; [|exact I|exact Hr|exact Ha]. destruct Hv as [V1 V2 V3 V4]. rewrite E in V3.
    split; simpl; auto. range. }
  assert (fl_pending (flusher s) = 0) as H0 by (pose proof (v_pending _ Hv); unfold is_u in *; lia).
  destruct (Z.eqb_spec (running_workers s) 0) as [Hz|Hz].
  { split; [|unfold flusher_ok; simpl; auto|exact Hr|exact Ha]. destruct Hv as [V1 V2 V3 V4]. rewrite E in V3.
    split; simpl; auto. }
  rewrite H0. cbn [Z.eqb].
  destruct (futex_wait_blocks (fl_futex (flusher s)) true) as [Hblk Hwait];
    [rewrite (v_futex _ Hv), E; reflexivity|].
  destruct (futex_wait (fl_futex (flusher s)) true) as [x blocked]. simpl in *. subst blocked.
  split; [|unfold flusher_ok; simpl; auto|exact Hr|exact Ha]. destruct Hv. split; simpl; auto.
Qed.

Lemma flusher_commits nr r s :
  coroutines_ok s -> is_fwaiting (fl_pc (flusher s)) = false ->
  coroutines_ok (flusher_committed element_size nr r s).
Proof using Type.
  intros [Hv Hf Hr Ha] E.
  assert (forall pc, match pc with FReady | FFailed _ | FStopped => True | _ => False end ->
    coroutines_ok (set_fpc pc s)) as Hset.
  { intros pc Hpc. destruct pc; try contradiction; (split; [|exact I|exact Hr|exact Ha]);
      destruct Hv as [V1 V2 V3 V4]; (split; simpl; auto); rewrite V3; exact E. }
  unfold flusher_committed. destruct r; [destruct (_ =? _)|..]; apply Hset; exact I.
Qed.

(** ** The fetch *)

(** The tags in [ns] are about to be notified. *)
Definition notifying (ns : list nat) (s : state) : Prop :=
  vars_ok s /\ flusher_ok s /\ running_workers s = live_count (workers s) /\
  forall t w, workers s !! t = Some w ->
    if decide (t ∈ ns) then
      waiting (w_futex w) = is_wwaiting (w_pc w) /\ (w_flag w = true \/ worker_stopped s = true) /\
      lost (w_pc w) = false
    else awake_ok (worker_stopped s) w.

Lemma notifying_done s : notifying [] s -> coroutines_ok s.
Proof using Type. intros (Hv & Hf & Hr & Ha). split; auto. Qed.

Lemma notify_next t ns s : notifying (t :: ns) s -> notifying ns (notify_worker t s).
Proof using Type.
  intros (Hv & Hf & Hr & Ha). unfold notify_worker. destruct (workers s !! t) as [w|] eqn:E.
  - pose proof (Ha t w E) as Hw. rewrite decide_True in Hw by left. destruct Hw as (Hw & Hor & Has).
    destruct (futex_notify_wakes (w_futex w)) as [Hn Hx]. destruct (futex_notify (w_futex w)) as [x woken].
    simpl in Hn, Hx. subst woken. rewrite Hw.
    set (w' := futex_worker x (if is_wwaiting (w_pc w) then WWoken else w_pc w) w).
    assert (awake_ok (worker_stopped s) w' /\ exited (w_pc w') = exited (w_pc w)) as [Hw' Hx'].
    { unfold awake_ok, w'. simpl. rewrite Hx. destruct (w_pc w); simpl; split_all; auto; discriminate. }
    split; [destruct Hv; split; assumption|]. split; [exact Hf|]. split.
    { change (running_workers s = live_count (<[t := w']> (workers s))).
      rewrite (live_count_insert _ _ _ _ E), Hx', Hr. destruct (exited _); lia. }
    intros t' w1 E1. cbn in E1. apply list_lookup_insert_Some in E1 as [(<- & <- & _)|[Hne E1]].
    + destruct (decide (t ∈ ns)); [|exact Hw']. destruct Hw' as (H1 & _ & _ & H2). auto.
    + specialize (Ha t' w1 E1). destruct (decide (t' ∈ ns)) as [Hin|Hin].
      * rewrite decide_True in Ha by (right; exact Hin). exact Ha.
      * rewrite decide_False in Ha; [exact Ha|]. intros Hin'. apply elem_of_cons in Hin' as [->|]; auto.
  - split; [exact Hv|]. split; [exact Hf|]. split; [exact Hr|]. intros t' w1 E1. specialize (Ha t' w1 E1).
    destruct (decide (t' ∈ ns)) as [Hin|Hin].
    + rewrite decide_True in Ha by (right; exact Hin). exact Ha.
    + rewrite decide_False in Ha; [exact Ha|]. intros Hin'. apply elem_of_cons in Hin' as [->|]; [congruence|auto].
Qed.

Lemma delivers_tag t s : coroutines_ok s -> coroutines_ok (deliver_tag t s).
Proof using Type.
  intros [Hv Hf Hr Ha]. unfold deliver_tag. destruct (workers s !! t) as [w|] eqn:E; [|split; auto].
  apply notifying_done, notify_next. split; [destruct Hv; split; assumption|]. split; [exact Hf|]. split.
  - change (running_workers s = live_count (<[t := flag_worker true w]> (workers s))).
    rewrite (live_count_insert _ _ _ _ E), Hr. simpl. destruct (exited _); lia.
  - intros t' w' E'. cbn in E'. apply list_lookup_insert_Some in E' as [(<- & <- & _)|[Hne E']].
    + rewrite decide_True by left. destruct (Ha t w E) as (H1 & _ & _ & H2). auto.
    + rewrite decide_False; [exact (Ha t' w' E')|]. intros Hin. apply elem_of_cons in Hin as [->|Hin]; [auto|inversion Hin].
Qed.

Lemma fetches tags : forall s, coroutines_ok s -> coroutines_ok (fetch_cb tags s).
Proof using Type.
  unfold fetch_cb. induction tags as [|t tags IH]; intros s H; [exact H|]. apply IH, delivers_tag, H.
Qed.

Lemma fetch_ends r s : coroutines_ok s -> coroutines_ok (fetch_end r s).
Proof using Type.
  intros [Hv Hf Hr Ha]. unfold fetch_end.
  assert (notifying (seq 0 (length (workers s))) (with_fetch_end r s)) as H.
  { split; [destruct Hv as [V1 V2 V3 V4]; split; simpl; eauto; split; eauto|]. split; [exact Hf|]. split; [exact Hr|].
    intros t w E. cbn in E. pose proof (lookup_lt_Some _ _ _ E).
    rewrite decide_True by (apply list_elem_of_In, in_seq; lia).
    destruct (Ha t w E) as (H1 & _ & _ & H2). auto. }
  revert H. generalize (with_fetch_end r s). generalize (seq 0 (length (workers s))).
  intros l. induction l as [|t l IH]; intros s0 H; [apply notifying_done, H|]. apply IH, notify_next, H.
Qed.

(** ** Events *)

Definition at_pc (P : worker_pc -> Prop) (t : nat) (s : state) : Prop :=
  exists w, workers s !! t = Some w /\ P (w_pc w).

(** What may resume a coroutine, no command being cancelled. *)
Definition enabled (e : event) (s : state) : Prop :=
  match e with
  | EFlusher => fl_pc (flusher s) = FReady
  | ECommitDone r => exists cur nr taken, fl_pc (flusher s) = FCommitting cur nr taken
  | EWorker t _ => at_pc (fun pc => pc = WTop \/ pc = WWoken) t s
  | ERegistered t r => r <> AsyncStopped /\ at_pc (fun pc => pc = WRegistering) t s
  | EHandled t c _ => c <> Unfinished /\ at_pc (fun pc => exists io_buf, pc = WHandling io_buf) t s
  | EUnregistered t r _ => r <> AsyncStopped /\ at_pc (fun pc => exists res lba, pc = WUnregistering res lba) t s
  | EFetched _ | EFetchEnd _ => True
  end.

Lemma result_running t n res s : running_at n s -> running_at n (with_result t res s).
Proof using Type. intros [[] ? ? ?]. split; [split; assumption|assumption..]. Qed.

Lemma resume_keeps e s : coroutines_ok s -> enabled e s -> coroutines_ok (resume b e s).
Proof using Type.
  intros H He.
  assert (forall t w, workers s !! t = Some w -> exited (w_pc w) = false -> running_at t s) as Hat
    by (intros; eapply running_of; eassumption).
  assert (forall t w, workers s !! t = Some w -> w_pc w <> WWaiting -> waiting (w_futex w) = false) as Hidle.
  { intros t w Hw Hpc. rewrite (proj1 (co_awake s H t w Hw)). destruct (w_pc w); reflexivity || congruence. }
  destruct e as [|r|t iod|t r|t c iod|t r iod|tags|r]; cbn [enabled resume step] in *.
  - apply flusher_tops; assumption.
  - destruct He as (cur & nr & taken & E). rewrite E. apply flusher_commits; [exact H|rewrite E; reflexivity].
  - destruct He as (w & Hw & Hpc). rewrite Hw. pose proof (co_awake s H t w Hw) as (_ & _ & Hor & _).
    destruct Hpc as [Hpc|Hpc]; rewrite Hpc; cbn [from_option id].
    + apply tops; [eapply Hat|eapply Hidle]; try eassumption; rewrite Hpc; reflexivity || discriminate.
    + apply resumes; [eapply Hat|eapply Hidle|auto]; try eassumption; rewrite Hpc; reflexivity || discriminate.
  - destruct He as (Hr & w & Hw & Hpc). rewrite Hw, Hpc.
    assert (running_at t s) as Hrun by (eapply Hat; [eassumption|rewrite Hpc; reflexivity]).
    assert (waiting (w_futex w) = false) as Hf by (eapply Hidle; [eassumption|rewrite Hpc; discriminate]).
    destruct r; cbn [from_option id]; [|apply exits; auto|congruence].
    apply rests; [exact Hrun|reflexivity|]. unfold awake_ok. simpl. split_all; auto; discriminate.
  - destruct He as (Hc & w & Hw & io_buf & Hpc). rewrite Hw, Hpc.
    assert (running_at t s) as Hrun by (eapply Hat; [eassumption|rewrite Hpc; reflexivity]).
    assert (waiting (w_futex w) = false) as Hf by (eapply Hidle; [eassumption|rewrite Hpc; discriminate]).
    destruct c; try contradiction; destruct (io_outcome _) as [res lba]; cbn [from_option id]; destruct io_buf;
      try (apply finishes; [apply result_running; exact Hrun|exact Hf]);
      (apply rests; [apply result_running; exact Hrun|reflexivity|]); unfold awake_ok; simpl; split_all; auto; discriminate.
  - destruct He as (Hr & w & Hw & res & lba & Hpc). rewrite Hw, Hpc.
    assert (running_at t s) as Hrun by (eapply Hat; [eassumption|rewrite Hpc; reflexivity]).
    assert (waiting (w_futex w) = false) as Hf by (eapply Hidle; [eassumption|rewrite Hpc; discriminate]).
    destruct r; cbn [from_option id]; [apply finishes; auto|apply exits; auto|congruence].
  - apply fetches, H.
  - apply fetch_ends, H.
Qed.

(** *** The number of workers *)

Lemma length_notify t s : length (workers (notify_worker t s)) = length (workers s).
Proof using Type.
  unfold notify_worker. destruct (_ !! t); [|reflexivity]. destruct (futex_notify _) as [x []]; apply length_insert.
Qed.

Lemma length_exit t w pc s : length (workers (worker_exit t w pc s)) = length (workers s).
Proof using Type. rewrite workers_exit. apply length_insert. Qed.

Lemma length_resumed t w iod s : length (workers (worker_resumed flags t w iod s)) = length (workers s).
Proof using Type.
  unfold worker_resumed. destruct (worker_stopped s); [apply length_exit|].
  destruct (negb _); [apply length_insert|]. destruct (need_io_buf _ _); apply length_insert.
Qed.

Lemma length_top t w iod s : length (workers (worker_top flags t w iod s)) = length (workers s).
Proof using Type.
  unfold worker_top. destruct (_ && _); [|apply length_resumed].
  destruct (futex_wait _ _) as [x []]; [apply length_insert|apply length_resumed].
Qed.

Lemma length_finish t w res lba iod s :
  length (workers (worker_finish flags t w res lba iod s)) = length (workers s).
Proof using Type.
  unfold worker_finish. rewrite length_top. destruct (_ =? 0); [rewrite notify_flusher_workers|]; reflexivity.
Qed.

Lemma length_resume e s : length (workers (resume b e s)) = length (workers s).
Proof using Type.
  destruct e as [|r|t iod|t r|t c iod|t r iod|tags|r]; cbn [resume step].
  - rewrite workers_flusher_top. reflexivity.
  - destruct (fl_pc _); try reflexivity. rewrite workers_committed. reflexivity.
  - destruct (workers s !! t) as [w|]; [|reflexivity].
    destruct (w_pc w); try reflexivity; [apply length_top|apply length_resumed].
  - destruct (workers s !! t) as [w|]; [|reflexivity]. destruct (w_pc w); try reflexivity.
    destruct r; [apply length_insert|apply length_exit|apply length_insert].
  - destruct (workers s !! t) as [w|]; [|destruct c; reflexivity].
    destruct c; try reflexivity; destruct (w_pc w); try reflexivity; destruct (io_outcome _); destruct io_buf;
      first [apply length_insert|refine (eq_trans (length_finish _ _ _ _ _ _) _); reflexivity].
  - destruct (workers s !! t) as [w|]; [|reflexivity]. destruct (w_pc w); try reflexivity.
    destruct r; [apply length_finish|apply length_exit|apply length_insert].
  - revert s. unfold fetch_cb. induction tags as [|t tags IH]; intros s; [reflexivity|]. cbn [fold_left].
    rewrite IH. unfold deliver_tag. destruct (workers s !! t); [|reflexivity]. rewrite length_notify. apply length_insert.
  - unfold fetch_end. change (length (workers s)) with (length (workers (with_fetch_end r s))) at 2.
    generalize (with_fetch_end r s). generalize (seq 0 (length (workers s))).
    intros l. induction l as [|t l IH]; intros s0; [reflexivity|]. cbn [fold_left]. rewrite IH. apply length_notify.
Qed.
(** ** The work left once the fetch has ended *)

Definition is_fetch_event (e : event) : bool :=
  match e with EFetched _ | EFetchEnd _ => true | _ => false end.

Lemma stopped_exit t w pc s : worker_stopped (worker_exit t w pc s) = worker_stopped s.
Proof using Type. unfold worker_exit. destruct (_ =? 0); [rewrite notify_flusher_stopped|]; reflexivity. Qed.

Lemma stopped_finish t w res lba iod s :
  worker_stopped s = true -> worker_stopped (worker_finish flags t w res lba iod s) = true.
Proof using Type.
  intros H. unfold worker_finish. destruct (_ =? 0);
    rewrite worker_top_stopped, stopped_exit; rewrite ?notify_flusher_stopped; exact H.
Qed.

Lemma resume_works e s :
  coroutines_ok s -> enabled e s -> is_fetch_event e = false -> worker_stopped s = true ->
  work (resume b e s) < work s /\ worker_stopped (resume b e s) = true.
Proof using Type.
  intros H He Hn Hst. pose proof (co_vars s H) as Hv.
  assert (0 <= fl_pending (flusher s)) as Hp by apply (v_pending s Hv).
  assert (0 <= flusher_work (fl_pc (flusher s))) as Hf.
  { pose proof (v_commit s Hv). unfold is_u in *. destruct (fl_pc (flusher s)); simpl; lia. }
  assert (forall t w pc, workers s !! t = Some w -> pc_work pc < pc_work (w_pc w) ->
    work (set_worker t (pc_worker pc w) s) < work s /\ worker_stopped (set_worker t (pc_worker pc w) s) = true) as Hset.
  { intros t w pc Hw Hpc. rewrite (work_set _ _ _ _ Hw). simpl. split; [lia|exact Hst]. }
  assert (forall t w pc, workers s !! t = Some w -> exited pc = true -> 6 <= pc_work (w_pc w) ->
    work (worker_exit t w pc s) < work s /\ worker_stopped (worker_exit t w pc s) = true) as Hexit.
  { intros t w pc Hw Hx Hpc. rewrite stopped_exit. pose proof (work_exit t w w pc s Hf Hw Hx). split; [lia|exact Hst]. }
  assert (forall t w res lba iod, workers s !! t = Some w -> 12 <= pc_work (w_pc w) ->
    work (worker_finish flags t w res lba iod s) < work s /\
    worker_stopped (worker_finish flags t w res lba iod s) = true) as Hfin.
  { intros. split; [eapply work_finish; eassumption|apply stopped_finish, Hst]. }
  destruct e as [|r|t iod|t r|t c iod|t r iod|tags|r]; try discriminate; cbn [enabled resume step] in *.
  - unfold flusher_top.
    destruct (Z.ltb_spec 0 (fl_pending (flusher s))); [split; [unfold work; simpl; rewrite He; simpl; lia|exact Hst]|].
    destruct (_ =? 0); [split; [unfold work; simpl; rewrite He; simpl; lia|exact Hst]|].
    destruct (futex_wait_blocks (fl_futex (flusher s)) (fl_pending (flusher s) =? 0)) as [Hb _];
      [rewrite (v_futex s Hv), He; reflexivity|].
    destruct (futex_wait _ _) as [x blocked]. simpl in Hb. subst blocked.
    assert (fl_pending (flusher s) = 0) as -> by lia.
    split; [unfold work; simpl; rewrite He; simpl; lia|exact Hst].
  - destruct He as (cur & nr & taken & E). rewrite E. pose proof (v_commit s Hv) as Hc. rewrite E in Hc.
    unfold is_u in Hc. unfold flusher_committed.
    destruct r; [destruct (_ =? _)| |]; (split; [unfold work; simpl; rewrite E; simpl; lia|exact Hst]).
  - destruct He as (w & Hw & [Hpc|Hpc]); rewrite Hw, Hpc; cbn [from_option id].
    + rewrite worker_top_stopped by exact Hst. apply Hexit; auto. rewrite Hpc; simpl; lia.
    + unfold worker_resumed. rewrite Hst. apply Hexit; auto. rewrite Hpc; simpl; lia.
  - destruct He as (Hr & w & Hw & Hpc). rewrite Hw, Hpc.
    destruct r; cbn [from_option id]; [apply Hset|apply Hexit|congruence]; auto; rewrite Hpc; simpl; lia.
  - destruct He as (Hc & w & Hw & io_buf & Hpc). rewrite Hw, Hpc.
    destruct c; try contradiction; destruct (io_outcome _) as [res lba]; cbn [from_option id]; destruct io_buf.
    all: try (rewrite (work_set t w) by exact Hw; simpl; rewrite Hpc; split; [change (work s) with (work (with_result t res s)); simpl; lia|exact Hst]).
    all: split; [apply (work_finish flags t w w res lba iod (with_result t res s)); auto; rewrite Hpc; simpl; lia|apply stopped_finish, Hst].
  - destruct He as (Hr & w & Hw & res & lba & Hpc). rewrite Hw, Hpc.
    destruct r; cbn [from_option id]; [apply Hfin|apply Hexit|congruence]; auto; rewrite Hpc; simpl; lia.
Qed.

(** ** Turns

    The environment: the handler completes, no command is cancelled, the fetch
    posts at most [n] completions of deliveries before its last, each in one of
    the two buffers, and a buffer provided again gets its index back. *)

Definition nr_fetches (h : history) : nat := length (List.filter (fun y => is_fetch (projT1 y)) h).

Context (K : env) (sqe : fetch_sqe) (bgid : Z) (n : nat).

Record completes : Prop := {
  handler_completes : forall h q t buf, K h (HandleIo q t buf) <> Unfinished;
  io_not_cancelled : forall h fd op cmd addr, K h (UringIo fd op cmd addr) <> AsyncStopped;
  batch_not_cancelled : forall h fd op cmd addr len, K h (UringBatch fd op cmd addr len) <> AsyncStopped;
  fetch_ends_ : forall h fd e,
    match K h (UringFetch fd e) with
    | FetchMore r => (nr_fetches h < n)%nat /\ 0 <= cqe_res r /\ (cqe_bid r = 0 \/ cqe_bid r = 1)
    | FetchDone r => r <> AsyncStopped
    end;
  push_index : forall h bid, bid = 0 \/ bid = 1 ->
    K h (PushBuffer (b_q_id_ b) (fetch_buf_ b bid) (fetch_buf_size_ b)) = bid;
}.

Hypothesis HK : completes.

Lemma nr_fetches_app h t : nr_fetches (h ++ t) = (nr_fetches h + nr_fetches t)%nat.
Proof using Type. unfold nr_fetches. rewrite List.filter_app, length_app. reflexivity. Qed.

(** Nothing for [t] to do. *)
Definition idle (t : turn) (s : state) : Prop :=
  match t with
  | TFlusher => match fl_pc (flusher s) with FReady | FCommitting _ _ _ => False | _ => True end
  | TWorker t => forall w, workers s !! t = Some w ->
      match w_pc w with WWaiting | WReturned | WFailed _ | WStopped | WAssertFailed => True | _ => False end
  | TFetch => True
  end.

Record good (x : run_state) : Prop := {
  good_vars : coroutines_ok (run_vars x);
  good_fetch : fetch_stopped x = false;
  good_workers : length (workers (run_vars x)) = Z.to_nat (b_queue_depth_ b);
}.

Lemma good_happen e x : good x -> enabled e (run_vars x) -> good (happen b e x).
Proof using Type.
  intros [Hx Hs Hl] He. split; [apply resume_keeps; assumption|exact Hs|].
  cbn [happen run_vars]. rewrite length_resume. exact Hl.
Qed.

(** Completions of the fetch are counted, up to its last. *)
Definition counted (h : history) (x' : run_state) (h' : history) : Prop :=
  (nr_fetches h <= nr_fetches h')%nat /\
  (worker_stopped (run_vars x') = false -> (nr_fetches h <= n)%nat -> (nr_fetches h' <= n)%nat).

(** A turn, and what it brings the run closer to: before the end of the fetch a
    completion of the fetch, after it less work. *)
Definition turn_to (t : turn) (x : run_state) (h : history) (x' : run_state) (h' : history) : Prop :=
  exec K (batch_turn b sqe bgid t x) h = (SetValue x', h') /\ good x' /\ counted h x' h' /\
  (worker_stopped (run_vars x) = true ->
     worker_stopped (run_vars x') = true /\
     (work (run_vars x') < work (run_vars x) \/ x' = x /\ idle t (run_vars x))) /\
  (worker_stopped (run_vars x) = false -> t = TFetch ->
     worker_stopped (run_vars x') = true \/ (nr_fetches h < nr_fetches h')%nat).

Lemma turn_event t e x h q :
  good x -> exec K (batch_turn b sqe bgid t x) h = (SetValue (happen b e x), h ++ q) ->
  enabled e (run_vars x) -> is_fetch_event e = false -> t <> TFetch -> nr_fetches q = O ->
  turn_to t x h (happen b e x) (h ++ q).
Proof using Type.
  intros Hx He Hen Hn Ht Hq. split; [exact He|]. split; [apply good_happen; assumption|].
  split; [unfold counted; rewrite nr_fetches_app; lia|]. split; [|contradiction].
  intros Hst. destruct (resume_works e (run_vars x) (good_vars x Hx) Hen Hn Hst). auto.
Qed.

Lemma turn_idle t x h :
  good x -> exec K (batch_turn b sqe bgid t x) h = (SetValue x, h) -> idle t (run_vars x) -> t <> TFetch ->
  turn_to t x h x h.
Proof using Type.
  intros Hx He Hi Ht. split; [exact He|]. split; [exact Hx|]. split; [unfold counted; lia|]. split; [auto|contradiction].
Qed.

Lemma driver_reply_lift r : driver_reply (lift_res r) = r.
Proof using Type. destruct r; reflexivity. Qed.

Lemma flusher_turn_to x h : good x -> exists x' h', turn_to TFlusher x h x' h'.
Proof using Type.
  intros Hx. destruct (fl_pc (flusher (run_vars x))) eqn:Hpc.
  1: { exists (happen b EFlusher x), (h ++ []).
    apply turn_event; [exact Hx| |exact Hpc|reflexivity|discriminate|reflexivity]. cbn [batch_turn].
    unfold flusher_turn. rewrite Hpc, app_nil_r. reflexivity. }
  1: { eexists (happen b (ECommitDone _) x), (h ++ [_]).
    apply turn_event; [exact Hx| |cbn; eauto|reflexivity|discriminate|].
    - cbn [batch_turn]. unfold flusher_turn. rewrite Hpc.
      unfold await_command. rewrite exec_connect. cbn. rewrite driver_reply_lift. reflexivity.
    - reflexivity. }
  all: exists x, h; apply turn_idle; [exact Hx|cbn [batch_turn]; unfold flusher_turn; rewrite Hpc; reflexivity
    |cbn; rewrite Hpc; exact I|discriminate].
Qed.

(** Reading the descriptor, or not. *)
Lemma exec_iod (c : bool) t h :
  exists iod q, exec K (if c then tag_iod b t else just no_iod) h = (SetValue iod, h ++ q) /\ nr_fetches q = O.
Proof using Type.
  destruct c; [eexists _, [_]; unfold tag_iod; rewrite exec_trigger; split; reflexivity|].
  exists no_iod, []. rewrite app_nil_r. split; reflexivity.
Qed.

Lemma worker_turn_to t x h : good x -> exists x' h', turn_to (TWorker t) x h x' h'.
Proof using HK.
  intros Hx. destruct (workers (run_vars x) !! t) as [w|] eqn:Hw.
  2: { exists x, h. apply turn_idle; [exact Hx|cbn [batch_turn]; unfold worker_turn; rewrite Hw; reflexivity
    |intros w Hw'; congruence|discriminate]. }
  assert (forall P : worker_pc -> Prop, P (w_pc w) -> at_pc P t (run_vars x)) as Hat by (intros P HP; exists w; auto).
  destruct (w_pc w) eqn:Hpc.
  2, 7, 8, 9, 10: exists x, h; apply turn_idle; [exact Hx|cbn [batch_turn]; unfold worker_turn; rewrite Hw, Hpc; reflexivity
    |intros w' Hw'; rewrite Hw in Hw'; injection Hw' as <-; rewrite Hpc; exact I|discriminate].
  1, 2: destruct (exec_iod (negb (worker_stopped (run_vars x)) && w_flag w) t h) as (iod & q & Hq & Hnq);
    exists (happen b (EWorker t iod) x), (h ++ q); (apply turn_event;
      [exact Hx|cbn [batch_turn]; unfold worker_turn; rewrite Hw, Hpc, exec_let_value, Hq; reflexivity
      |apply Hat; auto|reflexivity|discriminate|exact Hnq]).
  - eexists (happen b (ERegistered t _) x), (h ++ [_]).
    apply turn_event; [exact Hx| | |reflexivity|discriminate|].
    + cbn [batch_turn]. unfold worker_turn. rewrite Hw, Hpc. unfold await_command. rewrite exec_connect. cbn.
      rewrite driver_reply_lift. reflexivity.
    + split; [apply (io_not_cancelled HK)|auto].
    + reflexivity.
  - set (c := K h (HandleIo (b_q_id_ b) (Z.of_nat t) (get_buf_ (b_buf_bases_ b) (Z.of_nat t)))).
    assert (c <> Unfinished) as Hc by apply (handler_completes HK).
    set (y := existT (HandleIo (b_q_id_ b) (Z.of_nat t) (get_buf_ (b_buf_bases_ b) (Z.of_nat t))) c : sigT reply).
    destruct (exec_iod (negb io_buf) t (h ++ [y])) as (iod & q & Hq & Hnq). rewrite <- app_assoc in Hq.
    exists (happen b (EHandled t c iod) x), (h ++ ([y] ++ q)).
    apply turn_event; [exact Hx| | |reflexivity|discriminate|rewrite nr_fetches_app, Hnq; reflexivity].
    + cbn [batch_turn]. unfold worker_turn. rewrite Hw, Hpc, exec_connect, exec_trigger. fold c. fold y. unfold id.
      assert (exec K (let_value (if io_buf then just no_iod else tag_iod b t)
        (fun iod => just (happen b (EHandled t c iod) x))) (h ++ [y]) =
        (SetValue (happen b (EHandled t c iod) x), h ++ ([y] ++ q))) as E.
      { rewrite exec_let_value. destruct io_buf; cbn [negb] in Hq; rewrite Hq; reflexivity. }
      destruct c; try exact E. contradiction.
    + split; [exact Hc|]. apply Hat. eauto.
  - set (cmd := UringIo (b_ublkc_fd_ b) UBLK_U_IO_UNREGISTER_IO_BUF
      {| io_q_id := uwrap 16 (b_q_id_ b); io_tag := uwrap 16 (Z.of_nat t); io_result := 0;
         io_addr := uwrap 64 (Z.of_nat t) |} (uwrap 64 0)).
    destruct (exec_iod (match K h cmd with AsyncOk _ => true | _ => false end) t (h ++ [existT cmd (K h cmd)])) as (iod & q & Hq & Hnq).
    rewrite <- app_assoc in Hq. exists (happen b (EUnregistered t (K h cmd) iod) x), (h ++ ([existT cmd (K h cmd)] ++ q)).
    apply turn_event; [exact Hx| | |reflexivity|discriminate|rewrite nr_fetches_app, Hnq; reflexivity].
    + cbn [batch_turn]. unfold worker_turn. rewrite Hw, Hpc. unfold await_command. rewrite exec_connect.
      unfold raw_unregister_io_buf, io_cmd. rewrite exec_trigger. fold cmd. rewrite driver_reply_lift, exec_let_value.
      destruct (K h cmd); rewrite Hq; reflexivity.
    + split; [apply (io_not_cancelled HK)|]. apply Hat. eauto.
Qed.

Lemma read_tags_runs bid js : forall h, exists tags q,
  exec K (read_tags b bid js) h = (SetValue tags, h ++ q) /\ nr_fetches q = O.
Proof using Type.
  induction js as [|j js IH]; intros h; cbn [read_tags]; [exists [], []; rewrite app_nil_r; auto|].
  rewrite exec_let_value, exec_trigger, exec_let_value.
  destruct (IH (h ++ [existT (ReadTag (b_q_id_ b) bid j) (K h (ReadTag (b_q_id_ b) bid j))])) as (tags & q & -> & Hq).
  rewrite <- app_assoc. eexists _, (_ ++ q). split; [reflexivity|]. rewrite nr_fetches_app, Hq. reflexivity.
Qed.

Lemma fetch_end_stopped r s : worker_stopped (fetch_end r s) <> false.
Proof using Type.
  unfold fetch_end. assert (worker_stopped (with_fetch_end r s) = true) as H by reflexivity. revert H.
  generalize (with_fetch_end r s). generalize (seq 0 (length (workers s))).
  intros l. induction l as [|t l IH]; intros s0 H; cbn [fold_left]; [congruence|]. apply IH.
  unfold notify_worker. destruct (_ !! t); [|exact H]. destruct (futex_notify _) as [y []]; exact H.
Qed.

Lemma fetch_turn_to x h : good x -> exists x' h', turn_to TFetch x h x' h'.
Proof using HK.
  intros Hgood. pose proof (good_vars x Hgood) as Hx. pose proof (good_fetch x Hgood) as Hs.
  destruct (worker_stopped (run_vars x)) eqn:Hst.
  { exists x, h. split; [|split; [exact Hgood|split; [unfold counted; lia|split; [intros _; split; [exact Hst|right; split; [reflexivity|exact I]]|congruence]]]].
    cbn [batch_turn]. unfold fetch_turn. apply (v_stopped _ (co_vars _ Hx)) in Hst.
    rewrite bool_decide_eq_true_2 by exact Hst. rewrite orb_true_r. reflexivity. }
  set (c := UringFetch (b_ublkc_fd_ b) (fetch_io_cmds bgid (b_q_id_ b) sqe)).
  assert (exists x' q, exec K (batch_turn b sqe bgid TFetch x) h = (SetValue x', h ++ [existT c (K h c)] ++ q) /\ good x' /\
      nr_fetches q = O /\ (worker_stopped (run_vars x') = false -> (nr_fetches h < n)%nat))
    as (x' & q & E & Hg & Hq & Hlt).
  { cbn [batch_turn]. unfold fetch_turn. rewrite Hs.
    assert (bool_decide (is_Some (fetch_res (run_vars x))) = false) as ->.
    { apply bool_decide_eq_false_2. rewrite <- (v_stopped _ (co_vars _ Hx)), Hst. discriminate. }
    cbn [orb]. rewrite exec_let_value, exec_trigger. fold c.
    pose proof (fetch_ends_ HK h (b_ublkc_fd_ b) (fetch_io_cmds bgid (b_q_id_ b) sqe)) as Hend. fold c in Hend.
    destruct (K h c) as [r|[v|ec|]] eqn:Er; [| | |contradiction].
    2, 3: eexists _, []; rewrite app_nil_r; split; [reflexivity|];
      (split; [apply (good_happen (EFetchEnd _) x Hgood I)|split; [reflexivity|]]); intros Hns; exfalso;
      eapply fetch_end_stopped, Hns.
    destruct Hend as (Hlt & Hr & Hb). unfold fetch_callback.
    destruct (Z.ltb_spec (cqe_res r) 0); [lia|].
    destruct (fetch_range (fetch_off x) r) as [[js off] push] eqn:Ef. rewrite exec_let_value.
    destruct (read_tags_runs (cqe_bid r) js (h ++ [existT c (FetchMore r)])) as (tags & q & -> & Hq).
    rewrite <- app_assoc.
    pose proof (good_happen (EFetched tags) x Hgood I) as Hx'.
    assert (good {| run_vars := resume b (EFetched tags) (run_vars x); fetch_off := off;
      fetch_stopped := fetch_stopped x; log := log x ++ [EFetched tags] |}) as Hg by (destruct Hx'; split; assumption).
    destruct push as [bid|]; [|eexists _, q; split; [reflexivity|split; [exact Hg|auto]]].
    assert (bid = cqe_bid r) as ->.
    { unfold fetch_range in Ef. destruct (negb _); congruence. }
    rewrite exec_let_value. unfold push_buffer. rewrite exec_trigger, (push_index HK), Z.eqb_refl by exact Hb.
    eexists _, (q ++ [_]). rewrite <- !app_assoc. split; [reflexivity|].
    split; [exact Hg|]. rewrite nr_fetches_app, Hq. auto. }
  exists x', (h ++ [existT c (K h c)] ++ q). split; [exact E|]. split; [exact Hg|].
  unfold counted. rewrite !nr_fetches_app, Hq. change (nr_fetches [existT c (K h c)]) with 1%nat.
  split; [split; [lia|]|split; [congruence|intros _ _; right; lia]]. intros Hns _. specialize (Hlt Hns). lia.
Qed.

(** ** Rounds *)

(** A round: everyone has a turn, in any order. *)
Definition fair (r : list turn) : Prop :=
  TFetch ∈ r /\ TFlusher ∈ r /\ forall t, (t < Z.to_nat (b_queue_depth_ b))%nat -> TWorker t ∈ r.

Lemma turn_to_any t x h : good x -> exists x' h', turn_to t x h x' h'.
Proof using HK. destruct t; [apply flusher_turn_to|apply worker_turn_to|apply fetch_turn_to]. Qed.

Lemma batch_turns_app s1 s2 x h :
  exec K (batch_turns b sqe bgid (s1 ++ s2) x) h =
  match exec K (batch_turns b sqe bgid s1 x) h with
  | (SetValue x', h') => exec K (batch_turns b sqe bgid s2 x') h'
  | (SetError e, h') => (SetError e, h')
  | (SetStopped, h') => (SetStopped, h')
  | (Unfinished, h') => (Unfinished, h')
  end.
Proof using Type.
  revert x h. induction s1 as [|t s1 IH]; intros x h; [reflexivity|]. cbn [app batch_turns].
  rewrite !exec_let_value. destruct (exec K (batch_turn b sqe bgid t x) h) as [[x'|e| |] h']; auto.
Qed.

(** Turns before the end of the fetch, and after it. *)
Lemma turns_to r : forall x h, good x -> exists x' h',
  exec K (batch_turns b sqe bgid r x) h = (SetValue x', h') /\ good x' /\ counted h x' h' /\
  (worker_stopped (run_vars x) = true ->
     worker_stopped (run_vars x') = true /\
     (work (run_vars x') < work (run_vars x) \/ x' = x /\ Forall (fun t => idle t (run_vars x)) r)) /\
  (worker_stopped (run_vars x) = false -> TFetch ∈ r ->
     worker_stopped (run_vars x') = true \/ (nr_fetches h < nr_fetches h')%nat).
Proof using HK.
  induction r as [|t r IH]; intros x h Hx.
  { exists x, h. split; [reflexivity|]. split; [exact Hx|]. split; [unfold counted; lia|]. split; [auto|]. intros _ H. inversion H. }
  destruct (turn_to_any t x h Hx) as (x1 & h1 & E1 & Hx1 & [Hn1 Hc1] & Hst1 & Hf1).
  destruct (IH x1 h1 Hx1) as (x2 & h2 & E2 & Hx2 & [Hn2 Hc2] & Hst2 & Hf2).
  exists x2, h2. cbn [batch_turns]. rewrite exec_let_value, E1. split; [exact E2|]. split; [exact Hx2|].
  split.
  { split; [lia|]. intros Hns Hle. apply Hc2; [exact Hns|]. apply Hc1; [|exact Hle].
    destruct (worker_stopped (run_vars x1)) eqn:E; [|reflexivity]. destruct (Hst2 eq_refl). congruence. }
  split.
  - intros Hst. destruct (Hst1 Hst) as [H1 Hw1]. destruct (Hst2 H1) as [H2 Hw2]. split; [exact H2|].
    destruct Hw1 as [Hw1|[-> Hi]], Hw2 as [Hw2|[-> Hr]]; [left; lia|left; lia|left; lia|right; auto].
  - intros Hst Hin. destruct (worker_stopped (run_vars x1)) eqn:Hs1.
    { left. apply (Hst2 eq_refl). }
    apply elem_of_cons in Hin as [<-|Hin].
    + destruct (Hf1 Hst eq_refl) as [H|H]; [congruence|right; lia].
    + destruct (Hf2 eq_refl Hin) as [H|H]; [auto|right; lia].
Qed.

(** Nothing left to do for anyone: everything has completed. *)
Lemma idle_completed x r :
  good x -> worker_stopped (run_vars x) = true -> fair r -> Forall (fun t => idle t (run_vars x)) r -> all_completed x = true.
Proof using Type.
  intros [Hx Hs Hlen] Hst (_ & Hfl & Hw) Hi. rewrite Forall_forall in Hi.
  assert (forall t w, workers (run_vars x) !! t = Some w -> exited (w_pc w) = true) as Hexit.
  { intros t w E. assert (t < Z.to_nat (b_queue_depth_ b))%nat as Ht by (rewrite <- Hlen; eapply lookup_lt_Some, E).
    pose proof (Hi _ (Hw t Ht) w E) as Hidle. destruct (co_awake _ Hx t w E) as (_ & Hwait & _ & Hl).
    destruct (w_pc w); try contradiction; try discriminate; try reflexivity.
    destruct (Hwait eq_refl). congruence. }
  assert (running_workers (run_vars x) = 0) as Hrun.
  { rewrite (co_running _ Hx). clear - Hexit. induction (workers (run_vars x)) as [|w l IH]; [reflexivity|].
    simpl. rewrite (Hexit 0%nat w eq_refl). apply IH. intros t w' Hw'. apply (Hexit (S t) w' Hw'). }
  unfold all_completed. rewrite !andb_true_iff. split_all.
  - apply forallb_forall. intros w Hin. apply list_elem_of_In, list_elem_of_lookup in Hin as [t Ht].
    pose proof (Hexit t w Ht). unfold worker_completed. destruct (w_pc w); reflexivity || discriminate.
  - pose proof (Hi _ Hfl) as Hidle. cbn [idle] in Hidle. pose proof (co_flusher _ Hx) as Hf. unfold flusher_ok in Hf.
    unfold flusher_completed. destruct (fl_pc _); try contradiction; try reflexivity. destruct Hf. congruence.
  - rewrite bool_decide_eq_true_2, orb_true_r; [reflexivity|]. apply (v_stopped _ (co_vars _ Hx)), Hst.
Qed.

(** What has completed stays as it is. *)
Lemma completed_stays r : forall x h,
  all_completed x = true -> exec K (batch_turns b sqe bgid r x) h = (SetValue x, h).
Proof using Type.
  induction r as [|t r IH]; intros x h Hc; [reflexivity|]. cbn [batch_turns]. rewrite exec_let_value.
  assert (exec K (batch_turn b sqe bgid t x) h = (SetValue x, h)) as ->; [|apply IH, Hc].
  unfold all_completed in Hc. apply andb_true_iff in Hc as [Hc Hf]. apply andb_true_iff in Hc as [Hw Hfl].
  destruct t as [|t|]; cbn [batch_turn].
  - unfold flusher_turn, flusher_completed in *. destruct (fl_pc _); reflexivity || discriminate.
  - unfold worker_turn. destruct (workers (run_vars x) !! t) as [w|] eqn:E; [|reflexivity].
    rewrite forallb_forall in Hw. specialize (Hw w). rewrite <- list_elem_of_In in Hw.
    specialize (Hw (list_elem_of_lookup_2 _ _ _ E)). unfold worker_completed in Hw.
    destruct (w_pc w); reflexivity || discriminate.
  - unfold fetch_turn. rewrite Hf. reflexivity.
Qed.


(** *** Enough rounds *)

Lemma rounds_to_end rounds : forall x h,
  good x -> Forall fair rounds -> (nr_fetches h <= n)%nat -> (n - nr_fetches h < length rounds)%nat ->
  exists x' h', exec K (batch_turns b sqe bgid (concat rounds) x) h = (SetValue x', h') /\ good x' /\
    worker_stopped (run_vars x') = true.
Proof using HK.
  induction rounds as [|r rounds IH]; intros x h Hx Hf Hn Hl; [cbn in Hl; lia|].
  apply Forall_cons in Hf as [Hr Hf]. cbn [concat]. rewrite batch_turns_app.
  destruct (turns_to r x h Hx) as (x1 & h1 & -> & Hx1 & [_ Hc1] & Hst1 & Hf1).
  destruct (worker_stopped (run_vars x1)) eqn:E.
  - destruct (turns_to (concat rounds) x1 h1 Hx1) as (x2 & h2 & E2 & Hx2 & _ & Hst2 & _).
    exists x2, h2. split; [exact E2|]. split; [exact Hx2|]. apply Hst2, E.
  - destruct (worker_stopped (run_vars x)) eqn:E0; [destruct (Hst1 eq_refl); congruence|].
    destruct (Hf1 eq_refl (proj1 Hr)) as [H|H]; [congruence|]. specialize (Hc1 eq_refl Hn).
    apply IH; auto; cbn in Hl; lia.
Qed.

Lemma good_work x : good x -> 0 <= work (run_vars x).
Proof using Type.
  intros Hx. pose proof (co_vars _ (good_vars x Hx)) as Hv. unfold work.
  pose proof (workers_work_nonneg (workers (run_vars x))). pose proof (v_pending _ Hv). pose proof (v_commit _ Hv).
  unfold is_u in *. destruct (fl_pc (flusher (run_vars x))); simpl; lia.
Qed.

Lemma rounds_complete rounds : forall x h,
  good x -> worker_stopped (run_vars x) = true -> Forall fair rounds ->
  work (run_vars x) < Z.of_nat (length rounds) ->
  exists x' h', exec K (batch_turns b sqe bgid (concat rounds) x) h = (SetValue x', h') /\ good x' /\
    all_completed x' = true.
Proof using HK.
  induction rounds as [|r rounds IH]; intros x h Hx Hst Hf Hl; pose proof (good_work x Hx); [cbn in Hl; lia|].
  apply Forall_cons in Hf as [Hr Hf]. cbn [concat]. rewrite batch_turns_app.
  destruct (turns_to r x h Hx) as (x1 & h1 & -> & Hx1 & _ & Hst1 & _).
  destruct (Hst1 Hst) as [H1 [Hw|[-> Hi]]].
  - apply IH; auto. cbn [length] in Hl. lia.
  - pose proof (idle_completed x r Hx Hst Hr Hi) as Hc. exists x, h1.
    rewrite completed_stays by exact Hc. auto.
Qed.

(** The work there can be: of the workers, of the elements queued, of the
    commit in flight. *)
Definition most_work : Z := 24 * b_queue_depth_ b + 5 * 2 ^ 16 + 2.

Lemma work_bound x : 0 <= b_queue_depth_ b -> good x -> work (run_vars x) < most_work.
Proof using Type.
  intros Hd Hx. pose proof (co_vars _ (good_vars x Hx)) as Hv. pose proof (v_pending _ Hv). pose proof (v_commit _ Hv).
  assert (forall l : list WorkerState, workers_work l <= 24 * Z.of_nat (length l)) as Hw.
  { induction l as [|w l IH]; [simpl; lia|]. change (workers_work (w :: l)) with (pc_work (w_pc w) + workers_work l).
    cbn [length]. destruct (w_pc w); simpl pc_work; lia. }
  specialize (Hw (workers (run_vars x))). rewrite (good_workers x Hx), Z2Nat.id in Hw by exact Hd.
  unfold work, most_work, is_u in *. destruct (fl_pc (flusher (run_vars x))); simpl flusher_work; lia.
Qed.

Lemma start_good lba0 : good (run_start b lba0).
Proof using Type.
  split; [|reflexivity|apply repeat_length]. split.
  - split; simpl; [split; [discriminate|intros [? H]; discriminate]|range|apply futex_new_idle|exact I].
  - exact I.
  - simpl. induction (Z.to_nat (b_queue_depth_ b)) as [|k IH]; [reflexivity|].
    simpl repeat. change (live_count (?w :: ?l)) with (1 + live_count l). rewrite Nat2Z.inj_succ, IH. lia.
  - intros t w Hw. apply list_elem_of_lookup_2, list_elem_of_In, List.repeat_spec in Hw as ->.
    unfold awake_ok. simpl. rewrite futex_new_idle. split_all; auto; discriminate.
Qed.
End BatchEnd.

(** ** Theorem *)

(** C9: the run of the batch queue ends: for a driver that posts at most [n]
    completions before the end of the fetch - whatever it delivers, and however
    it answers the commands short of cancelling them - and a handler that
    completes, every schedule that gives each coroutine a turn per round, in any
    order and with any turns more, completes the run after a number of rounds
    known in advance. *)
Theorem batch_run_ends {F : Futex} {FL : FutexLaws F} (K : env) b sqe bgid lba0 n rounds :
  is_u 16 (b_queue_depth_ b) -> completes b K n -> Forall (fair b) rounds ->
  Z.of_nat n + 1 + most_work b < Z.of_nat (length rounds) ->
  fst (exec K (batch_service b sqe bgid lba0 (concat rounds)) []) <> Unfinished.
Proof.
  intros [Hd _] HK Hf Hl. unfold batch_service, push_buffer.
  rewrite exec_let_value, exec_trigger, exec_let_value, exec_trigger, exec_let_value.
  match goal with |- context [exec K (batch_turns _ _ _ _ _) ?past] => set (h := past) end.
  rewrite <- (take_drop (S n) rounds) in Hf |- *. apply Forall_app in Hf as [Hf1 Hf2].
  rewrite concat_app, batch_turns_app.
  assert (0 <= most_work b) as Hm by (unfold most_work; lia).
  destruct (rounds_to_end b K sqe bgid n HK (take (S n) rounds) (run_start b lba0) h (start_good b lba0) Hf1)
    as (x1 & h1 & -> & Hx1 & Hst); [cbn; lia|cbn; rewrite length_take; lia|].
  destruct (rounds_complete b K sqe bgid n HK (drop (S n) rounds) x1 h1 Hx1 Hst Hf2)
    as (x2 & h2 & -> & Hx2 & Hc).
  { pose proof (work_bound b x1 Hd Hx1). rewrite length_drop. lia. }
  cbn. unfold batch_result. rewrite Hc, (good_fetch b x2 Hx2). cbn [negb]. unfold run_result.
  unfold all_completed in Hc. rewrite (good_fetch b x2 Hx2) in Hc. apply andb_true_iff in Hc as [_ Hc].
  apply bool_decide_eq_true in Hc as [r Hr]. rewrite Hr.
  destruct (omap worker_error _); [|discriminate]. destruct (fl_pc _); try discriminate;
    destruct (_ =? _); discriminate.
Qed.

#[local] Existing Instance bool_futex.
#[local] Existing Instance bool_futex_laws.

(** The driver of [BatchRun], which delivers twice and never cancels, and a
    schedule whose rounds start with the workers. *)
Definition sample_round : list turn := [TWorker 3; TWorker 2; TWorker 1; TWorker 0; TFlusher; TFetch].

Definition sample_rounds : list (list turn) := repeat sample_round (Z.to_nat 400000).

Lemma batch_run_ends_witness :
  fst (exec batch_driver (batch_service sample_batch sample_sqe 0 0 (concat sample_rounds)) []) <> Unfinished.
Proof.
  apply (batch_run_ends batch_driver sample_batch sample_sqe 0 0 2 sample_rounds).
  - apply (bool_decide_unpack _); vm_compute; exact I.
  - split; try (intros; discriminate).
    + intros h fd e. cbn. destruct (length (List.filter _ h)) as [|[|m]] eqn:E; cbn; [|..|discriminate];
        unfold nr_fetches; rewrite E; split_all; auto; lia.
    + intros h bid [->| ->]; reflexivity.
  - apply Forall_forall. intros r Hr. apply list_elem_of_In, List.repeat_spec in Hr as ->.
    unfold fair. split_all; [apply list_elem_of_In; cbn; auto 10..|].
    intros t Ht. change (t < 4)%nat in Ht. apply list_elem_of_In.
    destruct t as [|[|[|[|t]]]]; cbn; auto 7; lia.
  - unfold sample_rounds. rewrite repeat_length, Z2Nat.id by lia. reflexivity.
Defined.
