(* ===== verification/Control.v ===== *)
(** * Control: the control commands

    [src/include/ublk/detail/control.hpp] and [detail/retry.hpp]: the tasks
    behind the public functions of [control.hpp].  Each looks up the device
    information (from the environment query [fetch_dev_info] when it holds
    that of the device, from the driver otherwise) and issues its command in
    privileged or unprivileged form.  A variable the code passes by pointer is
    an argument (its value before) and a result (its value after). *)

From S2P Require Import Prelude Effects Protocol UblkCmd Path Sys Raw.
From Stdlib Require Import Ascii.

Definition cpu_set_layout : ctype := CArr u64 16.

(** ** Path buffers (detail/path.hpp) *)

Definition DevPathBuf_layout (t : ctype) : ctype :=
  CStruct [("path"%string, CArr u8 (Z.of_nat DEV_PATH_LEN)); ("payload"%string, t)].

Definition path_chars (dev_id : Z) : list ascii :=
  DevPathBuf_path (replicate DEV_PATH_LEN zero) dev_id.

Definition DevPathBuf (dev_id : Z) (p : payload) : ptr := Some (Ubuf (Some (path_chars dev_id)) p).

(** [char path[DEV_PATH_LEN]] *)
Definition path_buf (dev_id : Z) : ptr := DevPathBuf dev_id PNone.

Definition path_len : Z := Z.of_nat DEV_PATH_LEN.

(** ** retry (detail/retry.hpp)

    [fn] reports success and updates the state [s] it captures by reference. *)

Section Retry.
Context {S : Type}.

Definition async_timeout (tv_sec tv_nsec : Z) : task Z :=
  trigger (AsyncTimeout tv_sec tv_nsec) lift_res.

Fixpoint retry_loop (fn : S -> task (bool * S)) (n : nat) (tv_sec tv_nsec : Z) (s : S)
    : task (bool * S) :=
  match n with
  | O => just (false, s)
  | Datatypes.S n =>
      do! neg_error (async_timeout tv_sec tv_nsec) in
      let! '(ok, s) := fn s in
      if (ok : bool) then just (true, s) else retry_loop fn n tv_sec tv_nsec s
  end.

Definition retry (fn : S -> task (bool * S)) (max_retry : nat) (sleep_ms : Z) (s : S)
    : task (bool * S) :=
  let! '(ok, s) := fn s in
  if (ok : bool) then just (true, s)
  else retry_loop fn max_retry (Z.quot sleep_ms 1000) (Z.rem sleep_ms 1000 * 1000000) s.
End Retry.

(** ** Device information *)

(** The body of the retried lambda of [control_get_dev_info_t].  The source
    keeps one path buffer for all attempts; each attempt here begins with the
    zeroed payload the buffer was made with, which is what a buffer holds that
    only failed commands have seen: a command that fails writes nothing. *)
Definition get_dev_info_attempt (fd dev_id : Z) (info : ublksrv_ctrl_dev_info)
    : task (bool * ublksrv_ctrl_dev_info) :=
  let! '(r, out) :=
    upon_error
      (with_output
         (raw_get_dev_info2 fd dev_id (DevPathBuf dev_id (PInfo dev_info_zero))
            (sizeof (DevPathBuf_layout ublksrv_ctrl_dev_info_layout)) path_len))
      (fun e => just (- err_value e, PNone)) in
  if 0 <=? r then just (true, out_info dev_info_zero out)
  else if r =? - EACCES then just (false, info)
  else if r =? - EOPNOTSUPP then
    let! '(_, out) := with_output (raw_get_dev_info fd dev_id info) in
    just (true, out_info info out)
  else throw (SystemError (- r)).

Definition GET_DEV_INFO_RETRIES : nat := 20.
Definition GET_DEV_INFO_SLEEP_MS : Z := 100.

Definition control_get_dev_info (fd dev_id : Z) (info : ublksrv_ctrl_dev_info)
    : task ublksrv_ctrl_dev_info :=
  let! '(ok, info) :=
    retry (get_dev_info_attempt fd dev_id) GET_DEV_INFO_RETRIES GET_DEV_INFO_SLEEP_MS info in
  if (ok : bool) then just info else throw (SystemError EACCES).

(** The environment query [fetch_dev_info]: the cached information, if any. *)
Abbreviation dev_env := (option ublksrv_ctrl_dev_info).

Definition cached_get_dev_info (e : dev_env) (fd dev_id : Z) (info : ublksrv_ctrl_dev_info)
    : task ublksrv_ctrl_dev_info :=
  match e with
  | Some dev_info =>
      if info_dev_id dev_info =? dev_id then just dev_info
      else co_await (control_get_dev_info fd dev_id info)
  | None => co_await (control_get_dev_info fd dev_id info)
  end.

Definition unprivileged (info : ublksrv_ctrl_dev_info) : bool :=
  has (info_flags info) UBLK_F_UNPRIVILEGED_DEV.

Section Control.
(** The value of a local [ublksrv_ctrl_dev_info info;] before it is filled. *)
Context (uninit : ublksrv_ctrl_dev_info).

Definition control_get_queue_affinity (e : dev_env) (fd dev_id q_id cpuset : Z) : task Z :=
  let! info := cached_get_dev_info e fd dev_id uninit in
  if unprivileged info then
    let! '(_, out) :=
      with_output
        (raw_get_queue_affinity_path fd dev_id q_id (DevPathBuf dev_id (PCpus 0))
           (sizeof (DevPathBuf_layout cpu_set_layout)) path_len) in
    just (out_cpus 0 out)
  else
    let! '(_, out) := with_output (raw_get_queue_affinity fd dev_id q_id cpuset) in
    just (out_cpus cpuset out).

Definition with_dev_path (e : dev_env) (fd dev_id : Z) (fn : ptr -> Z -> ctrl_sender)
    : task unit :=
  do! let_value (cached_get_dev_info e fd dev_id uninit)
        (fun info =>
           if unprivileged info then result_only (fn (path_buf dev_id) path_len)
           else result_only (fn None 0)) in
  just tt.

Definition control_del_dev e fd dev_id : task unit :=
  with_dev_path e fd dev_id (raw_del_dev fd dev_id).

Definition control_start_dev e fd dev_id daemon_pid : task unit :=
  with_dev_path e fd dev_id (raw_start_dev fd dev_id daemon_pid).

Definition control_stop_dev e fd dev_id : task unit :=
  with_dev_path e fd dev_id (raw_stop_dev fd dev_id).

Definition control_set_params (e : dev_env) (fd dev_id : Z) (params : ublk_params) : task unit :=
  let! info := cached_get_dev_info e fd dev_id uninit in
  let full := set_params_len (sizeof ublk_params_layout) params in
  if unprivileged info then
    do! result_only
          (raw_set_params_path fd dev_id (DevPathBuf dev_id (PParams full))
             (sizeof (DevPathBuf_layout ublk_params_layout)) path_len) in
    just tt
  else
    do! result_only (raw_set_params fd dev_id full) in
    just tt.

Definition control_get_params (e : dev_env) (fd dev_id : Z) (params : ublk_params)
    : task ublk_params :=
  let! info := cached_get_dev_info e fd dev_id uninit in
  let params := set_params_len (sizeof ublk_params_layout) params in
  if unprivileged info then
    let payload := set_params_len (sizeof ublk_params_layout) params_zero in
    let! '(_, out) :=
      with_output
        (raw_get_params_path fd dev_id (DevPathBuf dev_id (PParams payload))
           (sizeof (DevPathBuf_layout ublk_params_layout)) path_len) in
    just (out_params payload out)
  else
    let! '(_, out) := with_output (raw_get_params fd dev_id params) in
    just (out_params params out).

Definition control_start_user_recovery e fd dev_id : task unit :=
  with_dev_path e fd dev_id (raw_start_user_recovery fd dev_id).

Definition control_end_user_recovery e fd dev_id daemon_pid : task unit :=
  with_dev_path e fd dev_id (raw_end_user_recovery fd dev_id daemon_pid).

Definition control_del_dev_async e fd dev_id : task unit :=
  with_dev_path e fd dev_id (raw_del_dev_async fd dev_id).

Definition control_update_size e fd dev_id sectors : task unit :=
  with_dev_path e fd dev_id (raw_update_size fd dev_id sectors).

Definition control_quiesce_dev e fd dev_id timeout_ms : task unit :=
  with_dev_path e fd dev_id (raw_quiesce_dev fd dev_id timeout_ms).

Definition control_try_stop_dev e fd dev_id : task unit :=
  with_dev_path e fd dev_id (raw_try_stop_dev fd dev_id).

Definition control_register_shm_buf (e : dev_env) (fd dev_id : Z) (reg : ublk_shmem_buf_reg)
    : task Z :=
  let! info := cached_get_dev_info e fd dev_id uninit in
  if unprivileged info then
    co_await (result_only
                (raw_register_shm_buf_path fd dev_id (DevPathBuf dev_id (PShmReg reg))
                   (sizeof (DevPathBuf_layout ublk_shmem_buf_reg_layout)) path_len))
  else co_await (result_only (raw_register_shm_buf fd dev_id reg)).

Definition control_unregister_shm_buf e fd dev_id buf_index : task unit :=
  with_dev_path e fd dev_id (raw_unregister_shm_buf fd dev_id buf_index).
End Control.

(** The commands of [control.hpp] that need no device information. *)
Definition control_add_dev fd info : task ublksrv_ctrl_dev_info :=
  then_ (with_output (raw_add_dev fd info)) (fun r => out_info info (snd r)).

Definition control_get_features fd features : task Z :=
  then_ (with_output (raw_get_features fd features)) (fun r => out_features features (snd r)).

(** ** The public control functions ([control.hpp]) *)

Inductive control_request :=
  | ReqGetQueueAffinity (q_id cpuset : Z)
  | ReqGetDevInfo (info : ublksrv_ctrl_dev_info)
  | ReqDelDev
  | ReqStartDev (daemon_pid : Z)
  | ReqStopDev
  | ReqSetParams (params : ublk_params)
  | ReqGetParams (params : ublk_params)
  | ReqStartUserRecovery
  | ReqEndUserRecovery (daemon_pid : Z)
  | ReqDelDevAsync
  | ReqUpdateSize (sectors : Z)
  | ReqQuiesceDev (timeout_ms : Z)
  | ReqTryStopDev
  | ReqRegisterShmBuf (reg : ublk_shmem_buf_reg)
  | ReqUnregisterShmBuf (buf_index : Z).

Definition public_control (uninit : ublksrv_ctrl_dev_info) (e : dev_env) (fd dev_id : Z)
    (req : control_request) : task unit :=
  match req with
  | ReqGetQueueAffinity q_id cpuset =>
      then_ (control_get_queue_affinity uninit e fd dev_id q_id cpuset) (fun _ => tt)
  | ReqGetDevInfo info => then_ (control_get_dev_info fd dev_id info) (fun _ => tt)
  | ReqDelDev => control_del_dev uninit e fd dev_id
  | ReqStartDev pid => control_start_dev uninit e fd dev_id pid
  | ReqStopDev => control_stop_dev uninit e fd dev_id
  | ReqSetParams params => control_set_params uninit e fd dev_id params
  | ReqGetParams params => then_ (control_get_params uninit e fd dev_id params) (fun _ => tt)
  | ReqStartUserRecovery => control_start_user_recovery uninit e fd dev_id
  | ReqEndUserRecovery pid => control_end_user_recovery uninit e fd dev_id pid
  | ReqDelDevAsync => control_del_dev_async uninit e fd dev_id
  | ReqUpdateSize sectors => control_update_size uninit e fd dev_id sectors
  | ReqQuiesceDev timeout_ms => control_quiesce_dev uninit e fd dev_id timeout_ms
  | ReqTryStopDev => control_try_stop_dev uninit e fd dev_id
  | ReqRegisterShmBuf reg =>
      then_ (control_register_shm_buf uninit e fd dev_id reg) (fun _ => tt)
  | ReqUnregisterShmBuf buf_index => control_unregister_shm_buf uninit e fd dev_id buf_index
  end.

(** The same functions with what they hand to their caller: through the pointer
    they were given, or as their value. *)
Inductive control_output :=
  | NoOutput
  | OutCpus (cpuset : Z)
  | OutInfo (info : ublksrv_ctrl_dev_info)
  | OutParams (params : ublk_params)
  | OutIndex (index : Z).

Definition control_call (uninit : ublksrv_ctrl_dev_info) (e : dev_env) (fd dev_id : Z)
    (req : control_request) : task control_output :=
  match req with
  | ReqGetQueueAffinity q_id cpuset =>
      then_ (control_get_queue_affinity uninit e fd dev_id q_id cpuset) OutCpus
  | ReqGetDevInfo info => then_ (control_get_dev_info fd dev_id info) OutInfo
  | ReqGetParams params => then_ (control_get_params uninit e fd dev_id params) OutParams
  | ReqRegisterShmBuf reg => then_ (control_register_shm_buf uninit e fd dev_id reg) OutIndex
  | _ => then_ (public_control uninit e fd dev_id req) (fun _ => NoOutput)
  end.

Create HintDb control.
#[export] Hint Unfold control_get_queue_affinity control_del_dev
  control_start_dev control_stop_dev control_set_params control_get_params
  control_start_user_recovery control_end_user_recovery control_del_dev_async
  control_update_size control_quiesce_dev control_try_stop_dev
  control_register_shm_buf control_unregister_shm_buf : control.

(** The requests whose command carries no payload, with the command's number
    and inline argument. *)
Definition path_request (req : control_request) : option (ioc * Z) :=
  match req with
  | ReqDelDev => Some (UBLK_U_CMD_DEL_DEV, 0)
  | ReqStartDev pid => Some (UBLK_U_CMD_START_DEV, uwrap 64 pid)
  | ReqStopDev => Some (UBLK_U_CMD_STOP_DEV, 0)
  | ReqStartUserRecovery => Some (UBLK_U_CMD_START_USER_RECOVERY, 0)
  | ReqEndUserRecovery pid => Some (UBLK_U_CMD_END_USER_RECOVERY, uwrap 64 pid)
  | ReqDelDevAsync => Some (UBLK_U_CMD_DEL_DEV_ASYNC, 0)
  | ReqUpdateSize sectors => Some (UBLK_U_CMD_UPDATE_SIZE, sectors)
  | ReqQuiesceDev timeout_ms => Some (UBLK_U_CMD_QUIESCE_DEV, timeout_ms)
  | ReqTryStopDev => Some (UBLK_U_CMD_TRY_STOP_DEV, 0)
  | ReqUnregisterShmBuf buf_index => Some (UBLK_U_CMD_UNREG_BUF, buf_index)
  | _ => None
  end.

(** A command in its two forms: in unprivileged mode its data follows the path
    of the device, and [dev_path_len] says where it begins; in privileged mode
    it stands alone. *)
Definition form_command (unpriv : bool) (dev_id queue_id data0 : Z) (p : payload) : ublksrv_ctrl_cmd :=
  let plen := if unpriv then path_len else 0 in
  {| cmd_dev_id := dev_id; cmd_queue_id := queue_id; cmd_len := plen + payload_size p;
     cmd_addr := if unpriv then DevPathBuf dev_id p
                 else match p with PNone => None | _ => var p end;
     cmd_data0 := data0; cmd_dev_path_len := plen |}.

(** The parameters with the length of the structure, as every command that
    carries parameters has them. *)
Definition full_params (params : ublk_params) : ublk_params :=
  set_params_len (sizeof ublk_params_layout) params.

(** The command of a request, and what the caller gets for the reply. *)
Definition request_command (unpriv : bool) (dev_id : Z) (req : control_request)
    : option (ioc * ublksrv_ctrl_cmd) :=
  match req with
  | ReqGetQueueAffinity q_id cpuset =>
      Some (UBLK_U_CMD_GET_QUEUE_AFFINITY, form_command unpriv dev_id (uwrap 16 q_id)
              (uwrap 64 q_id) (PCpus (if unpriv then 0 else cpuset)))
  | ReqSetParams params =>
      Some (UBLK_U_CMD_SET_PARAMS, form_command unpriv dev_id 0xffff 0 (PParams (full_params params)))
  | ReqGetParams params =>
      Some (UBLK_U_CMD_GET_PARAMS, form_command unpriv dev_id 0xffff 0
              (PParams (full_params (if unpriv then params_zero else params))))
  | ReqRegisterShmBuf reg =>
      Some (UBLK_U_CMD_REG_BUF, form_command unpriv dev_id 0xffff 0 (PShmReg reg))
  | _ =>
      '(op, data0) ← path_request req;
      Some (op, form_command unpriv dev_id 0xffff (uwrap 64 data0) PNone)
  end.

Definition request_outcome (unpriv : bool) (req : control_request) (r : async_res * payload)
    : completion control_output :=
  match fst r with
  | AsyncOk v =>
      SetValue match req with
               | ReqGetQueueAffinity _ cpuset => OutCpus (out_cpus (if unpriv then 0 else cpuset) (snd r))
               | ReqGetParams params =>
                   OutParams (out_params (full_params (if unpriv then params_zero else params)) (snd r))
               | ReqRegisterShmBuf _ => OutIndex v
               | _ => NoOutput
               end
  | AsyncErr ec => SetError (ErrPtr (SystemError ec))
  | AsyncStopped => SetStopped
  end.

(** What a command says to the driver apart from the mode: everything but the
    path in front of its data, with the size of the data alone, and the data as
    far as the driver reads it: it only writes the mask of [GET_QUEUE_AFFINITY],
    and reads of the structure of [GET_PARAMS] its length. *)
Record command_content := {
  content_fd : Z; content_op : ioc; content_dev_id : Z; content_queue_id : Z;
  content_data0 : Z; content_size : Z; content_data : payload;
}.

Definition data_sent (op : ioc) (p : ptr) : payload :=
  match p with
  | None => PNone
  | Some b =>
      match ub_data b with
      | PCpus _ => if bool_decide (op = UBLK_U_CMD_GET_QUEUE_AFFINITY) then PCpus 0 else ub_data b
      | PParams params =>
          if bool_decide (op = UBLK_U_CMD_GET_PARAMS)
          then PParams (set_params_len (params_len params) params_zero) else ub_data b
      | d => d
      end
  end.

Definition content (fd : Z) (op : ioc) (cmd : ublksrv_ctrl_cmd) : command_content :=
  {| content_fd := fd; content_op := op; content_dev_id := cmd_dev_id cmd;
     content_queue_id := cmd_queue_id cmd; content_data0 := cmd_data0 cmd;
     content_size := cmd_len cmd - cmd_dev_path_len cmd; content_data := data_sent op (cmd_addr cmd) |}.

Definition call_content (c : call) : list command_content :=
  match c with UringCtrl fd op cmd => [content fd op cmd] | _ => [] end.

Definition contents (h : history) : list command_content := flat_map (fun e => call_content (projT1 e)) h.

(** A driver that looks at nothing else. *)
Definition mode_blind (K : env) : Prop :=
  forall h fd op cmd cmd', content fd op cmd = content fd op cmd' ->
    K h (UringCtrl fd op cmd) = K h (UringCtrl fd op cmd').

(** A driver that writes what it is asked for when it succeeds. *)
Definition writes_output (K : env) : Prop :=
  forall h fd op cmd v, fst (K h (UringCtrl fd op cmd)) = AsyncOk v ->
    (op = UBLK_U_CMD_GET_PARAMS -> exists p, snd (K h (UringCtrl fd op cmd)) = PParams p) /\
    (op = UBLK_U_CMD_GET_QUEUE_AFFINITY -> exists m, snd (K h (UringCtrl fd op cmd)) = PCpus m).

(** What the control layer promises of each call: a command for the device
    [dev_id] on [fd] whose lengths agree with its buffer and whose path, if
    any, is the device's; or the sleep between two attempts. *)
Definition path_is (dev_id : Z) (p : ptr) : Prop :=
  match p with
  | Some {| ub_path := Some s |} => c_string s = dev_path dev_id
  | _ => True
  end.

Definition control_call_ok (fd dev_id : Z) (c : call) : Prop :=
  match c with
  | UringCtrl fd' _ cmd =>
      fd' = fd /\ cmd_dev_id cmd = dev_id /\ cmd_len cmd = ptr_size (cmd_addr cmd) /\
      cmd_dev_path_len cmd = path_size (cmd_addr cmd) /\ path_is dev_id (cmd_addr cmd)
  | AsyncTimeout tv_sec tv_nsec => 0 <= tv_sec /\ 0 <= tv_nsec < 1000000000
  | _ => False
  end.

(** The driver answering the first [k] [GET_DEV_INFO2] commands with [EACCES]
    and the following ones with [last], and every timer with its expiry. *)
Definition is_get_dev_info2 (c : call) : bool :=
  match c with
  | UringCtrl _ op _ => bool_decide (op = UBLK_U_CMD_GET_DEV_INFO2)
  | _ => false
  end.

Definition is_timeout (c : call) : bool :=
  match c with AsyncTimeout _ _ => true | _ => false end.

Definition count_calls (f : call -> bool) (h : history) : nat :=
  length (List.filter (fun e => f (projT1 e)) h).

Definition ETIME : Z := 62.

Definition eacces_driver (k : nat) (last : async_res * payload) : env :=
  fun h c =>
    match c return reply c -> reply c with
    | UringCtrl _ op _ => fun _ =>
        if bool_decide (op = UBLK_U_CMD_GET_DEV_INFO2) then
          if Nat.ltb (count_calls is_get_dev_info2 h) k then (AsyncErr EACCES, PNone) else last
        else last
    | AsyncTimeout _ _ => fun _ => AsyncErr ETIME
    | _ => fun d => d
    end (ok_reply c).

(** The [GET_DEV_INFO2] command of [control_get_dev_info]. *)
Definition info2_call (fd dev_id : Z) : call :=
  UringCtrl fd UBLK_U_CMD_GET_DEV_INFO2
    {| cmd_dev_id := dev_id; cmd_queue_id := 0xffff;
       cmd_len := sizeof (DevPathBuf_layout ublksrv_ctrl_dev_info_layout);
       cmd_addr := DevPathBuf dev_id (PInfo dev_info_zero); cmd_data0 := 0;
       cmd_dev_path_len := path_len |}.

(** The control commands of a run, in order. *)
Definition ctrl_op (c : call) : list ioc :=
  match c with UringCtrl _ op _ => [op] | _ => [] end.

Definition ctrl_ops (h : history) : list ioc := flat_map (fun e => ctrl_op (projT1 e)) h.

(** ** Lemmas *)

Lemma path_chars_c_string dev_id :
  is_u 32 dev_id ->
  c_string (path_chars dev_id) = dev_path dev_id /\ length (path_chars dev_id) = DEV_PATH_LEN.
Proof.
  intros. apply fill_dev_path_c_string; [assumption|apply length_replicate|unfold DEV_PATH_LEN; lia].
Qed.

(** The characters of a path matter only through the two facts above. *)
#[global] Opaque path_chars dev_path.
#[global] Arguments DevPathBuf : simpl never.

Lemma path_size_DevPathBuf dev_id p :
  is_u 32 dev_id -> path_size (DevPathBuf dev_id p) = path_len.
Proof. intros H. unfold path_size, DevPathBuf. rewrite (proj2 (path_chars_c_string _ H)). reflexivity. Qed.

Lemma ptr_size_DevPathBuf dev_id p :
  is_u 32 dev_id -> ptr_size (DevPathBuf dev_id p) = path_len + payload_size p.
Proof. intros H. unfold ptr_size. rewrite path_size_DevPathBuf by assumption. reflexivity. Qed.

Lemma path_is_DevPathBuf dev_id p : is_u 32 dev_id -> path_is dev_id (DevPathBuf dev_id p).
Proof. intros H. apply (path_chars_c_string _ H). Qed.

#[export] Hint Rewrite path_size_DevPathBuf ptr_size_DevPathBuf using assumption : ublk_rw.

#[global] Arguments sizeof : simpl never.
#[global] Arguments path_size : simpl never.
#[global] Arguments ptr_size : simpl never.

(** The three shapes of a command's buffer, with the lengths that fit them. *)
Lemma ctrl_cmd_ok fd dev_id op q_id data0 p len plen :
  is_u 32 dev_id -> uwrap 16 len = ptr_size p -> uwrap 16 plen = path_size p -> path_is dev_id p ->
  all_calls (control_call_ok fd dev_id) (ctrl_cmd fd op dev_id q_id data0 p len plen).
Proof.
  intros Hid Hlen Hplen Hp. apply ctrl_cmd_calls. simpl.
  rewrite uwrap_id, Hlen, Hplen by assumption. auto.
Qed.

Lemma ctrl_cmd_ok_path fd dev_id op q_id data0 p len :
  is_u 32 dev_id -> uwrap 16 len = path_len + payload_size p ->
  all_calls (control_call_ok fd dev_id)
    (ctrl_cmd fd op dev_id q_id data0 (DevPathBuf dev_id p) len path_len).
Proof.
  intros Hid Hlen. apply ctrl_cmd_ok; [assumption| | |apply path_is_DevPathBuf; assumption].
  - rewrite ptr_size_DevPathBuf by assumption. exact Hlen.
  - rewrite path_size_DevPathBuf by assumption. reflexivity.
Qed.

Lemma ctrl_cmd_ok_var fd dev_id op q_id data0 p len :
  is_u 32 dev_id -> uwrap 16 len = payload_size p ->
  all_calls (control_call_ok fd dev_id) (ctrl_cmd fd op dev_id q_id data0 (var p) len 0).
Proof. intros Hid Hlen. apply ctrl_cmd_ok; [assumption|exact Hlen|reflexivity|exact I]. Qed.

Lemma ctrl_cmd_ok_null fd dev_id op q_id data0 :
  is_u 32 dev_id ->
  all_calls (control_call_ok fd dev_id) (ctrl_cmd fd op dev_id q_id data0 None 0 0).
Proof. intros Hid. apply ctrl_cmd_ok; [assumption|reflexivity|reflexivity|exact I]. Qed.

(** Walks a task down to its commands and applies the lemma of their shape. *)
Ltac calls :=
  autounfold with raw;
  repeat match goal with
    | |- all_calls _ (ctrl_cmd _ _ _ _ _ None 0 0) => apply ctrl_cmd_ok_null; assumption
    | |- all_calls _ (ctrl_cmd _ _ _ _ _ (var _) _ 0) =>
        apply ctrl_cmd_ok_var; [assumption|vm_compute; reflexivity]
    | |- all_calls _ (ctrl_cmd _ _ _ _ _ (DevPathBuf _ _) _ _) =>
        apply ctrl_cmd_ok_path; [assumption|vm_compute; reflexivity]
    | |- all_calls _ (ctrl_cmd _ _ _ _ _ (path_buf _) _ _) =>
        apply ctrl_cmd_ok_path; [assumption|vm_compute; reflexivity]
    | |- all_calls _ (result_only _) => apply result_only_calls
    | |- all_calls _ (with_output _) => apply with_output_calls
    | |- all_calls _ (let_value _ _) => apply all_calls_let_value; [|intros]
    | |- all_calls _ (co_await _) => apply all_calls_co_await
    | |- all_calls _ (then_ _ _) => apply all_calls_then
    | |- all_calls _ (upon_error _ _) => apply all_calls_upon_error; [|intros]
    | |- all_calls _ (defer _ _) => apply all_calls_defer
    | |- all_calls _ (just _) => exact I
    | |- all_calls _ (throw _) => exact I
    | |- all_calls _ (Done _) => exact I
    | |- all_calls _ (if ?b then _ else _) => destruct b
    | |- all_calls _ (let (_, _) := ?p in _) => destruct p
    end.

Lemma get_dev_info_attempt_calls fd dev_id info :
  is_u 32 dev_id -> all_calls (control_call_ok fd dev_id) (get_dev_info_attempt fd dev_id info).
Proof. intros. unfold get_dev_info_attempt. calls. Qed.

Lemma retry_loop_calls {S} P (fn : S -> task (bool * S)) n tv_sec tv_nsec s :
  (forall s, all_calls P (fn s)) -> P (AsyncTimeout tv_sec tv_nsec) ->
  all_calls P (retry_loop fn n tv_sec tv_nsec s).
Proof.
  intros Hfn Ht. revert s; induction n as [|n IH]; intros s; cbn [retry_loop]; [exact I|].
  unfold neg_error.
  calls; [split; [exact Ht|intros; exact I]|apply Hfn|apply IH].
Qed.

Lemma control_get_dev_info_calls fd dev_id info :
  is_u 32 dev_id -> all_calls (control_call_ok fd dev_id) (control_get_dev_info fd dev_id info).
Proof.
  intros H. unfold control_get_dev_info, retry. calls.
  - apply get_dev_info_attempt_calls; assumption.
  - apply retry_loop_calls; [intros; apply get_dev_info_attempt_calls; assumption|].
    split; vm_compute; intuition congruence.
Qed.

Lemma cached_get_dev_info_calls e fd dev_id info :
  is_u 32 dev_id -> all_calls (control_call_ok fd dev_id) (cached_get_dev_info e fd dev_id info).
Proof.
  intros H. unfold cached_get_dev_info.
  destruct e; calls; apply control_get_dev_info_calls; assumption.
Qed.

(** The control functions complete. *)
Ltac fin :=
  autounfold with raw;
  repeat match goal with
    | |- finishes (ctrl_cmd _ _ _ _ _ _ _ _) => apply finishes_trigger; intros [[] ?]; discriminate
    | |- finishes (result_only _) => unfold result_only
    | |- finishes (with_output _) => unfold with_output
    | |- finishes (let_value (ctrl_cmd _ _ _ _ _ _ _ _) (fun r => Done _)) =>
        intros [[] ?]; discriminate
    | |- finishes (let_value _ _) => apply finishes_let_value; [|intros]
    | |- finishes (co_await _) => apply finishes_co_await
    | |- finishes (then_ _ _) => apply finishes_then
    | |- finishes (upon_error _ _) => apply finishes_upon_error; [|intros]
    | |- finishes (just _) => apply finishes_done; discriminate
    | |- finishes (throw _) => apply finishes_done; discriminate
    | |- finishes (if ?b then _ else _) => destruct b
    | |- finishes (let (_, _) := ?p in _) => destruct p
    end.

Lemma get_dev_info_finishes fd dev_id info : finishes (control_get_dev_info fd dev_id info).
Proof.
  assert (forall info, finishes (get_dev_info_attempt fd dev_id info)) as Ha
    by (intros; unfold get_dev_info_attempt; fin).
  unfold control_get_dev_info, retry. fin; [apply Ha|].
  match goal with |- finishes (retry_loop ?fn ?n ?sec ?ns ?s) => generalize s; generalize n end.
  induction n as [|n IH]; intros s; cbn [retry_loop]; [apply finishes_done; discriminate|].
  unfold neg_error. fin; [apply finishes_trigger; intros []; discriminate|apply Ha|apply IH].
Qed.

Lemma cached_get_dev_info_finishes e fd dev_id info : finishes (cached_get_dev_info e fd dev_id info).
Proof. unfold cached_get_dev_info. destruct e; fin; apply get_dev_info_finishes. Qed.

Lemma public_control_finishes uninit e fd dev_id req : finishes (public_control uninit e fd dev_id req).
Proof.
  destruct req; cbn [public_control]; autounfold with control; unfold with_dev_path; fin;
    solve [apply cached_get_dev_info_finishes|apply get_dev_info_finishes].
Qed.

Lemma get_queue_affinity_finishes uninit e fd dev_id q_id cpuset :
  finishes (control_get_queue_affinity uninit e fd dev_id q_id cpuset).
Proof. unfold control_get_queue_affinity. fin; apply cached_get_dev_info_finishes. Qed.

Lemma get_params_finishes uninit e fd dev_id params :
  finishes (control_get_params uninit e fd dev_id params).
Proof. unfold control_get_params. fin; apply cached_get_dev_info_finishes. Qed.

(** A property of the calls: of the timers of a retry, of the two commands that
    look a device up, and of the commands with the function's own number. *)
Section CallsOf.
Context (P : call -> Prop) (fd : Z).
Hypothesis Htimeout : forall tv_sec tv_nsec, P (AsyncTimeout tv_sec tv_nsec).

Definition each_cmd (op : ioc) : Prop := forall cmd, P (UringCtrl fd op cmd).

Hypothesis Hinfo2 : each_cmd UBLK_U_CMD_GET_DEV_INFO2.
Hypothesis Hinfo : each_cmd UBLK_U_CMD_GET_DEV_INFO.

Ltac each :=
  calls; match goal with
         | |- all_calls _ (ctrl_cmd _ _ _ _ _ _ _ _) =>
             split; [unfold each_cmd in *; auto|intros; exact I]
         | |- _ => idtac
         end.

Lemma get_dev_info_each dev_id info : all_calls P (control_get_dev_info fd dev_id info).
Proof.
  assert (forall info, all_calls P (get_dev_info_attempt fd dev_id info)) as Ha
    by (intros; unfold get_dev_info_attempt; each).
  unfold control_get_dev_info, retry. calls; [apply Ha|].
  apply retry_loop_calls; [exact Ha|apply Htimeout].
Qed.

Lemma cached_get_dev_info_each e dev_id info : all_calls P (cached_get_dev_info e fd dev_id info).
Proof. unfold cached_get_dev_info. destruct e; calls; apply get_dev_info_each. Qed.

Lemma get_queue_affinity_each uninit e dev_id q_id cpuset :
  each_cmd UBLK_U_CMD_GET_QUEUE_AFFINITY ->
  all_calls P (control_get_queue_affinity uninit e fd dev_id q_id cpuset).
Proof. intros H. unfold control_get_queue_affinity. each; apply cached_get_dev_info_each. Qed.

Lemma get_params_each uninit e dev_id params :
  each_cmd UBLK_U_CMD_GET_PARAMS -> all_calls P (control_get_params uninit e fd dev_id params).
Proof. intros H. unfold control_get_params. each; apply cached_get_dev_info_each. Qed.

Lemma set_params_each uninit e dev_id params :
  each_cmd UBLK_U_CMD_SET_PARAMS -> all_calls P (control_set_params uninit e fd dev_id params).
Proof. intros H. unfold control_set_params. each; apply cached_get_dev_info_each. Qed.

Lemma path_request_each uninit e dev_id req op data0 :
  path_request req = Some (op, data0) -> each_cmd op ->
  all_calls P (public_control uninit e fd dev_id req).
Proof.
  intros H Hop. destruct req; try discriminate; injection H as <- _; cbn [public_control];
    autounfold with control; unfold with_dev_path; each; apply cached_get_dev_info_each.
Qed.
End CallsOf.

(** A control function is a lookup followed by its command: what a protocol
    that does not concern lookups says of the command carries over. *)
Section LastCommand.
Context {S : Type} (delta : S -> forall c, reply c -> option S) (s : S) (Qok Qerr : S -> Prop).
Context (fd : Z) (op : ioc).

Definition is_lookup (c : call) : Prop :=
  match c with
  | UringCtrl fd' op' _ => fd' = fd /\ (op' = UBLK_U_CMD_GET_DEV_INFO2 \/ op' = UBLK_U_CMD_GET_DEV_INFO)
  | AsyncTimeout _ _ => True
  | _ => False
  end.

Definition ends {A} (c : completion A) (s : S) : Prop :=
  match c with SetValue _ => Qok s | _ => Qerr s end.

Hypothesis Hlookup : forall c, is_lookup c -> forall r, delta s c r = Some s.
Hypothesis Hcmd : forall cmd r, exists s', delta s (UringCtrl fd op cmd) r = Some s' /\
  match fst r with AsyncOk _ => Qok s' | _ => Qerr s' end.
Hypothesis Herr : Qerr s.

Lemma lookup_obeys {A} e dev_id info (k : ublksrv_ctrl_dev_info -> task A) :
  (forall i, obeys delta (k i) s ends) ->
  obeys delta (let_value (co_await (cached_get_dev_info e fd dev_id info)) k) s ends.
Proof.
  intros Hk. apply obeys_let_value. eapply obeys_mono; [|apply obeys_ignored].
  - intros [i|x| |] s' ->; [apply Hk|exact Herr..].
  - apply all_calls_co_await. eapply all_calls_mono; [exact Hlookup|].
    apply cached_get_dev_info_each; [intros; exact I|intros cmd; cbn; auto..].
Qed.

Lemma last_result {A} dev q d0 p len plen (k : Z -> A) :
  obeys delta (let_value (co_await (result_only (ctrl_cmd fd op dev q d0 p len plen))) (fun v => just (k v)))
    s ends.
Proof.
  intros r. destruct (Hcmd _ r) as (s' & Hd & Hs). exists s'. split; [exact Hd|].
  destruct r as [[] ?]; exact Hs.
Qed.

Lemma last_output {A} dev q d0 p len plen (k : Z * payload -> task A) :
  (forall v, exists a, k v = just a) ->
  obeys delta (let_value (co_await (with_output (ctrl_cmd fd op dev q d0 p len plen))) k) s ends.
Proof.
  intros Hk r. destruct (Hcmd _ r) as (s' & Hd & Hs). exists s'. split; [exact Hd|].
  destruct r as [[v|ec|] out]; cbn; [destruct (Hk (v, out)) as [a ->]|..]; exact Hs.
Qed.

Lemma with_dev_path_last uninit e dev_id (fn : ptr -> Z -> ctrl_sender) :
  (forall p plen, exists dev q d0 p' len plen', fn p plen = ctrl_cmd fd op dev q d0 p' len plen') ->
  obeys delta (with_dev_path uninit e fd dev_id fn) s ends.
Proof.
  intros Hfn. unfold with_dev_path.
  assert (forall p plen, obeys delta (result_only (fn p plen)) s ends) as Hres.
  { intros p plen. destruct (Hfn p plen) as (dev & q & d0 & p' & len & plen' & ->).
    intros r. destruct (Hcmd {| cmd_dev_id := uwrap 32 dev; cmd_queue_id := uwrap 16 q;
      cmd_len := uwrap 16 len; cmd_addr := p'; cmd_data0 := uwrap 64 d0;
      cmd_dev_path_len := uwrap 16 plen' |} r) as (s' & Hd & Hs).
    exists s'. split; [exact Hd|]. destruct r as [[] ?]; exact Hs. }
  apply obeys_let_value, obeys_co_await, obeys_let_value. eapply obeys_mono; [|apply obeys_ignored].
  - intros [i|x| |] s' ->; [|exact Herr..]. cbn [then_obeys].
    destruct (unprivileged i); (eapply obeys_mono; [|apply Hres]); intros [] s' Hs; exact Hs.
  - eapply all_calls_mono; [exact Hlookup|].
    apply cached_get_dev_info_each; [intros; exact I|intros cmd; cbn; auto..].
Qed.

Lemma path_request_last uninit e dev_id req data0 :
  path_request req = Some (op, data0) ->
  obeys delta (public_control uninit e fd dev_id req) s ends.
Proof.
  intros H. destruct req; try discriminate; injection H as E _; cbn [public_control];
    autounfold with control raw; apply with_dev_path_last; intros p plen; rewrite E; repeat eexists.
Qed.

Lemma set_params_last uninit e dev_id params : op = UBLK_U_CMD_SET_PARAMS ->
  obeys delta (control_set_params uninit e fd dev_id params) s ends.
Proof.
  intros E. unfold control_set_params. apply lookup_obeys. intros i. autounfold with raw. rewrite <- E.
  destruct (unprivileged i); apply last_result.
Qed.

Lemma get_params_last uninit e dev_id params : op = UBLK_U_CMD_GET_PARAMS ->
  obeys delta (control_get_params uninit e fd dev_id params) s ends.
Proof.
  intros E. unfold control_get_params. apply lookup_obeys. intros i. autounfold with raw. rewrite <- E.
  destruct (unprivileged i); apply last_output; intros []; eexists; reflexivity.
Qed.
End LastCommand.

(** Every control command but the two that register buffers, whatever its
    arguments: a property of their calls holds of the functions. *)
Section PlainCalls.
Context (P : call -> Prop) (fd : Z).
Hypothesis HP : forall op cmd,
  op <> UBLK_U_CMD_REG_BUF -> op <> UBLK_U_CMD_UNREG_BUF -> P (UringCtrl fd op cmd).
Hypothesis Htimeout : forall tv_sec tv_nsec, P (AsyncTimeout tv_sec tv_nsec).

Lemma plain_each op : op <> UBLK_U_CMD_REG_BUF -> op <> UBLK_U_CMD_UNREG_BUF -> each_cmd P fd op.
Proof. intros H1 H2 cmd. apply HP; assumption. Qed.

Ltac plain lemma := apply lemma; first [exact Htimeout|apply plain_each; discriminate].

Lemma get_dev_info_plain dev_id info : all_calls P (control_get_dev_info fd dev_id info).
Proof. plain get_dev_info_each. Qed.

Lemma cached_get_dev_info_plain e dev_id info : all_calls P (cached_get_dev_info e fd dev_id info).
Proof. plain cached_get_dev_info_each. Qed.

Lemma get_queue_affinity_plain uninit e dev_id q_id cpuset :
  all_calls P (control_get_queue_affinity uninit e fd dev_id q_id cpuset).
Proof. plain get_queue_affinity_each. Qed.

Lemma get_params_plain uninit e dev_id params :
  all_calls P (control_get_params uninit e fd dev_id params).
Proof. plain get_params_each. Qed.

Lemma add_dev_plain info : all_calls P (control_add_dev fd info).
Proof. unfold control_add_dev. calls; (split; [apply HP; discriminate|intros; exact I]). Qed.

Lemma get_features_plain features : all_calls P (control_get_features fd features).
Proof. unfold control_get_features. calls; (split; [apply HP; discriminate|intros; exact I]). Qed.

Lemma path_request_plain uninit e dev_id req op data0 :
  path_request req = Some (op, data0) -> op <> UBLK_U_CMD_UNREG_BUF ->
  all_calls P (public_control uninit e fd dev_id req).
Proof.
  intros H Hop. apply (path_request_each P fd Htimeout) with (op := op) (data0 := data0);
    [apply plain_each; discriminate..|exact H|]. apply plain_each; [|exact Hop].
  intros ->. destruct req; discriminate.
Qed.
End PlainCalls.

(** ** Theorems *)

(** C28: every call a public control function makes, on any run, is a command
    for the requested device on the given descriptor whose [len] is exactly
    the size of the buffer it points to, whose [dev_path_len] is the size of
    the path in front of it and whose path is the device's; or a timer. *)
Theorem public_control_calls uninit e fd dev_id req :
  is_u 32 dev_id -> all_calls (control_call_ok fd dev_id) (public_control uninit e fd dev_id req).
Proof.
  intros H. pose proof (fun e info => cached_get_dev_info_calls e fd dev_id info H) as Hc.
  pose proof (fun info => control_get_dev_info_calls fd dev_id info H) as Hg.
  destruct req; cbn [public_control]; autounfold with control; unfold with_dev_path; calls;
    first [apply Hc|apply Hg].
Qed.

(** The completion a caller of a public control function sees. *)
Definition task_result (r : async_res) : completion unit :=
  match r with
  | AsyncOk _ => SetValue tt
  | AsyncErr ec => SetError (ErrPtr (SystemError ec))
  | AsyncStopped => SetStopped
  end.

Lemma exec_result_only_cmd K fd op dev q d0 p len plen h :
  let c := UringCtrl fd op
             {| cmd_dev_id := uwrap 32 dev; cmd_queue_id := uwrap 16 q; cmd_len := uwrap 16 len;
                cmd_addr := p; cmd_data0 := uwrap 64 d0; cmd_dev_path_len := uwrap 16 plen |} in
  exec K (result_only (ctrl_cmd fd op dev q d0 p len plen)) h =
  (lift_res (fst (K h c)), h ++ [existT c (K h c)]).
Proof. reflexivity. Qed.

Lemma exec_with_output_cmd K fd op dev q d0 p len plen h :
  let c := UringCtrl fd op
             {| cmd_dev_id := uwrap 32 dev; cmd_queue_id := uwrap 16 q; cmd_len := uwrap 16 len;
                cmd_addr := p; cmd_data0 := uwrap 64 d0; cmd_dev_path_len := uwrap 16 plen |} in
  exec K (with_output (ctrl_cmd fd op dev q d0 p len plen)) h =
  (map_completion (fun v => (v, snd (K h c))) (lift_res (fst (K h c))), h ++ [existT c (K h c)]).
Proof. reflexivity. Qed.

Lemma exec_with_dev_path uninit K info fd dev_id fn h :
  info_dev_id info = dev_id ->
  exec K (with_dev_path uninit (Some info) fd dev_id fn) h =
  exec K (do! (if unprivileged info then result_only (fn (path_buf dev_id) path_len)
               else result_only (fn None 0)) in just tt) h.
Proof.
  intros <-. unfold with_dev_path, cached_get_dev_info. rewrite Z.eqb_refl. reflexivity.
Qed.

Lemma path_request_exec uninit K info fd dev_id req op data0 h :
  is_u 32 dev_id -> info_dev_id info = dev_id -> path_request req = Some (op, data0) ->
  exec K (public_control uninit (Some info) fd dev_id req) h =
  let len := if unprivileged info then path_len else 0 in
  let c := UringCtrl fd op
             {| cmd_dev_id := dev_id; cmd_queue_id := 0xffff; cmd_len := len;
                cmd_addr := if unprivileged info then path_buf dev_id else None;
                cmd_data0 := uwrap 64 data0; cmd_dev_path_len := len |} in
  (task_result (fst (K h c)), h ++ [existT c (K h c)]).
Proof.
  intros Hid Hinfo Hreq.
  destruct req; try discriminate; injection Hreq as <- <-; cbn [public_control];
    autounfold with control raw;
    rewrite exec_with_dev_path by assumption; rewrite exec_let_value, exec_co_await;
    destruct (unprivileged info); rewrite exec_result_only_cmd; cbv zeta;
    rewrite (uwrap_id 32 dev_id) by assumption;
    change (uwrap 16 (-1)) with 0xffff; change (uwrap 16 path_len) with path_len;
    change (uwrap 16 0) with 0;
    match goal with |- context [fst (K h ?c)] => destruct (K h c) as [[] ?] end; reflexivity.
Qed.

(** C36: a control function without payload, when the environment provides the
    device's information, issues exactly one command, with the path buffer of
    the device when the device is unprivileged and no buffer when it is not,
    and completes as the command does: the privilege mode changes nothing else
    the caller can see. *)
Theorem public_control_path_request uninit K info fd dev_id req op data0 h :
  is_u 32 dev_id -> info_dev_id info = dev_id -> path_request req = Some (op, data0) ->
  exec K (public_control uninit (Some info) fd dev_id req) h =
  let len := if unprivileged info then path_len else 0 in
  let c := UringCtrl fd op
             {| cmd_dev_id := dev_id; cmd_queue_id := 0xffff; cmd_len := len;
                cmd_addr := if unprivileged info then path_buf dev_id else None;
                cmd_data0 := uwrap 64 data0; cmd_dev_path_len := len |} in
  (task_result (fst (K h c)), h ++ [existT c (K h c)]).
Proof. apply path_request_exec. Qed.

(** *** Retrying *)

Lemma count_calls_snoc f h (e : sigT reply) :
  count_calls f (h ++ [e]) = (count_calls f h + if f (projT1 e) then 1 else 0)%nat.
Proof.
  unfold count_calls. rewrite List.filter_app, length_app. simpl.
  destruct (f (projT1 e)); simpl; lia.
Qed.

Section EaccesDriver.
Context (k : nat) (v : Z) (i : ublksrv_ctrl_dev_info) (fd dev_id : Z).
Hypothesis Hv : 0 <= v.

Let D : env := eacces_driver k (AsyncOk v, PInfo i).

(** One attempt adds one command, and succeeds from the [k+1]-th on. *)
Lemma attempt_exec info h :
  exists e, is_get_dev_info2 (projT1 e) = true /\ is_timeout (projT1 e) = false /\
    exec D (get_dev_info_attempt fd dev_id info) h =
    (SetValue (if Nat.ltb (count_calls is_get_dev_info2 h) k then (false, info) else (true, i)),
     h ++ [e]).
Proof.
  unfold get_dev_info_attempt. rewrite exec_let_value, exec_co_await, exec_upon_error.
  unfold raw_get_dev_info2. rewrite exec_with_output_cmd. cbv zeta.
  match goal with |- context [D h ?c] => exists (existT c (D h c)); set (cmd := c) end.
  assert (D h cmd = if Nat.ltb (count_calls is_get_dev_info2 h) k
                    then (AsyncErr EACCES, PNone) else (AsyncOk v, PInfo i)) as ->.
  { unfold D, eacces_driver, cmd. rewrite bool_decide_true by reflexivity. reflexivity. }
  split; [reflexivity|]. split; [reflexivity|].
  destruct (Nat.ltb (count_calls is_get_dev_info2 h) k); [reflexivity|].
  cbn. destruct (Z.leb_spec 0 v); [reflexivity|lia].
Qed.

Lemma retry_loop_exec n s ns info h :
  exists h',
    exec D (retry_loop (get_dev_info_attempt fd dev_id) n s ns info) h =
    (SetValue (if Nat.ltb k (count_calls is_get_dev_info2 h + n) &&
                  negb (Nat.eqb n 0) then (true, i) else (false, info)), h') /\
    let m := Nat.min n (k - count_calls is_get_dev_info2 h + 1) in
    count_calls is_get_dev_info2 h' = (count_calls is_get_dev_info2 h + m)%nat /\
    count_calls is_timeout h' = (count_calls is_timeout h + m)%nat.
Proof.
  revert h; induction n as [|n IH]; intros h; cbn [retry_loop].
  - exists h. rewrite andb_false_r. split; [reflexivity|]. simpl. lia.
  - rewrite exec_let_value, exec_co_await. unfold neg_error, async_timeout, trigger.
    rewrite exec_upon_error. cbn [exec lift_res D eacces_driver just].
    set (h1 := h ++ _). rewrite exec_let_value, exec_co_await.
    destruct (attempt_exec info h1) as (e & He1 & He2 & ->).
    assert (count_calls is_get_dev_info2 h1 = count_calls is_get_dev_info2 h) as Hg
      by (unfold h1; rewrite count_calls_snoc; simpl; lia).
    assert (count_calls is_timeout h1 = S (count_calls is_timeout h)) as Ht
      by (unfold h1; rewrite count_calls_snoc; simpl; lia).
    rewrite Hg. destruct (Nat.ltb_spec (count_calls is_get_dev_info2 h) k) as [Hk|Hk].
    + destruct (IH (h1 ++ [e])) as (h' & -> & Hm1 & Hm2).
      rewrite !count_calls_snoc, ?He1, ?He2, ?Hg, ?Ht in *.
      exists h'. split; [|cbv zeta; lia]. do 2 f_equal.
      destruct (Nat.ltb_spec k (count_calls is_get_dev_info2 h + 1 + n)),
        (Nat.ltb_spec k (count_calls is_get_dev_info2 h + S n)), (Nat.eqb_spec n 0);
        simpl; first [reflexivity|lia].
    + exists (h1 ++ [e]). rewrite !count_calls_snoc, He1, He2, Hg, Ht.
      destruct (Nat.ltb_spec k (count_calls is_get_dev_info2 h + S n)); [|lia].
      split; [reflexivity|cbv zeta; lia].
Qed.
End EaccesDriver.

(** C35: [get_dev_info] retries a device node that is not accessible yet: when
    the driver refuses [k] times with [EACCES] before answering, it returns the
    driver's information if [k] is at most 20 and fails with [EACCES]
    otherwise, after [min (k+1) 21] attempts separated by [min k 20] sleeps.
    It terminates in every case. *)
Theorem get_dev_info_retries k v i fd dev_id info :
  0 <= v ->
  let '(c, h) := exec (eacces_driver k (AsyncOk v, PInfo i)) (control_get_dev_info fd dev_id info) [] in
  c = (if Nat.leb k 20 then SetValue i else SetError (ErrPtr (SystemError EACCES))) /\
  count_calls is_get_dev_info2 h = Nat.min (k + 1) 21 /\
  count_calls is_timeout h = Nat.min k 20.
Proof.
  intros Hv. unfold control_get_dev_info, retry. rewrite exec_let_value, exec_co_await, exec_let_value,
    exec_co_await.
  destruct (attempt_exec k v i fd dev_id Hv info []) as (e & He1 & He2 & ->).
  change (count_calls is_get_dev_info2 []) with 0%nat.
  change ([] ++ [e]) with [e].
  assert (count_calls is_get_dev_info2 [e] = 1%nat /\ count_calls is_timeout [e] = 0%nat) as [H1 H2]
    by (unfold count_calls; cbn [List.filter]; rewrite He1, He2; auto).
  destruct (Nat.ltb_spec 0 k).
  - destruct (retry_loop_exec k v i fd dev_id Hv GET_DEV_INFO_RETRIES
                (Z.quot GET_DEV_INFO_SLEEP_MS 1000)
                (Z.rem GET_DEV_INFO_SLEEP_MS 1000 * 1000000) info [e]) as (h' & -> & Hm1 & Hm2).
    rewrite H1, H2 in *. unfold GET_DEV_INFO_RETRIES in *.
    destruct (Nat.ltb_spec k (1 + 20)), (Nat.leb_spec k 20); try lia; cbn -[Nat.min Nat.sub] in *; split_all;
      first [reflexivity|lia].
  - replace k with 0%nat by lia. simpl. rewrite H1, H2. auto.
Qed.

(** *** The two forms *)

(** [control_call] is [public_control] with its output. *)
Lemma control_call_public uninit K e fd dev_id req h :
  exec K (public_control uninit e fd dev_id req) h =
  (map_completion (fun _ => tt) (fst (exec K (control_call uninit e fd dev_id req) h)),
   snd (exec K (control_call uninit e fd dev_id req) h)).
Proof.
  destruct req; cbn [control_call public_control]; unfold then_; rewrite !exec_let_value;
    repeat match goal with
      | |- context [let (_, _) := exec K ?p h in _] => destruct (exec K p h) as [[] ?]
      | |- context [match exec K ?p h with _ => _ end] => destruct (exec K p h) as [[] ?]
      end; cbn; repeat match goal with u : unit |- _ => destruct u end; reflexivity.
Qed.

(** Evaluates the lengths of the commands in the goal. *)
Ltac eval_lengths :=
  repeat match goal with
    | |- context [{| cmd_dev_id := _; cmd_queue_id := _; cmd_len := ?l; cmd_addr := _;
                     cmd_data0 := _; cmd_dev_path_len := ?n |}] =>
        let l' := eval vm_compute in l in let n' := eval vm_compute in n in
        progress (change l with l'; change n with n')
    end.

Lemma request_exec uninit K info fd dev_id req op cmd h :
  is_u 32 dev_id -> info_dev_id info = dev_id ->
  request_command (unprivileged info) dev_id req = Some (op, cmd) ->
  let r := K h (UringCtrl fd op cmd) in
  exec K (control_call uninit (Some info) fd dev_id req) h =
  (request_outcome (unprivileged info) req r, h ++ [existT (UringCtrl fd op cmd) r]).
Proof.
  intros Hid Hinfo Hreq r.
  destruct (path_request req) as [[op' d0]|] eqn:Hp.
  - assert (control_call uninit (Some info) fd dev_id req =
        then_ (public_control uninit (Some info) fd dev_id req) (fun _ => NoOutput)) as ->
      by (destruct req; discriminate Hp || reflexivity).
    unfold then_. rewrite exec_let_value, (path_request_exec _ _ _ _ _ _ _ _ _ Hid Hinfo Hp). cbv zeta.
    assert (op = op' /\ cmd = {| cmd_dev_id := dev_id; cmd_queue_id := 0xffff;
        cmd_len := if unprivileged info then path_len else 0;
        cmd_addr := if unprivileged info then path_buf dev_id else None;
        cmd_data0 := uwrap 64 d0; cmd_dev_path_len := if unprivileged info then path_len else 0 |})
      as [Eop Ecmd].
    { unfold request_command in Hreq. rewrite Hp in Hreq. cbn in Hreq.
      destruct req; try discriminate Hp; injection Hreq as <- <-; unfold form_command;
        destruct (unprivileged info); split; reflexivity. }
    rewrite <- Eop, <- Ecmd. fold r. unfold request_outcome.
    destruct r as [[] ?]; destruct req; discriminate Hp || reflexivity.
  - destruct req; try discriminate Hp; try discriminate Hreq; injection Hreq as <- <-; subst r;
      cbn [control_call public_control]; autounfold with control raw; unfold then_, cached_get_dev_info, form_command;
      rewrite Hinfo, Z.eqb_refl, !exec_let_value, exec_co_await; cbn [just exec];
      destruct (unprivileged info); rewrite ?exec_let_value, exec_co_await,
        ?exec_with_output_cmd, ?exec_result_only_cmd; cbv zeta;
      rewrite (uwrap_id 32 dev_id) by assumption; unfold request_outcome, full_params;
      try change (uwrap 16 (-1)) with 0xffff; try change (uwrap 64 0) with 0; eval_lengths;
      match goal with |- context [K h ?c] => destruct (K h c) as [[] ?] end; reflexivity.
Qed.

Lemma contents_snoc h fd op cmd r :
  contents (h ++ [existT (UringCtrl fd op cmd) r]) = contents h ++ [content fd op cmd].
Proof. unfold contents. rewrite flat_map_app. reflexivity. Qed.

(** The two forms of a request say the same. *)
Lemma request_command_content u fd dev_id req op cmd :
  request_command u dev_id req = Some (op, cmd) ->
  exists cmd', request_command true dev_id req = Some (op, cmd') /\ content fd op cmd = content fd op cmd'.
Proof.
  unfold request_command, form_command.
  destruct req; cbn; intros [= <- <-]; eexists; (split; [reflexivity|]); destruct u; reflexivity.
Qed.

Lemma request_outcome_same u K h fd dev_id req op cmd :
  writes_output K -> request_command u dev_id req = Some (op, cmd) ->
  let r := K h (UringCtrl fd op cmd) in request_outcome u req r = request_outcome true req r.
Proof.
  intros HK Hreq r. unfold request_outcome. destruct (fst r) as [v|ec|] eqn:E; [|reflexivity..].
  destruct (HK h fd op cmd v E) as [Hp Hm].
  destruct req; try reflexivity; injection Hreq as <- <-.
  - destruct (Hm eq_refl) as [m Em]. fold r in Em. rewrite Em. reflexivity.
  - destruct (Hp eq_refl) as [p Ep]. fold r in Ep. rewrite Ep. reflexivity.
Qed.

(** C29: the two modes of the driver are interchangeable: for every control
    function, against a driver that looks at nothing but the contents of a
    command - its number, device, queue, argument, and the data sent, apart
    from the path in front - and that writes the output it is asked for, the
    unprivileged and the privileged form complete alike, hand the same output
    to the caller (parameters, affinity mask, device information, index) and
    send commands of the same contents; and these are, for every function but
    the lookup itself, those of the one command of the request, which carries
    the caller's parameters or registration. *)
Theorem privilege_transparent uninit (K : env) i1 i2 fd dev_id req h :
  is_u 32 dev_id -> info_dev_id i1 = dev_id -> info_dev_id i2 = dev_id ->
  mode_blind K -> writes_output K ->
  let r1 := exec K (control_call uninit (Some i1) fd dev_id req) h in
  let r2 := exec K (control_call uninit (Some i2) fd dev_id req) h in
  fst r1 = fst r2 /\ contents (snd r1) = contents (snd r2) /\
  forall op cmd, request_command true dev_id req = Some (op, cmd) ->
    fst r1 = request_outcome true req (K h (UringCtrl fd op cmd)) /\
    contents (snd r1) = contents h ++ [content fd op cmd].
Proof.
  intros Hid H1 H2 HK HW r1 r2.
  assert (forall i op cmd, info_dev_id i = dev_id -> request_command true dev_id req = Some (op, cmd) ->
    let r := exec K (control_call uninit (Some i) fd dev_id req) h in
    fst r = request_outcome true req (K h (UringCtrl fd op cmd)) /\
    contents (snd r) = contents h ++ [content fd op cmd]) as Hone.
  { intros i op cmd Hi Hreq r.
    assert (exists c, request_command (unprivileged i) dev_id req = Some c) as [[op' c] Hc]
      by (destruct req; try discriminate Hreq; eexists; reflexivity).
    destruct (request_command_content _ fd _ _ _ _ Hc) as (c' & Hc' & Hcont).
    rewrite Hreq in Hc'. injection Hc' as <- <-.
    pose proof (request_exec uninit K i fd dev_id req op c h Hid Hi Hc) as Hx. cbv zeta in Hx.
    subst r. rewrite Hx. cbn [fst snd].
    rewrite contents_snoc, Hcont, (request_outcome_same _ K h fd _ _ _ _ HW Hc), (HK _ _ _ _ _ Hcont).
    split; reflexivity. }
  destruct (request_command true dev_id req) as [[op cmd]|] eqn:E.
  - destruct (Hone i1 op cmd H1 eq_refl) as [Ha Hb], (Hone i2 op cmd H2 eq_refl) as [Hc Hd].
    fold r1 in Ha, Hb. fold r2 in Hc, Hd. split; [congruence|]. split; [congruence|].
    intros ? ? [= <- <-]. split; assumption.
  - destruct req; discriminate E || (split; [|split]; reflexivity || discriminate).
Qed.

Lemma public_control_calls_witness :
  is_u 32 5 /\ all_calls (control_call_ok 3 5) (public_control dev_info_zero None 3 5 (ReqSetParams params_zero)).
Proof.
  split; [split; vm_compute; congruence|].
  apply (public_control_calls dev_info_zero None 3 5 (ReqSetParams params_zero)).
  split; vm_compute; congruence.
Defined.

(** Setting the parameters of one device in both modes, with a driver that
    accepts them when it gets them in full. *)
Definition picky_driver : env := fun h c =>
  match c return reply c -> reply c with
  | UringCtrl _ op cmd => fun d =>
      if bool_decide (op = UBLK_U_CMD_SET_PARAMS) then
        match data_sent op (cmd_addr cmd) with
        | PParams p => if basic_dev_sectors (params_basic p) =? 2048 then (AsyncOk 0, PNone)
                       else (AsyncErr EINVAL, PNone)
        | _ => (AsyncErr EINVAL, PNone)
        end
      else if bool_decide (op = UBLK_U_CMD_GET_PARAMS) then (AsyncOk 0, PParams params_zero)
      else if bool_decide (op = UBLK_U_CMD_GET_QUEUE_AFFINITY) then (AsyncOk 0, PCpus 15)
      else d
  | _ => id
  end (ok_reply c).

Definition sample_params (sectors : Z) : ublk_params :=
  {| params_len := 0; params_types := 1;
     params_basic :=
       {| basic_attrs := 0; basic_logical_bs_shift := 9; basic_physical_bs_shift := 12;
          basic_io_opt_shift := 0; basic_io_min_shift := 0; basic_max_sectors := 1024;
          basic_chunk_sectors := 0; basic_dev_sectors := sectors; basic_virt_boundary_mask := 0 |};
     params_discard := params_discard params_zero; params_devt := params_devt params_zero;
     params_zoned := params_zoned params_zero; params_dma_alignment := params_dma_alignment params_zero;
     params_seg := params_seg params_zero; params_integrity := params_integrity params_zero |}.

Lemma privilege_transparent_witness :
  let i flags := {| info_nr_hw_queues := 1; info_queue_depth := 1; info_state := 1;
                    info_io_desc_size := 0; info_max_io_buf_bytes := 0; info_dev_id := 5;
                    info_ublksrv_pid := 0; info_pad1 := 0; info_flags := flags;
                    info_ublksrv_flags := 0; info_owner_uid := 0; info_owner_gid := 0;
                    info_reserved1 := 0; info_reserved2 := 0 |} in
  let r flags := exec picky_driver
                   (control_call dev_info_zero (Some (i flags)) 3 5 (ReqSetParams (sample_params 2048))) [] in
  fst (r 0) = SetValue NoOutput /\ fst (r UBLK_F_UNPRIVILEGED_DEV) = fst (r 0) /\
  contents (snd (r 0)) = contents (snd (r UBLK_F_UNPRIVILEGED_DEV)).
Proof.
  intros i r.
  assert (fst (r 0) = fst (r UBLK_F_UNPRIVILEGED_DEV) /\
    contents (snd (r 0)) = contents (snd (r UBLK_F_UNPRIVILEGED_DEV))) as [H1 H2].
  { destruct (privilege_transparent dev_info_zero picky_driver (i 0) (i UBLK_F_UNPRIVILEGED_DEV) 3 5
      (ReqSetParams (sample_params 2048)) [] ltac:(split; vm_compute; congruence) eq_refl eq_refl)
      as (Ha & Hb & _); [..|split; assumption].
    - intros h fd op cmd cmd' Hc. unfold picky_driver.
      assert (data_sent op (cmd_addr cmd) = data_sent op (cmd_addr cmd')) as ->
        by (injection Hc; auto). reflexivity.
    - intros h fd op cmd v _. split; intros ->; eexists; reflexivity. }
  split; [vm_compute; reflexivity|]. split; [symmetry; exact H1|exact H2].
Defined.

(** Quiescing an unprivileged device: the command carries its path. *)
Lemma public_control_path_request_witness :
  let info := {| info_nr_hw_queues := 1; info_queue_depth := 1; info_state := 1;
                 info_io_desc_size := 0; info_max_io_buf_bytes := 0; info_dev_id := 5;
                 info_ublksrv_pid := 0; info_pad1 := 0; info_flags := UBLK_F_UNPRIVILEGED_DEV;
                 info_ublksrv_flags := 0; info_owner_uid := 0; info_owner_gid := 0;
                 info_reserved1 := 0; info_reserved2 := 0 |} in
  let c := UringCtrl 3 UBLK_U_CMD_QUIESCE_DEV
             {| cmd_dev_id := 5; cmd_queue_id := 0xffff; cmd_len := 32;
                cmd_addr := path_buf 5; cmd_data0 := 250; cmd_dev_path_len := 32 |} in
  exec (fun _ => ok_reply) (public_control dev_info_zero (Some info) 3 5 (ReqQuiesceDev 250)) [] =
  (SetValue tt, [existT c (AsyncOk 0, PNone)]).
Proof.
  exact (public_control_path_request dev_info_zero (fun _ => ok_reply)
           {| info_nr_hw_queues := 1; info_queue_depth := 1; info_state := 1;
              info_io_desc_size := 0; info_max_io_buf_bytes := 0; info_dev_id := 5;
              info_ublksrv_pid := 0; info_pad1 := 0; info_flags := UBLK_F_UNPRIVILEGED_DEV;
              info_ublksrv_flags := 0; info_owner_uid := 0; info_owner_gid := 0;
              info_reserved1 := 0; info_reserved2 := 0 |}
           3 5 (ReqQuiesceDev 250) UBLK_U_CMD_QUIESCE_DEV 250 []
           ltac:(split; vm_compute; congruence) eq_refl eq_refl).
Defined.

Lemma get_dev_info_retries_witness :
  let '(c, h) := exec (eacces_driver 25 (AsyncOk 0, PInfo dev_info_zero))
                   (control_get_dev_info 3 5 dev_info_zero) [] in
  c = SetError (ErrPtr (SystemError EACCES)) /\
  count_calls is_get_dev_info2 h = 21%nat /\ count_calls is_timeout h = 20%nat.
Proof.
  exact (get_dev_info_retries 25 0 dev_info_zero 3 5 dev_info_zero ltac:(lia)).
Defined.
