(* ===== verification/IoDev.v ===== *)
(** * IoDev: serving one queue of a device

    [src/include/ublk/detail/io.hpp]: [run_dev] registers the device's
    descriptor with the queue's io_uring, constructs the queue class the
    device's flags call for, runs it and destroys it.  The queue classes are
    seen through the interface [DeviceQueue], which [IoQueue] and
    [BatchIoQueue] implement. *)

From S2P Require Import Prelude Effects Protocol UblkCmd Utils Sys Ledger Raw IoResult TagProtocol Queue BatchLayout BatchObject Batch BatchProof Fetch BatchRun.

#[local] Open Scope Z_scope.

(** ** The descriptor of the commands *)

(** The descriptor commands may be issued on: none before [run_dev] has
    registered it or tried to, the fixed one while it is registered.  A queue
    issues no control command and reports no error to the user. *)
Definition fd_step (s : option fdref) (c : call) : reply c -> option (option fdref) :=
  match c return reply c -> option (option fdref) with
  | FdTableUpdate idx fd => fun r =>
      if fd =? -1 then if bool_decide (s = Some (Fixed idx)) then Some None else None
      else if bool_decide (s = None)
           then Some (Some (if 0 <=? r then Fixed idx else Fd fd)) else None
  | UringIo fd _ _ _ | UringBatch fd _ _ _ _ | UringFetch fd _ => fun _ =>
      if bool_decide (s = Some fd) then Some s else None
  | UringCtrl _ _ _ | PrintError _ => fun _ => None
  | _ => fun _ => Some s
  end.

(** ** The interface of a queue class *)

Class DeviceQueue (Q : Type) := {
  (** constructor: descriptor, raw descriptor, queue, flags, depth, buffer size *)
  dq_new : fdref -> Z -> Z -> Z -> Z -> Z -> task Q;
  dq_run : Q -> task unit;
  dq_delete : Q -> task unit;
  dq_held : Q -> resources;
  dq_fd : Q -> fdref;
}.

(** The commands of the queue, by the descriptor they are issued on. *)
Definition on_fd (fd : fdref) (c : call) : Prop :=
  match c with
  | UringIo f _ _ _ | UringBatch f _ _ _ _ | UringFetch f _ => f = fd
  | FdTableUpdate _ _ | UringCtrl _ _ _ | PrintError _ => False
  | _ => True
  end.

Definition no_io (c : call) : Prop :=
  match c with
  | UringIo _ _ _ _ | UringBatch _ _ _ _ _ | UringFetch _ _ | FdTableUpdate _ _ | UringCtrl _ _ _
  | PrintError _ => False
  | _ => True
  end.

(** What [run_dev] relies on: what the constructor acquires the destructor
    releases, the rest is given back by who takes it, and only [run] issues
    I/O commands, on the descriptor the queue was given. *)
Class DeviceQueueLaws (Q : Type) {D : DeviceQueue Q} := {
  dq_new_owns : forall fd raw q_id flags depth max,
    obeys own_ledger (dq_new fd raw q_id flags depth max) ∅ (fun c X =>
      match c with
      | SetValue q => X = dq_held q
      | Unfinished => True
      | _ => X = ∅
      end);
  dq_run_releases : forall q, releases (dq_run q);
  dq_delete_owns : forall q, obeys own_ledger (dq_delete q) (dq_held q) (fun c X =>
      c <> Unfinished -> X = ∅);
  dq_new_fd : forall fd raw q_id flags depth max s,
    obeys fd_step (dq_new fd raw q_id flags depth max) s (fun c s' =>
      s' = s /\ match c with SetValue q => dq_fd q = fd | _ => True end);
  dq_run_io : forall q, all_calls (on_fd (dq_fd q)) (dq_run q);
  dq_delete_io : forall q, all_calls no_io (dq_delete q);
}.

(** ** run_dev *)

Definition UBLKC_FD : Z := 0.

Section RunDev.
Context {Q1 Q2 : Type} {IQ : DeviceQueue Q1} {BQ : DeviceQueue Q2}.

(** A block that declares a queue and awaits its [run]. *)
Definition serve_queue {Q} {D : DeviceQueue Q} (fd : fdref) (ublkc_fd q_id flags queue_depth
    max_io_buf_bytes : Z) : task unit :=
  let_value (dq_new fd ublkc_fd q_id flags queue_depth max_io_buf_bytes) (fun queue =>
    defer (co_await (dq_run queue)) (dq_delete queue)).

(** The check that the buffer table has an entry per tag. *)
Definition check_buffer_table (info : ublksrv_ctrl_dev_info) : task unit :=
  if has (info_flags info) (UBLK_F_SUPPORT_ZERO_COPY .| UBLK_F_AUTO_BUF_REG) then
    let_value (trigger (BufferTableUpdate (info_queue_depth info - 1)) SetValue : task Z) (fun r =>
      if r <? 0
      then throw (RuntimeError "Buffer table too small, need nr_buffers >= queue_depth")
      else just tt)
  else just tt.

Definition io_run_dev (ublkc_fd q_id : Z) (info : ublksrv_ctrl_dev_info) : task unit :=
  if info_nr_hw_queues info <=? q_id then throw (OutOfRange "q_id out of range")
  else
    let flags := info_flags info in
    let queue_depth := info_queue_depth info in
    let max_io_buf_bytes := info_max_io_buf_bytes info in
    let_value (check_buffer_table info) (fun _ =>
    let_value (trigger (FdTableUpdate UBLKC_FD ublkc_fd) SetValue : task Z) (fun r =>
    let fd := if r <? 0 then Fd ublkc_fd else Fixed UBLKC_FD in
    defer
      (if has flags UBLK_F_BATCH_IO
       then serve_queue (D := BQ) fd ublkc_fd q_id flags queue_depth max_io_buf_bytes
       else serve_queue (D := IQ) fd ublkc_fd q_id flags queue_depth max_io_buf_bytes)
      (if 0 <=? r then perform (FdTableUpdate UBLKC_FD (-1)) (fun _ => tt) else just tt))).

(** ** Resources *)

Context {IL : DeviceQueueLaws Q1} {BL : DeviceQueueLaws Q2}.

Lemma serve_queue_releases {Q} {D : DeviceQueue Q} {L : DeviceQueueLaws Q} fd raw q_id flags depth max :
  releases (serve_queue (D := D) fd raw q_id flags depth max).
Proof.
  apply obeys_let_value. eapply obeys_mono; [|apply dq_new_owns].
  intros [q|e| |] X HX; cbn [then_obeys]; [|intros _; exact HX..|congruence].
  subst X. apply releases_guarded; [|apply dq_delete_owns].
  apply releases_co_await, dq_run_releases.
Qed.

Lemma io_run_dev_releases ublkc_fd q_id info :
  ublkc_fd <> -1 -> releases (io_run_dev ublkc_fd q_id info).
Proof.
  intros Hfd. unfold io_run_dev. destruct (_ <=? _); [intros _; reflexivity|].
  apply releases_let_value.
  { unfold check_buffer_table. destruct (has _ _); [|intros _; reflexivity]. apply releases_let_value.
    - apply releases_keeps. split; [intros X r; reflexivity|intros; exact I].
    - intros r. destruct (_ <? _); intros _; reflexivity. }
  intros _. apply obeys_let_value, obeys_trigger. intros r. unfold own_ledger. cbn [is_lock ledger].
  destruct (Z.eqb_spec ublkc_fd (-1)); [contradiction|].
  assert (releases (if has (info_flags info) UBLK_F_BATCH_IO
    then serve_queue (D := BQ) (if r <? 0 then Fd ublkc_fd else Fixed UBLKC_FD) ublkc_fd q_id
           (info_flags info) (info_queue_depth info) (info_max_io_buf_bytes info)
    else serve_queue (D := IQ) (if r <? 0 then Fd ublkc_fd else Fixed UBLKC_FD) ublkc_fd q_id
           (info_flags info) (info_queue_depth info) (info_max_io_buf_bytes info))) as Hserve
    by (destruct (has _ _); apply serve_queue_releases).
  eexists; split; [reflexivity|]. cbn [then_obeys]. apply releases_guarded; [exact Hserve|].
  destruct (Z.leb_spec 0 r).
  - apply obeys_trigger. intros r'. exists ∅. split; [|intros _; reflexivity].
    apply release_acquire.
  - intros _. reflexivity.
Qed.

(** ** The descriptor *)

Lemma on_fd_obeys {A} (p : task A) fd :
  all_calls (on_fd fd) p -> obeys fd_step p (Some fd) (fun _ s => s = Some fd).
Proof.
  induction p as [c|c k IH]; cbn [all_calls obeys]; [reflexivity|]. intros [Hc Hk] r.
  exists (Some fd). split; [|apply IH, Hk].
  destruct c; try reflexivity; cbn [on_fd] in Hc; subst; cbn [fd_step];
    (rewrite bool_decide_eq_true_2 by reflexivity; reflexivity) || contradiction.
Qed.

Lemma no_io_obeys {A} (p : task A) s :
  all_calls no_io p -> obeys fd_step p s (fun _ s' => s' = s).
Proof.
  intros H. apply obeys_ignored. revert H. induction p as [c|c k IH]; cbn [all_calls]; [auto|].
  intros [Hc Hk]. split; [|intros r; apply IH, Hk].
  intros r. destruct c; cbn [no_io] in Hc; reflexivity || contradiction.
Qed.

Lemma serve_queue_obeys {Q} {D : DeviceQueue Q} {L : DeviceQueueLaws Q} fd raw q_id flags depth max :
  obeys fd_step (serve_queue (D := D) fd raw q_id flags depth max) (Some fd)
    (fun _ s => s = Some fd).
Proof.
  apply obeys_let_value. eapply obeys_mono; [|apply dq_new_fd].
  intros [q|e| |] s [-> Hq]; cbn [then_obeys]; try reflexivity.
  apply obeys_defer. eapply obeys_mono;
    [|apply on_fd_obeys, all_calls_co_await; rewrite <- Hq; apply dq_run_io].
  intros c s ->. unfold guard_obeys.
  destruct c; try reflexivity; (eapply obeys_mono; [|apply no_io_obeys, dq_delete_io]);
    intros [] s ->; reflexivity.
Qed.

Lemma io_run_dev_obeys ublkc_fd q_id info :
  ublkc_fd <> -1 ->
  obeys fd_step (io_run_dev ublkc_fd q_id info) None (fun c s =>
    c <> Unfinished -> s = None \/ s = Some (Fd ublkc_fd)).
Proof.
  intros Hfd. unfold io_run_dev. destruct (_ <=? _); [left; reflexivity|].
  apply obeys_let_value. eapply obeys_mono; [|apply no_io_obeys].
  2:{ unfold check_buffer_table. destruct (has _ _); [|exact I]. apply all_calls_let_value; [split; [exact I|intros; exact I]|].
      intros r. destruct (_ <? _); exact I. }
  intros [a|e| |] s ->; cbn [then_obeys]; [|left; reflexivity..].
  apply obeys_let_value, obeys_trigger. intros r. cbn [fd_step then_obeys].
  destruct (Z.eqb_spec ublkc_fd (-1)); [contradiction|].
  rewrite bool_decide_eq_true_2 by reflexivity. eexists; split; [reflexivity|].
  set (fd := if 0 <=? r then Fixed UBLKC_FD else Fd ublkc_fd).
  replace (if r <? 0 then _ else _) with fd
    by (unfold fd; destruct (Z.ltb_spec r 0), (Z.leb_spec 0 r); lia || reflexivity).
  apply obeys_defer. eapply obeys_mono; cycle 1.
  { destruct (has (info_flags info) UBLK_F_BATCH_IO); apply serve_queue_obeys. }
  intros c s ->. unfold guard_obeys, fd.
  destruct c; try congruence; (destruct (0 <=? r); [|intros _; right; reflexivity]);
    apply obeys_trigger; intros r'; exists None; (split; [reflexivity|]); left; reflexivity.
Qed.

Definition no_control (c : call) : Prop :=
  match c with UringCtrl _ _ _ | PrintError _ => False | _ => True end.

Lemma serve_queue_no_control {Q} {D : DeviceQueue Q} {L : DeviceQueueLaws Q} fd raw q_id flags depth max :
  all_calls no_control (serve_queue (D := D) fd raw q_id flags depth max).
Proof.
  apply all_calls_let_value.
  - eapply (obeys_all_calls fd_step ok_reply) with (s := None); [|apply dq_new_fd].
    intros s c r s' H. destruct c; exact I || discriminate.
  - intros q. apply all_calls_defer; [apply all_calls_co_await|].
    + eapply all_calls_mono; [|apply dq_run_io]. intros []; exact id || (intros; exact I).
    + eapply all_calls_mono; [|apply dq_delete_io]. intros []; exact id || (intros; exact I).
Qed.

Lemma io_run_dev_no_control ublkc_fd q_id info : all_calls no_control (io_run_dev ublkc_fd q_id info).
Proof.
  unfold io_run_dev. destruct (_ <=? _); [exact I|]. apply all_calls_let_value.
  { unfold check_buffer_table. destruct (has _ _); [|exact I].
    apply all_calls_let_value; [split; intros; exact I|]. intros r. destruct (_ <? _); exact I. }
  intros _. apply all_calls_let_value; [split; intros; exact I|]. intros r. cbv zeta.
  apply all_calls_defer; [destruct (has _ _); apply serve_queue_no_control|].
  destruct (0 <=? r); [split; intros; exact I|exact I].
Qed.
End RunDev.

(** ** IoQueue implements the interface *)

(** Commands of the queue class [run] may issue; the user's callbacks, the
    descriptors and the tag commands. *)
Lemma worker_calls P q tag fuel :
  (forall op cmd sqe, P (UringIo (ublkc_fd_ q) op cmd sqe)) ->
  (forall q tag, P (ReadIod q tag)) -> (forall q tag buf, P (HandleIo q tag buf)) ->
  all_calls P (worker_ q tag fuel).
Proof.
  intros HIo HRead HHandle.
  assert (forall op qid t result addr sqe,
    all_calls P (io_cmd (ublkc_fd_ q) op qid t result addr sqe)) as Hcmd
    by (intros; split; [apply HIo|intros; exact I]).
  assert (forall r k, all_calls P k -> all_calls P
    (let_value (get_data_if_needed q tag r) (fun r => check_fetched r k))) as Hfetched.
  { intros r k Hk. apply all_calls_let_value.
    - unfold get_data_if_needed. destruct (_ =? _); [|exact I].
      apply all_calls_co_await, all_calls_upon_error; [apply Hcmd|intros; exact I].
    - intros v. unfold check_fetched. repeat case_match; exact I || exact Hk. }
  assert (forall op result addr sqe k, all_calls P k -> all_calls P
    (let_value (co_await (neg_error (io_cmd (ublkc_fd_ q) op (q_id_ q) tag result addr sqe)))
       (fun r => let_value (get_data_if_needed q tag r) (fun r => check_fetched r k)))) as Hfetch.
  { intros. apply all_calls_let_value; [|auto].
    apply all_calls_co_await, all_calls_upon_error; [apply Hcmd|intros; exact I]. }
  assert (forall (b : bool) op (k : task unit), all_calls P k -> all_calls P (let_value (co_await
    (if b then io_cmd (ublkc_fd_ q) op (q_id_ q) tag 0 tag 0 else just 0)) (fun _ => k))) as Hreg.
  { intros b op k Hk. apply all_calls_let_value; [apply all_calls_co_await; destruct b|auto];
      [apply Hcmd|exact I]. }
  unfold worker_. apply Hfetch. induction fuel as [|fuel IH]; [exact I|]. cbn [worker_loop].
  apply all_calls_let_value; [split; [apply HRead|intros; exact I]|]. intros iod. apply Hreg.
  apply all_calls_let_value.
  { apply all_calls_co_await, all_calls_then, all_calls_upon_error; [|intros; exact I].
    apply all_calls_then, all_calls_connect; [split; [apply HHandle|intros; exact I]|].
    intros []; exact I. }
  intros [res lba]. apply Hreg.
  apply all_calls_let_value; [split; [apply HRead|intros; exact I]|]. intros iod'.
  apply Hfetch, IH.
Qed.

Lemma workers_calls P q fuel sched :
  (forall op cmd sqe, P (UringIo (ublkc_fd_ q) op cmd sqe)) ->
  (forall q tag, P (ReadIod q tag)) -> (forall q tag buf, P (HandleIo q tag buf)) ->
  all_calls P (run_body q fuel sched).
Proof.
  intros H1 H2 H3. unfold run_body. apply all_calls_let_value.
  - apply all_calls_concurrently, Forall_forall. intros p Hp.
    apply in_map_iff in Hp as (tag & <- & _). apply worker_calls; assumption.
  - intros ps. destruct (join_all ps); [|exact I]. unfold rethrow_first. case_match; exact I.
Qed.

Lemma with_init_queue_releases qh q_id (body : task unit) :
  releases body -> releases (with_init_queue qh q_id body).
Proof.
  intros Hb. unfold with_init_queue. destruct qh; [|exact Hb].
  apply obeys_let_value, obeys_co_await, obeys_trigger. intros r. eexists; split; [reflexivity|].
  destruct r as [[]|e| |]; cbn [id then_obeys]; try (intros _; reflexivity).
  apply releases_guarded; [exact Hb|]. apply obeys_trigger. intros r. exists ∅.
  split; [apply release_acquire|intros _; reflexivity].
Qed.

Lemma with_init_queue_calls P qh q_id (body : task unit) :
  P (InitQueue q_id) -> P (DestroyQueue q_id) -> all_calls P body ->
  all_calls P (with_init_queue qh q_id body).
Proof.
  intros H1 H2 Hb. unfold with_init_queue. destruct qh; [|exact Hb].
  apply all_calls_let_value; [apply all_calls_co_await; split; [exact H1|intros; exact I]|].
  intros _. apply all_calls_defer; [exact Hb|split; [exact H2|intros; exact I]].
Qed.

Lemma map_iod_calls P raw q_id depth (A : Type) (f : sys_res -> task A) :
  (forall s p f o, P (Mmap s p f o)) -> (forall r, all_calls P (f r)) ->
  all_calls P (let_value (map_iod raw q_id depth) f).
Proof. intros HM Hf. apply all_calls_let_value; [split; [apply HM|intros; exact I]|exact Hf]. Qed.

Lemma alloc_bufs_no_io max page n : forall bases, all_calls no_io (alloc_bufs max page n bases).
Proof.
  induction n as [|n IH]; intros bases; [exact I|]. cbn [alloc_bufs].
  apply all_calls_let_value; [split; intros; exact I|]. intros []; [apply IH|exact I].
Qed.

Lemma free_bufs_no_io max page bases : all_calls no_io (free_bufs max page bases).
Proof.
  induction bases as [|p bases IH]; [exact I|]. cbn [free_bufs].
  apply all_calls_let_value; [split; intros; exact I|]. intros; exact IH.
Qed.

Lemma guarded_no_io {Q} (body : ctor Q) cleanup :
  all_calls no_io body -> (forall q, all_calls no_io (cleanup q)) ->
  all_calls no_io (guarded_ctor body cleanup).
Proof.
  intros Hb Hc. apply all_calls_let_value; [exact Hb|]. intros [q [x|]]; [|exact I].
  apply all_calls_let_value; [apply Hc|intros; exact I].
Qed.

Section IoQueueClass.
Context (page : Z) (qh : bool) (fuel : nat) (sched : list nat).

#[export] Instance IoQueue_class : DeviceQueue IoQueue := {
  dq_new := fun fd raw q_id flags depth max => IoQueue_ctor page fd raw q_id flags depth max qh;
  dq_run := IoQueue_run fuel sched;
  dq_delete := IoQueue_dtor page;
  dq_held := fun q => unlocked (queue_held page q);
  dq_fd := ublkc_fd_;
}.

Lemma IoQueue_cleanup_no_io q : all_calls no_io (IoQueue_cleanup_ page q).
Proof.
  apply all_calls_let_value; [apply free_bufs_no_io|]. intros _. cbv zeta. destruct (iod_base_ _); [|exact I].
  apply all_calls_let_value; [split; intros; exact I|intros; exact I].
Qed.

#[export] Instance IoQueue_laws : DeviceQueueLaws IoQueue.
Proof.
  split.
  - intros fd raw q_id flags depth max. change (∅ : resources) with (unlocked ∅).
    eapply obeys_mono; [|eapply obeys_unlocked, queue_ctor_obeys].
    intros [q|e| |] X (X' & H & ->); try contradiction.
    + destruct H as (-> & _). rewrite (left_id_L ∅ (⊎)). reflexivity.
    + rewrite H. reflexivity.
  - intros q. apply with_init_queue_releases, releases_keeps, workers_calls;
      intros ** ? ?; reflexivity.
  - intros q. pose proof (obeys_unlocked _ _ _ (queue_dtor_obeys page ∅ q)) as H.
    rewrite (left_id_L ∅ (⊎)) in H. eapply obeys_mono; [|exact H].
    intros c X (X' & [_ ->] & ->) _. reflexivity.
  - intros fd raw q_id flags depth max s. eapply obeys_mono; cycle 1.
    + apply obeys_with_leaves; [apply no_io_obeys, guarded_no_io|];
        [|apply IoQueue_cleanup_no_io|exact (obeys_leaves _ _ _ _ (queue_ctor_obeys page ∅ fd raw q_id flags depth max qh))].
      apply map_iod_calls; [intros; exact I|]. intros [a|errno]; [|exact I].
      cbv zeta; destruct (need_alloc_buf _); [|exact I].
      apply all_calls_let_value; [apply alloc_bufs_no_io|]. intros []; exact I.
    + intros c s' [-> [X H]]. split; [reflexivity|]. destruct c; try exact I.
      destruct H as (_ & _ & H). cbn [dq_fd IoQueue_class]. congruence.
  - intros q. apply with_init_queue_calls; [exact I..|]. apply workers_calls; intros; exact I || reflexivity.
  - intros q. apply all_calls_then, IoQueue_cleanup_no_io.
Qed.
End IoQueueClass.

(** ** BatchIoQueue implements the interface *)

Section BatchClass.
(** The futex of condy; the fetch's entry as condy prepares it and its buffer
    group; what the memory of the commit buffers holds; the schedule. *)
Context {F : Futex} (page : Z) (qh : bool) (sqe : fetch_sqe) (bgid lba0 : Z) (sched : list turn).

(** [run]: the preparation, then the coroutines and the fetch. *)
Definition BatchIoQueue_run (b : BatchIoQueue) : task unit :=
  with_init_queue (b_queue_handler b) (b_q_id_ b)
    (do! prep_command b (ptr_u64 (commit_buf_0 b)) in batch_service b sqe bgid lba0 sched).

#[local] Instance BatchIoQueue_class : DeviceQueue BatchIoQueue := {
  dq_new := fun fd raw q_id flags depth max => BatchIoQueue_ctor page fd raw q_id flags depth max qh;
  dq_run := BatchIoQueue_run;
  dq_delete := BatchIoQueue_dtor page;
  dq_held := fun b => unlocked (batch_held page b);
  dq_fd := b_ublkc_fd_;
}.

Lemma free_pair_no_io p size : all_calls no_io (free_pair page p size).
Proof. destruct p; repeat (split || intros); exact I. Qed.

Lemma batch_cleanup_no_io b : all_calls no_io (BatchIoQueue_cleanup_ page b).
Proof.
  apply all_calls_let_value; [apply free_bufs_no_io|]. intros _. cbv zeta.
  apply all_calls_let_value; [apply free_pair_no_io|]. intros _.
  apply all_calls_let_value; [apply free_pair_no_io|]. intros _.
  destruct (b_iod_base_ _); [|exact I].
  apply all_calls_let_value; [split; intros; exact I|intros; exact I].
Qed.

(** An initialiser that issues no command and keeps the descriptor. *)
Definition keeps_fd (fd : fdref) (p : ctor BatchIoQueue) : Prop :=
  all_calls no_io p /\
  all_leaves (fun c => match c with SetValue (b, _) => b_ublkc_fd_ b = fd | _ => True end) p.

Lemma alloc_pair_keeps_fd fd size set b k :
  (forall p0 p1 b, b_ublkc_fd_ (set p0 p1 b) = b_ublkc_fd_ b) -> b_ublkc_fd_ b = fd ->
  (forall b, b_ublkc_fd_ b = fd -> keeps_fd fd (k b)) -> keeps_fd fd (alloc_pair page size set b k).
Proof.
  intros Hset Hb Hk.
  assert (forall p0 p1, b_ublkc_fd_ (set p0 p1 b) = fd) as Hs by (intros; rewrite Hset; exact Hb).
  split.
  - split; [exact I|]. intros [p|]; [|exact I]. split; [exact I|]. intros [v|errno]; [|exact I].
    apply Hk, Hs.
  - intros [p|]; [|exact Hb]. intros [v|errno]; [|apply Hs]. apply Hk, Hs.
Qed.

Lemma alloc_bufs_keeps_fd fd max n b k :
  (forall r, keeps_fd fd (k r)) ->
  b_ublkc_fd_ b = fd -> forall bases, keeps_fd fd (let_value (alloc_bufs max page n bases) k).
Proof.
  intros Hk Hb. induction n as [|n IH]; intros bases; cbn [alloc_bufs]; [apply Hk|].
  split.
  - apply (all_calls_let_value (C := call) (R := reply)); [apply (alloc_bufs_no_io max page (S n))|].
    intros r. apply Hk.
  - intros [p|]; [apply IH|]. apply Hk.
Qed.

Lemma batch_init_keeps_fd raw b : keeps_fd (b_ublkc_fd_ b) (BatchIoQueue_init page raw b).
Proof.
  assert (forall r : sys_res, keeps_fd (b_ublkc_fd_ b) (match r with
    | SysErr errno => just (b, Some (SystemError errno))
    | SysOk addr =>
        let b := b_with_iod (Some addr) b in
        let size := align_up (b_queue_depth_ b * commit_element_size_ (b_flags_ b)) page in
        let b := b_with_commit size (commit_buf_0 b) (commit_buf_1 b) b in
        alloc_pair page size (b_with_commit size) b (fun b =>
        let size := align_up (b_queue_depth_ b * sizeof_u16) page in
        let b := b_with_fetch size (fetch_buf_0 b) (fetch_buf_1 b) b in
        alloc_pair page size (b_with_fetch size) b (fun b =>
        if need_alloc_buf (b_flags_ b) then
          let_value (alloc_bufs (b_max_io_buf_bytes_ b) page (Z.to_nat (b_queue_depth_ b)) [])
            (fun '(bases, e) => just (b_with_bufs bases b, e))
        else just (b, None)))
    end)) as H.
  { intros [addr|errno]; [|split; [exact I|reflexivity]].
    cbv zeta. apply alloc_pair_keeps_fd; [reflexivity..|]. intros b1 H1.
    cbv zeta. apply alloc_pair_keeps_fd; [reflexivity|exact H1|]. intros b2 H2.
    destruct (need_alloc_buf _); [|split; [exact I|exact H2]].
    apply (alloc_bufs_keeps_fd _ _ _ b2); [|exact H2]. intros [bases x]. split; [exact I|exact H2]. }
  split; [split; [exact I|intros r; apply H]|intros r; apply H].
Qed.

Lemma guarded_fd fd (body : ctor BatchIoQueue) cleanup :
  all_leaves (fun c => match c with SetValue (b, _) => b_ublkc_fd_ b = fd | _ => True end) body ->
  all_leaves (fun c => match c with SetValue b => b_ublkc_fd_ b = fd | _ => True end)
    (guarded_ctor body cleanup).
Proof.
  intros H. apply all_leaves_connect. induction body as [c|c k IH]; cbn [all_leaves] in *; [|auto].
  destruct c as [[b [x|]]|e| |]; cbn; auto.
  apply all_leaves_connect. generalize (cleanup b). intros p.
  induction p as [[]|c k IH]; cbn; auto.
Qed.

#[local] Instance BatchIoQueue_laws : DeviceQueueLaws BatchIoQueue.
Proof.
  assert (no_locks ∅) as H0 by (intros a n; multiset_solver).
  split.
  - intros fd raw q_id flags depth max. change (∅ : resources) with (unlocked ∅).
    eapply obeys_mono; [|eapply obeys_unlocked, batch_ctor_obeys, H0].
    intros [q|e| |] X (X' & H & ->); try contradiction.
    + destruct H as (-> & _). rewrite (left_id_L ∅ (⊎)). reflexivity.
    + rewrite H. reflexivity.
  - intros b. apply with_init_queue_releases. unfold prep_command. apply releases_let_value.
    + apply releases_co_await, releases_keeps. split; [intros X r; reflexivity|intros; exact I].
    + intros _. apply releases_keeps, batch_service_calls; repeat intro; reflexivity.
  - intros b. pose proof (obeys_unlocked _ _ _ (batch_dtor_obeys page ∅ b H0)) as H.
    rewrite (left_id_L ∅ (⊎)) in H. eapply obeys_mono; [|exact H].
    intros c X (X' & [_ ->] & ->) _. reflexivity.
  - intros fd raw q_id flags depth max s. cbn [dq_new BatchIoQueue_class].
    set (b0 := Build_BatchIoQueue fd q_id flags depth max qh None 0 None None 0 None None []).
    destruct (batch_init_keeps_fd raw b0) as [Hc Hl].
    apply obeys_with_leaves; [apply no_io_obeys, guarded_no_io; [exact Hc|apply batch_cleanup_no_io]|].
    exact (guarded_fd fd _ _ Hl).
  - intros b. apply with_init_queue_calls; [exact I..|].
    apply all_calls_let_value; [|intros; apply batch_service_calls; repeat intro; exact I || reflexivity].
    apply all_calls_co_await. split; [reflexivity|intros; exact I].
  - intros b. apply all_calls_then, batch_cleanup_no_io.
Qed.
End BatchClass.

(** ** Claims *)

(** C24: serving a queue keeps its resources in order, with either queue class
    and whatever the driver, the allocator and the handler do: the I/O commands
    of the queue are issued on the registered descriptor exactly while it is
    registered, and on the raw one only if its registration failed; and when
    [run_dev] completes, also with an error at any point, the descriptor is
    unregistered and everything the queue had acquired - the descriptor
    mapping, its buffers, the [init_queue] of the handler - is released. *)
Theorem run_dev_resources {Q1 Q2} {IQ : DeviceQueue Q1} {BQ : DeviceQueue Q2}
    {IL : DeviceQueueLaws Q1} {BL : DeviceQueueLaws Q2} (K : env) ublkc_fd q_id info X :
  ublkc_fd <> -1 ->
  let r := exec K (io_run_dev ublkc_fd q_id info) [] in
  (exists s, accepts fd_step None (snd r) = Some s /\
     (fst r <> Unfinished -> s = None \/ s = Some (Fd ublkc_fd))) /\
  (fst r <> Unfinished -> accepts own_ledger X (snd r) = Some X).
Proof.
  intros Hfd r.
  destruct (obeys_exec _ K _ _ _ [] (io_run_dev_obeys ublkc_fd q_id info Hfd))
    as (t & s & Ht & Ha & Hs). fold r in Ht, Hs. cbn [app] in Ht. rewrite Ht. split; [eauto|]. intros Hr.
  destruct (obeys_exec _ K _ _ _ [] (releases_at _ X (io_run_dev_releases ublkc_fd q_id info Hfd)))
    as (t' & X' & Ht' & Ha' & HX). fold r in Ht', HX.
  cbn [app] in Ht'. rewrite Ht in Ht'. subst t'. rewrite Ha', HX by exact Hr. reflexivity.
Qed.

Definition dev_info_with (flags : Z) : ublksrv_ctrl_dev_info :=
  {| info_nr_hw_queues := 1; info_queue_depth := 2; info_state := UBLK_S_DEV_LIVE;
     info_io_desc_size := 0; info_max_io_buf_bytes := 4096; info_dev_id := 0;
     info_ublksrv_pid := 0; info_pad1 := 0; info_flags := flags; info_ublksrv_flags := 0;
     info_owner_uid := 0; info_owner_gid := 0; info_reserved1 := 0; info_reserved2 := 0 |}.

(** Both queue classes, for the witnesses. *)
Definition sample_queue : DeviceQueue IoQueue := IoQueue_class 4096 true 3 sample_schedule.

Definition sample_batch_queue : DeviceQueue BatchIoQueue :=
  BatchIoQueue_class (F := bool_futex) 4096 true sample_sqe 0 0 sample_turns.

Lemma run_dev_resources_witness :
  let r := exec batch_driver
    (io_run_dev (IQ := sample_queue) (BQ := sample_batch_queue) 5 0 (dev_info_with UBLK_F_BATCH_IO)) [] in
  fst r = SetValue tt /\ accepts own_ledger ∅ (snd r) = Some ∅.
Proof.
  intros r. assert (fst r = SetValue tt) as Hr by (vm_compute; reflexivity). split; [exact Hr|].
  refine (proj2 (run_dev_resources (IQ := sample_queue) (BQ := sample_batch_queue)
    (IL := IoQueue_laws 4096 true 3 sample_schedule)
    (BL := BatchIoQueue_laws (F := bool_futex) 4096 true sample_sqe 0 0 sample_turns)
    batch_driver 5 0 (dev_info_with UBLK_F_BATCH_IO) ∅ _) _).
  - discriminate.
  - intros HU. change (fst r = Unfinished) in HU. congruence.
Defined.
