(* ===== verification/Shm.v ===== *)
(** * Shm: the shared memory service

    [src/include/ublk/detail/shm.hpp]: a session receives a memory descriptor
    from a client, maps it, registers it with the driver and the handler, and
    undoes that when the client leaves; the server accepts sessions on a Unix
    socket.  [Session::cleanup] is spawned on the server's scope, so a session
    yields its completion together with the tasks it has spawned. *)

From S2P Require Import Prelude Effects Protocol UblkCmd Path Sys Ledger Raw IoResult Control.
From Stdlib Require Import Ascii.

#[local] Open Scope Z_scope.

Record Session := {
  ss_control_fd : Z;
  ss_dev_id : Z;
  ss_flags : Z;
  ss_size : Z;
  ss_base : option Z;
  ss_index : Z;
}.

Definition set_size (v : Z) (s : Session) : Session :=
  {| ss_control_fd := ss_control_fd s; ss_dev_id := ss_dev_id s; ss_flags := ss_flags s;
     ss_size := v; ss_base := ss_base s; ss_index := ss_index s |}.

Definition set_base (v : option Z) (s : Session) : Session :=
  {| ss_control_fd := ss_control_fd s; ss_dev_id := ss_dev_id s; ss_flags := ss_flags s;
     ss_size := ss_size s; ss_base := v; ss_index := ss_index s |}.

Definition set_index (v : Z) (s : Session) : Session :=
  {| ss_control_fd := ss_control_fd s; ss_dev_id := ss_dev_id s; ss_flags := ss_flags s;
     ss_size := ss_size s; ss_base := ss_base s; ss_index := v |}.

(** The constructor. *)
Definition new_session (control_fd dev_id flags : Z) : Session :=
  {| ss_control_fd := control_fd; ss_dev_id := dev_id; ss_flags := flags;
     ss_size := 0; ss_base := None; ss_index := -1 |}.

Definition PROT_READ : Z := 1.
Definition PROT_WRITE : Z := 2.
Definition FD_BYTES : Z := 4.
(** [CMSG_SPACE(sizeof(int))] *)
Definition CMSG_SPACE_INT : Z := 24.
Definition SUN_PATH_SIZE : Z := 108.

(** What [handle] leaves: the session and how it completed; what a session
    leaves: how it completed and the tasks it has spawned. *)
Abbreviation handled_session := (Session * completion Z)%type.
Abbreviation session_end := (completion unit * list (task unit))%type.

Section Shm.
Context (uninit : ublksrv_ctrl_dev_info) (e : dev_env).

(** ** Session *)

(** The task [cleanup] spawns; [unstoppable] only shields it from the stop
    requests of the scope. *)
Definition session_cleanup (self : Session) : task unit :=
  upon_error
    (let_value
       (if negb (ss_index self =? -1) then
          do! control_unregister_shm_buf uninit e (ss_control_fd self) (ss_dev_id self)
                (ss_index self) in
          perform (HandleUnregShm (ss_index self)) id
        else just tt)
       (fun _ => match ss_base self with
                 | Some a => perform (Munmap a (ss_size self)) id
                 | None => just tt
                 end))
    (fun _ => just tt).

Definition await {A} (p : task A) (self : Session) (k : A -> task handled_session)
    : task handled_session :=
  let_value (reify (co_await p)) (fun c =>
    match c with
    | SetValue a => k a
    | SetError x => just (self, SetError x)
    | SetStopped => just (self, SetStopped)
    | Unfinished => Done Unfinished
    end).

(** The body of [handle], up to the scope guard. *)
Definition session_handle_body (self : Session) (memfd : Z) : task handled_session :=
  await (trigger (AsyncStatx memfd) (fun r => map_completion (fun _ => snd r) (lift_res (fst r))))
    self (fun size =>
  let self := set_size size self in
  let map_prot := if has (ss_flags self) UBLK_SHMEM_BUF_READ_ONLY then PROT_READ
                  else PROT_READ .| PROT_WRITE in
  let_value (trigger (Mmap (ss_size self) map_prot memfd 0) SetValue : task sys_res) (fun r =>
  match r with
  | SysErr errno => just (self, SetError (ErrPtr (SystemError errno)))
  | SysOk addr =>
      let self := set_base (Some addr) self in
      let reg := {| reg_addr := uwrap 64 addr; reg_len := ss_size self;
                    reg_flags := ss_flags self; reg_reserved := 0 |} in
      await (control_register_shm_buf uninit e (ss_control_fd self) (ss_dev_id self) reg)
        self (fun index =>
      let self := set_index index self in
      await (trigger (HandleRegShm (ss_index self) addr (ss_size self)) id : task unit)
        self (fun _ =>
      just (self, SetValue 0)))
  end)).

(** The guard of [handle]: [cleanup] unless it has succeeded.  The source spawns
    it as [handle] is left; here the session carries it to its end, where the
    server adds it to the pool: its first call may stand before the last calls
    of the session in a run of the source, the reply to the client and the
    closing of two descriptors, none of which concerns what it releases. *)
Definition session_handle (self : Session) (memfd : Z)
    : task (handled_session * list (task unit)) :=
  then_ (session_handle_body self memfd) (fun '(self, c) =>
    ((self, c), match c with SetValue _ => [] | _ => [session_cleanup self] end)).

(** ** shm_session *)

(** The last [SCM_RIGHTS] message's first descriptor; -1 if there is none. *)
Definition received_fd (l : list cmsg) : Z :=
  fold_left (fun fd m =>
    if (cmsg_level m =? SOL_SOCKET) && (cmsg_type m =? SCM_RIGHTS)
    then match cmsg_fds m with x :: _ => x | [] => fd end
    else fd) l (-1).

(** The result sent to the client. *)
Definition session_result (c : completion Z) : Z :=
  match c with
  | SetValue r => r
  | SetError x => swrap 32 (- normalize_error x EIO)
  | _ => - ECANCELED
  end.

(** The exchange after the registration: the result, and the client's leaving. *)
Definition session_reply (client_fd res : Z) : task unit :=
  do! trigger (AsyncSend client_fd res) lift_res in
  if res <? 0 then throw (SystemError (- res))
  else
    let! r := trigger (AsyncRecv client_fd) lift_res in
    if 0 <? r then throw (RuntimeError "client sent data after result") else just tt.

(** The part under the guards of the memory descriptor. *)
Definition session_serve (client_fd memfd : Z) (session : Session) : task session_end :=
  let_value (session_handle session memfd) (fun '((self, c), spawned) =>
    let res := session_result c in
    let_value (reify (session_reply client_fd res)) (fun c' =>
      (* d3 *)
      let spawned := spawned ++ (if 0 <=? res then [session_cleanup self] else []) in
      let_value (perform (Close memfd) id) (fun _ => just (c', spawned)))).

Definition shm_session (client_fd : Z) (session : Session) : task session_end :=
  let_value
    (let_value (reify (co_await (trigger (AsyncRecvmsg client_fd CMSG_SPACE_INT)
         (fun r => map_completion (fun _ => snd r) (lift_res (fst r)))))) (fun c =>
       match c with
       | SetValue msgs =>
           let fd := received_fd msgs in
           if fd =? -1
           then just (SetError (ErrPtr (RuntimeError "client did not pass a file descriptor")), [])
           else session_serve client_fd fd session
       | SetError x => just (SetError x, [])
       | SetStopped => just (SetStopped, [])
       | Unfinished => Done Unfinished
       end))
    (fun r => let_value (perform (Close client_fd) id) (fun _ => just r)).

(** ** The server *)

(** A task spawned by a session. *)
Definition spawned_task (p : task unit) : task session_end := then_ (reify p) (fun c => (c, [])).

(** The accept loop and the tasks of its scope, under a schedule: [0] is the
    loop's turn, [S i] that of the [i]-th task spawned.  A client accepted is a
    session spawned; [server] is how the loop has ended, if it has. *)
Fixpoint shm_server (server_fd : Z) (session : Session) (sched : list nat)
    (server : option (completion unit)) (pool : list (task session_end))
    : task (option (completion unit) * list (task session_end)) :=
  match sched with
  | [] => just (server, pool)
  | O :: sched =>
      match server with
      | None =>
          Vis (AsyncAccept server_fd) (fun r =>
            match r with
            | AsyncOk client_fd =>
                shm_server server_fd session sched None (pool ++ [shm_session client_fd session])
            | AsyncErr ec =>
                shm_server server_fd session sched (Some (SetError (ErrPtr (SystemError ec)))) pool
            | AsyncStopped => shm_server server_fd session sched (Some SetStopped) pool
            end)
      | Some _ => shm_server server_fd session sched server pool
      end
  | S i :: sched =>
      match pool !! i with
      | Some (Vis c k) =>
          Vis c (fun r => shm_server server_fd session sched server (<[i := k r]> pool))
      | Some (Done (SetValue (c, spawned))) =>
          shm_server server_fd session sched server
            (<[i := Done (SetValue (c, []))]> pool ++ map spawned_task spawned)
      | _ => shm_server server_fd session sched server pool
      end
  end.

Definition finished (p : task session_end) : bool :=
  match p with Done (SetValue (_, [])) => true | _ => false end.

(** The end of the server: the scope is joined, then the loop's exception is
    rethrown. *)
Definition shm_scope (sched : list nat) (server_fd : Z) (session : Session) : task unit :=
  let_value (shm_server server_fd session sched None []) (fun '(server, pool) =>
    match server with
    | Some c =>
        if forallb finished pool
        then match c with SetError x => Done (SetError x) | _ => just tt end
        else Done Unfinished
    | None => Done Unfinished
    end).

Definition shm_server_run (sched : list nat) (path : list ascii) (session : Session) : task unit :=
  let! server_fd := trigger AsyncSocket lift_res in
  defer
    (if SUN_PATH_SIZE <=? Z.of_nat (length path) then throw (LengthError "unix path too long")
     else
       do! upon_error (trigger (AsyncUnlink path) lift_res) (fun ec =>
             if negb (err_value ec =? ENOENT) then throw (SystemError (err_value ec))
             else just (- err_value ec)) in
       do! trigger (AsyncBind server_fd path) lift_res in
       defer
         (do! trigger (AsyncListen server_fd 128) lift_res in shm_scope sched server_fd session)
         (perform (Unlink path) id))
    (perform (Close server_fd) id).

(** [daemon::run_shm_server] (daemon.hpp). *)
Definition daemon_shm_server (sched : list nat) (control_fd dev_id : Z) (path : list ascii)
    (flags : Z) : task unit :=
  shm_server_run sched path (new_session control_fd dev_id flags).
End Shm.

(** ** What a session may rely on

    Error codes are positive 32-bit numbers, and a command that succeeds yields
    no negative one.  Every call may fail, and a message may carry any number
    of descriptors. *)

Definition code_ok (ec : Z) : bool := (0 <? ec) && (ec <? 2 ^ 31).

Definition session_env_ok (c : call) : reply c -> bool :=
  match c return reply c -> bool with
  | UringCtrl _ _ _ => fun r =>
      match fst r with
      | AsyncOk v => (0 <=? v) && (v <? 2 ^ 31)
      | AsyncErr ec => code_ok ec
      | AsyncStopped => true
      end
  | AsyncStatx _ => fun r => match fst r with AsyncErr ec => code_ok ec | _ => true end
  | Mmap _ _ _ _ => fun r => match r with SysErr errno => code_ok errno | _ => true end
  | HandleRegShm _ _ _ => fun r =>
      match r with SetError x => code_ok (normalize_error x EIO) | _ => true end
  | _ => fun _ => true
  end.

(** ** The account of the service

    What is held, and the number of commands the driver has failed to execute,
    registrations apart.  Of the descriptors a client sends, the account has
    the one the session keeps. *)

Abbreviation account := (resources * nat)%type.

Definition kept (l : list cmsg) : resources :=
  if received_fd l =? -1 then ∅ else {[+ RFile (received_fd l) +]}.

Definition fault (c : call) : reply c -> nat :=
  match c return reply c -> nat with
  | UringCtrl _ op _ => fun r =>
      match fst r with AsyncOk _ => 0%nat | _ => if bool_decide (op = UBLK_U_CMD_REG_BUF) then 0%nat else 1%nat end
  | _ => fun _ => 0%nat
  end.

Definition kept_ledger (X : resources) (c : call) : reply c -> option resources :=
  match c return reply c -> option resources with
  | AsyncRecvmsg _ _ => fun r =>
      Some (match fst r with AsyncOk _ => X ⊎ kept (snd r) | _ => X end)
  | c => own_ledger X c
  end.

Definition account_step (a : account) (c : call) (r : reply c) : option account :=
  option_map (fun X => (X, (fault c r + snd a)%nat)) (kept_ledger (fst a) c r).

(** The commands of a run that failed, registrations apart. *)
Definition failed_commands (h : history) : nat :=
  foldr (fun x n => (fault (projT1 x) (projT2 x) + n)%nat) 0%nat h.

(** The descriptors of a run that no session has kept. *)
Definition surplus_of (c : call) : reply c -> resources :=
  match c return reply c -> resources with
  | AsyncRecvmsg _ _ => fun r =>
      match fst r with
      | AsyncOk _ => list_to_set_disj (map RFile (received_fds (snd r))) ∖ kept (snd r)
      | _ => ∅
      end
  | _ => fun _ => ∅
  end.

Definition surplus (h : history) : resources :=
  foldr (fun x X => surplus_of (projT1 x) (projT2 x) ⊎ X) ∅ h.

(** A region whose clean-up has failed: its mapping and its registration, by
    address, size and index. *)
Definition region_held (x : Z * Z * Z) : resources :=
  let '(addr, size, index) := x in {[+ RMap addr size +]} ⊎ {[+ RShm index +]}.

Definition regions_held (lost : list (Z * Z * Z)) : resources :=
  foldr (fun x X => region_held x ⊎ X) ∅ lost.

(** Everything is given back, but one region at most for each failure. *)
Definition settles (a a' : account) : Prop :=
  exists lost, fst a' = fst a ⊎ regions_held lost /\ (snd a + length lost <= snd a')%nat.

(** *** Accounts *)

Lemma regions_held_app l1 l2 : regions_held (l1 ++ l2) = regions_held l1 ⊎ regions_held l2.
Proof.
  induction l1 as [|x l1 IH]; [symmetry; apply (left_id_L ∅ (⊎))|].
  cbn. fold (regions_held (l1 ++ l2)). fold (regions_held l1). rewrite IH. apply (assoc_L (⊎)).
Qed.

#[global] Instance settles_preorder : PreOrder settles.
Proof.
  split.
  - intros a. exists []. split; [symmetry; apply (right_id_L ∅ (⊎))|cbn; lia].
  - intros a b c (l1 & H1 & L1) (l2 & H2 & L2). exists (l1 ++ l2).
    rewrite H2, H1, regions_held_app, length_app. split; [symmetry; apply (assoc_L (⊎))|lia].
Qed.

Lemma settles_later X n m : (n <= m)%nat -> settles (X, n) (X, m).
Proof. intros H. exists []. split; [symmetry; apply (right_id_L ∅ (⊎))|cbn; lia]. Qed.

Lemma received_kept l : received_fd l = -1 \/ received_fd l ∈ received_fds l.
Proof.
  unfold received_fd. generalize (-1) as d. induction l as [|m l IH]; intros d; [left; reflexivity|].
  unfold received_fds. cbn [flat_map fold_left]. fold (received_fds l).
  assert (forall d', (d' = d \/ d' ∈ (if (cmsg_level m =? SOL_SOCKET) && (cmsg_type m =? SCM_RIGHTS)
      then cmsg_fds m else [])) ->
    fold_left (fun fd m => if (cmsg_level m =? SOL_SOCKET) && (cmsg_type m =? SCM_RIGHTS)
      then match cmsg_fds m with x :: _ => x | [] => fd end else fd) l d' = d \/
    fold_left (fun fd m => if (cmsg_level m =? SOL_SOCKET) && (cmsg_type m =? SCM_RIGHTS)
      then match cmsg_fds m with x :: _ => x | [] => fd end else fd) l d' ∈
    (if (cmsg_level m =? SOL_SOCKET) && (cmsg_type m =? SCM_RIGHTS) then cmsg_fds m else []) ++ received_fds l) as H.
  { intros d' Hd. destruct (IH d') as [-> |Hin]; [|right; apply elem_of_app; auto].
    destruct Hd as [Hd|Hd]; [left; exact Hd|right; apply elem_of_app; auto]. }
  apply H. destruct (_ && _); [|left; reflexivity]. destruct (cmsg_fds m); [left; reflexivity|right; left].
Qed.

Lemma kept_surplus l :
  list_to_set_disj (map RFile (received_fds l)) = kept l ⊎ (list_to_set_disj (map RFile (received_fds l)) ∖ kept l).
Proof.
  apply gmultiset_disj_union_difference. unfold kept.
  destruct (Z.eqb_spec (received_fd l) (-1)); [multiset_solver|].
  destruct (received_kept l) as [H|H]; [contradiction|].
  apply gmultiset_singleton_subseteq_l, elem_of_list_to_set_disj, list_elem_of_fmap. eauto.
Qed.

(** The account of a run is its ledger, with the descriptors that no session
    has kept aside. *)
Lemma account_ledger t : forall X n Y X' n',
  accepts account_step (X, n) t = Some (X', n') ->
  accepts own_ledger (X ⊎ Y) t = Some (X' ⊎ Y ⊎ surplus t) /\ n' = (failed_commands t + n)%nat.
Proof.
  induction t as [|[c r] t IH]; intros X n Y X' n' H; cbn [accepts] in *.
  - injection H as <- <-. cbn. rewrite (right_id_L ∅ (⊎)). auto.
  - destruct (account_step (X, n) c r) as [[X1 n1]|] eqn:E; [|discriminate].
    unfold account_step in E. cbn [fst snd] in E.
    destruct (kept_ledger X c r) as [X2|] eqn:Et; [|discriminate]. injection E as <- <-.
    assert (own_ledger (X ⊎ Y) c r = Some (X2 ⊎ (Y ⊎ surplus_of c r))) as ->.
    { destruct c; try (cbn [surplus_of]; rewrite (right_id_L ∅ (⊎)); apply own_ledger_frame, Et).
      cbn [kept_ledger own_ledger is_lock ledger surplus_of] in *. injection Et as <-.
      destruct (fst r); [|rewrite (right_id_L ∅ (⊎)); reflexivity..].
      rewrite (kept_surplus (snd r)) at 1. f_equal. multiset_solver. }
    destruct (IH _ _ (Y ⊎ surplus_of c r) _ _ H) as [-> ->]. cbn [surplus failed_commands foldr projT1 projT2].
    fold (surplus t) (failed_commands t). split; [f_equal; multiset_solver|lia].
Qed.

(** An account beside another. *)
Definition beside_account (a b : account) : account := (fst a ⊎ fst b, (snd a + snd b)%nat).

Lemma account_frame a b c r a' :
  account_step a c r = Some a' -> account_step (beside_account a b) c r = Some (beside_account a' b).
Proof.
  unfold account_step, beside_account. destruct a as [X n], b as [Y m]. cbn [fst snd].
  destruct (kept_ledger X c r) as [X'|] eqn:E; [|discriminate]. intros [= <-].
  assert (kept_ledger (X ⊎ Y) c r = Some (X' ⊎ Y)) as ->; [|cbn; do 2 f_equal; lia].
  destruct c; try (apply own_ledger_frame, E).
  cbn [kept_ledger] in *. injection E as <-. destruct (fst r); [f_equal; multiset_solver|reflexivity..].
Qed.

Definition totals (l : list account) : account :=
  foldr beside_account (∅, 0%nat) l.

Lemma beside_assoc a b c : beside_account a (beside_account b c) = beside_account (beside_account a b) c.
Proof. unfold beside_account. cbn [fst snd]. f_equal; [apply (assoc_L (⊎))|lia]. Qed.

Lemma beside_comm a b : beside_account a b = beside_account b a.
Proof. unfold beside_account. f_equal; [apply (comm_L (⊎))|lia]. Qed.

Lemma beside_nothing a : beside_account (∅, 0%nat) a = a.
Proof. destruct a. unfold beside_account. cbn [fst snd]. rewrite (left_id_L ∅ (⊎)). reflexivity. Qed.

Lemma totals_app l1 l2 : totals (l1 ++ l2) = beside_account (totals l1) (totals l2).
Proof.
  induction l1 as [|a l1 IH]; [symmetry; apply beside_nothing|].
  change (beside_account a (totals (l1 ++ l2)) = beside_account (beside_account a (totals l1)) (totals l2)).
  rewrite IH. apply beside_assoc.
Qed.

Lemma totals_one a : totals [a] = a.
Proof. cbn. rewrite beside_comm. apply beside_nothing. Qed.

Lemma totals_insert l i a : l !! i = Some a ->
  exists b, forall a', totals (<[i := a']> l) = beside_account a' b.
Proof.
  revert i; induction l as [|a0 l IH]; intros [|i]; try discriminate.
  - intros _. exists (totals l). reflexivity.
  - intros Hi. destruct (IH i Hi) as [b Hb]. exists (beside_account a0 b). intros a'.
    change (beside_account a0 (totals (<[i := a']> l)) = beside_account a' (beside_account a0 b)).
    rewrite Hb, !beside_assoc. f_equal. apply beside_comm.
Qed.

Lemma settles_beside a a' b b' :
  settles a a' -> settles b b' -> settles (beside_account a b) (beside_account a' b').
Proof.
  intros (l1 & H1 & L1) (l2 & H2 & L2). exists (l1 ++ l2). unfold beside_account. cbn [fst snd].
  rewrite H1, H2, regions_held_app, length_app. split; [multiset_solver|lia].
Qed.

Abbreviation session_ledger := (assuming session_env_ok account_step).

(** *** Lookups

    A value, or an error with a code, or a stop. *)
Definition coded {A} (c : completion A) : Prop :=
  match c with SetError x => code_ok (normalize_error x EIO) = true | _ => True end.

Lemma coded_except {A} x : coded (SetError x : completion A) ->
  coded (SetError (ErrPtr (as_except_ptr x)) : completion A).
Proof. destruct x; exact id. Qed.

(** How an operation that takes nothing ends, when it has begun with [b]
    failures: with a value in [V], or after another failure. *)
Definition outcome {A} (V : A -> nat -> Prop) (X : resources) (b : nat) (c : completion A) (a : account) : Prop :=
  exists m, a = (X, m) /\ (b <= m)%nat /\ coded c /\
    match c with SetValue v => V v m | Unfinished => False | _ => (b < m)%nat end.

Definition yields {A} (b : nat) (V : A -> nat -> Prop) (p : task A) : Prop :=
  forall X n, (b <= n)%nat -> obeys session_ledger p (Some (X, n)) (under (outcome V X b)).

Lemma outcome_value {A} (V : A -> nat -> Prop) X b n v :
  (b <= n)%nat -> V v n -> outcome V X b (SetValue v) (X, n).
Proof. intros H1 H2. exists n. split_all; auto; exact I. Qed.

Lemma outcome_failed {A} (V : A -> nat -> Prop) X b n (c : completion A) :
  (b < n)%nat -> coded c -> match c with SetError _ | SetStopped => True | _ => False end ->
  outcome V X b c (X, n).
Proof. intros H1 H2 H3. exists n. destruct c; try contradiction; split_all; auto; lia. Qed.

Lemma yields_bind {A B} b (V : A -> nat -> Prop) W (p : task A) (f : A -> task B) X n :
  obeys session_ledger p (Some (X, n)) (under (outcome V X b)) ->
  (forall a m, (b <= m)%nat -> V a m -> obeys session_ledger (f a) (Some (X, m)) (under (outcome W X b))) ->
  obeys session_ledger (let_value p f) (Some (X, n)) (under (outcome W X b)).
Proof.
  intros Hp Hf. eapply under_let_value; [apply Hp|]. intros c a (m & -> & Hm & Hc & H).
  destruct c as [v|x| |]; [apply Hf; assumption|apply outcome_failed; assumption || exact I..|contradiction].
Qed.

Lemma outcome_co_await {A} b (V : A -> nat -> Prop) (p : task A) X n :
  obeys session_ledger p (Some (X, n)) (under (outcome V X b)) ->
  obeys session_ledger (co_await p) (Some (X, n)) (under (outcome V X b)).
Proof.
  intros H. apply under_co_await. eapply obeys_mono; [|exact H].
  intros c [a|]; [|intros; exact I]. intros (m & -> & Hm & Hc & Hv).
  destruct c; exists m; split_all; auto. apply coded_except, Hc.
Qed.

(** A command other than those that register buffers. *)
Definition output_post (X : resources) (n : nat) (c : completion (Z * payload)) (a : account) : Prop :=
  match c with
  | SetValue (v, _) => a = (X, n) /\ 0 <= v
  | SetError x => a = (X, S n) /\ exists ec, x = ErrCode ec /\ code_ok ec = true
  | SetStopped => a = (X, S n)
  | Unfinished => False
  end.

Lemma output_obeys fd op dev q d0 addr len plen X n :
  op <> UBLK_U_CMD_REG_BUF -> op <> UBLK_U_CMD_UNREG_BUF ->
  obeys session_ledger (with_output (ctrl_cmd fd op dev q d0 addr len plen)) (Some (X, n))
    (under (output_post X n)).
Proof.
  intros H1 H2. apply under_bind, under_trigger.
  intros [[v|ec|] out] Hok; unfold account_step; cbn [fst snd kept_ledger own_ledger is_lock ledger
    fault session_env_ok] in *; rewrite ?bool_decide_eq_false_2 by assumption; eexists;
    (split; [reflexivity|]); cbn.
  - split; [reflexivity|]. apply andb_true_iff in Hok as [Hv _]. lia.
  - eauto.
  - reflexivity.
Qed.

Lemma output_outcome b X n c a : (b <= n)%nat -> output_post X n c a -> outcome (fun _ _ => True) X b c a.
Proof.
  intros Hn H. destruct c as [[v out]|x| |]; cbn in H; [| | |contradiction].
  - destruct H as [-> _]. apply outcome_value; auto.
  - destruct H as [-> (ec & -> & Hec)]. apply outcome_failed; [lia|exact Hec|exact I].
  - subst a. apply outcome_failed; [lia|exact I..].
Qed.

Section Info.
Context (fd dev_id : Z).

(** Whether a lookup is done, or has failed once more. *)
Definition tried (b : nat) (r : bool * ublksrv_ctrl_dev_info) (m : nat) : Prop := fst r = true \/ (b < m)%nat.

Lemma attempt_yields b info : yields b (tried b) (get_dev_info_attempt fd dev_id info).
Proof.
  intros X n Hn. unfold get_dev_info_attempt, raw_get_dev_info2.
  apply yields_bind with (V := fun r m => 0 <= fst r \/ (b < m)%nat /\ code_ok (- fst r) = true).
  - apply outcome_co_await, under_upon_error. eapply obeys_mono; [|apply output_obeys; discriminate].
    intros c [a|]; [|intros; exact I]. intros H. destruct c as [[v out]|x| |]; cbn in H; [| | |contradiction].
    + destruct H as [-> Hv]. apply outcome_value; [exact Hn|left; exact Hv].
    + destruct H as [-> (ec & -> & Hec)]. apply outcome_value; [lia|]. right. cbn [fst err_value].
      rewrite Z.opp_involutive. split; [lia|exact Hec].
    + subst a. apply outcome_failed; [lia|exact I..].
  - intros [r out] m Hm Hr. cbn [fst] in Hr. destruct (Z.leb_spec 0 r).
    { apply outcome_value; [exact Hm|left; reflexivity]. }
    destruct Hr as [Hr|[Hr Hec]]; [lia|].
    destruct (_ =? _); [apply outcome_value; [exact Hm|right; exact Hr]|].
    destruct (_ =? _); [|apply outcome_failed; [exact Hr|exact Hec|exact I]].
    apply yields_bind with (V := fun _ _ => True).
    + apply outcome_co_await. eapply obeys_mono; [|apply output_obeys; discriminate].
      intros c [a|]; [|intros; exact I]. apply output_outcome, Hm.
    + intros [v out'] k Hk _. apply outcome_value; [exact Hk|left; reflexivity].
Qed.

Lemma retry_yields b info k sec ns : forall X n, (b < n)%nat ->
  obeys session_ledger (retry_loop (get_dev_info_attempt fd dev_id) k sec ns info) (Some (X, n))
    (under (outcome (tried b) X b)).
Proof.
  revert info; induction k as [|k IH]; intros info X n Hn; cbn [retry_loop].
  { apply outcome_value; [lia|right; exact Hn]. }
  apply yields_bind with (V := fun _ m => (b < m)%nat).
  - apply outcome_co_await, under_upon_error, under_trigger. intros r _. exists (X, n). split; [reflexivity|].
    destruct r; cbn [lift_res]; [apply outcome_value; lia|apply outcome_value; lia|apply outcome_failed; auto; exact I].
  - intros _ m Hm Hlt. apply yields_bind with (V := fun _ m => (b < m)%nat).
    + apply outcome_co_await. eapply obeys_mono; [|apply (attempt_yields (S b)); exact Hlt].
      intros c [a|]; [|intros; exact I]. intros (j & -> & Hj & Hc & Hv). exists j.
      split_all; [reflexivity|lia|exact Hc|]. destruct c; try contradiction; lia.
    + intros [ok s] j Hj Hlt'. destruct ok; [apply outcome_value; [lia|right; exact Hlt']|apply IH, Hlt'].
Qed.

Lemma get_dev_info_yields b info : yields b (fun _ _ => True) (control_get_dev_info fd dev_id info).
Proof.
  intros X n Hn. unfold control_get_dev_info, retry. apply yields_bind with (V := tried b).
  - apply outcome_co_await, yields_bind with (V := tried b); [apply outcome_co_await, attempt_yields, Hn|].
    intros [ok s] m Hm Ht. destruct ok; [apply outcome_value; [exact Hm|left; reflexivity]|].
    destruct Ht as [Ht|Ht]; [discriminate|]. apply retry_yields, Ht.
  - intros [ok s] m Hm Ht. destruct ok; [apply outcome_value; auto|].
    destruct Ht as [Ht|Ht]; [discriminate|]. apply outcome_failed; [exact Ht|reflexivity|exact I].
Qed.

Lemma cached_yields e b info : yields b (fun _ _ => True) (cached_get_dev_info e fd dev_id info).
Proof.
  intros X n Hn. unfold cached_get_dev_info. destruct e as [i|]; [destruct (_ =? _)|];
    solve [apply outcome_value; auto|apply outcome_co_await, get_dev_info_yields, Hn].
Qed.
End Info.

Section Proofs.
Context (uninit : ublksrv_ctrl_dev_info) (e : dev_env).

(** *** The session's commands *)

Lemma step_fault fd op cmd X n (r : async_res * payload) :
  op <> UBLK_U_CMD_REG_BUF -> match fst r with AsyncOk _ => False | _ => True end ->
  account_step (X, n) (UringCtrl fd op cmd) r = Some (X, S n).
Proof.
  intros H1 H2. unfold account_step. cbn [fst snd kept_ledger own_ledger is_lock ledger fault].
  rewrite bool_decide_eq_false_2 by assumption. destruct (fst r); [contradiction|reflexivity..].
Qed.

Definition registered (X : resources) (n : nat) (c : completion Z) (a : account) : Prop :=
  coded c /\ exists m, (n <= m)%nat /\
    match c with
    | SetValue i => a = (acquire (RShm i) X, m) /\ 0 <= i < 2 ^ 31
    | Unfinished => False
    | _ => a = (X, m)
    end.

Lemma register_obeys fd dev_id reg X n :
  obeys session_ledger (control_register_shm_buf uninit e fd dev_id reg) (Some (X, n)) (under (registered X n)).
Proof.
  assert (forall addr len plen m, (n <= m)%nat -> obeys session_ledger
    (co_await (result_only (ctrl_cmd fd UBLK_U_CMD_REG_BUF dev_id (-1) 0 addr len plen))) (Some (X, m))
    (under (registered X n))) as Hcmd.
  { intros addr len plen m Hm. apply under_co_await, under_bind, under_trigger.
    intros [[v|ec|] out] Hok; cbn [fst session_env_ok] in Hok; (eexists; split; [reflexivity|]);
      (split; [exact I || exact Hok|exists m; (split; [exact Hm|])]); try reflexivity.
    split; [reflexivity|]. apply andb_true_iff in Hok. lia. }
  unfold control_register_shm_buf. eapply under_let_value.
  - apply outcome_co_await, (cached_yields fd dev_id e n uninit X n). reflexivity.
  - intros c a (m & -> & Hm & Hc & Hv). destruct c as [i|x| |]; cbn [then_obeys]; [|..|contradiction].
    + destruct (unprivileged i); apply Hcmd, Hm.
    + split; [exact Hc|exists m; auto].
    + split; [exact I|exists m; auto].
Qed.

(** A registration withdrawn, or the failure of a command. *)
Definition withdrawn {A} (X : resources) (i : Z) (n : nat) (c : completion A) (a : account) : Prop :=
  exists m, (n <= m)%nat /\
    match c with
    | SetValue _ => a = (X, m)
    | Unfinished => False
    | _ => a = (acquire (RShm i) X, m) /\ (n < m)%nat
    end.

Lemma unregister_obeys fd dev_id i X n :
  0 <= i < 2 ^ 31 ->
  obeys session_ledger (control_unregister_shm_buf uninit e fd dev_id i) (Some (acquire (RShm i) X, n))
    (under (withdrawn X i n)).
Proof.
  intros Hi.
  assert (forall addr len plen m, (n <= m)%nat -> obeys session_ledger
    (result_only (ctrl_cmd fd UBLK_U_CMD_UNREG_BUF dev_id (-1) i addr len plen))
    (Some (acquire (RShm i) X, m)) (under (withdrawn X i n))) as Hcmd.
  { intros addr len plen m Hm. apply under_bind, under_trigger. intros [[v|ec|] out] _.
    - exists (X, m). unfold account_step. cbn [fst snd kept_ledger own_ledger is_lock ledger fault cmd_data0].
      rewrite bool_decide_eq_false_2, bool_decide_eq_true_2 by (discriminate || reflexivity).
      rewrite uwrap_id, release_acquire by range. split; [reflexivity|]. exists m. split; [exact Hm|reflexivity].
    - eexists. split; [apply step_fault; [discriminate|exact I]|]. exists (S m). split; [lia|split; [reflexivity|lia]].
    - eexists. split; [apply step_fault; [discriminate|exact I]|]. exists (S m). split; [lia|split; [reflexivity|lia]]. }
  unfold control_unregister_shm_buf, with_dev_path.
  apply under_let_value with (P := withdrawn (A := Z) X i n).
  - apply under_co_await. eapply under_let_value.
    + apply (cached_yields fd dev_id e n uninit (acquire (RShm i) X) n). reflexivity.
    + intros c a (m & -> & Hm & Hc & Hv). destruct c as [info|x| |]; cbn [then_obeys]; [|..|contradiction].
      * eapply obeys_mono; [|destruct (unprivileged info); apply Hcmd, Hm].
        intros c [a|] H; [|exact I]. destruct c; exact H.
      * exists m. auto.
      * exists m. auto.
  - intros c a H. destruct c; exact H.
Qed.

(** What a session holds: its mapping, and its registration when it has one. *)
Definition session_held (s : Session) : resources :=
  match ss_base s with Some a => {[+ RMap a (ss_size s) +]} | None => ∅ end ⊎
  (if ss_index s =? -1 then ∅ else {[+ RShm (ss_index s) +]}).

Definition session_ok (s : Session) : Prop := ss_index s = -1 \/ 0 <= ss_index s < 2 ^ 31.

(** Only what is mapped is registered. *)
Definition session_mapped (s : Session) : Prop := session_ok s /\ (ss_base s = None -> ss_index s = -1).

Lemma cleanup_obeys s X n :
  session_mapped s ->
  obeys session_ledger (session_cleanup uninit e s) (Some (X ⊎ session_held s, n))
    (under (fun c a => c <> Unfinished /\ settles (X, n) a)).
Proof.
  intros [Hs Hb]. unfold session_cleanup, session_held.
  set (M := match ss_base s with Some a => {[+ RMap a (ss_size s) +]} | None => ∅ end).
  assert (forall m, (n <= m)%nat -> obeys session_ledger
    (match ss_base s with Some a => perform (Munmap a (ss_size s)) id | None => just tt end)
    (Some (X ⊎ M, m)) (under (fun c a => c = SetValue tt /\ settles (X, n) a))) as Hmap.
  { intros m Hm. unfold M. destruct (ss_base s) as [a|].
    - apply under_trigger. intros [] _. exists (X, m). split; [|split; [reflexivity|apply settles_later, Hm]].
      unfold account_step. cbn [fst snd kept_ledger own_ledger is_lock ledger fault].
      change (X ⊎ {[+ RMap a (ss_size s) +]}) with (acquire (RMap a (ss_size s)) X).
      rewrite release_acquire. reflexivity.
    - split; [reflexivity|]. rewrite (right_id_L ∅ (⊎)). apply settles_later, Hm. }
  apply under_upon_error.
  apply under_let_value with (P := fun c a =>
    match c with
    | SetValue _ => exists m, a = (X ⊎ M, m) /\ (n <= m)%nat
    | Unfinished => False
    | _ => settles (X, n) a
    end).
  - destruct Hs as [Hs|Hs].
    + rewrite Hs. cbn [Z.eqb negb Pos.eqb]. rewrite (right_id_L ∅ (⊎)). exists n. auto.
    + destruct (Z.eqb_spec (ss_index s) (-1)) as [|Hne]; [lia|]. cbn [negb].
      rewrite (assoc_L (⊎)). eapply under_let_value with (P := withdrawn (A := unit) (X ⊎ M) (ss_index s) n).
      * apply under_co_await. eapply obeys_mono; [|apply (unregister_obeys _ _ _ (X ⊎ M) n Hs)].
        intros c [a|] H; [|exact I]. destruct c; exact H.
      * assert (forall m, (n < m)%nat -> settles (X, n) (acquire (RShm (ss_index s)) (X ⊎ M), m)) as Hlost.
        { intros m Hm. destruct (ss_base s) as [a|] eqn:Eb; [|elim Hne; apply Hb; reflexivity].
          exists [(a, ss_size s, ss_index s)]. unfold acquire, M.
          cbn [regions_held foldr region_held fst snd length]. split; [clear; multiset_solver|clear -Hm; lia]. }
        intros c a (m & Hm & H). destruct c as [[]|x| |]; cbn [then_obeys]; [|..|contradiction].
        -- subst a. apply under_trigger. intros [] _. exists (X ⊎ M, m). split; [reflexivity|]. exists m. auto.
        -- destruct H as [-> Hlt]. apply Hlost, Hlt.
        -- destruct H as [-> Hlt]. apply Hlost, Hlt.
  - intros c a H. destruct c as [[]|x| |]; cbn [then_obeys]; [|split; [discriminate|exact H]..|contradiction].
    destruct H as (m & -> & Hm). eapply obeys_mono; [|apply Hmap, Hm].
    intros c [a|]; [|intros; exact I]. intros [-> H]. split; [discriminate|exact H].
Qed.

Lemma under_await {A} (p : task A) self k a Q :
  obeys session_ledger p (Some a) (under (fun c a' =>
    match c with
    | SetValue v => obeys session_ledger (k v) (Some a') (under Q)
    | SetError x => Q (SetValue (self, SetError (ErrPtr (as_except_ptr x)))) a'
    | SetStopped => Q (SetValue (self, SetStopped)) a'
    | Unfinished => Q Unfinished a'
    end)) ->
  obeys session_ledger (await p self k) (Some a) (under Q).
Proof.
  intros H. unfold await. apply under_bind, under_reify, under_co_await.
  eapply obeys_mono; [|exact H]. intros [] [a'|] Hc; exact I || exact Hc.
Qed.

(** What [handle] leaves: the resources the session records, and a completion
    whose error has a code. *)
Definition handle_post (X : resources) (n : nat) (c : completion (Session * completion Z)) (a : account) : Prop :=
  match c with
  | SetValue (self, c) =>
      session_mapped self /\ coded c /\ (exists m, a = (X ⊎ session_held self, m) /\ (n <= m)%nat) /\
      match c with SetValue r => r = 0 | Unfinished => False | _ => True end
  | Unfinished => True
  | _ => False
  end.

Lemma handle_body_obeys self memfd X n :
  ss_base self = None -> ss_index self = -1 ->
  obeys session_ledger (session_handle_body uninit e self memfd) (Some (X, n)) (under (handle_post X n)).
Proof.
  intros Hb Hi. destruct self as [cfd dev flags size base index]. cbn in Hb, Hi. subst.
  pose (at_ := fun size base index => {| ss_control_fd := cfd; ss_dev_id := dev;
    ss_flags := flags; ss_size := size; ss_base := base; ss_index := index |}).
  assert (forall size m c, (n <= m)%nat -> coded c ->
    match c with SetError _ | SetStopped => True | _ => False end ->
    handle_post X n (SetValue (at_ size None (-1), c)) (X, m)) as H0.
  { intros size' m c Hm Hc H. split; [split; [left|]; reflexivity|]. split; [exact Hc|].
    split; [|destruct c; exact I || contradiction]. exists m. split; [|exact Hm].
    change (session_held (at_ size' None (-1))) with (∅ ⊎ ∅ : resources).
    rewrite !(right_id_L ∅ (⊎)). reflexivity. }
  assert (forall size addr m c, (n <= m)%nat -> coded c ->
    match c with SetError _ | SetStopped => True | _ => False end ->
    handle_post X n (SetValue (at_ size (Some addr) (-1), c)) (acquire (RMap addr size) X, m)) as H1.
  { intros size' addr m c Hm Hc H. split; [split; [left|]; reflexivity|]. split; [exact Hc|].
    split; [|destruct c; exact I || contradiction]. exists m. split; [|exact Hm].
    change (session_held (at_ size' (Some addr) (-1))) with ({[+ RMap addr size' +]} ⊎ ∅ : resources).
    rewrite (right_id_L ∅ (⊎)). reflexivity. }
  unfold session_handle_body.
  apply under_await, under_trigger. intros [[v|ec|] size'] Hok; exists (X, n); (split; [reflexivity|]);
    [|apply H0; [lia|exact Hok|exact I]|apply H0; [lia|exact I..]].
  apply under_bind, under_trigger. intros [addr|errno] Hok'; (eexists; split; [reflexivity|]);
    [|apply H0; [cbn; lia|exact Hok'|exact I]].
  apply under_await. eapply obeys_mono; [|apply register_obeys].
  intros c [a|]; [|intros; exact I]. intros (Hc & m & Hm & H).
  destruct c as [i|x| |]; [|subst a; apply H1; [exact Hm|apply coded_except, Hc|exact I]
                           |subst a; apply H1; [exact Hm|exact I..]|contradiction].
  destruct H as [-> Hi]. apply under_await, under_trigger.
  assert (forall c, coded c -> match c with SetValue r => r = 0 | Unfinished => False | _ => True end ->
    handle_post X n (SetValue (at_ size' (Some addr) i, c)) (acquire (RShm i) (acquire (RMap addr size') X), m)) as Hr.
  { intros c Hcc Hcv. split; [split; [right; exact Hi|discriminate]|]. split; [exact Hcc|]. split; [|exact Hcv].
    exists m. split; [|exact Hm]. f_equal. unfold session_held, acquire. cbn [at_ ss_size ss_base ss_index].
    destruct (Z.eqb_spec i (-1)); [lia|]. symmetry. apply (assoc_L (⊎)). }
  intros [[]|x| |] Hok''; (eexists; split; [reflexivity|]); try exact I; apply Hr;
    solve [exact I|reflexivity|apply (coded_except (A := Z)), Hok''].
Qed.

(** Exactly one clean-up is spawned: by the guard of [handle] when it fails,
    by [d3] when it has succeeded. *)
Lemma clean_up_once (self : Session) (c : completion Z) :
  coded c -> match c with SetValue r => r = 0 | Unfinished => False | _ => True end ->
  match c with SetValue _ => [] | _ => [session_cleanup uninit e self] end ++
  (if 0 <=? session_result c then [session_cleanup uninit e self] else []) =
  [session_cleanup uninit e self].
Proof.
  intros Hc H. destruct c as [r|x| |]; [subst r; reflexivity| |reflexivity|contradiction].
  cbn [session_result coded] in *. unfold code_ok in Hc. apply andb_true_iff in Hc as [H1 H2].
  rewrite swrap_id by range. destruct (Z.leb_spec 0 (- normalize_error x EIO)); [lia|reflexivity].
Qed.

Lemma release_beside x X Y : release x (acquire x X ⊎ Y) = Some (X ⊎ Y).
Proof.
  rewrite release_in by (unfold acquire; multiset_solver). f_equal. unfold acquire. multiset_solver.
Qed.

Lemma account_close fd X Y n r :
  account_step (acquire (RFile fd) X ⊎ Y, n) (Close fd) r = Some (X ⊎ Y, n).
Proof.
  unfold account_step. cbn [fst snd kept_ledger own_ledger is_lock ledger fault]. rewrite release_beside. reflexivity.
Qed.

(** What a task of the scope leaves: nothing but what has been lost, or one
    clean-up to be spawned, with what the session holds. *)
Definition serve_post (a0 : account) (c : completion session_end) (a : account) : Prop :=
  match c with
  | SetValue (c, spawned) => c <> Unfinished /\
      ((spawned = [] /\ settles a0 a) \/
       exists self m, session_mapped self /\ spawned = [session_cleanup uninit e self] /\
                    a = (fst a0 ⊎ session_held self, m) /\ (snd a0 <= m)%nat)
  | Unfinished => True
  | _ => False
  end.

Lemma reply_obeys client_fd res a :
  obeys session_ledger (reify (session_reply client_fd res)) (Some a)
    (under (fun c a' => match c with
                        | SetValue c => c <> Unfinished /\ a' = a
                        | Unfinished => True
                        | _ => False
                        end)).
Proof.
  apply under_reify. eapply obeys_assuming; [apply obeys_ignored| |intros; exact I].
  - unfold session_reply. destruct a. auto with ublk. repeat first
      [ apply all_calls_let_value; [|intros] | apply all_calls_co_await
      | split; [intros ?; reflexivity|intros; exact I] | case_match; try exact I ].
  - intros [] X' ->; cbn; auto.
Qed.

Lemma session_serve_obeys client_fd memfd self X n :
  ss_base self = None -> ss_index self = -1 ->
  obeys session_ledger (session_serve uninit e client_fd memfd self)
    (Some (acquire (RFile memfd) X, n)) (under (serve_post (X, n))).
Proof.
  intros Hb Hi. unfold session_serve, session_handle, then_.
  apply under_bind, under_bind. eapply obeys_mono; [|apply handle_body_obeys; assumption].
  intros [[self' c]| | |] [a|]; try (intros; exact I || contradiction).
  intros (Hok & Hc & (m & -> & Hm) & Hv). apply under_bind. eapply obeys_mono; [|apply reply_obeys].
  intros [c'| | |] [a|]; try (intros; exact I || contradiction). intros [Hc' ->].
  apply under_bind, under_trigger. intros [] _. exists (X ⊎ session_held self', m).
  split; [apply account_close|]. split; [exact Hc'|]. right. exists self', m.
  split_all; [exact Hok|apply clean_up_once; assumption|reflexivity|exact Hm].
Qed.

Lemma shm_session_obeys client_fd self X n :
  ss_base self = None -> ss_index self = -1 ->
  obeys session_ledger (shm_session uninit e client_fd self) (Some (acquire (RFile client_fd) X, n))
    (under (serve_post (X, n))).
Proof.
  intros Hb Hi. unfold shm_session. eapply under_let_value with
    (P := serve_post (acquire (RFile client_fd) X, n)).
  - apply under_bind, under_reify, under_co_await, under_trigger.
    assert (settles (acquire (RFile client_fd) X, n) (acquire (RFile client_fd) X, n)) as Hrefl by reflexivity.
    intros [r l] _. destruct r as [v|ec|]; (eexists; split; [reflexivity|]);
      cbn [lift_res map_completion then_obeys fst snd fault Nat.add]; [|split; [discriminate|left; auto]..].
    unfold kept. destruct (Z.eqb_spec (received_fd l) (-1)) as [|Hfd].
    + rewrite (right_id_L ∅ (⊎)). split; [discriminate|left; auto].
    + apply session_serve_obeys; assumption.
  - intros [[c spawned]| | |] a; cbn [serve_post]; try (intros; exact I || contradiction).
    intros [Hc H]. cbn [then_obeys]. apply under_bind, under_trigger. intros [] _.
    destruct H as [[-> (lost & H1 & H2)]|(self' & m & Hs & -> & -> & Hm)].
    + destruct a as [Y m]. cbn [fst snd] in *. subst Y. eexists. split; [apply account_close|].
      split; [exact Hc|left]. split; [reflexivity|]. exists lost. auto.
    + eexists. split; [apply account_close|]. split; [exact Hc|right]. exists self', m. auto.
Qed.

(** *** The scope of the server: each task has its own account *)

Definition runs (p : task session_end) (a : account) : Prop :=
  obeys session_ledger p (Some a) (under (serve_post (∅, 0%nat))).

Lemma session_runs client_fd self :
  ss_base self = None -> ss_index self = -1 ->
  runs (shm_session uninit e client_fd self) ({[+ RFile client_fd +]}, 0%nat).
Proof.
  intros Hb Hi. pose proof (shm_session_obeys client_fd self ∅ 0 Hb Hi) as H.
  unfold acquire in H. rewrite (left_id_L ∅ (⊎)) in H. exact H.
Qed.

Lemma cleanup_runs self : session_mapped self ->
  runs (spawned_task (session_cleanup uninit e self)) (session_held self, 0%nat).
Proof.
  intros Hs. unfold runs, spawned_task, then_. apply under_bind, under_reify.
  pose proof (cleanup_obeys self ∅ 0 Hs) as H. rewrite (left_id_L ∅ (⊎)) in H.
  eapply obeys_mono; [|exact H]. intros c [a|]; [|intros; exact I]. intros [Hc Ha].
  destruct c; try congruence; (split; [discriminate|left; split; [reflexivity|exact Ha]]).
Qed.

Lemma done_runs c a : c <> Unfinished -> settles (∅, 0%nat) a -> runs (Done (SetValue (c, []))) a.
Proof. intros Hc Ha. split; [exact Hc|left; auto]. Qed.

Lemma server_obeys server_fd self sched a0 :
  ss_base self = None -> ss_index self = -1 ->
  forall server pool accounts, Forall2 runs pool accounts ->
  obeys session_ledger (shm_server uninit e server_fd self sched server pool)
    (Some (beside_account (totals accounts) a0))
    (under (fun c a => exists server pool accounts,
       c = SetValue (server, pool) /\ Forall2 runs pool accounts /\ a = beside_account (totals accounts) a0)).
Proof.
  intros Hb Hi. induction sched as [|[|i] sched IH]; intros server pool accounts Hpool; cbn [shm_server].
  - exists server, pool, accounts. auto.
  - destruct server as [c|]; [apply IH, Hpool|]. intros [fd|ec|]; eexists; (split; [reflexivity|]); cbv beta iota;
      [|apply (IH _ _ accounts Hpool)..].
    match goal with |- obeys _ _ (Some ?a) _ =>
      replace a with (beside_account (totals (accounts ++ [({[+ RFile fd +]}, 0%nat)])) a0) end.
    + apply IH, Forall2_app; [assumption|]. constructor; [apply session_runs; assumption|constructor].
    + rewrite totals_app, totals_one. unfold beside_account, acquire. cbn [fst snd fault].
      f_equal; [multiset_solver|lia].
  - destruct (pool !! i) as [p|] eqn:E; [|apply IH, Hpool].
    destruct (Forall2_lookup_l _ _ _ _ _ Hpool E) as (a & Ea & Hp).
    destruct (totals_insert accounts i a Ea) as [b Hb'].
    assert (totals accounts = beside_account a b) as HT by (rewrite <- Hb', list_insert_id by assumption; reflexivity).
    destruct p as [[[c spawned]| | |]|c k]; try apply IH, Hpool.
    + destruct Hp as [Hc [[-> Ha]|(self' & m & Hs' & -> & -> & Hm)]].
      * rewrite app_nil_r. apply IH. rewrite <- (list_insert_id accounts i a Ea).
        apply Forall2_insert; [assumption|apply done_runs; assumption].
      * replace (totals accounts) with (totals (<[i := (∅, m)]> accounts ++ [(session_held self', 0%nat)])).
        -- apply IH, Forall2_app.
           ++ apply Forall2_insert; [assumption|]. apply done_runs; [exact Hc|]. apply settles_later. lia.
           ++ constructor; [apply cleanup_runs, Hs'|constructor].
        -- rewrite totals_app, totals_one, Hb', HT. unfold beside_account. cbn [fst snd].
           f_equal; [multiset_solver|lia].
    + intros r. destruct (Hp r) as (s' & Hd & Hk). cbn [assuming] in *.
      destruct (session_env_ok c r).
      2:{ exists None. split; [reflexivity|]. apply obeys_sunk. intros ?; exact I. }
      destruct (account_step a c r) as [a'|] eqn:EL; [|discriminate]. injection Hd as <-.
      rewrite HT, <- beside_assoc, (account_frame _ _ _ _ _ EL). eexists; split; [reflexivity|].
      rewrite beside_assoc, <- Hb'. apply IH, Forall2_insert; assumption.
Qed.

Lemma finished_settled pool accounts :
  Forall2 runs pool accounts -> forallb finished pool = true -> settles (∅, 0%nat) (totals accounts).
Proof.
  intros H Hf. induction H as [|p a pool accounts Hp Hpool IH]; [reflexivity|].
  cbn [forallb] in Hf. apply andb_true_iff in Hf as [H1 H2].
  assert (settles (∅, 0%nat) a) as Ha.
  { destruct p as [[[c []]| | |]|]; try discriminate.
    destruct Hp as [_ [[_ Ha]|(? & ? & _ & ? & _)]]; [exact Ha|discriminate]. }
  pose proof (settles_beside _ _ _ _ Ha (IH H2)) as H. rewrite beside_nothing in H. exact H.
Qed.

(** The operation gives back what it takes, but for what is lost. *)
Definition gives_back {A} (a : account) : completion A -> option account -> Prop :=
  under (fun c a' => c <> Unfinished -> settles a a').

Lemma back_then {A B} (p : task A) (f : A -> task B) a :
  obeys session_ledger p (Some a) (gives_back a) ->
  (forall v a', settles a a' -> obeys session_ledger (f v) (Some a') (gives_back a')) ->
  obeys session_ledger (let_value (co_await p) f) (Some a) (gives_back a).
Proof.
  intros Hp Hf. apply under_bind, under_co_await. eapply obeys_mono; [|exact Hp].
  intros [v|x| |] [a'|]; try (intros; exact I); cbn [gives_back under then_obeys]; intros H;
    try (intros _; apply H; discriminate).
  - specialize (H ltac:(discriminate)). eapply obeys_mono; [|apply Hf, H].
    intros c [a''|]; [|intros; exact I]. intros H' Hc. etransitivity; [exact H|apply H', Hc].
  - intros H'. exfalso. apply H'. reflexivity.
Qed.

(** A scope guard whose call takes the account from [a] to [b]. *)
Lemma back_defer {A} (p : task A) (c : call) f a b :
  obeys session_ledger p (Some a) (gives_back a) ->
  (forall a' r, settles a a' -> exists b', account_step a' c r = Some b' /\ settles b b') ->
  obeys session_ledger (defer p (perform c f)) (Some a) (gives_back b).
Proof.
  intros Hp Hd. apply obeys_defer. eapply obeys_mono; [|exact Hp].
  assert (forall (c0 : completion A) a', c0 <> Unfinished -> settles a a' ->
    obeys session_ledger (perform c f) (Some a') (fun cd s =>
      match cd with Unfinished => gives_back b (Unfinished : completion A) s | _ => gives_back b c0 s end)) as H.
  { intros c0 a' Hc0 Ha r. cbn [assuming].
    destruct (session_env_ok c r); [|exists None; split; [reflexivity|exact I]].
    destruct (Hd a' r Ha) as (b' & -> & Hb). exists (Some b'). split; [reflexivity|]. intros _. exact Hb. }
  intros [v|y| |] [a'|] Ha; cbn [guard_obeys]; try exact I; try (apply H; [discriminate|apply Ha; discriminate]);
    try (intros H'; exfalso; apply H'; reflexivity);
    apply obeys_sunk; intros []; exact I.
Qed.

Lemma back_call {A} (c : call) (f : reply c -> completion A) a :
  keeps_resources c -> match c with UringCtrl _ _ _ | AsyncRecvmsg _ _ => False | _ => True end ->
  obeys session_ledger (trigger c f) (Some a) (gives_back a).
Proof.
  intros Hk Hc. destruct a as [X n]. apply under_trigger. intros r _. exists (X, n). split; [|reflexivity].
  unfold account_step. cbn [fst snd].
  assert (own_ledger X c r = Some X) as Ho by (unfold own_ledger; rewrite Hk; destruct (is_lock c); reflexivity).
  destruct c; try contradiction; cbn [kept_ledger fault]; rewrite Ho; reflexivity.
Qed.

Lemma scope_obeys sched server_fd self a :
  ss_base self = None -> ss_index self = -1 ->
  obeys session_ledger (shm_scope uninit e sched server_fd self) (Some a) (gives_back a).
Proof.
  intros Hb Hi. unfold shm_scope. apply under_bind.
  eapply obeys_mono; [|pose proof (server_obeys server_fd self sched a Hb Hi None [] []) as H;
    cbn [totals foldr] in H; rewrite beside_nothing in H; apply H; constructor].
  intros c [a'|]; [|destruct c; intros; try exact I; apply obeys_sunk; intros; exact I].
  intros (server & pool & accounts & -> & Hpool & ->). cbn [under then_obeys].
  destruct server as [c|]; [|intros H; congruence].
  destruct (forallb finished pool) eqn:E; [|intros H; congruence].
  assert (settles a (beside_account (totals accounts) a)) as Hset.
  { rewrite <- (beside_nothing a) at 1. apply settles_beside; [apply (finished_settled _ _ Hpool E)|reflexivity]. }
  destruct c; cbn; auto.
Qed.

Lemma server_run_obeys sched path self X n :
  ss_base self = None -> ss_index self = -1 ->
  obeys session_ledger (shm_server_run uninit e sched path self) (Some (X, n)) (gives_back (X, n)).
Proof.
  intros Hb Hi. unfold shm_server_run. apply under_bind, under_co_await, under_trigger.
  intros [fd|ec|] _; (eexists; split; [reflexivity|]); try (intros _; reflexivity).
  cbn [lift_res then_obeys fst snd fault Nat.add]. apply back_defer.
  2:{ intros [Y m] r (lost & H1 & H2). cbn [fst snd] in *. subst Y.
    eexists. split; [apply account_close|]. exists lost. auto. }
  destruct (_ <=? _); [intros _; reflexivity|]. apply back_then.
  - apply under_upon_error, under_trigger. intros [v|ec|] _; (eexists; split; [reflexivity|]);
      cbn [lift_res under]; try destruct (negb _); try (intros _; reflexivity); intros; reflexivity.
  - intros _ a _. apply back_then; [apply back_call; [intros ? ?; reflexivity|exact I]|]. intros _ a1 _.
    apply back_defer.
    + apply back_then; [apply back_call; [intros ? ?; reflexivity|exact I]|]. intros _ a' _.
      apply scope_obeys; assumption.
    + intros [Y m] r H. exists (Y, m). split; [reflexivity|exact H].
Qed.
End Proofs.

Lemma env_ok_history (h : history) :
  forallb (fun x => session_env_ok (projT1 x) (projT2 x)) h = true ->
  Forall (fun x => session_env_ok (projT1 x) (projT2 x) = true) h.
Proof. intros H. apply List.Forall_forall. apply List.forallb_forall, H. Qed.

(** ** Claims *)

(** C21: the shared memory service gives back everything it takes, but for what
    it is made to leave.  Whatever the clients, the driver, the system and the
    handler do - every call may fail, error codes being positive and the values
    of commands not negative - and however the accept loop, the sessions and
    their clean-ups interleave, when the service has completed - normally,
    stopped, or with an error at any point - nothing has been released that was
    not held, and of every client socket, received descriptor, mapping and
    registered buffer, and of the listening socket, what has not been released
    exactly once is: the descriptors beside the one a session keeps of those its
    client has sent ([surplus]), and the mapping and the registration of regions
    whose clean-up failed ([lost]), at most one for each command other than a
    registration that the driver has failed to execute.  A service whose clients
    send one descriptor each and whose driver executes its commands leaves
    nothing. *)
Theorem shm_service_releases uninit e control_fd dev_id flags sched path (K : env) X :
  let r := exec K (daemon_shm_server uninit e sched control_fd dev_id path flags) [] in
  Forall (fun x => session_env_ok (projT1 x) (projT2 x) = true) (snd r) ->
  fst r <> Unfinished ->
  exists lost,
    accepts own_ledger X (snd r) = Some (X ⊎ surplus (snd r) ⊎ regions_held lost) /\
    (length lost <= failed_commands (snd r))%nat.
Proof.
  intros r Hok Hr.
  destruct (obeys_exec _ K (daemon_shm_server uninit e sched control_fd dev_id path flags)
    (Some (X, 0%nat)) _ [] (server_run_obeys uninit e sched path
    (new_session control_fd dev_id flags) X 0 eq_refl eq_refl)) as (t & s' & Ht & Ha & HQ).
  fold r in Ht, HQ. cbn [app] in Ht. rewrite Ht in Hok |- *.
  rewrite accepts_assuming in Ha by exact Hok.
  destruct (accepts account_step (X, 0%nat) t) as [[X' n]|] eqn:E; [|discriminate].
  injection Ha as <-. destruct (HQ Hr) as (lost & HX & Hn). cbn [fst snd] in HX, Hn. subst X'.
  destruct (account_ledger t X 0 ∅ _ _ E) as [Hl ->]. rewrite !(right_id_L ∅ (⊎)) in Hl.
  exists lost. split; [|lia]. rewrite Hl. f_equal. multiset_solver.
Qed.

(** An environment for the examples: one client, that sends the descriptors
    [fds] with its first message; a driver that refuses the commands [refused]. *)
Definition one_client (fds : list Z) (refused : list ioc) : env := fun h c =>
  match c return reply c -> reply c with
  | AsyncAccept _ => fun _ =>
      if existsb (fun x => match projT1 x with AsyncAccept _ => true | _ => false end) h
      then AsyncStopped else AsyncOk 7
  | AsyncRecvmsg _ _ => fun _ => (AsyncOk 1, [{| cmsg_level := 1; cmsg_type := 1; cmsg_fds := fds |}])
  | AsyncStatx _ => fun _ => (AsyncOk 0, 4096)
  | Mmap _ _ _ _ => fun _ => SysOk 65536
  | UringCtrl _ op _ => fun _ =>
      if bool_decide (op ∈ refused) then (AsyncErr EIO, PNone) else (AsyncOk 2, PNone)
  | _ => id
  end (ok_reply c).

(** The accept loop, then the first client's session, then the clean-up. *)
Definition example_schedule : list nat := [0; 0]%nat ++ repeat 1%nat 12 ++ repeat 2%nat 6.

Abbreviation example_run fds refused :=
  (exec (one_client fds refused) (daemon_shm_server dev_info_zero (Some dev_info_zero) example_schedule
     5 0 ["s"%char] 0) []).

(** A client with two descriptors and a driver that refuses to unregister: the
    theorem holds, with the second descriptor for surplus. *)
Lemma shm_service_releases_witness :
  let r := example_run [9; 10] [UBLK_U_CMD_UNREG_BUF] in
  fst r = SetValue tt /\ surplus (snd r) = {[+ RFile 10 +]} /\ failed_commands (snd r) = 1%nat /\
  exists lost,
    accepts own_ledger ∅ (snd r) = Some (∅ ⊎ surplus (snd r) ⊎ regions_held lost) /\
    (length lost <= failed_commands (snd r))%nat.
Proof.
  intros r. assert (fst r = SetValue tt) as H by (vm_compute; reflexivity).
  split; [exact H|]. split; [vm_compute; reflexivity|]. split; [vm_compute; reflexivity|].
  refine (shm_service_releases dev_info_zero (Some dev_info_zero) 5 0 0 example_schedule ["s"%char]
    (one_client [9; 10] [UBLK_U_CMD_UNREG_BUF]) ∅ _ _).
  - apply env_ok_history. vm_compute; reflexivity.
  - intros HU. change (fst r = Unfinished) in HU. congruence.
Defined.

(** A client with one descriptor and a driver that executes what it is asked:
    nothing is left. *)
Example one_descriptor_released :
  fst (example_run [9] []) = SetValue tt /\
  accepts own_ledger ∅ (snd (example_run [9] [])) = Some ∅.
Proof. split; vm_compute; reflexivity. Qed.

(** A second descriptor in the client's message is installed in the process
    and never closed: the control buffer, [CMSG_SPACE(sizeof(int))] bytes,
    holds two descriptors, and the session takes only the first. *)
Example second_descriptor_leaks :
  fst (example_run [9; 10] []) = SetValue tt /\
  accepts own_ledger ∅ (snd (example_run [9; 10] [])) = Some {[+ RFile 10 +]}.
Proof. split; apply (bool_decide_unpack _); vm_compute; exact I. Qed.

(** A clean-up whose first command fails stops there: the region stays mapped
    and registered, and nothing undoes that later. *)
Example refused_unregister_stays :
  fst (example_run [9] [UBLK_U_CMD_UNREG_BUF]) = SetValue tt /\
  accepts own_ledger ∅ (snd (example_run [9] [UBLK_U_CMD_UNREG_BUF])) = Some ({[+ RMap 65536 4096 +]} ⊎ {[+ RShm 2 +]}).
Proof. split; apply (bool_decide_unpack _); vm_compute; exact I. Qed.
