(* ===== verification/ShmLive.v ===== *)
(** * ShmLive: shared memory while it is in use

    The guide (docs/guide.md, "Shm Server") orders what happens to a client's
    memory: it is mapped, registered with the driver, announced to the
    handler, and when the client leaves it is unregistered, withdrawn from the
    handler and unmapped.  This file states that order as a machine over the
    mappings of the process, the driver's registrations and the handler's
    table, shared by every session, and proves that the service keeps it
    however its sessions and clean-ups interleave.  The handler's table is
    that of a handler which follows the guide: [handle_reg_shm] sets the
    region of an index, [handle_unreg_shm] erases it. *)

From S2P Require Import Prelude Effects Protocol Rely UblkCmd Path Sys Ledger Raw IoResult Control Shm.
From Stdlib Require Import Ascii.

#[local] Open Scope Z_scope.

(** An address and a size. *)
Abbreviation region := (Z * Z)%type.

(** ** What a call does to shared memory *)

Inductive shm_event :=
  | Maps (m : region)
  | Unmaps (m : region)
  | Registers (m : option region) (index : option Z)
  | Unregisters (index : Z) (done : bool)
  | Announces (index : Z) (m : region)
  | Withdraws (index : Z)
  | Elsewhere.

Definition region_of (p : ptr) : option region :=
  match p with
  | Some {| ub_data := PShmReg reg |} => Some (reg_addr reg, reg_len reg)
  | _ => None
  end.

Definition succeeded (r : async_res) : option Z :=
  match r with AsyncOk v => Some v | _ => None end.

Definition event_of (c : call) : reply c -> shm_event :=
  match c return reply c -> shm_event with
  | Mmap n _ _ _ => fun r => match r with SysOk a => Maps (a, n) | SysErr _ => Elsewhere end
  | Munmap a n => fun _ => Unmaps (a, n)
  | UringCtrl _ op cmd => fun r =>
      if bool_decide (op = UBLK_U_CMD_REG_BUF) then Registers (region_of (cmd_addr cmd)) (succeeded (fst r))
      else if bool_decide (op = UBLK_U_CMD_UNREG_BUF)
      then Unregisters (cmd_data0 cmd) (bool_decide (is_Some (succeeded (fst r))))
      else Elsewhere
  | HandleRegShm i a n => fun _ => Announces i (a, n)
  | HandleUnregShm i => fun _ => Withdraws i
  | _ => fun _ => Elsewhere
  end.

(** Replies as documented, whatever the state: an address fits a pointer, a
    result is an [int32_t], and the code of an error that a client is told is
    positive.  Any command may fail, the one that unregisters included. *)
Definition fair (c : call) : reply c -> bool :=
  match c return reply c -> bool with
  | Mmap _ _ _ _ => fun r =>
      match r with SysOk a => (0 <=? a) && (a <? 2 ^ 64) | SysErr errno => code_ok errno end
  | UringCtrl _ _ _ => fun r =>
      match fst r with
      | AsyncOk v => (0 <=? v) && (v <? 2 ^ 31)
      | AsyncErr ec => code_ok ec
      | AsyncStopped => true
      end
  | AsyncStatx _ => fun r => match fst r with AsyncErr ec => code_ok ec | _ => true end
  | HandleRegShm _ _ _ => fun r =>
      match r with SetError x => code_ok (normalize_error x EIO) | _ => true end
  | _ => fun _ => true
  end.

(** A machine over the events, as one over the calls. *)
Definition on_calls {S} (next : S -> shm_event -> verdict S) (s : S) (c : call) (r : reply c) : verdict S :=
  match next s (event_of c r) with
  | Next s' => if fair c r then Next s' else Beyond
  | v => v
  end.

(** ** The machine of the service *)

Record sharing := {
  sh_mapped : gmap Z Z;
  sh_driver : gmap Z region;
  sh_handler : gmap Z region;
  sh_withdrawn : gmultiset Z;
}.

(** Nothing is shared. *)
Definition unshared : sharing :=
  {| sh_mapped := ∅; sh_driver := ∅; sh_handler := ∅; sh_withdrawn := ∅ |}.

Definition mapped (s : sharing) (m : region) : Prop := sh_mapped s !! m.1 = Some m.2.

Definition used (t : gmap Z region) (m : region) : Prop := map_Exists (fun _ m' => m' = m) t.

#[global] Instance mapped_dec s m : Decision (mapped s m).
Proof. unfold mapped. apply _. Defined.

#[global] Instance used_dec t m : Decision (used t m).
Proof. unfold used. apply _. Defined.

(** The kernel maps at a free address and the driver gives a free index;
    otherwise the environment is not as documented ([Beyond]).  Memory is
    registered while it is mapped, announced under its index while it is
    registered, withdrawn once for each time its index has been unregistered,
    and unmapped when neither the driver nor the handler uses it. *)
Definition shm_next (s : sharing) (ev : shm_event) : verdict sharing :=
  match ev with
  | Maps m =>
      if decide (sh_mapped s !! m.1 = None) then
        Next {| sh_mapped := <[m.1 := m.2]> (sh_mapped s); sh_driver := sh_driver s;
                sh_handler := sh_handler s; sh_withdrawn := sh_withdrawn s |}
      else Beyond
  | Unmaps m =>
      if decide (mapped s m /\ ~ used (sh_driver s) m /\ ~ used (sh_handler s) m) then
        Next {| sh_mapped := delete m.1 (sh_mapped s); sh_driver := sh_driver s;
                sh_handler := sh_handler s; sh_withdrawn := sh_withdrawn s |}
      else Breach
  | Registers None _ => Breach
  | Registers (Some m) r =>
      if decide (mapped s m) then
        match r with
        | None => Next s
        | Some i =>
            if decide (sh_driver s !! i = None) then
              Next {| sh_mapped := sh_mapped s; sh_driver := <[i := m]> (sh_driver s);
                      sh_handler := sh_handler s; sh_withdrawn := sh_withdrawn s |}
            else Beyond
        end
      else Breach
  | Unregisters i done =>
      if decide (is_Some (sh_driver s !! i)) then
        if done : bool then
          Next {| sh_mapped := sh_mapped s; sh_driver := delete i (sh_driver s);
                  sh_handler := sh_handler s; sh_withdrawn := {[+ i +]} ⊎ sh_withdrawn s |}
        else Next s
      else Breach
  | Announces i m =>
      if decide (sh_driver s !! i = Some m) then
        Next {| sh_mapped := sh_mapped s; sh_driver := sh_driver s;
                sh_handler := <[i := m]> (sh_handler s); sh_withdrawn := sh_withdrawn s |}
      else Breach
  | Withdraws i =>
      if decide (i ∈ sh_withdrawn s) then
        Next {| sh_mapped := sh_mapped s; sh_driver := sh_driver s;
                sh_handler := delete i (sh_handler s);
                sh_withdrawn := sh_withdrawn s ∖ {[+ i +]} |}
      else Breach
  | Elsewhere => Next s
  end.

Definition shm_step : sharing -> forall c, reply c -> verdict sharing := on_calls shm_next.

(** What the driver and the handler use is mapped. *)
Definition live (s : sharing) : Prop :=
  forall m, used (sh_driver s) m \/ used (sh_handler s) m -> mapped s m.

(** ** The machine of a session *)

Inductive phase :=
  | Unmapped
  | MappedAt (m : region)
  | Registered (index : Z) (m : region)
  | Announced (index : Z) (m : region)
  | Withdrawn (index : Z) (m : region).

#[global] Instance phase_eq_dec : EqDecision phase.
Proof. solve_decision. Defined.

Definition phase_next (p : phase) (ev : shm_event) : verdict phase :=
  match ev, p with
  | Elsewhere, _ => Next p
  | Maps m, Unmapped => Next (MappedAt m)
  | Registers (Some m') r, MappedAt m =>
      if decide (m' = m) then Next (match r with Some i => Registered i m | None => p end) else Breach
  | Announces i' m', Registered i m =>
      if decide (i' = i /\ m' = m) then Next (Announced i m) else Breach
  | Unregisters i' done, Announced i m =>
      if decide (i' = i) then Next (if done : bool then Withdrawn i m else p) else Breach
  | Withdraws i', Withdrawn i m => if decide (i' = i) then Next (MappedAt m) else Breach
  | Unmaps m', MappedAt m => if decide (m' = m) then Next Unmapped else Breach
  | _, _ => Breach
  end.

Definition phase_step : phase -> forall c, reply c -> verdict phase := on_calls phase_next.

(** What a session in a phase contributes to the mappings, to the driver's
    registrations, to the handler's table and to the withdrawals due. *)
Definition its_region (p : phase) : option (Z * Z) :=
  match p with
  | Unmapped => None
  | MappedAt m | Registered _ m | Announced _ m | Withdrawn _ m => Some m
  end.

Definition its_registration (p : phase) : option (Z * region) :=
  match p with Registered i m | Announced i m => Some (i, m) | _ => None end.

Definition its_entry (p : phase) : option (Z * region) :=
  match p with Announced i m | Withdrawn i m => Some (i, m) | _ => None end.

Definition its_withdrawal (p : phase) : option Z :=
  match p with Withdrawn i _ => Some i | _ => None end.

(** The shared state is the sum of the sessions', but for the handler's table:
    an entry may have been erased, or replaced, by another session with the
    same index. *)
Record agrees (s : sharing) (ps : list phase) : Prop := {
  ag_mapped : map_to_list (sh_mapped s) ≡ₚ omap its_region ps;
  ag_driver : map_to_list (sh_driver s) ≡ₚ omap its_registration ps;
  ag_handler : forall i m, sh_handler s !! i = Some m -> (i, m) ∈ omap its_entry ps;
  ag_withdrawn : sh_withdrawn s = list_to_set_disj (omap its_withdrawal ps);
}.

#[global] Instance agrees_permutation s : Proper ((≡ₚ) ==> iff) (agrees s).
Proof.
  assert (forall ps qs, ps ≡ₚ qs -> agrees s ps -> agrees s qs) as H.
  { intros ps qs Hp [H1 H2 H3 H4]. split.
    - rewrite <- Hp; exact H1.
    - rewrite <- Hp; exact H2.
    - intros i m Hi. rewrite <- Hp. exact (H3 i m Hi).
    - rewrite H4. apply list_to_set_disj_perm. rewrite Hp. reflexivity. }
  intros ps qs Hp. split; apply H; [exact Hp|symmetry; exact Hp].
Qed.

(** ** The sessions' steps are steps of the service *)

Section Tables.
Context {V : Type}.
Implicit Types (t : gmap Z V) (l : list (Z * V)).

Lemma table_lookup t l i v : map_to_list t ≡ₚ l -> t !! i = Some v <-> (i, v) ∈ l.
Proof. intros H. rewrite <- H. symmetry. apply elem_of_map_to_list. Qed.

Lemma table_insert t l i v :
  map_to_list t ≡ₚ l -> t !! i = None -> map_to_list (<[i := v]> t) ≡ₚ (i, v) :: l.
Proof. intros H Hi. rewrite map_to_list_insert by exact Hi. rewrite H. reflexivity. Qed.

Lemma table_delete t l i v : map_to_list t ≡ₚ (i, v) :: l -> map_to_list (delete i t) ≡ₚ l.
Proof.
  intros H. apply (Permutation_cons_inv (a := (i, v))). rewrite <- H. apply map_to_list_delete.
  apply (table_lookup _ _ _ _ H), list_elem_of_here.
Qed.

(** A key occurs once. *)
Lemma table_head t l i v v' : map_to_list t ≡ₚ (i, v) :: l -> (i, v') ∉ l.
Proof.
  intros H Hin. pose proof (NoDup_fst_map_to_list t) as HN. rewrite H in HN. cbn [fmap list_fmap fst] in HN.
  inversion HN as [|? ? Hno _]. apply Hno. apply list_elem_of_fmap. exists (i, v'). auto.
Qed.
End Tables.

Lemma elem_of_omap_map {A B C} (f : A -> option B) (g : A -> option C) (h : B -> C) (l : list A) x :
  (forall a b, f a = Some b -> g a = Some (h b)) -> x ∈ omap f l -> h x ∈ omap g l.
Proof.
  intros Hfg Hx. apply list_elem_of_omap in Hx as (a & Ha & Hf). apply list_elem_of_omap. eauto.
Qed.

(** What a session has registered or announced is its region. *)
Lemma registered_region (ps : list phase) x : x ∈ omap its_registration ps -> x.2 ∈ omap its_region ps.
Proof. apply elem_of_omap_map. intros [] [] E; cbn in *; simplify_eq; reflexivity. Qed.

Lemma entry_region (ps : list phase) x : x ∈ omap its_entry ps -> x.2 ∈ omap its_region ps.
Proof. apply elem_of_omap_map. intros [] [] E; cbn in *; simplify_eq; reflexivity. Qed.

Lemma agrees_live s ps : agrees s ps -> live s.
Proof.
  intros [H1 H2 H3 _] [a n] H. apply (table_lookup _ _ _ _ H1).
  destruct H as [(i & m & Hi & ->)|(i & m & Hi & ->)].
  - apply (registered_region _ (i, (a, n))), (table_lookup _ _ _ _ H2), Hi.
  - apply (entry_region _ (i, (a, n))), H3, Hi.
Qed.

(** The session at the head of the list makes a step. *)
Lemma agrees_step s p ps ev p' :
  agrees s (p :: ps) -> phase_next p ev = Next p' -> goes_on (fun s' => agrees s' (p' :: ps)) (shm_next s ev).
Proof.
  intros H E. pose proof H as [H1 H2 H3 H4].
  destruct ev as [m|m|[m'|] r|i' done|i' m'|i'|], p as [|m0|i m0|i m0|i m0]; cbn [phase_next] in E;
    try discriminate; try (injection E as <-; exact H); try (destruct (decide _) in E; [|discriminate]; destruct_and?; subst);
    injection E as <-; cbn [shm_next omap list_omap its_region its_registration its_entry its_withdrawal] in *.
  - (* Maps *) destruct (decide _) as [Hf|]; [|exact I]. destruct m as [a n]. split; [|assumption..].
    apply table_insert; assumption.
  - (* Unmaps *) destruct m0 as [a n].
    assert ((a, n) ∉ omap its_region ps) as Hne by (eapply table_head, H1).
    rewrite decide_True; [split; [eapply table_delete, H1|assumption..]|].
    split; [apply (table_lookup _ _ _ _ H1), list_elem_of_here|].
    split; intros (i & m & Hi & ->); apply Hne.
    + apply (registered_region _ (i, (a, n))), (table_lookup _ _ _ _ H2), Hi.
    + apply (entry_region _ (i, (a, n))), H3, Hi.
  - (* Registers *) destruct m0 as [a n]. rewrite decide_True
      by (apply (table_lookup _ _ _ _ H1), list_elem_of_here).
    destruct r as [i|]; [|exact H]. destruct (decide _) as [Hf|]; [|exact I].
    split; try assumption. apply table_insert; assumption.
  - (* Unregisters *) rewrite decide_True
      by (eexists; apply (table_lookup _ _ _ _ H2), list_elem_of_here).
    destruct done; [|exact H]. split; try assumption.
    + eapply table_delete, H2.
    + cbn [sh_withdrawn]. rewrite H4. reflexivity.
  - (* Announces *) rewrite decide_True by (apply (table_lookup _ _ _ _ H2), list_elem_of_here).
    split; try assumption. intros j m. cbn [sh_handler]. rewrite lookup_insert_Some.
    intros [[<- <-]|[_ Hj]]; [apply list_elem_of_here|apply list_elem_of_further, H3, Hj].
  - (* Withdraws *) rewrite H4, decide_True by (rewrite list_to_set_disj_cons; multiset_solver).
    split; try assumption.
    + intros j m. cbn [sh_handler]. rewrite lookup_delete_Some. intros [Hij Hj].
      apply H3, elem_of_cons in Hj as [Hj|Hj]; [congruence|exact Hj].
    + cbn [sh_withdrawn omap list_omap its_withdrawal]. rewrite list_to_set_disj_cons. multiset_solver.
Qed.

Lemma agrees_call s p ps c r p' :
  agrees s (p :: ps) -> phase_step p c r = Next p' -> goes_on (fun s' => agrees s' (p' :: ps)) (shm_step s c r).
Proof.
  unfold phase_step, shm_step, on_calls. intros H E.
  destruct (phase_next p (event_of c r)) as [| |p1] eqn:E1; try discriminate.
  destruct (fair c r); [injection E as <-|discriminate].
  pose proof (agrees_step _ _ _ _ _ H E1) as H'. destruct (shm_next s (event_of c r)); exact H'.
Qed.

(** An unfair reply is one to a call that was allowed. *)
Lemma agrees_unfair s p ps c r :
  agrees s (p :: ps) -> phase_step p c r = Beyond -> goes_on (fun _ => False) (shm_step s c r).
Proof.
  unfold phase_step, shm_step, on_calls. intros H E.
  destruct (phase_next p (event_of c r)) as [| |p1] eqn:E1; try discriminate.
  - revert E1. destruct (event_of c r) as [| |[]| | | |], p; cbn [phase_next];
      repeat (destruct (decide _)); discriminate.
  - destruct (fair c r); [discriminate|].
    pose proof (agrees_step _ _ _ _ _ H E1) as H'. destruct (shm_next s (event_of c r)); try exact H'; exact I.
Qed.

(** An element of a list, and the others. *)
Lemma insert_permutation {A} (l : list A) k x :
  l !! k = Some x -> exists rest, l ≡ₚ x :: rest /\ forall y, <[k := y]> l ≡ₚ y :: rest.
Proof.
  intros Hk. exists (take k l ++ drop (S k) l). split.
  - rewrite <- (take_drop_middle _ _ _ Hk) at 1. symmetry. apply Permutation_middle.
  - intros y. rewrite insert_take_drop by (eapply lookup_lt_Some, Hk). symmetry. apply Permutation_middle.
Qed.

(** The [k]-th session makes a step. *)
Lemma agrees_task s k p ps c r (Q : phase -> Prop) :
  agrees s ps -> ps !! k = Some p -> goes_on Q (phase_step p c r) ->
  goes_on (fun s' => exists p', agrees s' (<[k := p']> ps) /\ Q p') (shm_step s c r).
Proof.
  intros H Hk Hp. destruct (insert_permutation _ _ _ Hk) as (rest & Hps & Hins). rewrite Hps in H.
  destruct (phase_step p c r) as [| |p'] eqn:E; [contradiction| |].
  - eapply goes_on_mono; [|eapply agrees_unfair; eassumption]. intros ? [].
  - eapply goes_on_mono; [|eapply agrees_call; eassumption]. intros s' H'. exists p'. split; [|exact Hp].
    rewrite Hins. exact H'.
Qed.

(** The clean-up that a session leaves takes its place. *)
Lemma agrees_hand_over s k p ps :
  agrees s ps -> ps !! k = Some p -> agrees s (<[k := Unmapped]> ps ++ [p]).
Proof.
  intros H Hk. destruct (insert_permutation _ _ _ Hk) as (rest & Hps & Hins). rewrite Hps in H.
  rewrite Hins, Permutation_app_comm. cbn [app]. rewrite (Permutation_swap Unmapped p).
  destruct H as [H1 H2 H3 H4]; split; assumption.
Qed.

Lemma agrees_joins s ps : agrees s ps -> agrees s (ps ++ [Unmapped]).
Proof.
  intros H. rewrite Permutation_app_comm. destruct H as [H1 H2 H3 H4]; split; assumption.
Qed.

(** ** The device information *)

(** A value as [P] says, or an error whose code is positive, or a stop. *)
Definition outcome {A} (P : A -> Prop) (c : completion A) : Prop :=
  match c with
  | SetValue a => P a
  | SetError x => code_ok (normalize_error x EIO) = true
  | _ => True
  end.

(** The operation leaves shared memory alone. *)
Definition apart {A} (V : completion A -> Prop) (p : task A) : Prop :=
  forall ph, alone phase_step p ph (fun c ph' => ph' = ph /\ V c).

Lemma apart_done {A} V (c : completion A) : V c -> apart V (Done c).
Proof. intros H ph. apply alone_done. auto. Qed.

Lemma apart_call {A} V (c : call) (f : reply c -> completion A) :
  (forall r, event_of c r = Elsewhere) -> (forall r, fair c r = true -> V (f r)) -> apart V (trigger c f).
Proof.
  intros He Hf ph. apply alone_call. intros r. unfold phase_step, on_calls. rewrite He. cbn [phase_next].
  destruct (fair c r) eqn:E; [|exact I]. split; [reflexivity|apply Hf, E].
Qed.

Lemma apart_mono {A} (V V' : completion A -> Prop) p : (forall c, V c -> V' c) -> apart V p -> apart V' p.
Proof. intros H Hp ph. eapply alone_mono; [|apply Hp]. intros c ph' [-> Hc]. auto. Qed.

Lemma apart_let_value {A B} P V (p : task A) (f : A -> task B) :
  apart (outcome P) p -> (forall a, P a -> apart (outcome V) (f a)) -> apart (outcome V) (let_value p f).
Proof.
  intros Hp Hf ph. apply alone_let_value. eapply alone_mono; [|apply Hp].
  intros [a|x| |] ph' [-> Hc]; [apply Hf, Hc|split; [reflexivity|exact Hc]..].
Qed.

Lemma outcome_except {A} (P : A -> Prop) x :
  outcome P (SetError x) -> outcome P (SetError (ErrPtr (as_except_ptr x))).
Proof. destruct x; exact id. Qed.

Lemma apart_co_await {A} P (p : task A) : apart (outcome P) p -> apart (outcome P) (co_await p).
Proof.
  intros Hp ph. apply alone_co_await. eapply alone_mono; [|apply Hp].
  intros [] ph' [-> Hc]; split; solve [reflexivity|exact Hc|apply outcome_except, Hc].
Qed.

Lemma apart_upon_error {A} V W (p : task A) f :
  apart V p -> (forall x, V (SetError x) -> apart W (f x)) ->
  (forall c, V c -> match c with SetError _ => True | _ => W c end) -> apart W (upon_error p f).
Proof.
  intros Hp Hf HW ph. apply alone_upon_error. eapply alone_mono; [|apply Hp].
  intros [a|x| |] ph' [-> Hc]; [|apply Hf, Hc|..]; (split; [reflexivity|apply (HW _ Hc)]).
Qed.

Lemma apart_output fd op dev q d0 addr len plen :
  op <> UBLK_U_CMD_REG_BUF -> op <> UBLK_U_CMD_UNREG_BUF ->
  apart (fun c => match c with
                  | SetValue r => 0 <= fst r
                  | SetError x => exists ec, x = ErrCode ec /\ code_ok ec = true
                  | _ => True
                  end) (with_output (ctrl_cmd fd op dev q d0 addr len plen)).
Proof.
  intros H1 H2 ph. apply alone_let_value, alone_call. intros r. unfold phase_step, on_calls.
  cbn [event_of fair]. rewrite !bool_decide_eq_false_2 by assumption. cbn [phase_next].
  destruct r as [[v|ec|] out]; cbn [fst]; try (apply alone_done; split; [reflexivity|exact I]).
  - destruct (Z.leb_spec 0 v), (Z.ltb_spec v (2 ^ 31)); try exact I. apply alone_done. auto.
  - destruct (code_ok ec) eqn:E; [|exact I]. apply alone_done. split; [reflexivity|]. exists ec. auto.
Qed.

Section Info.
Context (fd dev_id : Z).

Lemma code_ok_pos ec : code_ok ec = true -> 0 < ec < 2 ^ 31.
Proof. unfold code_ok. intros H. apply andb_true_iff in H. lia. Qed.

Lemma attempt_apart info : apart (outcome (fun _ => True)) (get_dev_info_attempt fd dev_id info).
Proof.
  unfold get_dev_info_attempt, raw_get_dev_info2, raw_get_dev_info.
  apply apart_let_value with (P := fun r => 0 <= fst r \/ code_ok (- fst r) = true).
  - apply apart_co_await. eapply apart_upon_error; [apply apart_output; discriminate| |].
    + intros x (ec & -> & Hec). apply apart_done. right. cbn. rewrite Z.opp_involutive. exact Hec.
    + intros [] H; cbn in *; auto.
  - intros [r out] Hr. cbn [fst] in Hr. destruct (Z.leb_spec 0 r); [apply apart_done; exact I|].
    destruct Hr as [|Hr]; [lia|]. destruct (_ =? _); [apply apart_done; exact I|].
    destruct (_ =? _); [|apply apart_done; exact Hr].
    apply apart_let_value with (P := fun _ => True); [|intros [] _; apply apart_done; exact I].
    apply apart_co_await. eapply apart_mono; [|apply apart_output; discriminate].
    intros [] Hc; cbn in *; auto. destruct Hc as (ec & -> & Hec). exact Hec.
Qed.

Lemma retry_loop_apart {S} (fn : S -> task (bool * S)) n sec nsec s :
  (forall s, apart (outcome (fun _ => True)) (fn s)) ->
  apart (outcome (fun _ => True)) (retry_loop fn n sec nsec s).
Proof.
  intros Hfn. revert s; induction n as [|n IH]; intros s; cbn [retry_loop]; [apply apart_done; exact I|].
  apply apart_let_value with (P := fun _ => True).
  - apply apart_co_await. eapply apart_upon_error with (V := fun _ => True).
    + apply apart_call; reflexivity || auto.
    + intros x _. apply apart_done. exact I.
    + intros [] _; exact I.
  - intros _ _. apply apart_let_value with (P := fun _ => True); [apply apart_co_await, Hfn|].
    intros [[] s'] _; [apply apart_done; exact I|apply IH].
Qed.

Lemma get_dev_info_apart info : apart (outcome (fun _ => True)) (control_get_dev_info fd dev_id info).
Proof.
  unfold control_get_dev_info, retry. apply apart_let_value with (P := fun _ => True).
  - apply apart_co_await, apart_let_value with (P := fun _ => True); [apply apart_co_await, attempt_apart|].
    intros [[] s] _; [apply apart_done; exact I|apply retry_loop_apart, attempt_apart].
  - intros [[] s] _; apply apart_done; [exact I|reflexivity].
Qed.

Lemma cached_apart e info : apart (outcome (fun _ => True)) (cached_get_dev_info e fd dev_id info).
Proof.
  unfold cached_get_dev_info. destruct e as [i|]; [destruct (_ =? _)|];
    solve [apply apart_done; exact I|apply apart_co_await, get_dev_info_apart].
Qed.
End Info.

(** ** A session *)

Section Session.
Context (uninit : ublksrv_ctrl_dev_info) (e : dev_env).

(** The driver's registration of a region. *)
Lemma register_alone fd dev_id reg (m : region) :
  (reg_addr reg, reg_len reg) = m ->
  alone phase_step (control_register_shm_buf uninit e fd dev_id reg) (MappedAt m) (fun c ph =>
    outcome (fun i => 0 <= i < 2 ^ 31) c /\
    ph = match c with SetValue i => Registered i m | _ => MappedAt m end).
Proof.
  intros Hm. unfold control_register_shm_buf. apply alone_let_value.
  eapply alone_mono; [|apply apart_co_await, cached_apart].
  intros [info|x| |] ph [-> Hc]; [|split; [exact Hc|reflexivity]..]. clear Hc.
  assert (forall addr len plen, region_of addr = Some m -> alone phase_step
    (co_await (result_only (ctrl_cmd fd UBLK_U_CMD_REG_BUF dev_id (-1) 0 addr len plen))) (MappedAt m)
    (fun c ph => outcome (fun i => 0 <= i < 2 ^ 31) c /\
       ph = match c with SetValue i => Registered i m | _ => MappedAt m end)) as Hcmd.
  { intros addr len plen Ha. apply alone_co_await, alone_let_value, alone_call. intros r.
    unfold phase_step, on_calls. cbn [event_of fair cmd_addr]. rewrite bool_decide_eq_true_2, Ha by reflexivity.
    cbn [phase_next]. rewrite decide_True by reflexivity.
    destruct r as [[v|ec|] out]; cbn [fst succeeded].
    - destruct (Z.leb_spec 0 v), (Z.ltb_spec v (2 ^ 31)); try exact I. apply alone_done. cbn. auto.
    - destruct (code_ok ec) eqn:E; [|exact I]. apply alone_done. split; [exact E|reflexivity].
    - apply alone_done. split; [exact I|reflexivity]. }
  destruct (unprivileged info); apply Hcmd, (f_equal Some Hm).
Qed.

(** The driver's release of a region; if it fails, the region is still registered. *)
Lemma unregister_alone fd dev_id i (m : region) :
  0 <= i < 2 ^ 31 ->
  alone phase_step (control_unregister_shm_buf uninit e fd dev_id i) (Announced i m) (fun c ph =>
    match c with SetValue _ => ph = Withdrawn i m | _ => True end).
Proof.
  intros Hi. unfold control_unregister_shm_buf, with_dev_path.
  apply alone_let_value, alone_co_await, alone_let_value.
  eapply alone_mono; [|apply cached_apart]. intros [info|x| |] ph [-> _]; [|exact I..].
  assert (forall addr len plen, alone phase_step
    (result_only (ctrl_cmd fd UBLK_U_CMD_UNREG_BUF dev_id (-1) i addr len plen)) (Announced i m)
    (fun c ph => match c with SetValue _ => ph = Withdrawn i m | _ => True end)) as Hcmd.
  { intros addr len plen. apply alone_let_value, alone_call. intros r. unfold phase_step, on_calls.
    cbn [event_of fair cmd_data0]. rewrite bool_decide_eq_false_2, bool_decide_eq_true_2 by (discriminate || reflexivity).
    rewrite uwrap_id by range. cbn [phase_next]. rewrite decide_True by reflexivity.
    destruct r as [[v|ec|] out]; cbn [fst succeeded].
    - rewrite bool_decide_eq_true_2 by eauto. destruct (_ && _); [|exact I]. apply alone_done. reflexivity.
    - destruct (code_ok ec); [|exact I]. apply alone_done. exact I.
    - apply alone_done. exact I. }
  eapply alone_mono with (Q := fun c ph => match c with SetValue _ => ph = Withdrawn i m | _ => True end).
  - intros [v|x| |] ph H; [apply alone_done; exact H|exact I..].
  - destruct (unprivileged info); apply Hcmd.
Qed.

(** The phase in which a session's record says it is. *)
Definition phase_of (self : Session) : phase :=
  match ss_base self with
  | None => Unmapped
  | Some a => if ss_index self =? -1 then MappedAt (a, ss_size self)
              else Announced (ss_index self) (a, ss_size self)
  end.

(** A clean-up takes back what the session has, in the guide's order. *)
Lemma session_cleanup_alone self :
  session_ok self -> (ss_base self = None -> ss_index self = -1) ->
  alone phase_step (session_cleanup uninit e self) (phase_of self) (fun _ _ => True).
Proof.
  destruct self as [cfd dev flags size base i]. unfold session_ok, session_cleanup, phase_of.
  cbn [ss_control_fd ss_dev_id ss_size ss_base ss_index]. intros Hi Hb.
  set (unmap := match base with Some _ => _ | None => _ end).
  assert (alone phase_step unmap (match base with Some a => MappedAt (a, size) | None => Unmapped end)
            (fun _ _ => True)) as Hunmap.
  { unfold unmap. destruct base as [a|]; [|apply alone_done; exact I]. apply alone_call. intros [].
    unfold phase_step, on_calls. cbn. rewrite decide_True by reflexivity. exact I. }
  apply alone_upon_error. eapply alone_mono with (Q := fun _ _ => True);
    [intros [] ph _; try apply alone_done; exact I|]. apply alone_let_value.
  destruct (Z.eqb_spec i (-1)); cbn [negb].
  - apply alone_done. exact Hunmap.
  - destruct base as [a|]; [|destruct (n (Hb eq_refl))]. destruct Hi as [|Hi]; [contradiction|].
    apply alone_let_value, alone_co_await. eapply alone_mono; [|apply unregister_alone, Hi].
    intros [v|x| |] ph H; try exact I. subst ph. apply alone_call. intros [].
    unfold phase_step, on_calls. cbn. rewrite decide_True by reflexivity. exact Hunmap.
Qed.

Lemma alone_await {A} (p : task A) self k ph (Q : completion handled_session -> phase -> Prop) :
  alone phase_step p ph (fun c ph' =>
    match c with
    | SetValue a => alone phase_step (k a) ph' Q
    | SetError x => Q (SetValue (self, SetError (ErrPtr (as_except_ptr x)))) ph'
    | SetStopped => Q (SetValue (self, SetStopped)) ph'
    | Unfinished => Q Unfinished ph'
    end) ->
  alone phase_step (await p self k) ph Q.
Proof.
  intros H. unfold await. apply alone_let_value, alone_reify, alone_co_await.
  eapply alone_mono; [|exact H]. intros [] ph' Hc; solve [exact Hc|apply alone_done, Hc].
Qed.

(** What [handle] leaves. *)
Definition handled (c : completion handled_session) (ph : phase) : Prop :=
  match c with
  | SetValue (self, c) =>
      ph = phase_of self /\ session_ok self /\ (ss_base self = None -> ss_index self = -1) /\
      outcome (eq 0) c /\ c <> Unfinished
  | Unfinished => True
  | _ => False
  end.

Lemma handled_at self c ph :
  ph = phase_of self -> session_ok self -> (ss_base self = None -> ss_index self = -1) ->
  outcome (eq 0) c -> c <> Unfinished -> handled (SetValue (self, c)) ph.
Proof. cbn [handled]. auto. Qed.

Lemma handle_body_alone self memfd :
  ss_base self = None -> ss_index self = -1 ->
  alone phase_step (session_handle_body uninit e self memfd) Unmapped handled.
Proof.
  destruct self as [cfd dev flags size base index]. cbn [ss_base ss_index]. intros -> ->. unfold session_handle_body.
  apply alone_await, alone_call. intros [r n]. unfold phase_step, on_calls. cbn [event_of fair phase_next fst snd].
  destruct r as [v|ec|]; cbn [lift_res map_completion goes_on].
  2:{ destruct (code_ok ec) eqn:E; [|exact I]. apply handled_at; try (exact E); try discriminate; auto; left; auto. }
  2:{ apply handled_at; try discriminate; cbn; auto; left; auto. }
  cbn [set_size ss_control_fd ss_dev_id ss_flags ss_size ss_base ss_index].
  apply alone_let_value, alone_call. intros [a|errno]; cbn [event_of fair phase_next].
  2:{ destruct (code_ok errno) eqn:E; [|exact I].
      apply alone_done, handled_at; try (exact E); try discriminate; auto; left; auto. }
  destruct (Z.leb_spec 0 a), (Z.ltb_spec a (2 ^ 64)); try exact I. cbn [andb goes_on].
  apply alone_await. eapply alone_mono; [|apply register_alone; cbn; rewrite uwrap_id by range; reflexivity].
  cbn [set_base set_index ss_control_fd ss_dev_id ss_flags ss_size ss_base ss_index].
  intros [i|x| |] ph [Hc ->]; [| | |exact I].
  2,3: apply handled_at; try discriminate; solve [reflexivity|left; reflexivity|apply outcome_except, Hc|exact I].
  assert (phase_of {| ss_control_fd := cfd; ss_dev_id := dev; ss_flags := flags; ss_size := n;
            ss_base := Some a; ss_index := i |} = Announced i (a, n)) as Hph.
  { unfold phase_of. cbn. cbn in Hc. destruct (Z.eqb_spec i (-1)); [lia|reflexivity]. }
  apply alone_await, alone_call. intros r. unfold phase_step, on_calls. cbn [event_of phase_next].
  rewrite decide_True by (split; reflexivity). cbn [fair].
  destruct r as [[]|x| |]; cbn [goes_on]; [| |apply handled_at; try discriminate; auto; solve [exact I|right; exact Hc]|exact I].
  - apply alone_done, handled_at; try discriminate; auto; solve [reflexivity|right; exact Hc].
  - destruct (code_ok _) eqn:E; [|exact I].
    apply handled_at; try discriminate; auto; solve [right; exact Hc|apply outcome_except, E].
Qed.

Lemma apart_calls {A} (p : task A) :
  all_calls (fun c => forall r, event_of c r = Elsewhere) p -> apart (fun _ => True) p.
Proof.
  intros H ph. induction p as [c|c k IH]; [apply alone_done; auto|]. destruct H as [Hc Hk].
  intros s1 <- r. unfold phase_step, on_calls. rewrite Hc. cbn [phase_next].
  destruct (fair c r); [|exact I]. split; [exact I|]. apply IH, Hk.
Qed.

Lemma reply_apart client_fd res : apart (fun _ => True) (session_reply client_fd res).
Proof.
  apply apart_calls. unfold session_reply. auto with ublk.
  repeat first
      [ apply all_calls_let_value; [|intros] | apply all_calls_co_await
      | split; [intros ?; reflexivity|intros; exact I] | case_match; try exact I ].
Qed.

(** What a task of the server's scope leaves: nothing, or the clean-up of its
    session, which takes its place. *)
Definition left_over (c : completion session_end) (ph : phase) : Prop :=
  match c with
  | SetValue (_, spawned) => spawned = [] \/
      exists self, session_ok self /\ (ss_base self = None -> ss_index self = -1) /\
        spawned = [session_cleanup uninit e self] /\ ph = phase_of self
  | _ => True
  end.

Lemma session_serve_alone client_fd memfd self :
  ss_base self = None -> ss_index self = -1 ->
  alone phase_step (session_serve uninit e client_fd memfd self) Unmapped left_over.
Proof.
  intros Hb Hi. unfold session_serve, session_handle, then_.
  apply alone_let_value, alone_let_value. eapply alone_mono; [|apply handle_body_alone; assumption].
  intros [[self' c]| | |] ph H; try (exact I || contradiction).
  destruct H as (-> & Hok & Hb' & Hc & Hu). apply alone_done, alone_let_value.
  apply alone_reify. eapply alone_mono; [|apply reply_apart].
  assert (forall c' : completion unit, alone phase_step
    (let_value (perform (Close memfd) id) (fun _ => just (c',
       match c with SetValue _ => [] | _ => [session_cleanup uninit e self'] end ++
       (if 0 <=? session_result c then [session_cleanup uninit e self'] else []))))
    (phase_of self') left_over) as Hend.
  { intros c'. apply alone_let_value, alone_call. intros []. apply alone_done. right. exists self'.
    split_all; [assumption..| |reflexivity]. apply clean_up_once; destruct c; cbn in *; auto. }
  intros [] ph [-> _]; solve [apply Hend|exact I].
Qed.

Lemma shm_session_alone client_fd self :
  ss_base self = None -> ss_index self = -1 ->
  alone phase_step (shm_session uninit e client_fd self) Unmapped left_over.
Proof.
  intros Hb Hi. unfold shm_session. apply alone_let_value.
  eapply alone_mono with (Q := left_over).
  { intros [[c spawned]|x| |] ph H; [|exact H..]. apply alone_let_value, alone_call.
    intros []. apply alone_done. exact H. }
  apply alone_let_value, alone_reify, alone_co_await, alone_call. intros [r l].
  unfold phase_step, on_calls. cbn [event_of fair phase_next goes_on fst snd].
  destruct r as [v|ec|]; cbn [lift_res map_completion]; [|apply alone_done; left; reflexivity..].
  destruct (_ =? _); [apply alone_done; left; reflexivity|]. apply session_serve_alone; assumption.
Qed.

Lemma spawned_alone self :
  session_ok self -> (ss_base self = None -> ss_index self = -1) ->
  alone phase_step (spawned_task (session_cleanup uninit e self)) (phase_of self) left_over.
Proof.
  intros Hs Hb. unfold spawned_task, then_. apply alone_let_value, alone_reify.
  eapply alone_mono; [|apply session_cleanup_alone; assumption].
  intros [] ph _; try exact I; apply alone_done; left; reflexivity.
Qed.

(** ** The server *)

(** Each task of the scope makes the steps of a session. *)
Abbreviation task_in := (fun (p : task session_end) ph => alone phase_step p ph left_over).

Lemma server_alone server_fd self sched :
  ss_base self = None -> ss_index self = -1 ->
  forall server pool ps s, Forall2 task_in pool ps -> agrees s ps ->
  alone shm_step (shm_server uninit e server_fd self sched server pool) s (fun _ _ => True).
Proof.
  intros Hb Hi. induction sched as [|[|k] sched IH]; intros server pool ps s Hpool Hs; cbn [shm_server].
  - apply alone_done. exact I.
  - destruct server as [c|]; [eapply IH; eassumption|]. intros s1 <- [fd|ec|]; (split; [exact I|]).
    + apply (IH _ _ (ps ++ [Unmapped])); [|apply agrees_joins, Hs].
      apply Forall2_app; [assumption|]. constructor; [apply shm_session_alone; assumption|constructor].
    + eapply IH; eassumption.
    + eapply IH; eassumption.
  - destruct (pool !! k) as [p|] eqn:E; [|eapply IH; eassumption].
    destruct (Forall2_lookup_l _ _ _ _ _ Hpool E) as (ph & Eph & Hp).
    destruct p as [[[c spawned]| | |]|c kk]; try (eapply IH; eassumption).
    + destruct (alone_finished _ _ _ _ Hp) as [->|(self' & Hok & Hb' & -> & ->)].
      * rewrite app_nil_r. apply (IH _ _ ps); [|exact Hs]. rewrite <- (list_insert_id ps k ph Eph).
        apply Forall2_insert; [assumption|]. apply alone_done. left; reflexivity.
      * apply (IH _ _ (<[k := Unmapped]> ps ++ [phase_of self'])); [|apply agrees_hand_over; assumption].
        apply Forall2_app.
        -- apply Forall2_insert; [assumption|]. apply alone_done. left; reflexivity.
        -- constructor; [apply spawned_alone; assumption|constructor].
    + intros s1 <- r. eapply goes_on_mono; [|apply (agrees_task _ _ _ _ c r _ Hs Eph (Hp ph eq_refl r))].
      intros s2 (ph' & Hs' & _ & Hk). split; [exact I|]. eapply IH; [|exact Hs'].
      apply Forall2_insert; assumption.
Qed.

Lemma elsewhere_call {A} (c : call) (f : reply c -> completion A) s (Q : completion A -> sharing -> Prop) :
  (forall r, event_of c r = Elsewhere) -> (forall r, Q (f r) s) -> alone shm_step (trigger c f) s Q.
Proof.
  intros Hc HQ. apply alone_call. intros r. unfold shm_step, on_calls. rewrite Hc. cbn [shm_next].
  destruct (fair c r); [apply HQ|exact I].
Qed.

Lemma scope_alone sched server_fd self :
  ss_base self = None -> ss_index self = -1 ->
  alone shm_step (shm_scope uninit e sched server_fd self) unshared (fun _ _ => True).
Proof.
  intros Hb Hi. unfold shm_scope. apply alone_let_value.
  eapply alone_mono; [|eapply (server_alone _ _ _ Hb Hi None [] []); [constructor|]].
  - intros [[[c|] pool]| | |] s _; try exact I; [|apply alone_done; exact I].
    destruct (forallb _ _); [|apply alone_done; exact I]. destruct c; apply alone_done; exact I.
  - split; reflexivity || discriminate.
Qed.

Lemma close_alone {A} (p : task A) (c : call) f s :
  (forall r, event_of c r = Elsewhere) ->
  alone shm_step p s (fun _ _ => True) -> alone shm_step (defer p (perform c f)) s (fun _ _ => True).
Proof.
  intros Hc Hp. apply alone_defer. eapply alone_mono; [|exact Hp].
  intros [] s' _; try exact I; (apply elsewhere_call; [exact Hc|intros; exact I]).
Qed.

Lemma server_run_alone sched path self :
  ss_base self = None -> ss_index self = -1 ->
  alone shm_step (shm_server_run uninit e sched path self) unshared (fun _ _ => True).
Proof.
  intros Hb Hi. unfold shm_server_run.
  apply alone_let_value, alone_co_await, elsewhere_call; [reflexivity|]. intros [fd|ec|]; try exact I.
  cbn [lift_res]. apply close_alone; [reflexivity|]. destruct (_ <=? _); [apply alone_done; exact I|].
  assert (alone shm_step
    (do! trigger (AsyncBind fd path) lift_res in
     defer (do! trigger (AsyncListen fd 128) lift_res in shm_scope uninit e sched fd self)
           (perform (Unlink path) id)) unshared (fun _ _ => True)) as Hbind.
  { apply alone_let_value, alone_co_await, elsewhere_call; [reflexivity|]. intros [v|ec|]; try exact I.
    apply close_alone; [reflexivity|].
    apply alone_let_value, alone_co_await, elsewhere_call; [reflexivity|]. intros [v'|ec|]; try exact I.
    apply scope_alone; assumption. }
  apply alone_let_value, alone_co_await, alone_upon_error, elsewhere_call; [reflexivity|].
  intros [v|ec|]; cbn [lift_res]; [exact Hbind| |exact I].
  destruct (negb _); apply alone_done; [exact I|exact Hbind].
Qed.
End Session.

Lemma used_insert t i m m' : used (<[i := m]> t) m' -> m' = m \/ used t m'.
Proof.
  intros (j & m1 & Hj & ->). apply lookup_insert_Some in Hj as [[_ ->]|[_ Hj]]; [left; reflexivity|].
  right. exists j, m'. auto.
Qed.

Lemma used_delete t i m : used (delete i t) m -> used t m.
Proof. intros (j & m1 & Hj & ->). apply lookup_delete_Some in Hj as [_ Hj]. exists j, m. auto. Qed.

(** The machine keeps what is used mapped. *)
Lemma shm_step_live s c r s' : live s -> shm_step s c r = Next s' -> live s'.
Proof.
  unfold shm_step, on_calls. intros H E. destruct (shm_next s (event_of c r)) as [| |s1] eqn:E1; try discriminate.
  destruct (fair c r); [injection E as <-|discriminate]. revert E1.
  destruct (event_of c r) as [m|m|[m|] [i|]|i []|i m|i|]; cbn [shm_next]; intros E1; try discriminate;
    repeat (destruct (decide _) in E1; try discriminate); injection E1 as <-; try exact H;
    intros m' Hm'; unfold mapped in *; cbn [sh_mapped sh_driver sh_handler] in *.
  - rewrite lookup_insert_ne; [exact (H _ Hm')|]. intros Hm. pose proof (H _ Hm') as Hl. unfold mapped in Hl. congruence.
  - destruct_and!. rewrite lookup_delete_ne; [exact (H _ Hm')|]. intros Hm. pose proof (H _ Hm') as Hl. unfold mapped in Hl.
    assert (m' = m) as -> by (destruct m, m'; cbn in *; congruence). tauto.
  - destruct Hm' as [[->|Hu]%used_insert|Hu]; [assumption|apply H; auto..].
  - destruct Hm' as [Hu%used_delete|Hu]; apply H; auto.
  - destruct Hm' as [Hu|[->|Hu]%used_insert]; [apply H; auto| |apply H; auto].
    apply H. left. exists i, m. auto.
  - destruct Hm' as [Hu|Hu%used_delete]; apply H; auto.
Qed.

(** ** Claims *)

(** C20: shared memory is mapped for as long as it is used.  Whatever the
    clients, the driver and the handler do, and however the sessions of the
    service and their clean-ups interleave, the calls of [run_shm_server] are
    those the guide's order allows: a region is registered while it is mapped,
    announced to the handler under the index the driver has given it while it
    is registered, withdrawn after it has been unregistered, and unmapped when
    neither the driver nor the handler uses it; if the driver fails to
    unregister a region, it stays mapped.  So at every point of every run the
    regions in the driver's registrations and in the handler's table are
    mapped. *)
Theorem shared_memory_live uninit e control_fd dev_id flags sched path (K : env) t1 t2 :
  snd (exec K (daemon_shm_server uninit e sched control_fd dev_id path flags) []) = t1 ++ t2 ->
  goes_on live (follows shm_step unshared t1).
Proof.
  intros Ht. apply follows_invariant with (t2 := t2).
  - exact shm_step_live.
  - intros m [(i & m' & Hi & _)|(i & m' & Hi & _)]; discriminate.
  - rewrite <- Ht. unfold daemon_shm_server. pose proof (server_run_alone uninit e sched path
      (new_session control_fd dev_id flags) eq_refl eq_refl) as H.
    destruct (alone_exec _ K _ _ _ [] H) as (t & -> & HQ). exact HQ.
Qed.

(** Two clients, and a driver that gives the lowest free index. *)
Definition two_clients : env := fun h c =>
  match c return reply c -> reply c with
  | AsyncAccept _ => fun _ =>
      let n := count_calls (fun c => match c with AsyncAccept _ => true | _ => false end) h in
      if (n <? 2)%nat then AsyncOk (7 + Z.of_nat n) else AsyncStopped
  | AsyncRecvmsg fd _ => fun _ => (AsyncOk 1, [{| cmsg_level := 1; cmsg_type := 1; cmsg_fds := [fd + 10] |}])
  | AsyncStatx _ => fun _ => (AsyncOk 0, 4096)
  | Mmap _ _ fd _ => fun _ => SysOk (65536 * fd)
  | UringCtrl _ _ _ => fun _ =>
      (AsyncOk (match follows shm_step unshared h with
                | Next s => if decide (sh_driver s !! 0 = None) then 0 else 1
                | _ => 0
                end), PNone)
  | _ => id
  end (ok_reply c).

Definition two_run (sched : list nat) : completion unit * history :=
  exec two_clients (daemon_shm_server dev_info_zero (Some dev_info_zero) sched 5 0 ["s"%char] 0) [].

(** The two sessions in turns, then their clean-ups. *)
Definition turns : list nat :=
  [0; 0; 0]%nat ++ concat (repeat [1; 2]%nat 10) ++ concat (repeat [3; 4]%nat 6).

Definition entries (v : verdict sharing) :=
  match v with
  | Next s => Some (map_to_list (sh_mapped s), map_to_list (sh_driver s), map_to_list (sh_handler s))
  | _ => None
  end.

(** Midway both regions are registered and announced, and mapped; at the end
    nothing is shared. *)
Lemma shared_memory_live_witness :
  let t := snd (two_run turns) in
  goes_on live (follows shm_step unshared (take 18 t)) /\
  entries (follows shm_step unshared (take 18 t)) =
    Some ([(1114112, 4096); (1179648, 4096)],
          [(1, (1179648, 4096)); (0, (1114112, 4096))],
          [(1, (1179648, 4096)); (0, (1114112, 4096))]) /\
  entries (follows shm_step unshared t) = Some ([], [], []) /\
  fst (two_run turns) = SetValue tt.
Proof.
  cbv zeta. split; [|split_all; vm_compute; reflexivity].
  refine (shared_memory_live dev_info_zero (Some dev_info_zero) 5 0 0 turns ["s"%char] two_clients
    (take 18 (snd (two_run turns))) (drop 18 (snd (two_run turns))) _).
  symmetry. apply take_drop.
Defined.

(** Between the completion of the command that unregisters a region and the
    call of [handle_unreg_shm], other sessions may run: here the driver gives
    the index, free again, to the second client, whose region is announced
    before the first client's is withdrawn.  The second client's region is
    registered, but a handler that keeps the guide's table has lost it. *)
Definition overtaking : list nat :=
  [0; 0; 0]%nat ++ repeat 1%nat 12 ++ [2; 2; 2; 3; 2; 2; 3]%nat.

Example withdrawal_overtaken :
  entries (follows shm_step unshared (snd (two_run overtaking))) =
  Some ([(1114112, 4096); (1179648, 4096)], [(0, (1179648, 4096))], []).
Proof. vm_compute. reflexivity. Qed.
