(* ===== verification/Daemon.v ===== *)
(** * Daemon: bringing a device up

    [src/include/ublk/detail/daemon.hpp], the [setup], [configure] and [start]
    steps: create the device or take over an existing one, configure it if it
    has not been, and start it or end its recovery, as the state reported by
    the driver requires.  [run] is in [DaemonRun]. *)

From S2P Require Import Prelude Effects UblkCmd Path Sys Raw Control.

Definition need_recovery (info : ublksrv_ctrl_dev_info) : bool :=
  (info_state info =? UBLK_S_DEV_QUIESCED) || (info_state info =? UBLK_S_DEV_FAIL_IO).

Definition user_recovery (info : ublksrv_ctrl_dev_info) : bool :=
  has (info_flags info) UBLK_F_USER_RECOVERY.

(** [-1] converted to [uint32_t]. *)
Definition AUTO_DEV_ID : Z := uwrap 32 (-1).

Section Daemon.
Context (uninit : ublksrv_ctrl_dev_info).

Definition daemon_setup (control_fd : Z) (info : ublksrv_ctrl_dev_info)
    : task (bool * ublksrv_ctrl_dev_info) :=
  if info_dev_id info =? AUTO_DEV_ID then
    let! '(_, out) := with_output (raw_add_dev control_fd info) in
    just (true, out_info info out)
  else
    let_value (raw_add_dev control_fd info) (fun '(c, out) =>
      let info := out_info info out in
      let! r := upon_error (Done c)
                  (fun ec => if negb (err_value ec =? EEXIST)
                             then throw (SystemError (err_value ec))
                             else just (- err_value ec)) in
      if negb (r =? - EEXIST) then just (true, info)
      else
        let! info := control_get_dev_info control_fd (info_dev_id info) info in
        if user_recovery info && need_recovery info then
          do! control_start_user_recovery uninit (Some info) control_fd (info_dev_id info) in
          just (false, info)
        else just (false, info)).

Definition daemon_configure (e : dev_env) (control_fd dev_id : Z) (params : ublk_params)
    : task (bool * ublk_params) :=
  let! info := cached_get_dev_info e control_fd dev_id uninit in
  if info_state info =? UBLK_S_DEV_DEAD then
    do! control_set_params uninit (Some info) control_fd dev_id params in
    just (true, params)
  else
    let! params := control_get_params uninit (Some info) control_fd dev_id params in
    just (false, params).

Definition daemon_start (e : dev_env) (control_fd dev_id daemon_pid : Z) : task unit :=
  let! info := cached_get_dev_info e control_fd dev_id uninit in
  if negb (need_recovery info) then
    co_await (control_start_dev uninit (Some info) control_fd dev_id daemon_pid)
  else if user_recovery info then
    co_await (control_end_user_recovery uninit (Some info) control_fd dev_id daemon_pid)
  else throw (RuntimeError "device can neither be started nor recovered").

(** The control path of a server's [main] (the examples, the guide): set the
    device up, configure it, start it; [run], which proceeds concurrently
    with [start], issues no control command that changes the device. *)
Definition daemon_bring_up (control_fd daemon_pid : Z) (info : ublksrv_ctrl_dev_info)
    (params : ublk_params) : task (bool * bool * ublksrv_ctrl_dev_info * ublk_params) :=
  let! '(created, info) := daemon_setup control_fd info in
  let! '(applied, params) := daemon_configure None control_fd (info_dev_id info) params in
  do! daemon_start None control_fd (info_dev_id info) daemon_pid in
  just (created, applied, info, params).
End Daemon.

(** ** A driver for one device

    The replies of a driver holding one device, as far as the steps above
    observe them: whether [ADD_DEV] finds the id taken, the information
    returned by [GET_DEV_INFO2], and the parameters in effect, which are [p] to
    begin with and then those of the last [SET_PARAMS]: it keeps what it is
    given, and returns it to [GET_PARAMS].  Every other command succeeds. *)

(** The parameters a call gives to the device. *)
Definition params_given (c : call) : option ublk_params :=
  match c with
  | UringCtrl _ op cmd =>
      if bool_decide (op = UBLK_U_CMD_SET_PARAMS) then
        match data_sent op (cmd_addr cmd) with PParams q => Some q | _ => None end
      else None
  | _ => None
  end.

Definition calls_of (h : history) : list call := map (@projT1 _ _) h.

Definition in_effect (p : ublk_params) (h : history) : ublk_params :=
  foldl (fun q c => default q (params_given c)) p (calls_of h).

Definition device_driver (exists_ : bool) (i : ublksrv_ctrl_dev_info) (p : ublk_params) : env :=
  fun h c =>
    match c return reply c -> reply c with
    | UringCtrl _ op _ => fun d =>
        if bool_decide (op = UBLK_U_CMD_ADD_DEV) then
          if exists_ then (AsyncErr EEXIST, PNone) else (AsyncOk 0, PInfo i)
        else if bool_decide (op = UBLK_U_CMD_GET_DEV_INFO2) then (AsyncOk 0, PInfo i)
        else if bool_decide (op = UBLK_U_CMD_GET_PARAMS) then (AsyncOk 0, PParams (in_effect p h))
        else d
    | _ => fun d => d
    end (ok_reply c).

(** What bringing a device up has to ask of the driver, call by call. *)
Definition add_call (fd : Z) (info : ublksrv_ctrl_dev_info) : call :=
  UringCtrl fd UBLK_U_CMD_ADD_DEV
    {| cmd_dev_id := uwrap 32 (info_dev_id info); cmd_queue_id := 0xffff; cmd_len := 64;
       cmd_addr := var (PInfo info); cmd_data0 := 0; cmd_dev_path_len := 0 |}.

(** A command for the device [i], in the form its mode calls for. *)
Definition device_command (i : ublksrv_ctrl_dev_info) (fd : Z) (op : ioc) (data0 : Z) (p : payload) : call :=
  UringCtrl fd op (form_command (unprivileged i) (info_dev_id i) 0xffff data0 p).

Definition setup_calls (ex : bool) (i : ublksrv_ctrl_dev_info) (fd : Z) (info : ublksrv_ctrl_dev_info)
    : list call :=
  add_call fd info ::
  (if ex then
     info2_call fd (info_dev_id i) ::
     (if user_recovery i && need_recovery i
      then [device_command i fd UBLK_U_CMD_START_USER_RECOVERY 0 PNone] else [])
   else []).

Definition configure_call (i : ublksrv_ctrl_dev_info) (fd : Z) (params : ublk_params) : call :=
  if info_state i =? UBLK_S_DEV_DEAD
  then device_command i fd UBLK_U_CMD_SET_PARAMS 0 (PParams (full_params params))
  else device_command i fd UBLK_U_CMD_GET_PARAMS 0
         (PParams (full_params (if unprivileged i then params_zero else params))).

Definition start_call (i : ublksrv_ctrl_dev_info) (fd pid : Z) : call :=
  device_command i fd
    (if need_recovery i then UBLK_U_CMD_END_USER_RECOVERY else UBLK_U_CMD_START_DEV) (uwrap 64 pid) PNone.

(** ** Lemmas *)

(** The lookup when the driver answers at once. *)
Lemma exec_get_dev_info_now (K : env) fd dev_id info (h : history) v i :
  is_u 32 dev_id -> 0 <= v -> K h (info2_call fd dev_id) = (AsyncOk v, PInfo i) ->
  exec K (control_get_dev_info fd dev_id info) h =
  (SetValue i, h ++ [existT (info2_call fd dev_id) (AsyncOk v, PInfo i)]).
Proof.
  intros Hid Hv HK. unfold control_get_dev_info, retry, get_dev_info_attempt.
  rewrite !exec_let_value, !exec_co_await, !exec_let_value, !exec_co_await, !exec_let_value,
    !exec_co_await, !exec_upon_error.
  unfold raw_get_dev_info2. rewrite exec_with_output_cmd. cbv zeta.
  rewrite (uwrap_id 32 dev_id) by assumption.
  change (UringCtrl fd UBLK_U_CMD_GET_DEV_INFO2 _) with (info2_call fd dev_id).
  rewrite HK. cbn. destruct (Z.leb_spec 0 v); [reflexivity|lia].
Qed.

Section DeviceDriver.
Context (ex : bool) (i : ublksrv_ctrl_dev_info) (p : ublk_params) (uninit : ublksrv_ctrl_dev_info).
Context (fd dev_id : Z).
Hypothesis Hid : is_u 32 dev_id.
Hypothesis Hi : info_dev_id i = dev_id.

Let D : env := device_driver ex i p.

Lemma driver_info2 info h :
  exec D (control_get_dev_info fd dev_id info) h =
  (SetValue i, h ++ [existT (info2_call fd dev_id) (AsyncOk 0, PInfo i)]).
Proof. apply exec_get_dev_info_now; [assumption|lia|reflexivity]. Qed.

Lemma driver_request req op cmd h :
  request_command (unprivileged i) dev_id req = Some (op, cmd) ->
  op <> UBLK_U_CMD_ADD_DEV -> op <> UBLK_U_CMD_GET_DEV_INFO2 -> op <> UBLK_U_CMD_GET_PARAMS ->
  exec D (public_control uninit (Some i) fd dev_id req) h =
  (SetValue tt, h ++ [existT (UringCtrl fd op cmd) (AsyncOk 0, PNone)]).
Proof.
  intros Hreq H1 H2 H3. rewrite control_call_public, (request_exec _ _ _ _ _ _ _ _ _ Hid Hi Hreq).
  assert (D h (UringCtrl fd op cmd) = (AsyncOk 0, PNone)) as ->; [|reflexivity].
  unfold D, device_driver. rewrite !bool_decide_false by assumption. reflexivity.
Qed.

Lemma driver_get_params params h :
  let c := device_command i fd UBLK_U_CMD_GET_PARAMS 0
             (PParams (full_params (if unprivileged i then params_zero else params))) in
  exec D (control_get_params uninit (Some i) fd dev_id params) h =
  (SetValue (in_effect p h), h ++ [existT c (AsyncOk 0, PParams (in_effect p h))]).
Proof.
  pose proof (request_exec uninit D i fd dev_id (ReqGetParams params) _ _ h Hid Hi eq_refl) as Hx.
  match type of Hx with context [D h ?c] =>
    change (D h c) with (AsyncOk 0, PParams (in_effect p h) : payload) in Hx end.
  cbn [control_call] in Hx. unfold then_ in Hx. rewrite exec_let_value in Hx.
  unfold device_command. rewrite Hi.
  destruct (exec D (control_get_params uninit (Some i) fd dev_id params) h) as [[q|e| |] h'];
    cbn in Hx; try discriminate Hx. injection Hx as -> ->. reflexivity.
Qed.

Lemma driver_configure params h :
  exists e, projT1 e = configure_call i fd params /\
    exec D (daemon_configure uninit None fd dev_id params) h =
    (SetValue (if info_state i =? UBLK_S_DEV_DEAD then (true, params)
               else (false, in_effect p (h ++ [existT (info2_call fd dev_id) (AsyncOk 0, PInfo i)]))),
     h ++ [existT (info2_call fd dev_id) (AsyncOk 0, PInfo i)] ++ [e]).
Proof.
  unfold daemon_configure, configure_call, cached_get_dev_info.
  rewrite exec_let_value, !exec_co_await, driver_info2.
  set (h1 := h ++ [_]). destruct (info_state i =? UBLK_S_DEV_DEAD).
  - pose proof (driver_request (ReqSetParams params) _ _ h1 eq_refl) as Hx. cbn [public_control] in Hx.
    eexists; split; cycle 1.
    + rewrite exec_let_value, exec_co_await, Hx by discriminate. unfold h1. rewrite <- app_assoc. reflexivity.
    + unfold device_command. rewrite Hi. reflexivity.
  - eexists; split; cycle 1.
    + rewrite exec_let_value, exec_co_await, driver_get_params. unfold h1. rewrite <- app_assoc. reflexivity.
    + reflexivity.
Qed.

Lemma driver_start pid h :
  need_recovery i && negb (user_recovery i) = false ->
  exists e, projT1 e = start_call i fd pid /\
    exec D (daemon_start uninit None fd dev_id pid) h =
    (SetValue tt, h ++ [existT (info2_call fd dev_id) (AsyncOk 0, PInfo i)] ++ [e]).
Proof.
  intros Hr. unfold daemon_start, start_call, device_command, cached_get_dev_info.
  rewrite exec_let_value, !exec_co_await, driver_info2, Hi.
  set (h1 := h ++ [_]). destruct (need_recovery i); cbn [negb andb] in *.
  - apply negb_false_iff in Hr. rewrite Hr.
    pose proof (driver_request (ReqEndUserRecovery pid) _ _ h1 eq_refl) as Hx. cbn [public_control] in Hx.
    eexists; split; cycle 1.
    + rewrite exec_co_await, Hx by discriminate. unfold h1. rewrite <- app_assoc. reflexivity.
    + cbn. rewrite uwrap_idem. reflexivity.
  - pose proof (driver_request (ReqStartDev pid) _ _ h1 eq_refl) as Hx. cbn [public_control] in Hx.
    eexists; split; cycle 1.
    + rewrite exec_co_await, Hx by discriminate. unfold h1. rewrite <- app_assoc. reflexivity.
    + cbn. rewrite uwrap_idem. reflexivity.
Qed.
End DeviceDriver.

Lemma driver_add ex i p fd info h :
  exec (device_driver ex i p) (raw_add_dev fd info) h =
  let r := if ex then (AsyncErr EEXIST, PNone) else (AsyncOk 0, PInfo i) in
  (SetValue (lift_res (fst r), snd r), h ++ [existT (add_call fd info) r]).
Proof. reflexivity. Qed.

Lemma driver_setup ex i p uninit fd info dev_id h :
  is_u 32 dev_id -> info_dev_id i = dev_id ->
  (ex = true -> info_dev_id info = dev_id /\ dev_id <> AUTO_DEV_ID) ->
  exists t, calls_of t = setup_calls ex i fd info /\
    exec (device_driver ex i p) (daemon_setup uninit fd info) h = (SetValue (negb ex, i), h ++ t).
Proof.
  intros Hid Hi Hex. unfold daemon_setup, setup_calls, device_command. rewrite Hi. destruct ex.
  - destruct (Hex eq_refl) as [Hinfo Hne]. rewrite Hinfo.
    destruct (Z.eqb_spec dev_id AUTO_DEV_ID); [contradiction|].
    rewrite exec_let_value, driver_add. cbv zeta. set (h1 := h ++ [_]).
    cbn [fst snd lift_res out_info]. rewrite exec_let_value, exec_co_await, exec_upon_error.
    cbn [exec err_value]. rewrite Z.eqb_refl. cbn [negb exec just]. rewrite Z.eqb_refl. cbn [negb].
    rewrite exec_let_value, exec_co_await, Hinfo, (driver_info2 true i p fd dev_id Hid).
    destruct (user_recovery i && need_recovery i).
    + set (h2 := h1 ++ [_]).
      pose proof (driver_request true i p uninit fd dev_id Hid Hi ReqStartUserRecovery _ _ h2 eq_refl) as Hx.
      cbn [public_control] in Hx.
      rewrite Hi, exec_let_value, exec_co_await, Hx by discriminate.
      eexists; split; cycle 1; [unfold h2, h1; rewrite <- !app_assoc; reflexivity|reflexivity].
    + eexists; split; cycle 1; [unfold h1; rewrite <- !app_assoc; reflexivity|reflexivity].
  - destruct (info_dev_id info =? AUTO_DEV_ID).
    + rewrite exec_let_value, exec_co_await. unfold with_output. rewrite exec_let_value, driver_add.
      cbv zeta. eexists; split; cycle 1; [reflexivity|reflexivity].
    + rewrite exec_let_value, driver_add. cbv zeta.
      eexists; split; cycle 1; [reflexivity|reflexivity].
Qed.

(** What the calls of bringing up leave in effect. *)
Lemma in_effect_app p h1 h2 : in_effect p (h1 ++ h2) = in_effect (in_effect p h1) h2.
Proof. unfold in_effect, calls_of. rewrite map_app. apply foldl_app. Qed.

Lemma setup_in_effect p ex i fd info t :
  calls_of t = setup_calls ex i fd info -> in_effect p t = p.
Proof.
  intros Ht. unfold in_effect. rewrite Ht. unfold setup_calls.
  destruct ex; [|reflexivity]. destruct (user_recovery i && need_recovery i); reflexivity.
Qed.

Lemma configure_in_effect p i fd params e :
  projT1 e = configure_call i fd params ->
  in_effect p [e] = if info_state i =? UBLK_S_DEV_DEAD then full_params params else p.
Proof.
  intros He. unfold in_effect, calls_of, configure_call, device_command, form_command in *.
  cbn [map foldl]. rewrite He.
  destruct (info_state i =? UBLK_S_DEV_DEAD); destruct (unprivileged i); reflexivity.
Qed.

Lemma start_in_effect p i fd pid e : projT1 e = start_call i fd pid -> in_effect p [e] = p.
Proof.
  intros He. unfold in_effect, calls_of, start_call, device_command. cbn [map foldl]. rewrite He.
  unfold start_call, device_command. destruct (need_recovery i); reflexivity.
Qed.

(** ** Theorems *)


Definition sample_info (dev_id state flags : Z) : ublksrv_ctrl_dev_info :=
  {| info_nr_hw_queues := 1; info_queue_depth := 64; info_state := state;
     info_io_desc_size := 0; info_max_io_buf_bytes := 524288; info_dev_id := dev_id;
     info_ublksrv_pid := 0; info_pad1 := 0; info_flags := flags;
     info_ublksrv_flags := 0; info_owner_uid := 0; info_owner_gid := 0;
     info_reserved1 := 0; info_reserved2 := 0 |}.


(** [configure] on a device that has not been configured yields [true] with
    the caller's parameters as they were given, whatever the driver answers:
    the parameters in effect are not read back. *)
Lemma configure_applied_params (K : env) e fd dev_id uninit params (h h' : history) params' :
  exec K (daemon_configure uninit e fd dev_id params) h = (SetValue (true, params'), h') ->
  params' = params.
Proof.
  unfold daemon_configure. rewrite exec_let_value, exec_co_await.
  destruct (exec K (cached_get_dev_info e fd dev_id uninit) h) as [[i|er| |] h1];
    try discriminate.
  destruct (info_state i =? UBLK_S_DEV_DEAD); rewrite exec_let_value, exec_co_await.
  - destruct (exec K (control_set_params uninit (Some i) fd dev_id params) h1) as [[]]; cbn;
      congruence.
  - destruct (exec K (control_get_params uninit (Some i) fd dev_id params) h1) as [[]]; cbn;
      congruence.
Qed.
