(* ===== verification/DaemonRun.v ===== *)
(** * DaemonRun: running a device

    [daemon::run] of [src/include/ublk/detail/daemon.hpp] and the I/O loops of
    [src/include/ublk/detail/io_loop.hpp]: a loop, a runtime with a pinned
    thread, per hardware queue; the device opened; the queues served
    concurrently, each on its loop; the first error rethrown. *)

From S2P Require Import Prelude Effects Protocol UblkCmd Utils Path Sys Ledger Raw IoResult TagProtocol Queue BatchLayout BatchObject Batch BatchProof BatchRun Control IoDev.
From Stdlib Require Import Ascii.

#[local] Open Scope Z_scope.

(** ** IoLoop (io_loop.hpp) *)

(** The constructor; a table that cannot be set up throws before the thread is
    started. *)
Definition IoLoop_ctor (loop : Z) (options : Z * Z) (attach : option Z) (nr_files nr_buffers cpuset : Z)
    : task unit :=
  let_value (trigger (RuntimeInit loop (fst options) (snd options) attach) SetValue : task sys_res)
    (fun r =>
  match r with
  | SysErr errno => throw (SystemError errno)
  | SysOk _ =>
      let_value
        (if negb (nr_files =? 0) then
           let_value (trigger (FdTableInit loop nr_files) SetValue : task Z) (fun r =>
             if r <? 0 then throw (SystemError (- r)) else just tt)
         else just tt) (fun _ =>
      let_value
        (if negb (nr_buffers =? 0) then
           let_value (trigger (BufferTableInit loop nr_buffers) SetValue : task Z) (fun r =>
             if r <? 0 then throw (SystemError (- r)) else just tt)
         else just tt) (fun _ =>
      perform (LoopStart loop cpuset) id))
  end).

(** [<sys/resource.h>], [<sys/prctl.h>] *)
Definition PRIO_PROCESS : Z := 0.
Definition PR_SET_IO_FLUSHER : Z := 57.

(** What the thread of a loop does: it pins itself, raises its priority, tells
    the kernel that it serves a block device, and runs the loop; failures of
    the set-up are ignored. *)
Definition IoLoop_run_ (loop cpuset : Z) : task unit :=
  let_value (trigger (PthreadSetaffinity cpuset) SetValue : task Z) (fun _ =>
  let_value (trigger (SetPriority PRIO_PROCESS 0 (-20)) SetValue : task sys_res) (fun _ =>
  let_value (trigger (Prctl PR_SET_IO_FLUSHER 1) SetValue : task sys_res) (fun _ =>
  perform (RuntimeRun loop) id))).

(** The set-up of the thread never keeps the loop from running. *)
Lemma IoLoop_runs K loop cpuset h :
  fst (exec K (IoLoop_run_ loop cpuset) h) = SetValue tt /\
  exists t, snd (exec K (IoLoop_run_ loop cpuset) h) = h ++ t ++ [existT (RuntimeRun loop) tt].
Proof.
  cbn. destruct (K _ (RuntimeRun loop)). split; [reflexivity|]. eexists [_; _; _]. rewrite <- !app_assoc. reflexivity.
Qed.

(** The destructor: the runtime may exit, and the thread is joined. *)
Definition IoLoop_dtor (loop : Z) : task unit := perform (LoopExit loop) id.

Fixpoint destroy_loops (loops : list Z) : task unit :=
  match loops with
  | [] => just tt
  | l :: loops => let_value (IoLoop_dtor l) (fun _ => destroy_loops loops)
  end.

(** ** daemon::run *)

Record Options := {
  runtime_options : option RuntimeOptions;
  nr_files : Z;
  nr_buffers : Z;
}.

Section DaemonRun.
Context {Q1 Q2 : Type} {IQ : DeviceQueue Q1} {BQ : DeviceQueue Q2}.
(** [uninit] and [cpuset0]: the values of the locals before they are filled;
    [sq0], [cq0]: condy's default ring sizes. *)
Context (uninit : ublksrv_ctrl_dev_info) (cpuset0 sq0 cq0 : Z).

Definition loop_options (o : Options) (info : ublksrv_ctrl_dev_info) : Z * Z :=
  build (default {| requested_sq_size := 0; requested_cq_size := 0;
                    opt_sq_size := sq0; opt_cq_size := cq0 |} (runtime_options o))
        (info_queue_depth info).

Definition loop_files (o : Options) : Z := Z.max (nr_files o) 1.

Definition loop_buffers (o : Options) (info : ublksrv_ctrl_dev_info) : Z :=
  if has (info_flags info) (UBLK_F_SUPPORT_ZERO_COPY .| UBLK_F_AUTO_BUF_REG)
  then Z.max (nr_buffers o) (info_queue_depth info) else nr_buffers o.

(** The loop that creates the loops, from queue [q_id] on, [n] of them left:
    the vector as it is left, and how the body has ended.  From the second
    loop on the options attach to the worker pool of the first. *)
Fixpoint build_loops (control_fd dev_id : Z) (o : Options) (info : ublksrv_ctrl_dev_info)
    (n : nat) (q_id : Z) (attach : option Z) (loops : list Z) : task (list Z * completion unit) :=
  match n with
  | O => just (loops, SetValue tt)
  | S n =>
      let_value
        (reify
           (let! cpuset :=
              control_get_queue_affinity uninit (Some info) control_fd dev_id q_id cpuset0 in
            IoLoop_ctor q_id (loop_options o info) attach (loop_files o) (loop_buffers o info) cpuset))
        (fun c =>
           match c with
           | SetValue _ =>
               build_loops control_fd dev_id o info n (q_id + 1) (Some 0) (loops ++ [q_id])
           | c => just (loops, c)
           end)
  end.

(** The queues' tasks, spawned on their loops, and the scope joined. *)
Definition serve_queues (sched : list nat) (ublkc_fd : Z) (info : ublksrv_ctrl_dev_info) : task unit :=
  let_value
    (concurrently sched
       (map (fun q_id => io_run_dev (IQ := IQ) (BQ := BQ) ublkc_fd q_id info)
            (seqZ 0 (info_nr_hw_queues info))))
    (fun ps => match join_all ps with
               | Some cs => rethrow_first (worker_errors cs)
               | None => Done Unfinished
               end).

Definition daemon_run (sched : list nat) (e : dev_env) (control_fd dev_id : Z) (o : Options)
    : task unit :=
  let! info := cached_get_dev_info e control_fd dev_id uninit in
  let_value (build_loops control_fd dev_id o info (Z.to_nat (info_nr_hw_queues info)) 0 None [])
    (fun '(loops, c) =>
  defer
    (let_value (Done c) (fun _ =>
     let! ublkc_fd := trigger (AsyncOpen (dev_path dev_id)) lift_res in
     defer (serve_queues sched ublkc_fd info) (perform (Close ublkc_fd) id)))
    (destroy_loops loops)).

(** ** Resources *)

(** A descriptor is not negative. *)
Definition open_ok (c : call) : reply c -> bool :=
  match c return reply c -> bool with
  | AsyncOpen _ => fun r => match r with AsyncOk fd => 0 <=? fd | _ => true end
  | _ => fun _ => true
  end.

Context {IL : DeviceQueueLaws Q1} {BL : DeviceQueueLaws Q2}.

Definition held_loops (loops : list Z) : resources := list_to_set_disj (map RLoop loops).

Lemma held_loops_snoc loops q_id :
  held_loops (loops ++ [q_id]) = acquire (RLoop q_id) (held_loops loops).
Proof.
  unfold held_loops, acquire. rewrite map_app, list_to_set_disj_app. cbn [map list_to_set_disj].
  rewrite (right_id_L ∅ (⊎)). reflexivity.
Qed.

Lemma destroy_loops_obeys loops :
  obeys own_ledger (destroy_loops loops) (held_loops loops) (fun c X => c <> Unfinished -> X = ∅).
Proof.
  induction loops as [|l loops IH]; cbn [destroy_loops]; [intros _; reflexivity|].
  apply obeys_let_value, obeys_trigger. intros r. exists (held_loops loops). split; [|exact IH].
  unfold own_ledger, held_loops. cbn [is_lock ledger map list_to_set_disj].
  rewrite release_in by multiset_solver. f_equal. multiset_solver.
Qed.

Lemma IoLoop_ctor_obeys loop options attach files bufs cpuset X :
  obeys own_ledger (IoLoop_ctor loop options attach files bufs cpuset) X (fun c X' =>
    match c with
    | SetValue _ => X' = acquire (RLoop loop) X
    | Unfinished => False
    | _ => X' = X
    end).
Proof.
  assert (forall (b : bool) (c : call) (f : reply c -> Z) (k : task unit) Q,
    (forall r X, own_ledger X c r = Some X) ->
    (forall x, Q (SetError x) X) -> obeys own_ledger k X Q ->
    obeys own_ledger (let_value (if b then let_value (trigger c (fun r => SetValue (f r))) (fun r =>
      if r <? 0 then throw (SystemError (- r)) else just tt) else just tt) (fun _ => k)) X Q) as Htab.
  { intros b c f k Q Hc He Hk. apply obeys_let_value. destruct b; [|exact Hk].
    apply obeys_let_value, obeys_trigger. intros r. exists X. split; [apply Hc|].
    cbn [then_obeys]. destruct (f r <? 0); [apply He|exact Hk]. }
  unfold IoLoop_ctor. apply obeys_let_value, obeys_trigger. intros [v|errno]; exists X;
    (split; [reflexivity|]); cbn [then_obeys]; [|reflexivity].
  apply (Htab _ (FdTableInit loop files) id); [intros; reflexivity|intros; reflexivity|].
  apply (Htab _ (BufferTableInit loop bufs) id); [intros; reflexivity|intros; reflexivity|].
  apply obeys_trigger. intros []. eexists; split; reflexivity.
Qed.

Lemma build_loops_obeys control_fd dev_id o info n : forall q_id attach loops,
  obeys own_ledger (build_loops control_fd dev_id o info n q_id attach loops) (held_loops loops)
    (fun c X => match c with
                | SetValue (loops', c) => X = held_loops loops' /\ c <> Unfinished
                | Unfinished => True
                | _ => False
                end).
Proof.
  induction n as [|n IH]; intros q_id attach loops; cbn [build_loops]; [split; [reflexivity|discriminate]|].
  assert (obeys own_ledger
    (let! cpuset := control_get_queue_affinity uninit (Some info) control_fd dev_id q_id cpuset0 in
     IoLoop_ctor q_id (loop_options o info) attach (loop_files o) (loop_buffers o info) cpuset)
    (held_loops loops) (fun c X => match c with
      | SetValue _ => X = held_loops (loops ++ [q_id])
      | Unfinished => True
      | _ => X = held_loops loops
      end)) as Hbody.
  { apply obeys_let_value, obeys_co_await.
    eapply obeys_mono; [|apply releases_at, releases_keeps, get_queue_affinity_plain;
      [apply plain_keeps|intros ** ? ?; reflexivity]].
    intros [cpus|e| |] X HX; cbn [then_obeys]; [|apply HX; discriminate..|exact I].
    rewrite HX by discriminate. rewrite held_loops_snoc.
    eapply obeys_mono; [|apply IoLoop_ctor_obeys]. intros []; tauto. }
  apply obeys_let_value, obeys_connect. eapply obeys_mono; [|exact Hbody].
  intros [a|x| |] X HX; cbn [just obeys then_obeys]; [rewrite HX; apply IH|..];
    solve [split; [exact HX|discriminate]|exact I].
Qed.

Lemma serve_queues_releases sched ublkc_fd info :
  ublkc_fd <> -1 -> releases (serve_queues sched ublkc_fd info).
Proof.
  intros Hfd. unfold serve_queues, releases.
  set (ps := map _ _). set (Hs := repeat (∅ : resources) (length ps)).
  assert (∅ ⊎ total Hs = ∅) as HT by (unfold Hs; rewrite total_empty; apply (left_id_L ∅ (⊎))).
  rewrite <- HT at 1. apply obeys_let_value.
  eapply obeys_mono; [|apply concurrently_owned with (Q := fun c X => c <> Unfinished -> X = ∅)].
  - intros c X (ps' & Hs' & -> & Hps & ->). cbn [then_obeys].
    destruct (join_all ps') as [cs|] eqn:E; [|intros H; congruence].
    rewrite (joined_released _ _ _ Hps E), (left_id_L ∅ (⊎)).
    unfold rethrow_first. destruct (worker_errors cs); intros _; reflexivity.
  - unfold Hs, ps. rewrite length_map. generalize (seqZ 0 (info_nr_hw_queues info)). intros l.
    induction l as [|q_id l IH]; [constructor|]. constructor; [|exact IH].
    apply io_run_dev_releases, Hfd.
Qed.

Lemma daemon_run_obeys sched e control_fd dev_id o :
  obeys (assuming open_ok own_ledger) (daemon_run sched e control_fd dev_id o) (Some ∅)
    (under (fun c X => c <> Unfinished -> X = ∅)).
Proof.
  unfold daemon_run. apply under_bind, under_co_await.
  eapply obeys_assuming; [apply releases_keeps, cached_get_dev_info_plain;
    [apply plain_keeps|intros ** ? ?; reflexivity]| |intros; exact I].
  intros [info|x| |] X HX; cbn [under then_obeys];
    [|intros _; apply HX; discriminate..|intros H; exfalso; apply H; reflexivity].
  rewrite HX by discriminate.
  apply under_bind. eapply obeys_assuming; [exact (build_loops_obeys control_fd dev_id o info _ 0 None [])| |
    intros; exact I].
  intros [[loops c]| | |] X'; cbn [under then_obeys]; try contradiction.
  intros [-> Hc]. apply obeys_defer. eapply obeys_mono with
    (Q := under (fun c X => c <> Unfinished -> X = held_loops loops)).
  - intros c' [X''|] HX''; [|destruct c'; try exact I; apply obeys_sunk; intros []; exact I].
    unfold guard_obeys. destruct c'; cbn [under] in *; try (intros H4; exfalso; apply H4; reflexivity);
      rewrite HX'' by discriminate;
      (eapply obeys_assuming; [apply destroy_loops_obeys| |intros []; exact I]);
      intros [] X3 H3; cbn [under]; intros H4;
      solve [apply H3; discriminate|exfalso; apply H4; reflexivity].
  - apply under_bind. destruct c as [[]|x| |]; [|intros _; reflexivity..|exfalso; apply Hc; reflexivity].
    apply under_bind, under_co_await, under_trigger. intros [fd|ec|] Hok; cbn [open_ok] in Hok;
      (eexists; split; [reflexivity|]); cbn [lift_res then_obeys]; try (intros _; reflexivity).
    set (H := held_loops loops).
    assert (obeys own_ledger (defer (serve_queues sched fd info) (perform (Close fd) id))
      (acquire (RFile fd) ∅) (fun c X => c <> Unfinished -> X = ∅)) as Hserve.
    { apply releases_guarded; [apply serve_queues_releases; lia|].
      apply obeys_trigger. intros []. exists ∅. split; [apply release_acquire|intros _; reflexivity]. }
    replace (acquire (RFile fd) H) with (acquire (RFile fd) ∅ ⊎ H)
      by (unfold acquire; multiset_solver).
    eapply obeys_assuming; [apply obeys_frame, Hserve| |intros; exact I].
    intros c X3 (H' & HQ & ->) Hc'. rewrite (HQ Hc'). apply (left_id_L ∅ (⊎)).
Qed.

(** The commands of [run] only look the device up. *)
Lemma daemon_run_each (P : call -> Prop) sched e control_fd dev_id o :
  (forall c, no_control c -> P c) ->
  each_cmd P control_fd UBLK_U_CMD_GET_DEV_INFO2 -> each_cmd P control_fd UBLK_U_CMD_GET_DEV_INFO ->
  each_cmd P control_fd UBLK_U_CMD_GET_QUEUE_AFFINITY ->
  all_calls P (daemon_run sched e control_fd dev_id o).
Proof.
  intros HP H2 H1 Ha. assert (forall (b : bool) c (f : reply c -> completion Z), no_control c ->
    all_calls P (if b then let_value (trigger c f) (fun r =>
      if r <? 0 then throw (SystemError (- r)) else just tt) else just tt)) as Htab.
  { intros b c f Hc. destruct b; [|exact I]. apply all_calls_let_value; [split; [apply HP, Hc|intros; exact I]|].
    intros r. destruct (r <? 0); exact I. }
  unfold daemon_run. apply all_calls_let_value.
  { apply all_calls_co_await, cached_get_dev_info_each; try assumption. intros; apply HP; exact I. }
  intros info. apply all_calls_let_value.
  - generalize (Z.to_nat (info_nr_hw_queues info)), 0, (@None Z), (@nil Z).
    induction n as [|n IH]; intros q_id attach loops; [exact I|]. cbn [build_loops].
    apply all_calls_let_value; [apply all_calls_connect; [|intros []; exact I]|intros []; try exact I; apply IH].
    apply all_calls_let_value.
    { apply all_calls_co_await, get_queue_affinity_each; try assumption. intros; apply HP; exact I. }
    intros cpuset. apply all_calls_let_value; [split; [apply HP; exact I|intros; exact I]|].
    intros [v|errno]; [|exact I]. apply all_calls_let_value; [apply Htab; exact I|]. intros _.
    apply all_calls_let_value; [apply Htab; exact I|]. intros _. split; [apply HP; exact I|intros; exact I].
  - intros [loops c]. apply all_calls_defer.
    + apply all_calls_let_value; [exact I|]. intros _.
      apply all_calls_let_value; [apply all_calls_co_await; split; [apply HP; exact I|intros; exact I]|].
      intros fd. apply all_calls_defer; [|split; [apply HP; exact I|intros; exact I]].
      apply all_calls_let_value.
      * apply all_calls_concurrently, Forall_forall. intros p Hp.
        apply in_map_iff in Hp as (q_id & <- & _).
        eapply all_calls_mono; [exact HP|apply io_run_dev_no_control].
      * intros ps. destruct (join_all ps); [|exact I]. unfold rethrow_first. case_match; exact I.
    + induction loops as [|l loops IH]; [exact I|].
      apply all_calls_let_value; [split; [apply HP; exact I|intros; exact I]|intros; exact IH].
Qed.
End DaemonRun.

(** ** Sizes

    What the calls of [run] ask of the io_uring instances, given the device's
    information: descriptor 0 and, for registered buffers, an entry per tag in
    the tables, a submission entry per tag, and the first loop's workers shared
    by the others. *)

Definition loop_call_ok (info : ublksrv_ctrl_dev_info) (c : call) : Prop :=
  match c with
  | RuntimeInit loop sq cq attach =>
      info_queue_depth info <= sq /\ 2 * info_queue_depth info <= cq /\
      attach = (if loop =? 0 then None else Some 0)
  | FdTableInit loop nr => 1 <= nr
  | BufferTableInit loop nr =>
      has (info_flags info) (UBLK_F_SUPPORT_ZERO_COPY .| UBLK_F_AUTO_BUF_REG) = true ->
      info_queue_depth info <= nr
  | _ => True
  end.

Lemma loop_files_pos o : 1 <= loop_files o.
Proof. unfold loop_files. lia. Qed.

Lemma loop_options_fit sq0 cq0 o info : is_u 16 (info_queue_depth info) ->
  info_queue_depth info <= fst (loop_options sq0 cq0 o info) /\
  2 * info_queue_depth info <= snd (loop_options sq0 cq0 o info).
Proof.
  intros Hd. unfold loop_options, build. cbn [fst snd]. rewrite uwrap_id by range. lia.
Qed.

Lemma IoLoop_ctor_fits info q_id attach options files bufs cpuset :
  info_queue_depth info <= fst options -> 2 * info_queue_depth info <= snd options ->
  attach = (if q_id =? 0 then None else Some 0) -> 1 <= files ->
  (has (info_flags info) (UBLK_F_SUPPORT_ZERO_COPY .| UBLK_F_AUTO_BUF_REG) = true ->
   info_queue_depth info <= bufs) ->
  all_calls (loop_call_ok info) (IoLoop_ctor q_id options attach files bufs cpuset).
Proof.
  intros Hsq Hcq Ha Hf Hb. apply all_calls_let_value; [split; [cbn [loop_call_ok]; split_all; assumption|intros; exact I]|].
  intros [v|errno]; [|exact I].
  assert (forall (b : bool) c (f : reply c -> completion Z), loop_call_ok info c ->
    all_calls (loop_call_ok info) (if b then let_value (trigger c f) (fun r =>
      if r <? 0 then throw (SystemError (- r)) else just tt) else just tt)) as H.
  { intros b c f Hc. destruct b; [|exact I]. apply all_calls_let_value; [split; [exact Hc|intros; exact I]|].
    intros r. destruct (r <? 0); exact I. }
  apply all_calls_let_value; [apply (H _ (FdTableInit q_id files)); exact Hf|]. intros _.
  apply all_calls_let_value; [apply (H _ (BufferTableInit q_id bufs)); exact Hb|]. intros _. split; intros; exact I.
Qed.

Lemma build_loops_fit uninit cpuset0 sq0 cq0 control_fd dev_id o info n :
  is_u 16 (info_queue_depth info) ->
  forall q_id attach loops, 0 <= q_id -> attach = (if q_id =? 0 then None else Some 0) ->
  all_calls (loop_call_ok info)
    (build_loops uninit cpuset0 sq0 cq0 control_fd dev_id o info n q_id attach loops).
Proof.
  intros Hd. induction n as [|n IH]; intros q_id attach loops Hq Ha; [exact I|]. cbn [build_loops].
  destruct (loop_options_fit sq0 cq0 o info Hd) as [Hsq Hcq].
  apply all_calls_let_value.
  - unfold reify. apply all_calls_connect; [|intros []; exact I]. apply all_calls_let_value.
    + apply all_calls_co_await, get_queue_affinity_plain; intros; exact I.
    + intros cpuset. apply IoLoop_ctor_fits; auto using loop_files_pos.
      intros Hf. unfold loop_buffers. rewrite Hf. lia.
  - intros []; try exact I. apply IH; [lia|].
    destruct (Z.eqb_spec (q_id + 1) 0); [lia|reflexivity].
Qed.

(** ** Claims *)

(** C22: running a device leaks nothing: with any number of queues of either
    class, served concurrently under any schedule, whatever the driver, the
    runtime and the handlers do (a descriptor the system returns is not
    negative), when [run] completes - the queues stopped, a queue failed, the
    device could not be opened, a loop could not be set up - the device is
    closed, every loop that was started has been made to exit exactly once,
    and each queue has released what it had acquired. *)
Theorem daemon_run_resources {Q1 Q2} {IQ : DeviceQueue Q1} {BQ : DeviceQueue Q2}
    {IL : DeviceQueueLaws Q1} {BL : DeviceQueueLaws Q2} (K : env)
    uninit cpuset0 sq0 cq0 sched e control_fd dev_id o :
  let r := exec K (daemon_run uninit cpuset0 sq0 cq0 sched e control_fd dev_id o) [] in
  Forall (fun x => open_ok (projT1 x) (projT2 x) = true) (snd r) ->
  fst r <> Unfinished -> accepts own_ledger ∅ (snd r) = Some ∅.
Proof.
  intros r Hok Hr.
  destruct (obeys_exec _ K _ _ _ [] (daemon_run_obeys uninit cpuset0 sq0 cq0 sched e control_fd dev_id o))
    as (t & s & Ht & Ha & HQ). fold r in Ht, HQ. cbn [app] in Ht. rewrite Ht in Hok |- *.
  rewrite accepts_assuming in Ha by exact Hok.
  destruct (accepts own_ledger ∅ t) as [X|]; [|discriminate]. injection Ha as <-.
  f_equal. exact (HQ Hr).
Qed.

Lemma open_ok_history (h : history) :
  forallb (fun x => open_ok (projT1 x) (projT2 x)) h = true ->
  Forall (fun x => open_ok (projT1 x) (projT2 x) = true) h.
Proof. intros H. apply List.Forall_forall. apply List.forallb_forall, H. Qed.

Definition sample_options : Options :=
  {| runtime_options := None; nr_files := 0; nr_buffers := 0 |}.

Definition with_nr_queues (n : Z) (i : ublksrv_ctrl_dev_info) : ublksrv_ctrl_dev_info :=
  {| info_nr_hw_queues := n; info_queue_depth := info_queue_depth i; info_state := info_state i;
     info_io_desc_size := info_io_desc_size i; info_max_io_buf_bytes := info_max_io_buf_bytes i;
     info_dev_id := info_dev_id i; info_ublksrv_pid := info_ublksrv_pid i;
     info_pad1 := info_pad1 i; info_flags := info_flags i;
     info_ublksrv_flags := info_ublksrv_flags i; info_owner_uid := info_owner_uid i;
     info_owner_gid := info_owner_gid i; info_reserved1 := info_reserved1 i;
     info_reserved2 := info_reserved2 i |}.

(** Two batch queues, alternating. *)
Definition alternating : list nat := concat (repeat [0; 1]%nat 40).

Lemma daemon_run_resources_witness :
  let info := with_nr_queues 2 (dev_info_with UBLK_F_BATCH_IO) in
  let r := exec (fun _ c => ok_reply c)
    (daemon_run (IQ := sample_queue) (BQ := sample_batch_queue)
                dev_info_zero 0 128 256 alternating (Some info) 3 0 sample_options) [] in
  fst r = SetValue tt /\ accepts own_ledger ∅ (snd r) = Some ∅.
Proof.
  intros info r. assert (fst r = SetValue tt) as Hr by (vm_compute; reflexivity).
  split; [exact Hr|].
  refine (daemon_run_resources (IQ := sample_queue) (BQ := sample_batch_queue)
    (IL := IoQueue_laws 4096 true 3 sample_schedule)
    (BL := BatchIoQueue_laws (F := bool_futex) 4096 true sample_sqe 0 0 sample_turns)
    (fun _ c => ok_reply c) dev_info_zero 0 128 256 alternating (Some info) 3 0 sample_options _ _).
  - apply open_ok_history. vm_compute; reflexivity.
  - intros HU. change (fst r = Unfinished) in HU. congruence.
Defined.

(** The io_uring instances are large enough: every loop [run] creates for a
    device has room in its rings for a submission per tag and two completions,
    a slot for the device's descriptor, and, when the device registers
    buffers, a table with an entry per tag, so the last entry, which [run_dev]
    updates to find out, exists; and every loop but the first attaches to the
    first's workers. *)
Lemma loops_fit uninit cpuset0 sq0 cq0 control_fd dev_id o info n :
  is_u 16 (info_queue_depth info) ->
  all_calls (loop_call_ok info)
    (build_loops uninit cpuset0 sq0 cq0 control_fd dev_id o info n 0 None []) /\
  (has (info_flags info) (UBLK_F_SUPPORT_ZERO_COPY .| UBLK_F_AUTO_BUF_REG) = true ->
   1 <= info_queue_depth info ->
   all_calls (fun c => match c with
                       | BufferTableUpdate idx => 0 <= idx < loop_buffers o info
                       | _ => True
                       end) (check_buffer_table info)).
Proof.
  intros Hd. split; [apply build_loops_fit; [exact Hd|lia|reflexivity]|].
  intros Hf H1. unfold check_buffer_table, loop_buffers. rewrite Hf.
  apply all_calls_let_value; [|intros r; destruct (r <? 0); exact I].
  split; [lia|intros; exact I].
Qed.
