(* ===== verification/Task.v ===== *)
(** * Task: the environment of a task, and the public functions

    [src/include/ublk/query.hpp], [detail/task.hpp], and the public functions
    of [io.hpp], [daemon.hpp] and [control.hpp], which start a task on the
    scheduler and with the allocator of the receiver they are connected to.
    The one query with a run-time value, [fetch_dev_info], passes the
    information of the device to the tasks a task awaits. *)

From S2P Require Import Prelude Effects UblkCmd Path Sys Raw Control Daemon IoDev Shm DaemonRun.

#[local] Open Scope Z_scope.

Section Task.
(** The schedulers and the allocators, with [std::allocator<std::byte>]. *)
Context {Sched Alloc : Type} (std_allocator : Alloc).

(** What the environment of a receiver answers: the scheduler; the allocator,
    if it has one; and the device information, if it has the query, which may
    answer [nullptr]. *)
Record receiver_env := {
  env_start_scheduler : Sched;
  env_allocator : option Alloc;
  env_dev_info : option (option ublksrv_ctrl_dev_info);
}.

(** ** query.hpp *)

Definition fetch_dev_info (env : receiver_env) : option ublksrv_ctrl_dev_info :=
  match env_dev_info env with
  | Some info => info
  | None => None
  end.

(** ** task.hpp *)

(** The environment a task keeps. *)
Record TaskEnv := { task_info : option ublksrv_ctrl_dev_info }.

Definition TaskEnv_default : TaskEnv := {| task_info := None |}.

(** Constructed from the environment of the receiver when it has the query. *)
Definition TaskEnv_from (env : receiver_env) : TaskEnv :=
  match env_dev_info env with
  | Some info => {| task_info := info |}
  | None => TaskEnv_default
  end.

(** What the operations a task awaits see: the task's scheduler and allocator,
    and the query answered from what it keeps. *)
Definition task_env (sched : Sched) (alloc : Alloc) (t : TaskEnv) : receiver_env :=
  {| env_start_scheduler := sched; env_allocator := Some alloc; env_dev_info := Some (task_info t) |}.

Definition get_allocator_with_default (env : receiver_env) : Alloc :=
  match env_allocator env with
  | Some a => a
  | None => std_allocator
  end.

Definition task_invoke {A} (task_fn : Sched -> Alloc -> receiver_env -> A) (env : receiver_env) : A :=
  task_fn (env_start_scheduler env) (get_allocator_with_default env)
    (task_env (env_start_scheduler env) (get_allocator_with_default env) (TaskEnv_from env)).

(** [ex::write_env(ex::prop{fetch_dev_info, info})] *)
Definition write_dev_info (info : ublksrv_ctrl_dev_info) (env : receiver_env) : receiver_env :=
  {| env_start_scheduler := env_start_scheduler env; env_allocator := env_allocator env;
     env_dev_info := Some (Some info) |}.

(** ** The public functions *)

Context {Q1 Q2 : Type} {IQ : DeviceQueue Q1} {BQ : DeviceQueue Q2}.
Context (uninit : ublksrv_ctrl_dev_info) (cpuset0 sq0 cq0 : Z).

Definition setup (control_fd : Z) (info : ublksrv_ctrl_dev_info)
    : receiver_env -> task (bool * ublksrv_ctrl_dev_info) :=
  task_invoke (fun _ _ _ => daemon_setup uninit control_fd info).

Definition configure (control_fd dev_id : Z) (params : ublk_params)
    : receiver_env -> task (bool * ublk_params) :=
  task_invoke (fun _ _ env => daemon_configure uninit (fetch_dev_info env) control_fd dev_id params).

Definition start (control_fd dev_id daemon_pid : Z) : receiver_env -> task unit :=
  task_invoke (fun _ _ env => daemon_start uninit (fetch_dev_info env) control_fd dev_id daemon_pid).

(** [sched]: the interleaving of the queues, as in [daemon_run]. *)
Definition daemon_run_fn (sched : list nat) (control_fd dev_id : Z) (options : Options)
    : receiver_env -> task unit :=
  task_invoke (fun _ _ env =>
    daemon_run (IQ := IQ) (BQ := BQ) uninit cpuset0 sq0 cq0 sched (fetch_dev_info env) control_fd dev_id options).

Definition run_dev (ublkc_fd q_id : Z) (info : ublksrv_ctrl_dev_info) : receiver_env -> task unit :=
  task_invoke (fun _ _ _ => io_run_dev (IQ := IQ) (BQ := BQ) ublkc_fd q_id info).

Definition run_shm_server (sched : list nat) (control_fd dev_id : Z) (path : list Ascii.ascii) (flags : Z)
    : receiver_env -> task unit :=
  task_invoke (fun _ _ env => daemon_shm_server uninit (fetch_dev_info env) sched control_fd dev_id path flags).

Definition control_fn (control_fd dev_id : Z) (req : control_request) : receiver_env -> task unit :=
  task_invoke (fun _ _ env => public_control uninit (fetch_dev_info env) control_fd dev_id req).

(** ** What a task sees *)

(** A task sees the information its receiver has, and so do the tasks it
    awaits, at any depth; with [write_env] they see what it is given. *)
Lemma task_sees_info env : fetch_dev_info
  (task_env (env_start_scheduler env) (get_allocator_with_default env) (TaskEnv_from env)) = fetch_dev_info env.
Proof. unfold fetch_dev_info, TaskEnv_from, task_env. destruct (env_dev_info env); reflexivity. Qed.

Lemma task_sees_written info env : task_invoke (fun _ _ env => fetch_dev_info env) (write_dev_info info env) = Some info.
Proof. reflexivity. Qed.

Lemma task_invoke_nested {A} (f : Sched -> Alloc -> receiver_env -> A) env :
  task_invoke (fun _ _ env => task_invoke f env) env = task_invoke f env.
Proof.
  unfold task_invoke. cbn [env_start_scheduler env_allocator task_env get_allocator_with_default].
  unfold TaskEnv_from, task_env. destruct (env_dev_info env) as [[i|]|]; reflexivity.
Qed.

(** Without the query a public function looks the device up; with it, it is the
    request on that device. *)
Lemma control_fn_cached control_fd dev_id req info env :
  control_fn control_fd dev_id req (write_dev_info info env) = public_control uninit (Some info) control_fd dev_id req.
Proof. reflexivity. Qed.
End Task.
