(* ===== verification/CtlText.v ===== *)
(** * CtlText: what the command line tool prints and reads

    The text functions of [src/bin/ublkctl.cpp]: device states, flag names, CPU
    lists, the device summary, and the recognition of device directories. *)

From S2P Require Import Prelude UblkCmd Path Text Sys.
From Stdlib Require Import Ascii.
From Stdlib Require String.

Definition state_str (state : Z) : list ascii :=
  if state =? UBLK_S_DEV_DEAD then lit "DEAD"
  else if state =? UBLK_S_DEV_LIVE then lit "LIVE"
  else if state =? UBLK_S_DEV_QUIESCED then lit "QUIESCED"
  else if state =? UBLK_S_DEV_FAIL_IO then lit "FAIL_IO"
  else lit "UNKNOWN".

Record flag_entry := { flag : Z; name : list ascii; short_name : list ascii }.

Definition entry (f : Z) (n s : String.string) : flag_entry :=
  {| flag := f; name := lit n; short_name := lit s |}.

Definition FLAG_TABLE : list flag_entry :=
  [ entry UBLK_F_SUPPORT_ZERO_COPY "SUPPORT_ZERO_COPY" "ZERO_COPY";
    entry UBLK_F_URING_CMD_COMP_IN_TASK "URING_CMD_COMP_IN_TASK" "COMP_IN_TASK";
    entry UBLK_F_NEED_GET_DATA "NEED_GET_DATA" "GET_DATA";
    entry UBLK_F_USER_RECOVERY "USER_RECOVERY" "USER_RECOVERY";
    entry UBLK_F_USER_RECOVERY_REISSUE "USER_RECOVERY_REISSUE" "RECOVERY_REISSUE";
    entry UBLK_F_UNPRIVILEGED_DEV "UNPRIVILEGED_DEV" "UNPRIVILEGED_DEV";
    entry UBLK_F_CMD_IOCTL_ENCODE "CMD_IOCTL_ENCODE" "CMD_IOCTL_ENCODE";
    entry UBLK_F_USER_COPY "USER_COPY" "USER_COPY";
    entry UBLK_F_ZONED "ZONED" "ZONED";
    entry UBLK_F_USER_RECOVERY_FAIL_IO "USER_RECOVERY_FAIL_IO" "RECOVERY_FAIL_IO";
    entry UBLK_F_UPDATE_SIZE "UPDATE_SIZE" "UPDATE_SIZE";
    entry UBLK_F_AUTO_BUF_REG "AUTO_BUF_REG" "AUTO_ZC";
    entry UBLK_F_QUIESCE "QUIESCE" "QUIESCE";
    entry UBLK_F_PER_IO_DAEMON "PER_IO_DAEMON" "PER_IO_DAEMON";
    entry UBLK_F_BUF_REG_OFF_DAEMON "BUF_REG_OFF_DAEMON" "BUF_REG_OFF_DAEMON";
    entry UBLK_F_BATCH_IO "BATCH_IO" "BATCH_IO";
    entry UBLK_F_INTEGRITY "INTEGRITY" "INTEGRITY";
    entry UBLK_F_SAFE_STOP_DEV "SAFE_STOP_DEV" "SAFE_STOP_DEV";
    entry UBLK_F_NO_AUTO_PART_SCAN "NO_AUTO_PART_SCAN" "NO_AUTO_PART_SCAN";
    entry UBLK_F_SHMEM_ZC "SHMEM_ZC" "SHMEM_ZC" ].

Definition flags_str (flags : Z) : list ascii :=
  fold_left (fun s e =>
    if has flags (flag e) then (if negb (bool_decide (s = [])) then s ++ [space] else s) ++ name e
    else s) FLAG_TABLE [].

(** ** CPU lists *)

(** The [do]-[while] from inside a run of CPUs: the first index past it. *)
Fixpoint cpu_run_end (fuel : nat) (cpuset i : Z) : Z :=
  match fuel with
  | O => i
  | S fuel => if (i <? CPU_SETSIZE) && Z.testbit cpuset i then cpu_run_end fuel cpuset (i + 1) else i
  end.

Definition CPU_FUEL : nat := S (Z.to_nat CPU_SETSIZE).

Fixpoint cpu_loop (fuel : nat) (cpuset i : Z) (s : list ascii) : list ascii :=
  match fuel with
  | O => s
  | S fuel =>
      if i <? CPU_SETSIZE then
        if negb (Z.testbit cpuset i) then cpu_loop fuel cpuset (i + 1) s
        else
          let start := i in
          let i := cpu_run_end CPU_FUEL cpuset (i + 1) in
          let end_ := i - 1 in
          let s := if negb (bool_decide (s = [])) then s ++ [space] else s in
          let s := s ++ format_uint start in
          let s := if start <? end_ then (s ++ ["-"%char]) ++ format_uint end_ else s in
          cpu_loop fuel cpuset i s
      else s
  end.

Definition cpu_str (cpuset : Z) : list ascii := cpu_loop CPU_FUEL cpuset 0 [].

(** ** The device summary *)

Definition newline : ascii := ascii_of_N 10.
Definition tab : ascii := ascii_of_N 9.

Definition format_int (n : Z) : list ascii :=
  if n <? 0 then "-"%char :: format_uint (- n) else format_uint n.

(** The lines [dump_dev_info] prints.  The block size is a 32-bit shift, which
    C++ defines for the shifts below 32 a driver reports. *)
Definition dump_lines (dev_id : Z) (info : ublksrv_ctrl_dev_info) (params : ublk_params)
    : list (list ascii) :=
  let basic := params_basic params in
  let devt := params_devt params in
  [ lit "dev id " ++ format_uint dev_id ++ lit ": nr_hw_queues " ++
      format_uint (info_nr_hw_queues info) ++ lit " queue_depth " ++
      format_uint (info_queue_depth info) ++ lit " block size " ++
      format_uint (uwrap 32 (1 .<< basic_logical_bs_shift basic)) ++ lit " dev_capacity " ++
      format_uint (basic_dev_sectors basic) ++ [newline];
    [tab] ++ lit "max rq size " ++ format_uint (info_max_io_buf_bytes info) ++
      lit " daemon pid " ++ format_int (info_ublksrv_pid info) ++ lit " state " ++
      state_str (info_state info) ++ [newline];
    [tab] ++ lit "flags 0x" ++ format_hex (info_flags info) ++ lit " [" ++
      flags_str (info_flags info) ++ lit "]" ++ [newline];
    [tab] ++ lit "ublkc: " ++ format_uint (devt_char_major devt) ++ lit ":" ++
      format_uint (devt_char_minor devt) ++ lit " ublkb: " ++
      format_uint (devt_disk_major devt) ++ lit ":" ++ format_uint (devt_disk_minor devt) ++
      lit " owner: " ++ format_uint (info_owner_uid info) ++ lit ":" ++
      format_uint (info_owner_gid info) ++ [newline] ].

Definition affinity_line (q_id cpuset : Z) : list ascii :=
  [tab] ++ lit "queue " ++ format_uint q_id ++ lit ": affinity(" ++ cpu_str cpuset ++ lit ")" ++
  [newline].

Definition feature_lines (features : Z) : list (list ascii) :=
  (lit "ublk_drv features: 0x" ++ format_hex features ++ [newline]) ::
  omap (fun e => if has features (flag e)
                 then Some ([tab] ++ pad_right 20 (short_name e) ++ lit ": 0x" ++
                            format_hex (flag e) ++ [newline])
                 else None) FLAG_TABLE.

(** ** Device directories *)

(** The entries of [/sys/class/ublk-char] that are devices, with their ids. *)
Definition list_entry (name : list ascii) : option Z :=
  match strip_prefix (lit "ublkc") name with
  | Some digits => from_chars digits
  | None => None
  end.

(** ** What the text says *)

(** What the bits of the flag word mean: the bit number and the name of each
    [UBLK_F_] flag of the driver's interface but [UBLK_F_IO_DESC_SIZE], bit 20,
    which the tool does not know. *)
Definition driver_flags : list (Z * list ascii) :=
  [ (0, lit "SUPPORT_ZERO_COPY");
    (1, lit "URING_CMD_COMP_IN_TASK");
    (2, lit "NEED_GET_DATA");
    (3, lit "USER_RECOVERY");
    (4, lit "USER_RECOVERY_REISSUE");
    (5, lit "UNPRIVILEGED_DEV");
    (6, lit "CMD_IOCTL_ENCODE");
    (7, lit "USER_COPY");
    (8, lit "ZONED");
    (9, lit "USER_RECOVERY_FAIL_IO");
    (10, lit "UPDATE_SIZE");
    (11, lit "AUTO_BUF_REG");
    (12, lit "QUIESCE");
    (13, lit "PER_IO_DAEMON");
    (14, lit "BUF_REG_OFF_DAEMON");
    (15, lit "BATCH_IO");
    (16, lit "INTEGRITY");
    (17, lit "SAFE_STOP_DEV");
    (18, lit "NO_AUTO_PART_SCAN");
    (19, lit "SHMEM_ZC") ].

Definition flag_names (flags : Z) : list (list ascii) :=
  map snd (List.filter (fun p => Z.testbit flags (fst p)) driver_flags).

(** Reading a CPU list back: the first and last CPU of each run. *)
Definition read_run (w : list ascii) : option (Z * Z) :=
  match split_on "-"%char w with
  | [a] => x ← from_chars a; Some (x, x)
  | [a; b] => x ← from_chars a; y ← from_chars b; Some (x, y)
  | _ => None
  end.

Definition read_cpus (s : list ascii) : option (list (Z * Z)) := mapM read_run (words s).

(** The runs of consecutive CPUs from [i] on. *)
Fixpoint cpu_runs (fuel : nat) (cpuset i : Z) : list (Z * Z) :=
  match fuel with
  | O => []
  | S fuel =>
      if i <? CPU_SETSIZE then
        if negb (Z.testbit cpuset i) then cpu_runs fuel cpuset (i + 1)
        else
          let e := cpu_run_end CPU_FUEL cpuset (i + 1) in
          (i, e - 1) :: cpu_runs fuel cpuset e
      else []
  end.

Definition run_text (r : Z * Z) : list ascii :=
  if fst r <? snd r then format_uint (fst r) ++ "-"%char :: format_uint (snd r)
  else format_uint (fst r).

(** ** Lemmas *)

Lemma add_word_spec s w :
  (if negb (bool_decide (s = [])) then s ++ [space] else s) ++ w = add_word s w.
Proof. destruct s; [reflexivity|]. cbn. rewrite <- app_assoc. reflexivity. Qed.

Definition set_entries (flags : Z) (l : list flag_entry) : list flag_entry :=
  List.filter (fun e => has flags (flag e)) l.

Lemma flags_str_words flags : flags_str flags = foldl add_word [] (map name (set_entries flags FLAG_TABLE)).
Proof.
  assert (forall l s, fold_left (fun s e => if has flags (flag e)
      then (if negb (bool_decide (s = [])) then s ++ [space] else s) ++ name e else s) l s =
    foldl add_word s (map name (set_entries flags l))) as H; [|apply H].
  induction l as [|e l IH]; intros s; [reflexivity|].
  cbn [fold_left]. unfold set_entries in *. cbn [List.filter].
  destruct (has flags (flag e)); [|apply IH]. rewrite add_word_spec, IH. reflexivity.
Qed.

Lemma table_meaning : Forall2 (fun e p =>
  flag e = 1 .<< fst p /\ 0 <= fst p /\ name e = snd p /\ is_word (snd p)) FLAG_TABLE driver_flags.
Proof.
  unfold FLAG_TABLE, driver_flags.
  repeat (constructor; [split_all; [reflexivity|cbn; lia|reflexivity|split;
    [discriminate|apply (bool_decide_unpack _); vm_compute; exact I]]|]). constructor.
Qed.

Lemma set_entries_names flags l ps :
  Forall2 (fun e p => flag e = 1 .<< fst p /\ 0 <= fst p /\ name e = snd p /\ is_word (snd p)) l ps ->
  map name (set_entries flags l) = map snd (List.filter (fun p => Z.testbit flags (fst p)) ps).
Proof.
  induction 1 as [|e p l ps (Hf & Hk & Hn & _) _ IH]; [reflexivity|].
  unfold set_entries in *. cbn [List.filter]. rewrite Hf, has_bit by exact Hk.
  destruct (Z.testbit flags (fst p)); [|exact IH]. cbn [map]. rewrite Hn, IH. reflexivity.
Qed.

Lemma flag_names_words flags : Forall is_word (flag_names flags).
Proof.
  apply Forall_map, Forall_forall. intros p Hp. apply list_elem_of_In, List.filter_In in Hp as [Hp _].
  apply list_elem_of_In in Hp. pose proof table_meaning as H.
  apply list_elem_of_lookup in Hp as [i Hi]. destruct (Forall2_lookup_r _ _ _ _ _ H Hi) as (e & _ & He).
  apply He.
Qed.

Lemma flag_name_listed flags k nm :
  (k, nm) ∈ driver_flags -> nm ∈ flag_names flags <-> Z.testbit flags k = true.
Proof.
  intros Hin. unfold flag_names. rewrite list_elem_of_fmap. split.
  - intros ([k' nm'] & Hnm & Hp). apply list_elem_of_In, List.filter_In in Hp as [Hp Hb].
    cbn [fst snd] in *. subst nm'. apply list_elem_of_In in Hp. replace k with k'; [exact Hb|].
    assert (NoDup (map snd driver_flags)) as Hnd by (apply (bool_decide_unpack _); vm_compute; exact I).
    apply list_elem_of_lookup in Hin as [i Hi], Hp as [j Hj].
    assert (i = j) as ->; [|congruence].
    eapply (NoDup_lookup _ _ _ nm Hnd); rewrite list_lookup_fmap; [rewrite Hi|rewrite Hj]; reflexivity.
  - intros Hb. exists (k, nm). split; [reflexivity|]. apply list_elem_of_In, List.filter_In.
    split; [apply list_elem_of_In, Hin|exact Hb].
Qed.

Lemma cpu_loop_runs cpuset fuel : forall i s,
  cpu_loop fuel cpuset i s = foldl add_word s (map run_text (cpu_runs fuel cpuset i)).
Proof.
  induction fuel as [|fuel IH]; intros i s; [reflexivity|]. cbn [cpu_loop cpu_runs].
  destruct (i <? CPU_SETSIZE); [|reflexivity]. destruct (Z.testbit cpuset i); cbn [negb]; [|apply IH].
  cbv zeta. set (e := cpu_run_end CPU_FUEL cpuset (i + 1)). rewrite IH. cbn [map foldl]. f_equal.
  rewrite <- add_word_spec. unfold run_text. cbn [fst snd].
  destruct (i <? e - 1); [|reflexivity]. rewrite <- !app_assoc. reflexivity.
Qed.

Lemma cpu_run_end_spec cpuset fuel : forall i,
  i <= CPU_SETSIZE -> CPU_SETSIZE - i < Z.of_nat fuel ->
  let e := cpu_run_end fuel cpuset i in
  i <= e <= CPU_SETSIZE /\ (forall j, i <= j < e -> Z.testbit cpuset j = true) /\
  (e < CPU_SETSIZE -> Z.testbit cpuset e = false).
Proof.
  induction fuel as [|fuel IH]; intros i Hi Hf; [lia|]. cbn [cpu_run_end].
  destruct (Z.ltb_spec i CPU_SETSIZE); cbn [andb]; [|split_all; intros; lia].
  destruct (Z.testbit cpuset i) eqn:E; [|split_all; intros; auto; lia].
  destruct (IH (i + 1) ltac:(lia) ltac:(lia)) as (H1 & H2 & H3). split_all; [lia..| |exact H3].
  intros j Hj. destruct (Z.eq_dec j i) as [->|]; [exact E|apply H2; lia].
Qed.

(** Increasing, maximal runs of CPUs from [i] on. *)
Fixpoint runs_from (i : Z) (rs : list (Z * Z)) : Prop :=
  match rs with
  | [] => True
  | (a, b) :: rs => i <= a <= b /\ b < CPU_SETSIZE /\ runs_from (b + 2) rs
  end.

Lemma cpu_runs_spec cpuset fuel : forall i,
  0 <= i <= CPU_SETSIZE -> CPU_SETSIZE - i < Z.of_nat fuel ->
  runs_from i (cpu_runs fuel cpuset i) /\
  (i < CPU_SETSIZE -> Z.testbit cpuset i = false -> runs_from (i + 1) (cpu_runs fuel cpuset i)) /\
  forall c, i <= c < CPU_SETSIZE ->
    (Z.testbit cpuset c = true <-> exists a b, (a, b) ∈ cpu_runs fuel cpuset i /\ a <= c <= b).
Proof.
  induction fuel as [|fuel IH]; intros i Hi Hf; [lia|]. cbn [cpu_runs].
  destruct (Z.ltb_spec i CPU_SETSIZE); [|split_all; [exact I|intros; lia|intros; lia]].
  destruct (Z.testbit cpuset i) eqn:E; cbn [negb].
  - pose proof (cpu_run_end_spec cpuset CPU_FUEL (i + 1) ltac:(lia) ltac:(unfold CPU_FUEL; lia))
      as (H1 & H2 & H3). set (e := cpu_run_end CPU_FUEL cpuset (i + 1)) in *.
    destruct (IH e ltac:(lia) ltac:(lia)) as (R1 & R2 & R3).
    assert (runs_from (e + 1) (cpu_runs fuel cpuset e)) as Hnext.
    { destruct (Z.lt_ge_cases e CPU_SETSIZE); [apply R2; auto|].
      destruct fuel as [|fuel']; [exact I|]. cbn [cpu_runs].
      destruct (Z.ltb_spec e CPU_SETSIZE); [lia|exact I]. }
    split_all; [|discriminate|].
    + cbn [runs_from]. split; [lia|]. split; [lia|].
      replace (e - 1 + 2) with (e + 1) by lia. exact Hnext.
    + intros c Hc. destruct (Z.lt_ge_cases c e) as [Hlt|Hge].
      * split; [|intros _; destruct (Z.eq_dec c i) as [->|]; [exact E|apply H2; lia]].
        intros _. exists i, (e - 1). split; [left|lia].
      * rewrite (R3 c ltac:(lia)). split.
        -- intros (a & b & Hin & Hab). exists a, b. split; [right; exact Hin|exact Hab].
        -- intros (a & b & Hin & Hab). apply elem_of_cons in Hin as [[= -> ->]|Hin]; [lia|eauto].
  - destruct (IH (i + 1) ltac:(lia) ltac:(lia)) as (R1 & R2 & R3). split_all.
    + clear -R1. destruct (cpu_runs fuel cpuset (i + 1)) as [|[a b] rs]; [exact I|].
      cbn [runs_from] in *. intuition lia.
    + intros _ _. exact R1.
    + intros c Hc. destruct (Z.eq_dec c i) as [->|]; [|apply R3; lia].
      split; [congruence|]. intros (a & b & Hin & Hab). exfalso.
      assert (forall rs j, runs_from j rs -> forall a b, (a, b) ∈ rs -> j <= a) as Hlow.
      { clear. induction rs as [|[a b] rs IH]; intros j Hj a' b' Hin; [inversion Hin|].
        cbn [runs_from] in Hj. apply elem_of_cons in Hin as [[= -> ->]|Hin]; [lia|].
        destruct Hj as (Hj1 & Hj2 & Hj3). specialize (IH _ Hj3 _ _ Hin). lia. }
      specialize (Hlow _ _ R1 _ _ Hin). lia.
Qed.

Lemma run_text_word a b : 0 <= a <= b -> b < CPU_SETSIZE -> is_word (run_text (a, b)).
Proof.
  intros Ha Hb. unfold run_text. cbn [fst snd].
  pose proof (format_uint_no_char space a ltac:(lia) eq_refl) as H1.
  pose proof (format_uint_no_char space b ltac:(lia) eq_refl) as H2.
  pose proof (format_uint_nonempty a) as H3.
  destruct (a <? b); [|split; assumption]. split.
  - destruct (format_uint a); [congruence|discriminate].
  - intros H. apply elem_of_app in H as [H|H]; [auto|].
    apply elem_of_cons in H as [H|H]; [discriminate|auto].
Qed.

Lemma read_run_text a b : 0 <= a <= b -> b < CPU_SETSIZE -> read_run (run_text (a, b)) = Some (a, b).
Proof.
  intros Ha Hb. unfold read_run, run_text. cbn [fst snd]. unfold CPU_SETSIZE in *.
  pose proof (format_uint_no_char "-"%char a ltac:(lia) eq_refl) as H1.
  pose proof (format_uint_no_char "-"%char b ltac:(lia) eq_refl) as H2.
  destruct (Z.ltb_spec a b).
  - rewrite split_on_app, split_on_none by assumption. rewrite !from_chars_format by range. reflexivity.
  - rewrite split_on_none by assumption. rewrite from_chars_format by range. cbn. f_equal. f_equal. lia.
Qed.

Lemma read_runs i rs : 0 <= i -> runs_from i rs ->
  Forall is_word (map run_text rs) /\ mapM read_run (map run_text rs) = Some rs.
Proof.
  revert i; induction rs as [|[a b] rs IH]; intros i Hi Hrs; [split; [constructor|reflexivity]|].
  cbn [runs_from] in Hrs. destruct Hrs as (H1 & H2 & H3).
  destruct (IH (b + 2) ltac:(lia) H3) as [Hw Hm]. cbn [map mapM]. split.
  - constructor; [apply run_text_word; lia|exact Hw].
  - rewrite read_run_text by lia. cbn. rewrite Hm. reflexivity.
Qed.

Lemma char_digit_Some c d : char_digit c = Some d -> is_digit d /\ c = digit_char d.
Proof.
  unfold char_digit, digit_char, is_digit.
  destruct ((0 <=? _) && _) eqn:E; [|discriminate]. intros [= <-].
  apply andb_true_iff in E as [H1 H2]. split; [lia|].
  rewrite <- (ascii_N_embedding c) at 1. f_equal. lia.
Qed.

Lemma chars_digits_Some cs ds :
  chars_digits cs = Some ds <-> Forall is_digit ds /\ cs = map digit_char ds.
Proof.
  split; [|intros [H ->]; apply chars_digits_map, H].
  revert ds; induction cs as [|c cs IH]; intros ds; cbn [chars_digits].
  - intros [= <-]. split; [constructor|reflexivity].
  - destruct (char_digit c) as [d|] eqn:E; [|discriminate].
    destruct (chars_digits cs) as [ds'|]; [|discriminate]. intros [= <-].
    apply char_digit_Some in E as [Hd ->]. destruct (IH ds' eq_refl) as [Hds ->].
    split; [constructor; assumption|reflexivity].
Qed.

Lemma from_chars_Some cs n :
  from_chars cs = Some n <->
  exists ds, ds <> [] /\ Forall is_digit ds /\ cs = map digit_char ds /\ digits_value ds = n /\ n < 2 ^ 64.
Proof.
  unfold from_chars. split.
  - destruct cs as [|c cs']; [discriminate|]. destruct (chars_digits (c :: cs')) as [ds|] eqn:E; [|discriminate].
    destruct (Z.ltb_spec (digits_value ds) (2 ^ 64)); [|discriminate]. intros [= <-].
    apply chars_digits_Some in E as [Hds Hc]. exists ds. split_all; auto. intros ->. discriminate.
  - intros (ds & Hne & Hds & -> & <- & Hlt).
    pose proof (chars_digits_map ds Hds) as H.
    destruct ds as [|d ds]; [congruence|]. cbn [map] in *. rewrite H.
    destruct (Z.ltb_spec (digits_value (d :: ds)) (2 ^ 64)); [reflexivity|lia].
Qed.

(** ** Theorems *)

(** C38: the flag list names exactly the flags that are set: its words are, in
    the order of the bits and without repetition, the names the driver's
    interface gives to the bits that are set among the twenty it knows, so that
    the name of a flag is shown if and only if its bit is set, and two flag
    words are shown alike only if they agree on those bits. *)
Theorem flags_str_names flags :
  words (flags_str flags) = flag_names flags /\
  (forall k nm, (k, nm) ∈ driver_flags -> nm ∈ words (flags_str flags) <-> Z.testbit flags k = true) /\
  (forall flags', flags_str flags' = flags_str flags ->
     forall k, 0 <= k < 20 -> Z.testbit flags' k = Z.testbit flags k).
Proof.
  assert (forall f, words (flags_str f) = flag_names f) as Hw.
  { intros f. rewrite flags_str_words, (set_entries_names f _ _ table_meaning). apply words_fold.
    apply flag_names_words. }
  split_all; [apply Hw|intros k nm Hin; rewrite Hw; apply flag_name_listed, Hin|].
  intros f' Heq k Hk. apply (f_equal words) in Heq. rewrite !Hw in Heq.
  assert (exists nm, (k, nm) ∈ driver_flags) as [nm Hin].
  { assert (is_Some (driver_flags !! Z.to_nat k)) as [[k' nm] Hl]
      by (apply lookup_lt_is_Some; cbn [length driver_flags]; lia).
    exists nm. replace k with k'; [eapply list_elem_of_lookup_2, Hl|].
    assert (imap (fun i _ => Z.of_nat i) driver_flags = map fst driver_flags) as Hi by reflexivity.
    apply (f_equal (lookup (Z.to_nat k))) in Hi. rewrite list_lookup_imap, list_lookup_fmap, Hl in Hi.
    cbn in Hi. injection Hi as Hi. lia. }
  apply Bool.eq_iff_eq_true. rewrite <- !(flag_name_listed _ k nm Hin), Heq. reflexivity.
Qed.

Lemma flags_str_names_witness :
  flags_str (UBLK_F_ZONED .| UBLK_F_USER_RECOVERY) = lit "USER_RECOVERY ZONED" /\
  (lit "USER_COPY" ∈ words (flags_str UBLK_F_USER_COPY)).
Proof.
  split; [reflexivity|].
  apply (proj2 (proj1 (proj2 (flags_str_names UBLK_F_USER_COPY)) 7 (lit "USER_COPY")
    ltac:(apply (bool_decide_unpack _); vm_compute; exact I))). reflexivity.
Defined.

(** C39: the CPU list of a queue denotes its affinity mask: read back, it is a
    list of increasing runs, none adjacent to the next, and a CPU is in the mask
    exactly when it is in one of them. *)
Theorem cpu_str_decodes cpuset :
  exists rs, read_cpus (cpu_str cpuset) = Some rs /\ runs_from 0 rs /\
    forall c, 0 <= c < CPU_SETSIZE ->
      (Z.testbit cpuset c = true <-> exists a b, (a, b) ∈ rs /\ a <= c <= b).
Proof.
  destruct (cpu_runs_spec cpuset CPU_FUEL 0) as (H1 & _ & H3);
    [unfold CPU_SETSIZE; lia|unfold CPU_FUEL; lia|].
  destruct (read_runs 0 _ ltac:(lia) H1) as [Hw Hm].
  exists (cpu_runs CPU_FUEL cpuset 0). split; [|split; [exact H1|exact H3]].
  unfold read_cpus, cpu_str. rewrite cpu_loop_runs, words_fold by exact Hw. exact Hm.
Qed.

(** [list] recognises exactly the device directories: the names that are
    [ublkc] followed by a decimal number of 64 bits and nothing else, whose
    value is the id; and the name under which the library opens device [id] is
    recognised as [id]. *)
Lemma list_entry_names nm id :
  (list_entry nm = Some id <->
   exists ds, ds <> [] /\ Forall is_digit ds /\ nm = lit "ublkc" ++ map digit_char ds /\
     digits_value ds = id /\ id < 2 ^ 64) /\
  (is_u 32 id -> dev_path id = lit "/dev/" ++ nm -> list_entry nm = Some id).
Proof.
  unfold list_entry. split.
  - destruct (strip_prefix (lit "ublkc") nm) as [s|] eqn:E.
    + apply strip_prefix_Some in E as ->. rewrite from_chars_Some. split.
      * intros (ds & H1 & H2 & -> & H3). exists ds. tauto.
      * intros (ds & H1 & H2 & Heq & H3). apply app_inv_head in Heq. exists ds. tauto.
    + split; [discriminate|]. intros (ds & _ & _ & -> & _). rewrite strip_prefix_app in E. discriminate.
  - intros Hid Hp. change (dev_path id) with (lit "/dev/" ++ (lit "ublkc" ++ format_uint id)) in Hp.
    apply app_inv_head in Hp as <-. rewrite strip_prefix_app. apply from_chars_format. range.
Qed.

Lemma list_entry_names_witness :
  list_entry (lit "ublkc17") = Some 17 /\ list_entry (lit "ublkc17x") = None /\
  list_entry (lit "ublkb17") = None.
Proof.
  split; [|split; reflexivity].
  apply (proj2 (list_entry_names (lit "ublkc17") 17)); [split; vm_compute; congruence|].
  vm_compute. reflexivity.
Defined.
