(* ===== verification/Ctl.v ===== *)
(** * Ctl: the command line tool

    [src/bin/ublkctl.cpp]: a subcommand of the command line selects a command,
    the command issues control requests and prints what it learns, and [main]
    turns its outcome into the exit code.  The command line parser (CLI11, a
    third-party library) is seen through what it has parsed. *)

From S2P Require Import Prelude Effects Protocol UblkCmd Utils Path Text Sys Ledger Raw Control IoDev Daemon DaemonRun CtlText.
From Stdlib Require Import Ascii.
From Stdlib Require String.

#[local] Open Scope Z_scope.

Inductive Cmd :=
  | AddCmd (dev_id nr_queues queue_depth max_io_buf_bytes flags : Z)
  | DelCmd (dev_id : Z) (async : bool)
  | StartCmd (dev_id daemon_pid : Z)
  | StopCmd (dev_id : Z) (try_stop : bool)
  | ListCmd
  | GetCmd (dev_id : Z)
  | StartRecoveryCmd (dev_id : Z)
  | RecoverCmd (dev_id daemon_pid : Z)
  | FeaturesCmd
  | QuiesceCmd (dev_id timeout_ms : Z).

(** ** The command line *)

(** A command line CLI11 has accepted: the subcommands (one at least), the
    value stored by each option that was given, the flags that were given.  The
    parser exits when a required option is missing, so the [0] below is not
    used. *)
Record Parsed := {
  subcommands : list String.string;
  option_value : String.string -> option Z;
  given : list String.string;
}.

Definition required (p : Parsed) (o : String.string) : Z := default 0 (option_value p o).

Definition add_flags : list (String.string * Z) :=
  [ ("--zerocopy", UBLK_F_SUPPORT_ZERO_COPY); ("--batch", UBLK_F_BATCH_IO);
    ("--user-recovery", UBLK_F_USER_RECOVERY);
    ("--user-recovery-fail-io", UBLK_F_USER_RECOVERY_FAIL_IO);
    ("--user-recovery-reissue", UBLK_F_USER_RECOVERY_REISSUE);
    ("--unprivileged", UBLK_F_UNPRIVILEGED_DEV); ("--usercopy", UBLK_F_USER_COPY) ]%string.

(** The callbacks of the flags of [add]. *)
Definition flags_given (p : Parsed) : Z :=
  fold_left (fun flags e => if bool_decide (fst e ∈ given p) then flags .| snd e else flags) add_flags 0.

Definition parse_args (p : Parsed) : Cmd + exn :=
  let sub s := bool_decide (s ∈ subcommands p) in
  if sub "add"%string then
    inl (AddCmd (default (uwrap 32 (-1)) (option_value p "-n")) (default 1 (option_value p "-q"))
           (default 32 (option_value p "-d")) (default 0 (option_value p "-b")) (flags_given p))
  else if sub "del"%string then
    inl (DelCmd (required p "-n") (bool_decide ("--async"%string ∈ given p)))
  else if sub "start"%string then inl (StartCmd (required p "-n") (required p "--pid"))
  else if sub "stop"%string then
    inl (StopCmd (required p "-n") (bool_decide ("--try"%string ∈ given p)))
  else if sub "list"%string then inl ListCmd
  else if sub "get"%string then inl (GetCmd (required p "-n"))
  else if sub "start-recovery"%string then inl (StartRecoveryCmd (required p "-n"))
  else if sub "recover"%string then inl (RecoverCmd (required p "-n") (required p "--pid"))
  else if sub "features"%string then inl FeaturesCmd
  else if sub "quiesce"%string then inl (QuiesceCmd (required p "-n") (required p "timeout_ms"))
  else inr (RuntimeError "unhandled subcommand").

(** ** Commands *)

Definition print (s : list ascii) : task unit := perform (Print s) id.

Fixpoint print_all (l : list (list ascii)) : task unit :=
  match l with
  | [] => just tt
  | s :: l => let_value (print s) (fun _ => print_all l)
  end.

Section Commands.
(** The values of uninitialised locals. *)
Context (uninit : ublksrv_ctrl_dev_info) (cpuset0 : Z).

Definition dump_dev_info (dev_id : Z) (info : ublksrv_ctrl_dev_info) (params : ublk_params) : task unit :=
  print_all (dump_lines dev_id info params).

(** The loop of [dump_queue_affinity], from queue [q_id] on, [n] of them left. *)
Fixpoint dump_queues (ctrl_fd : Z) (info : ublksrv_ctrl_dev_info) (n : nat) (q_id : Z) : task unit :=
  match n with
  | O => just tt
  | S n =>
      let! cpuset := control_get_queue_affinity uninit None ctrl_fd (info_dev_id info) q_id cpuset0 in
      let_value (print (affinity_line q_id cpuset)) (fun _ => dump_queues ctrl_fd info n (q_id + 1))
  end.

Definition dump_queue_affinity (ctrl_fd : Z) (info : ublksrv_ctrl_dev_info) : task unit :=
  dump_queues ctrl_fd info (Z.to_nat (info_nr_hw_queues info)) 0.

Definition params_request : ublk_params := set_params_len (sizeof ublk_params_layout) params_zero.

(** What [get] and each entry of [list] show. *)
Definition show_device (ctrl_fd dev_id : Z) : task unit :=
  let! info := control_get_dev_info ctrl_fd dev_id dev_info_zero in
  let! params := control_get_params uninit None ctrl_fd dev_id params_request in
  let_value (dump_dev_info dev_id info params) (fun _ =>
  co_await (dump_queue_affinity ctrl_fd info)).

Fixpoint list_devices (ctrl_fd : Z) (names : list (list ascii)) : task unit :=
  match names with
  | [] => just tt
  | name :: names =>
      match list_entry name with
      | None => list_devices ctrl_fd names
      | Some id => let_value (show_device ctrl_fd (uwrap 32 id)) (fun _ => list_devices ctrl_fd names)
      end
  end.

Definition add_info (dev_id nr_queues queue_depth max_io_buf_bytes flags : Z) : ublksrv_ctrl_dev_info :=
  {| info_nr_hw_queues := nr_queues; info_queue_depth := queue_depth; info_state := 0;
     info_io_desc_size := 0; info_max_io_buf_bytes := max_io_buf_bytes; info_dev_id := dev_id;
     info_ublksrv_pid := 0; info_pad1 := 0; info_flags := flags; info_ublksrv_flags := 0;
     info_owner_uid := 0; info_owner_gid := 0; info_reserved1 := 0; info_reserved2 := 0 |}.

Definition run_cmd (ctrl_fd : Z) (cmd : Cmd) : task unit :=
  match cmd with
  | AddCmd dev_id nr_queues queue_depth max_io_buf_bytes flags =>
      let! info := control_add_dev ctrl_fd
                     (add_info dev_id nr_queues queue_depth max_io_buf_bytes flags) in
      let! params := control_get_params uninit None ctrl_fd (info_dev_id info) params_request in
      let_value (dump_dev_info (info_dev_id info) info params) (fun _ =>
      co_await (dump_queue_affinity ctrl_fd info))
  | DelCmd dev_id async =>
      if async then co_await (control_del_dev_async uninit None ctrl_fd dev_id)
      else co_await (control_del_dev uninit None ctrl_fd dev_id)
  | StartCmd dev_id daemon_pid =>
      co_await (control_start_dev uninit None ctrl_fd dev_id daemon_pid)
  | StopCmd dev_id try_stop =>
      if try_stop then co_await (control_try_stop_dev uninit None ctrl_fd dev_id)
      else co_await (control_stop_dev uninit None ctrl_fd dev_id)
  | ListCmd =>
      let_value (trigger (ReadDir (lit "/sys/class/ublk-char")) SetValue
                 : task (list (list ascii) * option Z)) (fun '(names, e) =>
      let_value (list_devices ctrl_fd names) (fun _ =>
      match e with Some errno => throw (SystemError errno) | None => just tt end))
  | GetCmd dev_id => show_device ctrl_fd dev_id
  | StartRecoveryCmd dev_id => co_await (control_start_user_recovery uninit None ctrl_fd dev_id)
  | RecoverCmd dev_id daemon_pid =>
      co_await (control_end_user_recovery uninit None ctrl_fd dev_id daemon_pid)
  | FeaturesCmd =>
      let! features := control_get_features ctrl_fd 0 in
      print_all (feature_lines features)
  | QuiesceCmd dev_id timeout_ms =>
      co_await (control_quiesce_dev uninit None ctrl_fd dev_id timeout_ms)
  end.

(** ** main *)

(** [sync_wait]: an exception is rethrown; a stop is an empty result. *)
Definition sync_wait {A} (p : task A) : task unit :=
  connect p (fun c => match c with
                      | SetValue _ | SetStopped => just tt
                      | SetError x => throw (as_except_ptr x)
                      | Unfinished => Done Unfinished
                      end).

(** The handlers of [main]: the exit code. *)
Definition catch_exit (p : task unit) : task Z :=
  connect p (fun c => match c with
                      | SetValue _ | SetStopped => just 0
                      | SetError x =>
                          let x := as_except_ptr x in
                          let_value (perform (PrintError x) id) (fun _ =>
                            just (match x with SystemError code => code | _ => 1 end))
                      | Unfinished => Done Unfinished
                      end).

(** [sq0], [cq0]: condy's default ring sizes. *)
Definition ctl_main (sq0 cq0 : Z) (p : Parsed) : task Z :=
  catch_exit
    match parse_args p with
    | inr x => throw x
    | inl cmd =>
        let_value (trigger (Open (lit "/dev/ublk-control")) SetValue : task sys_res) (fun r =>
        match r with
        | SysErr errno => throw (SystemError errno)
        | SysOk ctrl_fd =>
            defer
              (let_value (IoLoop_ctor 0 (sq0, cq0) None 0 0 0) (fun _ =>
               defer (sync_wait (run_cmd ctrl_fd cmd)) (IoLoop_dtor 0)))
              (perform (Close ctrl_fd) id)
        end)
    end.
End Commands.

(** ** The calls of a command *)

(** The request of a command that is a single control request. *)
Definition cmd_request (cmd : Cmd) : option (Z * control_request) :=
  match cmd with
  | DelCmd dev_id async => Some (dev_id, if async then ReqDelDevAsync else ReqDelDev)
  | StartCmd dev_id pid => Some (dev_id, ReqStartDev pid)
  | StopCmd dev_id try_stop => Some (dev_id, if try_stop then ReqTryStopDev else ReqStopDev)
  | StartRecoveryCmd dev_id => Some (dev_id, ReqStartUserRecovery)
  | RecoverCmd dev_id pid => Some (dev_id, ReqEndUserRecovery pid)
  | QuiesceCmd dev_id timeout_ms => Some (dev_id, ReqQuiesceDev timeout_ms)
  | _ => None
  end.

Lemma run_cmd_request uninit cpuset0 fd cmd dev_id req :
  cmd_request cmd = Some (dev_id, req) ->
  run_cmd uninit cpuset0 fd cmd = co_await (public_control uninit None fd dev_id req) /\
  exists op data0, path_request req = Some (op, data0) /\
    op ∈ [UBLK_U_CMD_DEL_DEV_ASYNC; UBLK_U_CMD_DEL_DEV; UBLK_U_CMD_START_DEV; UBLK_U_CMD_TRY_STOP_DEV;
          UBLK_U_CMD_STOP_DEV; UBLK_U_CMD_START_USER_RECOVERY; UBLK_U_CMD_END_USER_RECOVERY;
          UBLK_U_CMD_QUIESCE_DEV].
Proof.
  destruct cmd; try discriminate; intros [= <- <-]; try destruct async; try destruct try_stop;
    (split; [reflexivity|]); eexists _, _; (split; [reflexivity|]);
    apply (bool_decide_unpack _); vm_compute; exact I.
Qed.

Section CommandCalls.
Context (uninit : ublksrv_ctrl_dev_info) (cpuset0 fd : Z) (P : call -> Prop).
Hypothesis HP : forall op cmd,
  op <> UBLK_U_CMD_REG_BUF -> op <> UBLK_U_CMD_UNREG_BUF -> P (UringCtrl fd op cmd).
Hypothesis Htimeout : forall tv_sec tv_nsec, P (AsyncTimeout tv_sec tv_nsec).
Hypothesis Hprint : forall s, P (Print s).
Hypothesis Hdir : forall path, P (ReadDir path).

Lemma print_calls s : all_calls P (print s).
Proof. split; [apply Hprint|intros; exact I]. Qed.

Lemma print_all_calls l : all_calls P (print_all l).
Proof.
  induction l as [|s l IH]; [exact I|].
  apply all_calls_let_value; [apply print_calls|intros; exact IH].
Qed.

Lemma dump_queue_affinity_calls info : all_calls P (dump_queue_affinity uninit cpuset0 fd info).
Proof.
  unfold dump_queue_affinity. generalize (Z.to_nat (info_nr_hw_queues info)) at 1, 0.
  induction n as [|n IH]; intros q_id; [exact I|]. cbn [dump_queues].
  apply all_calls_let_value; [apply all_calls_co_await, get_queue_affinity_plain; assumption|].
  intros cpuset. apply all_calls_let_value; [apply print_calls|intros; apply IH].
Qed.

Lemma show_device_calls dev_id : all_calls P (show_device uninit cpuset0 fd dev_id).
Proof.
  unfold show_device.
  apply all_calls_let_value; [apply all_calls_co_await, get_dev_info_plain; assumption|]. intros info.
  apply all_calls_let_value; [apply all_calls_co_await, get_params_plain; assumption|]. intros params.
  apply all_calls_let_value; [apply print_all_calls|]. intros _.
  apply all_calls_co_await, dump_queue_affinity_calls.
Qed.

Lemma list_devices_calls names : all_calls P (list_devices uninit cpuset0 fd names).
Proof.
  induction names as [|nm names IH]; [exact I|]. cbn [list_devices].
  destruct (list_entry nm); [|exact IH].
  apply all_calls_let_value; [apply show_device_calls|intros; exact IH].
Qed.

Lemma run_cmd_calls cmd : all_calls P (run_cmd uninit cpuset0 fd cmd).
Proof.
  destruct (cmd_request cmd) as [[dev_id req]|] eqn:E.
  - destruct (run_cmd_request uninit cpuset0 fd cmd dev_id req E) as (-> & op & data0 & Hreq & Hop).
    apply all_calls_co_await, (path_request_plain P fd HP Htimeout _ _ _ _ op data0); [exact Hreq|].
    intros ->. revert Hop. apply (bool_decide_unpack _). vm_compute. exact I.
  - destruct cmd; try discriminate; cbn [run_cmd].
    + apply all_calls_let_value; [apply all_calls_co_await, add_dev_plain, HP|]. intros info.
      apply all_calls_let_value; [apply all_calls_co_await, get_params_plain; assumption|].
      intros params. apply all_calls_let_value; [apply print_all_calls|]. intros _.
      apply all_calls_co_await, dump_queue_affinity_calls.
    + apply all_calls_let_value; [split; [apply Hdir|intros; exact I]|]. intros [names e].
      apply all_calls_let_value; [apply list_devices_calls|]. intros _. destruct e; exact I.
    + apply show_device_calls.
    + apply all_calls_let_value; [apply all_calls_co_await, get_features_plain, HP|].
      intros features. apply print_all_calls.
Qed.
End CommandCalls.

Lemma print_all_finishes l : finishes (print_all l).
Proof.
  induction l as [|s l IH]; [apply finishes_done; discriminate|].
  apply finishes_let_value; [apply finishes_trigger; discriminate|intros; exact IH].
Qed.

Lemma dump_queue_affinity_finishes uninit cpuset0 fd info :
  finishes (dump_queue_affinity uninit cpuset0 fd info).
Proof.
  unfold dump_queue_affinity. generalize (Z.to_nat (info_nr_hw_queues info)) at 1, 0.
  induction n as [|n IH]; intros q_id; [apply finishes_done; discriminate|]. cbn [dump_queues].
  apply finishes_let_value; [apply finishes_co_await, get_queue_affinity_finishes|]. intros cpuset.
  apply finishes_let_value; [apply finishes_trigger; discriminate|intros; apply IH].
Qed.

Lemma show_device_finishes uninit cpuset0 fd dev_id : finishes (show_device uninit cpuset0 fd dev_id).
Proof.
  unfold show_device. fin; [apply get_dev_info_finishes|apply get_params_finishes|
    apply print_all_finishes|apply dump_queue_affinity_finishes].
Qed.

Lemma run_cmd_finishes uninit cpuset0 fd cmd : finishes (run_cmd uninit cpuset0 fd cmd).
Proof.
  destruct (cmd_request cmd) as [[dev_id req]|] eqn:E.
  - destruct (run_cmd_request uninit cpuset0 fd cmd dev_id req E) as [-> _].
    apply finishes_co_await, public_control_finishes.
  - destruct cmd; try discriminate; cbn [run_cmd]; unfold control_add_dev, control_get_features.
    + fin; [apply get_params_finishes|apply print_all_finishes|apply dump_queue_affinity_finishes].
    + apply finishes_let_value; [apply finishes_trigger; discriminate|]. intros [names e].
      apply finishes_let_value; [|intros _; destruct e; apply finishes_done; discriminate].
      induction names as [|nm names IH]; [apply finishes_done; discriminate|]. cbn [list_devices].
      destruct (list_entry nm); [|exact IH].
      apply finishes_let_value; [apply show_device_finishes|intros; exact IH].
    + apply show_device_finishes.
    + fin. apply print_all_finishes.
Qed.

(** ** The exit code *)

(** At most one error is reported. *)
Definition exit_step (s : option exn) (c : call) : reply c -> option (option exn) :=
  match c return reply c -> option (option exn) with
  | PrintError x => fun _ => match s with None => Some (Some x) | Some _ => None end
  | _ => fun _ => Some s
  end.

Definition exit_code (s : option exn) : Z :=
  match s with None => 0 | Some (SystemError code) => code | Some _ => 1 end.

Definition reports_nothing (c : call) : Prop := match c with PrintError _ => False | _ => True end.

Lemma reports_nothing_obeys {A} (p : task A) s :
  all_calls reports_nothing p -> obeys exit_step p s (fun _ s' => s' = s).
Proof.
  intros H. apply obeys_ignored. revert H. induction p as [c|c k IH]; cbn [all_calls]; [auto|].
  intros [Hc Hk]. split; [|intros r; apply IH, Hk]. intros r. destruct c; reflexivity || contradiction.
Qed.

Section Main.
Context (uninit : ublksrv_ctrl_dev_info) (cpuset0 sq0 cq0 : Z).

Definition main_body (p : Parsed) : task unit :=
  match parse_args p with
  | inr x => throw x
  | inl cmd =>
      let_value (trigger (Open (lit "/dev/ublk-control")) SetValue : task sys_res) (fun r =>
      match r with
      | SysErr errno => throw (SystemError errno)
      | SysOk ctrl_fd =>
          defer
            (let_value (IoLoop_ctor 0 (sq0, cq0) None 0 0 0) (fun _ =>
             defer (sync_wait (run_cmd uninit cpuset0 ctrl_fd cmd)) (IoLoop_dtor 0)))
            (perform (Close ctrl_fd) id)
      end)
  end.

Lemma ctl_main_body p : ctl_main uninit cpuset0 sq0 cq0 p = catch_exit (main_body p).
Proof. reflexivity. Qed.

Lemma sync_wait_releases {A} (q : task A) : releases q -> releases (sync_wait q).
Proof.
  intros H. apply releases_connect; [exact H| |reflexivity].
  intros [] Hc; try contradiction; intros _; reflexivity.
Qed.

Lemma main_body_releases p : releases (main_body p).
Proof.
  unfold main_body. destruct (parse_args p) as [cmd|x]; [|intros _; reflexivity].
  apply obeys_let_value, obeys_trigger. intros [fd|errno]; (eexists; split; [reflexivity|]);
    cbn [then_obeys]; [|intros _; reflexivity].
  apply releases_guarded.
  - apply obeys_let_value. eapply obeys_mono; [|apply IoLoop_ctor_obeys].
    intros [a|e| |] X HX; cbn [then_obeys]; [|intros _; exact HX..|contradiction]. subst X.
    apply releases_guarded.
    + apply sync_wait_releases, releases_keeps, run_cmd_calls;
        [apply plain_keeps|intros ** ? ?; reflexivity..].
    + apply obeys_trigger. intros []. exists ∅. split; [apply release_acquire|intros _; reflexivity].
  - apply obeys_trigger. intros []. exists ∅. split; [apply release_acquire|intros _; reflexivity].
Qed.

Lemma main_body_finishes p : finishes (main_body p).
Proof.
  unfold main_body. destruct (parse_args p) as [cmd|x]; [|apply finishes_done; discriminate].
  apply finishes_let_value; [apply finishes_trigger; discriminate|].
  intros [fd|errno]; [|apply finishes_done; discriminate].
  apply finishes_defer; [|apply finishes_trigger; discriminate].
  apply finishes_let_value.
  - intros [v|errno]; [|discriminate]. cbn. intros []. discriminate.
  - intros _. apply finishes_defer; [|apply finishes_trigger; discriminate].
    apply finishes_connect; [apply run_cmd_finishes|].
    intros [] Hc; try contradiction; apply finishes_done; discriminate.
Qed.

Lemma main_body_reports p : all_calls reports_nothing (main_body p).
Proof.
  unfold main_body. destruct (parse_args p) as [cmd|x]; [|exact I].
  split; [exact I|]. intros [fd|errno]; [|exact I].
  apply all_calls_defer; [|split; intros; exact I].
  apply all_calls_let_value.
  - split; [exact I|]. intros [v|errno]; [|exact I]. split; intros; exact I.
  - intros _. apply all_calls_defer; [|split; intros; exact I].
    apply all_calls_connect; [apply run_cmd_calls; intros; exact I|intros []; exact I].
Qed.

Lemma catch_exit_releases q : releases q -> releases (catch_exit q).
Proof.
  intros H. apply releases_connect; [exact H| |reflexivity].
  intros [] Hc; try contradiction; try (intros _; reflexivity).
  intros r. exists ∅. split; [reflexivity|intros _; reflexivity].
Qed.

Lemma catch_exit_obeys q :
  all_calls reports_nothing q -> finishes q ->
  obeys exit_step (catch_exit q) None (fun c s => c = SetValue (exit_code s)).
Proof.
  intros Hq Hf. apply obeys_connect.
  eapply obeys_mono; [|apply obeys_with_leaves; [apply reports_nothing_obeys, Hq|exact Hf]].
  intros [a|e| |] s [-> Hc]; try reflexivity; [|congruence].
  apply obeys_let_value, obeys_trigger. intros r. eexists; split; [reflexivity|].
  cbn. destruct (as_except_ptr e); reflexivity.
Qed.

(** What [main] does with a single request, and with the device's information
    looked up first. *)
Lemma request_lookup (K : env) info fd dev_id req op data0 (h : history) :
  is_u 32 dev_id -> info_dev_id info = dev_id -> path_request req = Some (op, data0) ->
  K h (info2_call fd dev_id) = (AsyncOk 0, PInfo info) ->
  let h' := h ++ [existT (info2_call fd dev_id) (K h (info2_call fd dev_id))] in
  exec K (public_control uninit None fd dev_id req) h =
  exec K (public_control uninit (Some info) fd dev_id req) h'.
Proof.
  intros Hid Hinfo Hreq HK h'.
  pose proof (exec_get_dev_info_now K fd dev_id uninit h 0 info Hid ltac:(lia) HK) as Hg.
  assert (forall fn, exec K (with_dev_path uninit None fd dev_id fn) h =
                     exec K (with_dev_path uninit (Some info) fd dev_id fn) h') as H.
  { intros fn. unfold with_dev_path, cached_get_dev_info. rewrite Hinfo, Z.eqb_refl.
    rewrite !exec_let_value, !exec_co_await, !exec_let_value, exec_co_await, Hg.
    unfold h'. rewrite HK. reflexivity. }
  destruct req; try discriminate; apply H.
Qed.

(** C23: [main] always ends with an exit code, whatever the driver and the
    runtime answer and at whatever point a request fails: the control device
    is closed and the runtime shut down on every path (nothing the process has
    acquired is left, whatever it held before), at most one error is reported,
    and the exit code is that error's code (1 for an error without one), 0
    when there is none. *)
Theorem ctl_main_exits (K : env) (p : Parsed) (X : resources) :
  let r := exec K (ctl_main uninit cpuset0 sq0 cq0 p) [] in
  accepts own_ledger X (snd r) = Some X /\
  exists s, accepts exit_step None (snd r) = Some s /\ fst r = SetValue (exit_code s).
Proof.
  cbv zeta. rewrite ctl_main_body.
  destruct (obeys_exec _ K _ _ _ [] (catch_exit_obeys _ (main_body_reports p) (main_body_finishes p)))
    as (t & s & Ht & Ha & Hs).
  destruct (obeys_exec _ K _ _ _ []
              (releases_at _ X (catch_exit_releases _ (main_body_releases p))))
    as (t' & X' & Ht' & Ha' & HX').
  cbn [app] in Ht, Ht'. rewrite Hs in HX'. rewrite (HX' ltac:(discriminate)) in Ha'.
  rewrite <- Ht in Ha. rewrite <- Ht' in Ha'. split; [exact Ha'|]. exists s. auto.
Qed.

(** The exit code a command's completion gives. *)
Definition reply_code (r : async_res) : Z := match r with AsyncErr ec => ec | _ => 0 end.

(** C30: a command line that selects a single control request, run when the
    control device and the loop can be opened, looks the device up and issues
    that one request, for the device of the command line, with its data word
    and, on an unprivileged device, with its path: the exit code is the
    driver's error code when it refuses the request, 0 when it accepts it (or
    the wait is stopped). *)
Theorem ctl_single_command (K : env) p cmd dev_id req op data0 fd info :
  is_u 32 dev_id -> info_dev_id info = dev_id -> parse_args p = inl cmd ->
  cmd_request cmd = Some (dev_id, req) -> path_request req = Some (op, data0) ->
  (forall h, K h (Open (lit "/dev/ublk-control")) = SysOk fd) ->
  (forall h, K h (RuntimeInit 0 sq0 cq0 None) = SysOk 0) ->
  (forall h, K h (info2_call fd dev_id) = (AsyncOk 0, PInfo info)) ->
  let r := exec K (ctl_main uninit cpuset0 sq0 cq0 p) [] in
  let len := if unprivileged info then path_len else 0 in
  let c := UringCtrl fd op
             {| cmd_dev_id := dev_id; cmd_queue_id := 0xffff; cmd_len := len;
                cmd_addr := if unprivileged info then path_buf dev_id else None;
                cmd_data0 := uwrap 64 data0; cmd_dev_path_len := len |} in
  ctrl_ops (snd r) = [UBLK_U_CMD_GET_DEV_INFO2; op] /\
  exists reply, In (existT c reply) (snd r) /\ fst r = SetValue (reply_code (fst reply)).
Proof.
  intros Hid Hinfo Hcmd Hreq Hop Hopen Hinit Hlook. cbv zeta. rewrite ctl_main_body.
  unfold catch_exit, main_body. rewrite Hcmd, exec_connect, exec_let_value.
  rewrite exec_trigger. cbv beta iota. rewrite Hopen, exec_defer, exec_let_value.
  unfold IoLoop_ctor. rewrite exec_let_value, exec_trigger. cbv beta iota. cbn [fst snd].
  rewrite Hinit. cbn [exec let_value connect just perform trigger Z.eqb negb].
  rewrite exec_defer. unfold sync_wait. rewrite exec_connect.
  destruct (run_cmd_request uninit cpuset0 fd cmd dev_id req Hreq) as [-> _].
  rewrite exec_co_await, (request_lookup K info fd dev_id req op data0 _ Hid Hinfo Hop (Hlook _)),
    (path_request_exec uninit K info fd dev_id req op data0 _ Hid Hinfo Hop). cbv zeta.
  match goal with |- context [fst (K ?h ?c)] => destruct (K h c) as [r pl] end.
  rewrite Hlook.
  split; [destruct r; reflexivity|]. exists (r, pl).
  destruct r; cbn; (split; [tauto|reflexivity]).
Qed.
End Main.

(** [ublkctl stop -n 3] on a device of another user's: the driver refuses. *)
Definition stop_line : Parsed :=
  {| subcommands := ["stop"%string];
     option_value o := if bool_decide (o = "-n"%string) then Some 3 else None; given := [] |}.

Definition refusing_driver : env := fun _ c =>
  match c return reply c -> reply c with
  | Open _ => fun _ => SysOk 5
  | UringCtrl _ op _ => fun _ =>
      if bool_decide (op = UBLK_U_CMD_GET_DEV_INFO2)
      then (AsyncOk 0, PInfo (add_info 3 1 32 0 UBLK_F_UNPRIVILEGED_DEV)) else (AsyncErr 13, PNone)
  | _ => fun d => d
  end (ok_reply c).

Lemma ctl_single_command_witness :
  let r := exec refusing_driver (ctl_main dev_info_zero 0 0 0 stop_line) [] in
  fst r = SetValue 13 /\ ctrl_ops (snd r) = [UBLK_U_CMD_GET_DEV_INFO2; UBLK_U_CMD_STOP_DEV].
Proof.
  split; [vm_compute; reflexivity|].
  refine (proj1 (ctl_single_command dev_info_zero 0 0 0 refusing_driver stop_line (StopCmd 3 false) 3
    ReqStopDev UBLK_U_CMD_STOP_DEV 0 5 (add_info 3 1 32 0 UBLK_F_UNPRIVILEGED_DEV)
    _ _ _ _ _ _ _ _)); try (intros h); try reflexivity.
  range.
Defined.
