(* ===== verification/LoopHandler.v ===== *)
(** * LoopHandler: the loop device's handler

    [src/examples/loop.cpp] up to [wait_signal]: what the server reads of its
    backing file, the device it describes to the driver, and [LoopHandler],
    which serves each request from the backing file. *)

From S2P Require Import Prelude Effects Protocol UblkCmd Sys Ledger Raw IoResult.

#[local] Open Scope Z_scope.

Definition SECTOR_SIZE : Z := 512.

(** ** The backing file *)

Record FileInfo := {
  file_size : Z;
  logical_bs_shift : Z;
  physical_bs_shift : Z;
}.

(** [std::bit_width(v) - 1] is [Z.log2 v] for [0 < v]. *)
Definition bs_shift_of (v : Z) : Z :=
  if (0 <? v) && ((v .& uwrap 64 (v - 1)) =? 0) then uwrap 8 (Z.log2 v) else 9.

(** [<sys/stat.h>], [<linux/fs.h>] *)
Definition S_IFMT : Z := 61440.
Definition S_IFBLK : Z := 24576.
Definition S_IFREG : Z := 32768.
Definition BLKGETSIZE64 : Z := 0x80081272.
Definition BLKSSZGET : Z := 0x1268.
Definition BLKPBSZGET : Z := 0x127B.

(** One [ioctl] that stores a value, or throws. *)
Definition blk_ioctl (fd request : Z) : task Z :=
  let_value (trigger (BlkIoctl fd request) SetValue : task sys_res) (fun r =>
  match r with SysErr errno => throw (SystemError errno) | SysOk v => just v end).

Definition lo_file_size (fd : Z) : task FileInfo :=
  let_value (trigger (Fstat fd) SetValue : task (Z * Z + Z)%type) (fun r =>
  match r with
  | inr errno => throw (SystemError errno)
  | inl (st_mode, st_size) =>
      if (st_mode .& S_IFMT) =? S_IFBLK then
        let_value (blk_ioctl fd BLKGETSIZE64) (fun size =>
        let_value (blk_ioctl fd BLKSSZGET) (fun lsz =>
        let_value (blk_ioctl fd BLKPBSZGET) (fun psz =>
        just {| file_size := size; logical_bs_shift := bs_shift_of (uwrap 64 lsz);
                physical_bs_shift := bs_shift_of (uwrap 64 psz) |})))
      else if (st_mode .& S_IFMT) =? S_IFREG then
        just {| file_size := uwrap 64 st_size; logical_bs_shift := 9; physical_bs_shift := 12 |}
      else throw (RuntimeError "unsupported backing file type")
  end).

(** ** The device *)

Definition prep_dev_info (dev_id nr_queues depth buf_bytes flags : Z) : ublksrv_ctrl_dev_info :=
  {| info_nr_hw_queues := nr_queues; info_queue_depth := depth; info_state := 0;
     info_io_desc_size := 0; info_max_io_buf_bytes := buf_bytes; info_dev_id := dev_id;
     info_ublksrv_pid := 0; info_pad1 := 0; info_flags := flags; info_ublksrv_flags := 0;
     info_owner_uid := 0; info_owner_gid := 0; info_reserved1 := 0; info_reserved2 := 0 |}.

Definition prep_params (info : ublksrv_ctrl_dev_info) (dev_sectors logical_bs_shift
    physical_bs_shift : Z) : ublk_params :=
  {| params_len := sizeof ublk_params_layout; params_types := UBLK_PARAM_TYPE_BASIC;
     params_basic :=
       {| basic_attrs := UBLK_ATTR_VOLATILE_CACHE; basic_logical_bs_shift := logical_bs_shift;
          basic_physical_bs_shift := physical_bs_shift; basic_io_opt_shift := 12;
          basic_io_min_shift := 9; basic_max_sectors := info_max_io_buf_bytes info .>> 9;
          basic_chunk_sectors := 0; basic_dev_sectors := dev_sectors;
          basic_virt_boundary_mask := 0 |};
     params_discard := params_discard params_zero; params_devt := params_devt params_zero;
     params_zoned := params_zoned params_zero; params_dma_alignment := 0;
     params_seg := params_seg params_zero; params_integrity := params_integrity params_zero |}.

(** ** LoopHandler *)

Definition BACKING_FD : Z := 1.
Definition IORING_FSYNC_DATASYNC : Z := 1.

Definition init_queue (backing_fd q_id : Z) : task unit :=
  let_value (trigger (FdTableUpdate BACKING_FD backing_fd) SetValue : task Z) (fun r =>
  if negb (r =? 1) then throw (SystemError (- r)) else just tt).

Definition destroy_queue (q_id : Z) : task unit := perform (FdTableUpdate BACKING_FD (-1)) (fun _ => tt).

(** The byte offset and length of a request, at the widths of the code. *)
Definition request_off (iod : ublksrv_io_desc) : Z := uwrap 64 (iod_start_sector iod * SECTOR_SIZE).
Definition request_bytes (iod : ublksrv_io_desc) : Z := uwrap 32 (iod_nr_sectors iod * SECTOR_SIZE).

Definition loop_handle_io (iod : ublksrv_io_desc) (buf : option Z) : task io_value :=
  let op := ublksrv_get_op iod in
  let off := request_off iod in
  let bytes := request_bytes iod in
  if op =? UBLK_IO_OP_READ then
    let! r := trigger (AsyncRead (Fixed BACKING_FD) buf bytes off) lift_res in just (IoInt r)
  else if op =? UBLK_IO_OP_WRITE then
    let! r := trigger (AsyncWrite (Fixed BACKING_FD) buf bytes off) lift_res in just (IoInt r)
  else if op =? UBLK_IO_OP_FLUSH then
    let! r := trigger (AsyncFsync (Fixed BACKING_FD) IORING_FSYNC_DATASYNC) lift_res in just (IoInt r)
  else just (IoInt (- EINVAL)).

(** ** What the driver delivers

    The driver splits requests to the limits it was given: at most
    [max_sectors] sectors, within the device. *)

Record delivered (p : ublk_params) (iod : ublksrv_io_desc) : Prop := {
  delivered_nr : 0 <= iod_nr_sectors iod <= basic_max_sectors (params_basic p);
  delivered_start : 0 <= iod_start_sector iod;
  delivered_end :
    iod_start_sector iod + iod_nr_sectors iod <= basic_dev_sectors (params_basic p);
}.

Section Requests.
Context (info : ublksrv_ctrl_dev_info) (size lshift pshift : Z).
Hypothesis Hsize : is_u 64 size.
Hypothesis Hbuf : is_u 32 (info_max_io_buf_bytes info).

Let p := prep_params info (size / SECTOR_SIZE) lshift pshift.

(** A delivered request does not wrap: its range is the one it names, inside
    the buffer and inside the file. *)
Lemma request_range iod :
  delivered p iod ->
  request_off iod = SECTOR_SIZE * iod_start_sector iod /\
  request_bytes iod = SECTOR_SIZE * iod_nr_sectors iod /\
  0 <= request_off iod /\ 0 <= request_bytes iod <= info_max_io_buf_bytes info /\
  request_off iod + request_bytes iod <= size.
Proof.
  intros [Hnr Hstart Hend].
  cbn [p prep_params params_basic basic_max_sectors basic_dev_sectors] in *.
  rewrite Z.shiftr_div_pow2 in Hnr by lia. change (2 ^ 9) with SECTOR_SIZE in Hnr.
  unfold request_off, request_bytes, SECTOR_SIZE in *.
  pose proof (Z.mul_div_le size 512 eq_refl).
  pose proof (Z.mul_div_le (info_max_io_buf_bytes info) 512 eq_refl).
  assert (is_u 64 (iod_start_sector iod * 512)) as H1 by range.
  assert (is_u 32 (iod_nr_sectors iod * 512)) as H2 by range.
  rewrite !uwrap_id by assumption. unfold is_u in *. repeat split; lia.
Qed.
End Requests.

(** ** Serving from a file

    A backing store, as the handler relies on it: the bytes of the file and of
    the server's memory, and the effect of each call.  The laws are those of
    reads and writes of a range inside the file: they transfer it whole. *)

Class Backing (W : Type) := {
  file : W -> Z -> Z;
  memory : W -> Z -> Z;
  answer : forall c : call, W -> reply c * W;
}.

Class BackingLaws (W : Type) {B : Backing W} (size : Z) := {
  read_law : forall w buf len off, 0 <= off -> 0 <= len -> off + len <= size ->
    exists w', answer (AsyncRead (Fixed BACKING_FD) (Some buf) len off) w = (AsyncOk len, w') /\
      (forall a, file w' a = file w a) /\
      forall a, memory w' a =
        if bool_decide (buf <= a < buf + len) then file w (off + (a - buf)) else memory w a;
  write_law : forall w buf len off, 0 <= off -> 0 <= len -> off + len <= size ->
    exists w', answer (AsyncWrite (Fixed BACKING_FD) (Some buf) len off) w = (AsyncOk len, w') /\
      (forall a, memory w' a = memory w a) /\
      forall a, file w' a =
        if bool_decide (off <= a < off + len) then memory w (buf + (a - off)) else file w a;
  fsync_law : forall w flags,
    exists w', answer (AsyncFsync (Fixed BACKING_FD) flags) w = (AsyncOk 0, w') /\
      (forall a, memory w' a = memory w a) /\ (forall a, file w' a = file w a);
}.

Section Serving.
Context {W : Type} {B : Backing W}.

Fixpoint run_on {A} (p : task A) (w : W) : completion A * W :=
  match p with
  | Done c => (c, w)
  | Vis c k => let '(r, w') := answer c w in run_on (k r) w'
  end.

(** Requests served one after the other, with the buffers of their tags. *)
Fixpoint loop_serve (l : list (ublksrv_io_desc * Z)) (w : W) : list (completion io_value) * W :=
  match l with
  | [] => ([], w)
  | (iod, buf) :: l =>
      let '(c, w) := run_on (loop_handle_io iod (Some buf)) w in
      let '(cs, w) := loop_serve l w in
      (c :: cs, w)
  end.

(** ** The specification: a disk

    The contents of a disk, by sector and index in the sector, and what a
    request does to it and to the memory. *)

Definition disk : Type := Z -> Z -> Z.

Definition disk_step (iod : ublksrv_io_desc) (buf : Z) (d : disk) (m : Z -> Z) : Z * disk * (Z -> Z) :=
  let op := ublksrv_get_op iod in
  let start := iod_start_sector iod in
  let nr := iod_nr_sectors iod in
  if op =? UBLK_IO_OP_READ then
    (SECTOR_SIZE * nr, d, fun a =>
       if bool_decide (buf <= a < buf + SECTOR_SIZE * nr)
       then d (start + (a - buf) / SECTOR_SIZE) ((a - buf) mod SECTOR_SIZE) else m a)
  else if op =? UBLK_IO_OP_WRITE then
    (SECTOR_SIZE * nr, fun s i =>
       if bool_decide (start <= s < start + nr) then m (buf + (SECTOR_SIZE * (s - start) + i)) else d s i, m)
  else if op =? UBLK_IO_OP_FLUSH then (0, d, m)
  else (- EINVAL, d, m).

Fixpoint disk_serve (l : list (ublksrv_io_desc * Z)) (d : disk) (m : Z -> Z) : list Z * disk * (Z -> Z) :=
  match l with
  | [] => ([], d, m)
  | (iod, buf) :: l =>
      let '(r, d, m) := disk_step iod buf d m in
      let '(rs, d, m) := disk_serve l d m in
      (r :: rs, d, m)
  end.

(** The disk a file of [sectors] sectors holds. *)
Record holds (sectors : Z) (w : W) (d : disk) (m : Z -> Z) : Prop := {
  holds_file : forall s i, 0 <= s < sectors -> 0 <= i < SECTOR_SIZE ->
    file w (SECTOR_SIZE * s + i) = d s i;
  holds_memory : forall a, memory w a = m a;
}.

Section Refinement.
Context (info : ublksrv_ctrl_dev_info) (size lshift pshift : Z) {L : BackingLaws W size}.
Hypothesis Hsize : is_u 64 size.
Hypothesis Hbuf : is_u 32 (info_max_io_buf_bytes info).

Let sectors := size / SECTOR_SIZE.
Let p := prep_params info sectors lshift pshift.

Lemma handle_io_step iod buf w d m :
  delivered p iod -> holds sectors w d m ->
  let '(r, d', m') := disk_step iod buf d m in
  exists w', run_on (loop_handle_io iod (Some buf)) w = (SetValue (IoInt r), w') /\ holds sectors w' d' m'.
Proof.
  intros Hd Hw. pose proof (request_range info size lshift pshift Hsize Hbuf iod Hd)
    as (Hoff & Hlen & H0 & H1 & H2).
  destruct Hd as [Hnr Hstart Hend]. cbn [p prep_params params_basic basic_dev_sectors] in Hend.
  destruct Hw as [Hf Hm]. unfold disk_step, loop_handle_io. cbv zeta.
  destruct (ublksrv_get_op iod =? UBLK_IO_OP_READ); [|
    destruct (ublksrv_get_op iod =? UBLK_IO_OP_WRITE); [|
      destruct (ublksrv_get_op iod =? UBLK_IO_OP_FLUSH)]].
  - destruct (read_law w buf (request_bytes iod) (request_off iod)) as (w' & E & Hf' & Hm'); try lia.
    exists w'. cbn. rewrite E, Hlen. split; [reflexivity|]. split.
    + intros s i Hs Hi. rewrite Hf'. auto.
    + intros a. rewrite Hm', Hlen, Hoff. case_bool_decide; [|apply Hm].
      pose proof (Z.div_mod (a - buf) SECTOR_SIZE ltac:(discriminate)).
      pose proof (Z.mod_pos_bound (a - buf) SECTOR_SIZE eq_refl).
      unfold SECTOR_SIZE in *. rewrite <- Hf; [f_equal|unfold sectors|]; lia.
  - destruct (write_law w buf (request_bytes iod) (request_off iod)) as (w' & E & Hm' & Hf'); try lia.
    exists w'. cbn. rewrite E, Hlen. split; [reflexivity|]. split.
    + intros s i Hs Hi. rewrite Hf', Hlen, Hoff. unfold SECTOR_SIZE in *.
      do 2 case_bool_decide; try lia; [|auto]. rewrite Hm. f_equal. lia.
    + intros a. rewrite Hm'. apply Hm.
  - destruct (fsync_law w IORING_FSYNC_DATASYNC) as (w' & E & Hm' & Hf').
    exists w'. cbn. rewrite E. split; [reflexivity|].
    split; intros; rewrite ?Hm', ?Hf'; auto.
  - exists w. split; [reflexivity|]. split; auto.
Qed.

(** C16: over a backing file the loop device is a disk of as many sectors as
    the file has: for every sequence of requests the driver delivers to the
    device the server has described, the handler answers as the disk does and
    the file and the buffers hold what the disk and the memory hold - each
    request reads or writes the sectors it names, all of them and no others,
    in the order of the requests. *)
Theorem loop_device_refines l w d m :
  Forall (fun x => delivered p (fst x)) l -> holds sectors w d m ->
  let '(rs, d', m') := disk_serve l d m in
  exists w', loop_serve l w = (map (fun r => SetValue (IoInt r)) rs, w') /\ holds sectors w' d' m'.
Proof.
  intros Hl. revert w d m; induction Hl as [|[iod buf] l Hd Hl IH]; intros w d m Hw.
  - exists w. auto.
  - cbn [disk_serve loop_serve]. pose proof (handle_io_step iod buf w d m Hd Hw) as Hs.
    destruct (disk_step iod buf d m) as [[r d1] m1]. destruct Hs as (w1 & -> & Hw1).
    pose proof (IH w1 d1 m1 Hw1) as H. destruct (disk_serve l d1 m1) as [[rs d2] m2].
    destruct H as (w2 & -> & Hw2). exists w2. auto.
Qed.
End Refinement.
End Serving.

(** *** A file in memory *)

Definition ram : Type := (Z -> Z) * (Z -> Z).

Definition ram_answer (c : call) (w : ram) : reply c * ram :=
  match c return reply c -> reply c * ram with
  | AsyncRead _ (Some buf) len off => fun _ =>
      (AsyncOk len, (fst w, fun a => if bool_decide (buf <= a < buf + len)
                                     then fst w (off + (a - buf)) else snd w a))
  | AsyncWrite _ (Some buf) len off => fun _ =>
      (AsyncOk len, (fun a => if bool_decide (off <= a < off + len)
                              then snd w (buf + (a - off)) else fst w a, snd w))
  | _ => fun r => (r, w)
  end (ok_reply c).

#[global] Instance ram_backing : Backing ram := {| file := fst; memory := snd; answer := ram_answer |}.

#[global] Instance ram_laws size : BackingLaws ram size.
Proof. split; intros; eexists; (split; [reflexivity|]); split; reflexivity. Qed.

Definition loop_info : ublksrv_ctrl_dev_info := prep_dev_info 0 1 64 4096 0.

(** Two sectors written and read back into another buffer, a flush, and a
    request the device does not serve. *)
Definition loop_requests : list (ublksrv_io_desc * Z) :=
  [ (Build_ublksrv_io_desc UBLK_IO_OP_WRITE 2 3 0, 0); (Build_ublksrv_io_desc UBLK_IO_OP_READ 2 3 0, 4096);
    (Build_ublksrv_io_desc UBLK_IO_OP_FLUSH 0 0 0, 0); (Build_ublksrv_io_desc 3 1 7 0, 0) ].

Lemma loop_device_refines_witness :
  let '(rs, d', m') := disk_serve loop_requests (fun s i => s) (fun a => - a) in
  rs = [1024; 1024; 0; - EINVAL] /\ d' 4 5 = -517 /\ m' 4613 = -517 /\
  exists w', loop_serve loop_requests (fun a => a / 512, fun a => - a) =
               (map (fun r => SetValue (IoInt r)) rs, w') /\ holds (4096 / SECTOR_SIZE) w' d' m'.
Proof.
  split; [reflexivity|]. split; [reflexivity|]. split; [reflexivity|].
  refine (loop_device_refines loop_info 4096 9 12 _ _ loop_requests _ (fun s i => s) (fun a => - a) _ _).
  - range.
  - cbn. range.
  - repeat constructor; cbv; congruence.
  - split; [|reflexivity]. intros s i Hs Hi. cbn [file ram_backing fst].
    unfold SECTOR_SIZE in *. symmetry. apply (Z.div_unique _ _ _ i); lia.
Defined.

(** C32: a request delivered to the loop device stays inside its buffer and
    inside the backing file: whatever the environment answers, serving it
    issues at most one call, on the registered backing descriptor, with the
    tag's buffer, for exactly the request's range, which fits the buffer
    the device was described with and the file it was sized by; the 32-bit
    and 64-bit products do not wrap, and a failed call completes the request
    with its error. *)
Theorem loop_io_in_bounds (K : env) (h : history) info size lshift pshift iod buf :
  is_u 64 size -> is_u 32 (info_max_io_buf_bytes info) ->
  delivered (prep_params info (size / SECTOR_SIZE) lshift pshift) iod ->
  let off := SECTOR_SIZE * iod_start_sector iod in
  let len := SECTOR_SIZE * iod_nr_sectors iod in
  0 <= off /\ off + len <= size /\ 0 <= len <= info_max_io_buf_bytes info /\
  let outcome c := exec K (loop_handle_io iod buf) h =
    (match lift_res (c : async_res) with SetValue r => SetValue (IoInt r)
                       | SetError e => SetError (ErrPtr (as_except_ptr e))
                       | SetStopped => SetStopped | Unfinished => Unfinished end, snd (exec K (loop_handle_io iod buf) h)) in
  let issued c := snd (exec K (loop_handle_io iod buf) h) = h ++ [existT c (K h c)] in
  let op := ublksrv_get_op iod in
  if op =? UBLK_IO_OP_READ then
    issued (AsyncRead (Fixed BACKING_FD) buf len off) /\
    outcome (K h (AsyncRead (Fixed BACKING_FD) buf len off))
  else if op =? UBLK_IO_OP_WRITE then
    issued (AsyncWrite (Fixed BACKING_FD) buf len off) /\
    outcome (K h (AsyncWrite (Fixed BACKING_FD) buf len off))
  else if op =? UBLK_IO_OP_FLUSH then
    issued (AsyncFsync (Fixed BACKING_FD) IORING_FSYNC_DATASYNC) /\
    outcome (K h (AsyncFsync (Fixed BACKING_FD) IORING_FSYNC_DATASYNC))
  else exec K (loop_handle_io iod buf) h = (SetValue (IoInt (- EINVAL)), h).
Proof.
  intros Hs Hb Hd. pose proof (request_range info size lshift pshift Hs Hb iod Hd)
    as (Hoff & Hlen & H0 & H1 & H2). cbv zeta. rewrite <- Hoff, <- Hlen.
  split_all; [lia..|]. unfold loop_handle_io. cbv zeta.
  destruct (_ =? UBLK_IO_OP_READ); [|destruct (_ =? UBLK_IO_OP_WRITE);
    [|destruct (_ =? UBLK_IO_OP_FLUSH); [|reflexivity]]];
    rewrite exec_let_value, exec_co_await, exec_trigger;
    match goal with |- context [lift_res (K h ?c)] => destruct (K h c) eqn:? end;
    (split; [|reflexivity]); cbn; congruence.
Qed.

Lemma loop_io_in_bounds_witness :
  exec (fun _ c => ok_reply c) (loop_handle_io (Build_ublksrv_io_desc 7 1 7 0) None) [] =
  (SetValue (IoInt (- EINVAL)), []).
Proof.
  refine (proj2 (proj2 (proj2 (loop_io_in_bounds (fun _ c => ok_reply c) [] loop_info 4096 9 12
    (Build_ublksrv_io_desc 7 1 7 0) None _ _ _)))).
  - range.
  - cbn. range.
  - constructor; cbv; split || idtac; congruence.
Defined.

Lemma land_pred_zero v : 0 < v -> (v .& (v - 1)) = 0 <-> v = 2 ^ Z.log2 v.
Proof.
  intros Hv. pose proof (Z.log2_spec v Hv) as [Hl Hu]. pose proof (Z.log2_nonneg v) as H0. split.
  - intros Hz. destruct (Z.eq_dec v (2 ^ Z.log2 v)) as [E|Hne]; [exact E|exfalso].
    assert (Z.log2 (v - 1) = Z.log2 v) as El by (apply Z.log2_unique; lia).
    assert (Z.testbit (v .& (v - 1)) (Z.log2 v) = true) as Ht.
    { rewrite Z.land_spec, Z.bit_log2 by lia. rewrite <- El, Z.bit_log2; [reflexivity|].
      pose proof (Z.pow_pos_nonneg 2 (Z.log2 v) eq_refl H0). lia. }
    rewrite Hz, Z.testbit_0_l in Ht. discriminate.
  - intros E. rewrite E at 1 2. rewrite Z.sub_1_r, <- Z.ones_equiv, Z.land_ones by assumption. apply Z.mod_same. lia.
Qed.

(** [bs_shift_of] is the exact shift of a block size that is a power of
    two and falls back to the shift of a sector for any other value, zero
    included; it is always a
    shift of the 64-bit word. *)
Lemma bs_shift_of_exact v :
  is_u 64 v ->
  0 <= bs_shift_of v < 64 /\
  (forall k, 0 <= k -> v = 2 ^ k -> bs_shift_of v = k) /\
  ((forall k, 0 <= k -> v <> 2 ^ k) -> bs_shift_of v = 9).
Proof.
  intros Hv. unfold bs_shift_of. destruct (Z.ltb_spec 0 v) as [Hpos|Hz]; cbn [andb].
  - rewrite (uwrap_id 64 (v - 1)) by range.
    assert (0 <= Z.log2 v < 64) as Hl by (split; [apply Z.log2_nonneg|apply Z.log2_lt_pow2; range]).
    destruct (Z.eqb_spec (v .& (v - 1)) 0) as [E|E]; rewrite land_pred_zero in E by assumption.
    + rewrite uwrap_id by range. split_all; [lia..| |].
      * intros k Hk ->. apply Z.log2_pow2, Hk.
      * intros H. destruct (H (Z.log2 v)); [lia|exact E].
    + split_all; [lia..| |reflexivity]. intros k Hk ->. rewrite Z.log2_pow2 in E by assumption. contradiction.
  - split_all; [lia..| |reflexivity]. intros k Hk ->.
    pose proof (Z.pow_pos_nonneg 2 k eq_refl Hk). lia.
Qed.

Example bs_shift_of_4096 : bs_shift_of 4096 = 12 /\ bs_shift_of 0 = 9 /\ bs_shift_of 520 = 9.
Proof. repeat split; reflexivity. Qed.
