(* ===== verification/LoopDevice.v ===== *)
(** * LoopDevice: the loop server's workers share a disk

    The workers of [IoQueue] with the handler of [src/examples/loop.cpp],
    between a driver that copies the data of the requests to and from the
    queue's buffers and a kernel that reads and writes the backing file.  The
    specification is a machine that serves each request in one step, at a call
    the server makes between the request's delivery and its answer.  Each
    worker follows it, relying on the others for its tag and its buffer only. *)

From S2P Require Import Prelude Effects Protocol Rely UblkCmd Utils Sys Ledger Raw IoResult Queue BatchObject IoDev Handler LoopHandler.

#[local] Open Scope Z_scope.

#[global] Instance ublksrv_io_desc_eq_dec : EqDecision ublksrv_io_desc.
Proof. solve_decision. Defined.

(** The handler of a server whose backing file is [backing_fd]: it reads the
    request's descriptor when it is called. *)
Definition loop_handler (backing_fd : Z) : Handler := {|
  h_handle_io := fun d =>
    let_value (read_iod (io_data_q_id d) (io_data_tag d)) (fun iod => loop_handle_io iod (io_data_buf d));
  h_init_queue := init_queue backing_fd;
  h_destroy_queue := destroy_queue;
|}.

(** [IoQueue] with the loop server's handler; [scheds] has a schedule for the
    workers of each queue. *)
Definition loop_queue_class (page backing_fd : Z) (fuel : nat) (scheds : Z -> list nat) : DeviceQueue IoQueue := {|
  dq_new := fun fd raw q_id flags depth max => IoQueue_ctor page fd raw q_id flags depth max true;
  dq_run := fun q => IoQueue_serve (loop_handler backing_fd) fuel (scheds (q_id_ q)) q;
  dq_delete := IoQueue_dtor page;
  dq_held := queue_held page;
  dq_fd := ublkc_fd_;
|}.

(** ** The specification *)

(** A request of the block layer: its descriptor, and the data to be written. *)
Record disk_request := { rq_iod : ublksrv_io_desc; rq_data : Z -> Z }.

Definition rq_op (rq : disk_request) : Z := ublksrv_get_op (rq_iod rq).
Definition rq_bytes (rq : disk_request) : Z := SECTOR_SIZE * iod_nr_sectors (rq_iod rq).
Definition moves_data (rq : disk_request) : bool :=
  (rq_op rq =? UBLK_IO_OP_READ) || (rq_op rq =? UBLK_IO_OP_WRITE).

(** A tag: not fetched yet; with a request, and how many flushes had reached
    the file when it was delivered; with a request the disk has served, its
    result and the data read; ended by the driver. *)
Inductive tag_life :=
  | Unused
  | Pending (rq : disk_request) (syncs : nat)
  | Served (rq : disk_request) (res : Z) (out : Z -> Z)
  | Ended.

(** The disk of the specification, and what it is implemented with: the file,
    the server's memory, its buffers in the order of their tags, the
    descriptors of its io_uring instance. *)
Record device := {
  dv_disk : disk;
  dv_file : Z -> Z;
  dv_mem : Z -> Z;
  dv_bufs : list Z;
  dv_tags : nat -> tag_life;
  dv_count : nat -> nat;          (** requests delivered to the tag *)
  dv_syncs : nat;                 (** flushes that have reached the file *)
  dv_ublkc : option fdref;        (** what the queue's commands are issued on *)
  dv_backing : bool;              (** the backing file is registered *)
}.

Definition device_new (d : disk) (f m : Z -> Z) : device :=
  {| dv_disk := d; dv_file := f; dv_mem := m; dv_bufs := []; dv_tags := fun _ => Unused;
     dv_count := fun _ => O; dv_syncs := O; dv_ublkc := None; dv_backing := false |}.

Definition set_ublkc (o : option fdref) (s : device) : device :=
  {| dv_disk := dv_disk s; dv_file := dv_file s; dv_mem := dv_mem s; dv_bufs := dv_bufs s;
     dv_tags := dv_tags s; dv_count := dv_count s; dv_syncs := dv_syncs s; dv_ublkc := o;
     dv_backing := dv_backing s |}.
Definition set_backing (b : bool) (s : device) : device :=
  {| dv_disk := dv_disk s; dv_file := dv_file s; dv_mem := dv_mem s; dv_bufs := dv_bufs s;
     dv_tags := dv_tags s; dv_count := dv_count s; dv_syncs := dv_syncs s; dv_ublkc := dv_ublkc s;
     dv_backing := b |}.
Definition set_bufs (l : list Z) (s : device) : device :=
  {| dv_disk := dv_disk s; dv_file := dv_file s; dv_mem := dv_mem s; dv_bufs := l;
     dv_tags := dv_tags s; dv_count := dv_count s; dv_syncs := dv_syncs s; dv_ublkc := dv_ublkc s;
     dv_backing := dv_backing s |}.
Definition set_tag (i : nat) (x : tag_life) (s : device) : device :=
  {| dv_disk := dv_disk s; dv_file := dv_file s; dv_mem := dv_mem s; dv_bufs := dv_bufs s;
     dv_tags := fun j => if decide (j = i) then x else dv_tags s j;
     dv_count := dv_count s; dv_syncs := dv_syncs s; dv_ublkc := dv_ublkc s;
     dv_backing := dv_backing s |}.
Definition set_world (d : disk) (w : ram) (s : device) : device :=
  {| dv_disk := d; dv_file := fst w; dv_mem := snd w; dv_bufs := dv_bufs s;
     dv_tags := dv_tags s; dv_count := dv_count s; dv_syncs := dv_syncs s; dv_ublkc := dv_ublkc s;
     dv_backing := dv_backing s |}.
Definition count_sync (s : device) : device :=
  {| dv_disk := dv_disk s; dv_file := dv_file s; dv_mem := dv_mem s; dv_bufs := dv_bufs s;
     dv_tags := dv_tags s; dv_count := dv_count s; dv_syncs := S (dv_syncs s); dv_ublkc := dv_ublkc s;
     dv_backing := dv_backing s |}.

Section Spec.
Context (info : ublksrv_ctrl_dev_info) (size ublkc_fd backing_fd q_id : Z).
(** The requests the block layer has for each tag. *)
Context (requests : nat -> nat -> disk_request).

Let depth : nat := Z.to_nat (info_queue_depth info).
Let max : Z := info_max_io_buf_bytes info.

(** The driver delivers a request: it copies the data of a write to the
    buffer the server has named. *)
Definition deliver (i : nat) (addr : Z) (s : device) : device :=
  let rq := requests i (dv_count s i) in
  {| dv_disk := dv_disk s; dv_file := dv_file s;
     dv_mem := fun a =>
       if (rq_op rq =? UBLK_IO_OP_WRITE) && bool_decide (addr <= a < addr + rq_bytes rq)
       then rq_data rq (a - addr) else dv_mem s a;
     dv_bufs := dv_bufs s;
     dv_tags := fun j => if decide (j = i) then Pending rq (dv_syncs s) else dv_tags s j;
     dv_count := fun j => if decide (j = i) then S (dv_count s j) else dv_count s j;
     dv_syncs := dv_syncs s; dv_ublkc := dv_ublkc s; dv_backing := dv_backing s |}.

(** The driver's reply to a command that fetches. *)
Definition fetched (i : nat) (addr : Z) (r : async_res) (s : device) : verdict device :=
  match r with
  | AsyncOk v => if v =? UBLK_IO_RES_OK then Next (deliver i addr s) else Beyond
  | AsyncErr ec => if 0 <? ec then Next (set_tag i Ended s) else Beyond
  | AsyncStopped => Next (set_tag i Ended s)
  end.

(** The answer to the request of a tag: the disk's result, with the data read
    in the buffer, and for a flush only once a flush has reached the file since
    its delivery.  A request that moves no data is served by its answer. *)
Definition answers (i : nat) (addr res : Z) (s : device) : bool :=
  match dv_tags s i with
  | Served rq res' out =>
      (res =? res') &&
      (if rq_op rq =? UBLK_IO_OP_READ
       then forallb (fun a => dv_mem s (addr + a) =? out a) (seqZ 0 res) else true)
  | Pending rq syncs =>
      negb (moves_data rq) && (res =? fst (fst (disk_step (rq_iod rq) 0 (dv_disk s) (rq_data rq)))) &&
      (if rq_op rq =? UBLK_IO_OP_FLUSH then (syncs <? dv_syncs s)%nat else true)
  | _ => false
  end.

(** The disk serves the request of tag [i], while the kernel answers [c]. *)
Definition serve_request (i : nat) (rq : disk_request) (c : call) (s : device) : device :=
  let '(res, d, out) := disk_step (rq_iod rq) 0 (dv_disk s) (rq_data rq) in
  set_tag i (Served rq res out) (set_world d (snd (ram_answer c (dv_file s, dv_mem s))) s).

(** A transfer between the file and the buffer of a tag, for its request; a
    read may fail. *)
Definition transfer (op : Z) (fd : fdref) (buf : option Z) (len off : Z) (c : call) (r : async_res)
    (s : device) : verdict device :=
  match buf ≫= (fun b => list_find (eq b) (dv_bufs s)) with
  | Some (i, _) =>
      match dv_tags s i with
      | Pending rq _ =>
          if bool_decide (fd = Fixed BACKING_FD /\ rq_op rq = op /\ 0 <= off /\ 0 <= len <= max /\
                          off + len <= size) && dv_backing s then
            match r with
            | AsyncOk v => if v =? len then Next (serve_request i rq c s) else Beyond
            | AsyncErr ec =>
                if (op =? UBLK_IO_OP_READ) && bool_decide (0 < ec < 2 ^ 31)
                then Next (set_tag i (Served rq (- ec) (fun _ => 0)) s) else Beyond
            | AsyncStopped => Beyond
            end
          else Breach
      | _ => Breach
      end
  | None => Breach
  end.

Definition tag_free (x : tag_life) : bool := match x with Unused | Ended => true | _ => false end.

(** No request is with the server. *)
Definition at_rest (s : device) : bool := forallb (fun i => tag_free (dv_tags s i)) (seq 0 depth).

(** Memory the allocator may return: a block beside those in use. *)
Definition fresh_block (p : Z) (l : list Z) : Prop :=
  0 <= p /\ p + max < 2 ^ 64 /\ Forall (fun b => p <> b /\ (b + max <= p \/ p + max <= b)) l.

#[global] Instance fresh_block_dec p l : Decision (fresh_block p l).
Proof. unfold fresh_block. apply _. Defined.

Definition loop_step (s : device) (c : call) : reply c -> verdict device :=
  match c return reply c -> verdict device with
  | FdTableUpdate idx fd => fun r =>
      if fd =? -1 then
        if at_rest s
        then Next (if idx =? UBLKC_FD then set_ublkc None s else set_backing false s) else Breach
      else if (idx =? UBLKC_FD) && (fd =? ublkc_fd)
      then Next (set_ublkc (Some (if 0 <=? r then Fixed UBLKC_FD else Fd ublkc_fd)) s)
      else if (idx =? BACKING_FD) && (fd =? backing_fd)
      then if r =? 1 then Next (set_backing true s) else if r <=? 0 then Next s else Beyond
      else Breach
  | Mmap len prot fd off => fun _ =>
      if bool_decide (fd = ublkc_fd /\ off = io_desc_offset q_id /\ len = iod_map_size (info_queue_depth info))
      then Next s else Breach
  | Munmap _ _ => fun _ => if at_rest s then Next s else Breach
  | AllocAligned bytes _ => fun r =>
      if bytes =? max then
        match r with
        | Some p => if bool_decide (fresh_block p (dv_bufs s)) then Next (set_bufs (dv_bufs s ++ [p]) s) else Beyond
        | None => Next s
        end
      else Breach
  | FreeAligned p _ _ => fun _ =>
      match dv_bufs s with
      | b :: l => if (b =? p) && at_rest s then Next (set_bufs l s) else Breach
      | [] => Breach
      end
  | UringIo fd op cmd _ => fun r =>
      let i := Z.to_nat (io_tag cmd) in
      if bool_decide (dv_ublkc s = Some fd /\ io_q_id cmd = q_id /\ (i < depth)%nat /\
                      dv_bufs s !! i = Some (io_addr cmd)) then
        if bool_decide (op = UBLK_U_IO_FETCH_REQ) then
          match dv_tags s i with Unused => fetched i (io_addr cmd) r s | _ => Breach end
        else if bool_decide (op = UBLK_U_IO_COMMIT_AND_FETCH_REQ) then
          if answers i (io_addr cmd) (io_result cmd) s then fetched i (io_addr cmd) r s else Breach
        else Breach
      else Breach
  | ReadIod q t => fun iod =>
      match dv_tags s (Z.to_nat t) with
      | Pending rq _ | Served rq _ _ =>
          if q =? q_id then if bool_decide (iod = rq_iod rq) then Next s else Beyond else Breach
      | _ => Breach
      end
  | AsyncRead fd buf len off => fun r =>
      transfer UBLK_IO_OP_READ fd buf len off (AsyncRead fd buf len off) r s
  | AsyncWrite fd buf len off => fun r =>
      transfer UBLK_IO_OP_WRITE fd buf len off (AsyncWrite fd buf len off) r s
  | AsyncFsync fd _ => fun r =>
      if bool_decide (fd = Fixed BACKING_FD) && dv_backing s
      then match r with AsyncOk v => if v =? 0 then Next (count_sync s) else Beyond | _ => Beyond end
      else Breach
  | _ => fun _ => Breach
  end.
End Spec.

Lemma at_rest_all info s :
  (forall i, (i < Z.to_nat (info_queue_depth info))%nat -> tag_free (dv_tags s i) = true) -> at_rest info s = true.
Proof. intros Ht. apply forallb_forall. intros i Hi. apply Ht. apply in_seq in Hi. lia. Qed.

(** ** The workers *)

(** What a device must be for the loop server's mode: buffers of the server's
    own, which the driver copies to and from, and one command per request. *)
Record loop_mode (info : ublksrv_ctrl_dev_info) : Prop := {
  mode_alloc : need_alloc_buf (info_flags info) = true;
  mode_auto : has (info_flags info) UBLK_F_AUTO_BUF_REG = false;
  mode_single : has (info_flags info) UBLK_F_BATCH_IO = false;
  mode_depth : 0 < info_queue_depth info < 2 ^ 16;
  mode_buf : 0 <= info_max_io_buf_bytes info <= 2 ^ UBLK_IO_BUF_BITS;
}.

(** A request the driver delivers to such a device. *)
Record valid_request (p : ublk_params) (rq : disk_request) : Prop := {
  valid_range : delivered p (rq_iod rq);
  valid_op : rq_op rq <> UBLK_IO_OP_ZONE_APPEND;
  valid_reg : has (iod_op_flags (rq_iod rq)) UBLK_IO_F_NEED_REG_BUF = false;
}.

Section Workers.
Context (info : ublksrv_ctrl_dev_info) (size lshift pshift ublkc_fd backing_fd q_id : Z).
Context (requests : nat -> nat -> disk_request).
Hypothesis Hsize : is_u 64 size.
Hypothesis Hmode : loop_mode info.
Hypothesis Hqid : is_u 16 q_id.

Let max : Z := info_max_io_buf_bytes info.
Let depth : nat := Z.to_nat (info_queue_depth info).
Let sectors := size / SECTOR_SIZE.
Let p := prep_params info sectors lshift pshift.

Hypothesis Hreq : forall i n, valid_request p (requests i n).

Let step := loop_step info size ublkc_fd backing_fd q_id requests.

(** The file holds the disk. *)
Definition stored (s : device) : Prop :=
  forall sec i, 0 <= sec < sectors -> 0 <= i < SECTOR_SIZE ->
    dv_file s (SECTOR_SIZE * sec + i) = dv_disk s sec i.

(** What a queue relies on: the other queues of the device keep the file in
    step with the disk and leave what belongs to the queue alone. *)
Record queue_rely (s s' : device) : Prop := {
  others_stored : stored s -> stored s';
  others_bufs : dv_bufs s' = dv_bufs s;
  others_tags : forall i, dv_tags s' i = dv_tags s i;
  others_syncs : (dv_syncs s <= dv_syncs s')%nat;
  others_ublkc : dv_ublkc s' = dv_ublkc s;
  others_backing : dv_backing s' = dv_backing s;
  others_mem : forall b a, b ∈ dv_bufs s -> b <= a < b + max -> dv_mem s' a = dv_mem s a;
}.

(** What it guarantees to them. *)
Record queue_guar (s s' : device) : Prop := {
  keeps_stored : stored s -> stored s';
  keeps_syncs : (dv_syncs s <= dv_syncs s')%nat;
  keeps_mem : forall a, (forall b, b ∈ dv_bufs s -> ~ b <= a < b + max) -> dv_mem s' a = dv_mem s a;
}.

#[global] Instance queue_rely_preorder : PreOrder queue_rely.
Proof.
  split.
  - intros s. split; auto.
  - intros s1 s2 s3 [St1 B1 T1 S1 U1 K1 M1] [St2 B2 T2 S2 U2 K2 M2].
    split; [auto|congruence|intros i; rewrite T2; apply T1|lia|congruence..|].
    intros b a Hb Ha. rewrite <- (M1 b a Hb Ha). apply (M2 b); [rewrite B1; exact Hb|exact Ha].
Qed.

(** Buffers a queue can have: one per tag, apart from each other. *)
Record buffers_ok (bufs : list Z) : Prop := {
  bufs_length : length bufs = depth;
  bufs_range : forall i b, bufs !! i = Some b -> 0 <= b /\ b + max < 2 ^ 64;
  bufs_apart : forall i j b c, bufs !! i = Some b -> bufs !! j = Some c -> i <> j ->
    b <> c /\ (b + max <= c \/ c + max <= b);
}.

Context (fd : fdref) (bufs : list Z).
Hypothesis Hbufs : buffers_ok bufs.

(** The queue the workers belong to. *)
Record queue_of (q : IoQueue) : Prop := {
  queue_fd : ublkc_fd_ q = fd;
  queue_id : q_id_ q = q_id;
  queue_flags : flags_ q = info_flags info;
  queue_buffers : buf_bases_ q = bufs;
}.

(** While the workers run. *)
Record running (s : device) : Prop := {
  run_stored : stored s;
  run_ublkc : dv_ublkc s = Some fd;
  run_backing : dv_backing s = true;
  run_bufs : dv_bufs s = bufs;
}.

Definition buffer_same (i : nat) (s s' : device) : Prop :=
  forall b a, bufs !! i = Some b -> b <= a < b + max -> dv_mem s' a = dv_mem s a.

(** What a worker relies on: its tag and its buffer are left alone. *)
Record tag_rely (i : nat) (s s' : device) : Prop := {
  rely_running : running s -> running s';
  rely_tag : dv_tags s' i = dv_tags s i;
  rely_syncs : (dv_syncs s <= dv_syncs s')%nat;
  rely_buffer : running s -> buffer_same i s s';
}.

(** What it guarantees to the others, and to the other queues. *)
Record tag_guar (i : nat) (s s' : device) : Prop := {
  guar_running : running s -> running s';
  guar_others : forall j, j <> i -> tag_rely j s s';
  guar_syncs : (dv_syncs s <= dv_syncs s')%nat;
  guar_mem : forall a, (forall b, b ∈ bufs -> ~ b <= a < b + max) -> dv_mem s' a = dv_mem s a;
}.

#[local] Instance tag_rely_preorder i : PreOrder (tag_rely i).
Proof.
  split.
  - intros s. split; auto; intros _ b a _ _; reflexivity.
  - intros s1 s2 s3 [R1 T1 S1 B1] [R2 T2 S2 B2]. split; [auto|congruence|lia|].
    intros Hr b a Hb Ha. rewrite (B2 (R1 Hr) b a Hb Ha). exact (B1 Hr b a Hb Ha).
Qed.

Lemma tag_guar_rely i j s s' : i <> j -> tag_guar i s s' -> tag_rely j s s'.
Proof. intros Hne [_ H _ _]. apply H. congruence. Qed.

Section Tag.
Context (i : nat) (b : Z).
Hypothesis Hb : bufs !! i = Some b.

Let tag : Z := Z.of_nat i.
Let secure_tag {A} := secure step (tag_rely i) (tag_guar i) (A := A).

Lemma tag_bound : (i < depth)%nat /\ is_u 16 tag.
Proof.
  pose proof (lookup_lt_Some _ _ _ Hb) as Hi. rewrite (bufs_length _ Hbufs) in Hi.
  destruct Hmode. unfold depth, tag in *. split; [exact Hi|range].
Qed.

Lemma buffer_bound : 0 <= b /\ b + max < 2 ^ 64 /\ 0 <= max <= 2 ^ UBLK_IO_BUF_BITS.
Proof. destruct (bufs_range _ Hbufs i b Hb), Hmode. unfold max in *. auto. Qed.

(** The request has been delivered, and its data with it. *)
Definition pending (rq : disk_request) (s : device) : Prop :=
  running s /\ valid_request p rq /\ exists n, dv_tags s i = Pending rq n /\ (n <= dv_syncs s)%nat /\
    (rq_op rq = UBLK_IO_OP_WRITE -> forall a, 0 <= a < rq_bytes rq -> dv_mem s (b + a) = rq_data rq a).

(** The request can be answered with [res]. *)
Definition answerable (rq : disk_request) (res : Z) (s : device) : Prop :=
  running s /\ valid_request p rq /\
  ((exists out, dv_tags s i = Served rq res out /\ res <= max /\
     (rq_op rq = UBLK_IO_OP_READ -> forall a, 0 <= a < res -> dv_mem s (b + a) = out a)) \/
   (exists n, dv_tags s i = Pending rq n /\ moves_data rq = false /\
     (forall d, res = fst (fst (disk_step (rq_iod rq) 0 d (rq_data rq)))) /\
     (rq_op rq = UBLK_IO_OP_FLUSH -> (n < dv_syncs s)%nat))).

Definition ended (s : device) : Prop := running s /\ dv_tags s i = Ended.

Lemma request_fits rq : valid_request p rq ->
  request_off (rq_iod rq) = SECTOR_SIZE * iod_start_sector (rq_iod rq) /\
  request_bytes (rq_iod rq) = rq_bytes rq /\
  0 <= request_off (rq_iod rq) /\ 0 <= rq_bytes rq <= max /\
  request_off (rq_iod rq) + rq_bytes rq <= size.
Proof.
  intros [Hd _ _]. pose proof buffer_bound as (_ & _ & Hm).
  destruct (request_range info size lshift pshift Hsize ltac:(unfold max in Hm; range) _ Hd)
    as (H1 & H2 & H3 & H4 & H5).
  rewrite H2 in *. unfold rq_bytes. split_all; auto; lia.
Qed.

#[local] Instance pending_stable rq : Proper (tag_rely i ==> impl) (pending rq).
Proof.
  intros s s' [R T S B] (Hr & Hv & n & Hn & Hs & Hd). split; [auto|]. split; [exact Hv|].
  exists n. rewrite T. split; [exact Hn|]. split; [lia|].
  intros Hw a Ha. rewrite (B Hr b (b + a) Hb); [apply Hd; assumption|].
  destruct (request_fits rq Hv) as (_ & _ & _ & ? & _). lia.
Qed.

#[local] Instance answerable_stable rq res : Proper (tag_rely i ==> impl) (answerable rq res).
Proof.
  intros s s' [R T S B] (Hr & Hv & H). split; [auto|]. split; [exact Hv|]. rewrite T.
  destruct H as [(out & Ho & Hm & Hd)|(n & Hn & Hm & Hd & Hf)].
  - left. exists out. split; [exact Ho|]. split; [exact Hm|]. intros Hop a Ha.
    rewrite (B Hr b (b + a) Hb) by lia. apply Hd; assumption.
  - right. exists n. split_all; auto. intros Hop. specialize (Hf Hop). lia.
Qed.

#[local] Instance ended_stable : Proper (tag_rely i ==> impl) ended.
Proof. intros s s' [R T _ _] [Hr He]. split; [auto|congruence]. Qed.

(** What a worker changes while its request is with it. *)
Lemma guar_frame s s' :
  (running s -> running s') -> (forall j, j <> i -> dv_tags s' j = dv_tags s j) ->
  (dv_syncs s <= dv_syncs s')%nat -> (forall a, ~ b <= a < b + max -> dv_mem s' a = dv_mem s a) ->
  tag_guar i s s'.
Proof.
  intros HR HT HS HM. split; [exact HR| |exact HS|].
  - intros j Hj. split; auto. intros _ c a Hc Ha. apply HM.
    destruct (bufs_apart _ Hbufs i j b c Hb Hc) as [_ H]; [congruence|]. lia.
  - intros a Ha. apply HM, Ha. eapply list_elem_of_lookup_2, Hb.
Qed.

Lemma secure_iod (P : device -> Prop) rq s :
  Proper (tag_rely i ==> impl) P -> P s ->
  (forall s, P s -> (exists n, dv_tags s i = Pending rq n) \/ exists res out, dv_tags s i = Served rq res out) ->
  secure_tag (read_iod q_id tag) s (fun c s' => c = SetValue (rq_iod rq) /\ P s').
Proof.
  intros HP Hs Htag. apply secure_call with (P := P) (P' := fun r s' => r = rq_iod rq /\ P s'); auto.
  - intros r s1 s2 H [-> H1]. split; [reflexivity|exact (HP _ _ H H1)].
  - intros s1 iod H1. unfold step, loop_step, tag. rewrite Nat2Z.id, Z.eqb_refl.
    destruct (Htag s1 H1) as [[n ->]|(res & out & ->)]; (case_bool_decide; [|exact I]);
      (split; [|auto]); apply guar_frame; auto.
  - intros r s2 [-> H2]. auto.
Qed.

(** *** The request is served *)

(** Data in the server's memory at [b] and data by itself. *)
Lemma disk_step_moved iod d m data :
  (ublksrv_get_op iod = UBLK_IO_OP_WRITE ->
     forall a, 0 <= a < SECTOR_SIZE * iod_nr_sectors iod -> m (b + a) = data a) ->
  let '(r1, d1, m1) := disk_step iod b d m in
  let '(r2, d2, out) := disk_step iod 0 d data in
  r1 = r2 /\ (forall sec a, 0 <= a < SECTOR_SIZE -> d1 sec a = d2 sec a) /\
  (ublksrv_get_op iod = UBLK_IO_OP_READ -> forall a, 0 <= a < r1 -> m1 (b + a) = out a).
Proof.
  intros Hw. unfold disk_step.
  destruct (Z.eqb_spec (ublksrv_get_op iod) UBLK_IO_OP_READ) as [Hop|Hop].
  { split_all; auto. intros _ a Ha. do 2 (rewrite bool_decide_eq_true_2 by lia).
    replace (b + a - b) with (a - 0) by lia. reflexivity. }
  destruct (Z.eqb_spec (ublksrv_get_op iod) UBLK_IO_OP_WRITE) as [Hop'|Hop'].
  { split_all; auto. intros sec a Ha. case_bool_decide; [|reflexivity].
    rewrite Hw; [f_equal; lia|exact Hop'|]. unfold SECTOR_SIZE in *. lia. }
  destruct (_ =? UBLK_IO_OP_FLUSH); split_all; auto; contradiction.
Qed.

Definition io_call (rq : disk_request) (len off : Z) : call :=
  if rq_op rq =? UBLK_IO_OP_READ then AsyncRead (Fixed BACKING_FD) (Some b) len off
  else AsyncWrite (Fixed BACKING_FD) (Some b) len off.

(** What the kernel does with the call, by [LoopHandler]. *)
Lemma io_call_stored rq s : pending rq s -> moves_data rq = true ->
  let '(r, d, out) := disk_step (rq_iod rq) 0 (dv_disk s) (rq_data rq) in
  let w := snd (ram_answer (io_call rq (request_bytes (rq_iod rq)) (request_off (rq_iod rq))) (dv_file s, dv_mem s)) in
  r = rq_bytes rq /\
  (forall sec a, 0 <= sec < sectors -> 0 <= a < SECTOR_SIZE -> fst w (SECTOR_SIZE * sec + a) = d sec a) /\
  (rq_op rq = UBLK_IO_OP_READ -> forall a, 0 <= a < r -> snd w (b + a) = out a) /\
  (forall a, ~ b <= a < b + max -> snd w a = dv_mem s a).
Proof.
  intros (Hr & Hv & n & Hn & Hs & Hd) Hm.
  pose proof (request_fits rq Hv) as (H1 & H2 & H3 & H4 & H5).
  pose proof buffer_bound as (_ & _ & Hmax).
  pose proof (disk_step_moved (rq_iod rq) (dv_disk s) (dv_mem s) (rq_data rq) Hd) as Hmove.
  pose proof (handle_io_step (B := ram_backing) info size lshift pshift Hsize ltac:(unfold max in Hmax; range)
    (rq_iod rq) b (dv_file s, dv_mem s) (dv_disk s) (dv_mem s) (valid_range _ _ Hv)
    ltac:(split; [exact (run_stored _ Hr)|reflexivity])) as Hstep.
  assert (fst (fst (disk_step (rq_iod rq) b (dv_disk s) (dv_mem s))) = rq_bytes rq) as Hres.
  { unfold moves_data, rq_op in Hm. unfold disk_step, rq_bytes.
    destruct (_ =? UBLK_IO_OP_READ); [reflexivity|]. cbn [orb] in Hm. rewrite Hm. reflexivity. }
  destruct (disk_step (rq_iod rq) b (dv_disk s) (dv_mem s)) as [[r1 d1] m1].
  destruct (disk_step (rq_iod rq) 0 (dv_disk s) (rq_data rq)) as [[r2 d2] out].
  destruct Hmove as (<- & Hd12 & Hout), Hstep as (w & Hrun & [Hf Hmem]). cbn [fst] in Hres. subst r1.
  assert (w = snd (ram_answer (io_call rq (request_bytes (rq_iod rq)) (request_off (rq_iod rq)))
                     (dv_file s, dv_mem s))) as ->.
  { revert Hrun Hm. unfold loop_handle_io, io_call, moves_data, rq_op.
    destruct (_ =? UBLK_IO_OP_READ); [cbn; congruence|]. cbn [orb]. intros Hrun E. rewrite E in Hrun. revert Hrun. cbn. congruence. }
  cbv zeta. split; [reflexivity|]. split; [intros; rewrite <- Hd12 by assumption; apply Hf; assumption|].
  split; [intros Hop a Ha; rewrite <- (Hout Hop a Ha); apply Hmem|].
  intros a Ha. unfold io_call. destruct (_ =? UBLK_IO_OP_READ); cbn; [|reflexivity].
  rewrite bool_decide_eq_false_2; [reflexivity|]. rewrite H2. lia.
Qed.

Lemma serve_request_ok rq s : pending rq s -> moves_data rq = true ->
  let c := io_call rq (request_bytes (rq_iod rq)) (request_off (rq_iod rq)) in
  tag_guar i s (serve_request i rq c s) /\ answerable rq (rq_bytes rq) (serve_request i rq c s).
Proof.
  intros Hp Hm c. pose proof (io_call_stored rq s Hp Hm) as H. unfold serve_request.
  destruct (disk_step _ _ _ _) as [[r d] out]. destruct H as (-> & Hf & Hout & Hfr).
  destruct Hp as ([Hst Hu Hbk Hbf] & Hv & n & Hn & _).
  set (s' := set_tag _ _ _).
  assert (running s') as Hr'.
  { split; [|exact Hu|exact Hbk|exact Hbf]. intros sec a Hs Ha. apply Hf; assumption. }
  split.
  - apply guar_frame; [auto| |reflexivity|exact Hfr].
    intros j Hj. cbn. rewrite decide_False by congruence. reflexivity.
  - split; [exact Hr'|]. split; [exact Hv|]. left. exists out. cbn. rewrite decide_True by reflexivity.
    split; [reflexivity|]. split; [apply (request_fits rq Hv)|exact Hout].
Qed.

(** The calls of a request that moves data. *)
Lemma transfer_pending rq s op c r : pending rq s -> rq_op rq = op ->
  transfer info size op (Fixed BACKING_FD) (Some b) (request_bytes (rq_iod rq)) (request_off (rq_iod rq)) c r s =
  match r with
  | AsyncOk v => if v =? rq_bytes rq then Next (serve_request i rq c s) else Beyond
  | AsyncErr ec =>
      if (op =? UBLK_IO_OP_READ) && bool_decide (0 < ec < 2 ^ 31)
      then Next (set_tag i (Served rq (- ec) (fun _ => 0)) s) else Beyond
  | AsyncStopped => Beyond
  end.
Proof.
  intros ([Hst Hu Hbk Hbf] & Hv & n & Hn & _) Hop.
  pose proof (request_fits rq Hv) as (H1 & H2 & H3 & H4 & H5).
  unfold transfer. cbn [option_bind mbind].
  assert (list_find (eq b) (dv_bufs s) = Some (i, b)) as ->.
  { rewrite Hbf. apply list_find_Some. split_all; [exact Hb|reflexivity|]. intros j c' Hj Hlt ->.
    destruct (bufs_apart _ Hbufs i j _ _ Hb Hj) as [Hne _]; [lia|contradiction]. }
  rewrite Hn, Hbk, H2. unfold max in *. rewrite bool_decide_eq_true_2 by (split_all; auto; lia). reflexivity.
Qed.

Definition served_as (rq : disk_request) (r : async_res) (s : device) : Prop :=
  match r with
  | AsyncOk v => 0 <= v <= max /\ answerable rq v s
  | AsyncErr ec => 0 < ec < 2 ^ 31 /\ answerable rq (- ec) s
  | AsyncStopped => False
  end.

#[local] Instance served_as_stable rq r : Proper (tag_rely i ==> impl) (served_as rq r).
Proof.
  intros s s' H. destruct r; cbn; [| |exact id]; intros [Hr Ha]; (split; [exact Hr|]);
    exact (answerable_stable _ _ _ _ H Ha).
Qed.

Lemma serves_data rq op s r : pending rq s -> rq_op rq = op -> moves_data rq = true ->
  goes_on (fun s2 => tag_guar i s s2 /\ served_as rq r s2)
    (transfer info size op (Fixed BACKING_FD) (Some b) (request_bytes (rq_iod rq)) (request_off (rq_iod rq))
       (io_call rq (request_bytes (rq_iod rq)) (request_off (rq_iod rq))) r s).
Proof.
  intros Hp Hop Hm. rewrite transfer_pending by assumption.
  pose proof (serve_request_ok rq s Hp Hm) as [Hg Ha].
  destruct Hp as (Hr & Hv & n & Hn & _). pose proof (request_fits rq Hv) as (_ & _ & _ & H4 & _).
  destruct r as [v|ec|]; [| |exact I].
  - destruct (Z.eqb_spec v (rq_bytes rq)) as [->|]; [|exact I]. split; [exact Hg|]. split; assumption.
  - destruct (_ =? UBLK_IO_OP_READ); [|exact I]. cbn [andb]. case_bool_decide as Hec; [|exact I].
    assert (running (set_tag i (Served rq (- ec) (fun _ => 0)) s)) as Hr' by (destruct Hr; split; assumption).
    split; [apply guar_frame; [auto| |reflexivity|reflexivity]|].
    + intros j Hj. cbn. rewrite decide_False by congruence. reflexivity.
    + split; [exact Hec|]. split; [exact Hr'|]. split; [exact Hv|]. left. exists (fun _ => 0).
      cbn [dv_tags set_tag]. rewrite decide_True by reflexivity. split; [reflexivity|]. split; lia.
Qed.

Lemma serves_flush rq s (r : async_res) flags : pending rq s -> rq_op rq = UBLK_IO_OP_FLUSH ->
  goes_on (fun s2 => tag_guar i s s2 /\ served_as rq r s2) (step s (AsyncFsync (Fixed BACKING_FD) flags) r).
Proof.
  intros (Hr & Hv & n & Hn & Hs & _) Hop. cbn [step loop_step].
  rewrite bool_decide_eq_true_2, (run_backing _ Hr) by reflexivity. cbn [andb].
  destruct r as [v| |]; try exact I. destruct (Z.eqb_spec v 0) as [->|]; [|exact I].
  assert (running (count_sync s)) as Hr' by (destruct Hr; split; assumption).
  pose proof buffer_bound as (_ & _ & Hm).
  split; [apply guar_frame; [auto|reflexivity|cbn; lia|reflexivity]|].
  split; [lia|]. split; [exact Hr'|]. split; [exact Hv|]. right. exists n. split; [exact Hn|].
  unfold moves_data, disk_step. change (ublksrv_get_op (rq_iod rq)) with (rq_op rq). rewrite Hop.
  split_all; auto. intros _. cbn. lia.
Qed.

(** What the handler completes with. *)
Definition handled_as (rq : disk_request) (c : completion io_value) (s : device) : Prop :=
  c <> Unfinished /\ answerable rq (fst (io_outcome c)) s.

#[local] Instance handled_as_stable rq c : Proper (tag_rely i ==> impl) (handled_as rq c).
Proof. intros s s' H [Hc Ha]. split; [exact Hc|]. exact (answerable_stable _ _ _ _ H Ha). Qed.

Lemma handled_served rq r s : served_as rq r s ->
  secure_tag (let! r := Done (lift_res r) in just (IoInt r)) s (handled_as rq).
Proof.
  pose proof buffer_bound as (_ & _ & Hm). change (2 ^ UBLK_IO_BUF_BITS) with 33554432 in Hm.
  intros Hs. destruct r as [v|ec|]; [| |contradiction]; cbn; intros s' H; apply (served_as_stable _ _ _ _ H) in Hs;
    destruct Hs as [Hv Ha]; (split; [discriminate|]); cbn; rewrite swrap_id by (reflexivity || range); exact Ha.
Qed.

Lemma secure_io (c : call) (f : reply c -> async_res) rq s :
  pending rq s ->
  (forall s1 r, pending rq s1 -> goes_on (fun s2 => tag_guar i s1 s2 /\ served_as rq (f r) s2) (step s1 c r)) ->
  secure_tag (let! r := trigger c (fun r => lift_res (f r)) in just (IoInt r)) s (handled_as rq).
Proof.
  intros Hp Hc. apply secure_let_value, secure_co_await; [apply _..|].
  apply secure_call with (P := pending rq) (P' := fun r => served_as rq (f r)); try (intros; apply _); auto.
  intros r s2 H. pose proof (handled_served rq (f r) s2 H) as Hs.
  destruct (f r) as [v|ec|]; [| |contradiction]; cbn in *; intros; apply Hs;
    repeat (assumption || (etransitivity; [eassumption|])).
Qed.

Lemma loop_io_secure rq s : pending rq s ->
  secure_tag (loop_handle_io (rq_iod rq) (Some b)) s (handled_as rq).
Proof.
  intros Hp. unfold loop_handle_io. cbv zeta. change (ublksrv_get_op (rq_iod rq)) with (rq_op rq).
  destruct (Z.eqb_spec (rq_op rq) UBLK_IO_OP_READ) as [Hop|Hr];
    [|destruct (Z.eqb_spec (rq_op rq) UBLK_IO_OP_WRITE) as [Hop|Hw];
    [|destruct (Z.eqb_spec (rq_op rq) UBLK_IO_OP_FLUSH) as [Hop|Hf]]].
  1: apply (secure_io (AsyncRead (Fixed BACKING_FD) (Some b) _ _) id).
  3: apply (secure_io (AsyncWrite (Fixed BACKING_FD) (Some b) _ _) id).
  1, 3: exact Hp.
  1, 2: intros s1 r H1; pose proof (serves_data rq _ s1 r H1 Hop) as H;
    unfold moves_data, io_call in H; rewrite Hop in H; exact (H eq_refl).
  - apply (secure_io (AsyncFsync (Fixed BACKING_FD) _) id); [exact Hp|]. intros s1 r H1. apply serves_flush; assumption.
  - intros s' H. apply (pending_stable _ _ _ H) in Hp. destruct Hp as (Hrun & Hv & n & Hn & _).
    split; [discriminate|]. split; [exact Hrun|]. split; [exact Hv|]. right. exists n. split; [exact Hn|].
    unfold moves_data, disk_step. change (ublksrv_get_op (rq_iod rq)) with (rq_op rq).
    destruct (Z.eqb_spec (rq_op rq) UBLK_IO_OP_READ); [contradiction|].
    destruct (Z.eqb_spec (rq_op rq) UBLK_IO_OP_WRITE); [contradiction|].
    destruct (Z.eqb_spec (rq_op rq) UBLK_IO_OP_FLUSH); [contradiction|].
    split_all; auto. contradiction.
Qed.

(** *** Fetching *)

Lemma deliver_ok s : running s ->
  tag_guar i s (deliver requests i b s) /\ pending (requests i (dv_count s i)) (deliver requests i b s).
Proof.
  intros [Hst Hu Hbk Hbf]. set (rq := requests i (dv_count s i)). pose proof (Hreq i (dv_count s i)) as Hv.
  fold rq in Hv. pose proof (request_fits rq Hv) as (_ & _ & _ & Hlen & _).
  assert (running (deliver requests i b s)) as Hr' by (split; assumption).
  split; [apply guar_frame; [auto| |reflexivity|]|].
  - intros j Hj. cbn. rewrite decide_False by congruence. reflexivity.
  - intros a Ha. cbn. fold rq. destruct (_ =? _); [|reflexivity]. cbn [andb].
    rewrite bool_decide_eq_false_2 by lia. reflexivity.
  - split; [exact Hr'|]. split; [exact Hv|]. exists (dv_syncs s). cbn. fold rq.
    rewrite decide_True by reflexivity. split; [reflexivity|]. split; [lia|].
    intros -> a Ha. rewrite Z.eqb_refl. cbn [andb]. rewrite bool_decide_eq_true_2 by lia. f_equal. lia.
Qed.

(** A fetching command: another request, or the end of the tag. *)
Definition refetched (c : completion Z) (s : device) : Prop :=
  match c with
  | SetValue v => v = UBLK_IO_RES_OK /\ (exists rq, pending rq s) \/ v < 0 /\ ended s
  | SetStopped => ended s
  | _ => False
  end.

#[local] Instance refetched_stable c : Proper (tag_rely i ==> impl) (refetched c).
Proof.
  intros s s' H. destruct c as [v|e| |]; cbn; [|exact id|exact (ended_stable _ _ H)|exact id].
  intros [[Hv (rq & Hp)]|[Hv He]]; [left; split; [exact Hv|]; exists rq; exact (pending_stable _ _ _ H Hp)|].
  right. split; [exact Hv|exact (ended_stable _ _ H He)].
Qed.

Lemma fetched_ok r s : running s ->
  goes_on (fun s2 => tag_guar i s s2 /\
    refetched (match lift_res r with SetError e => SetValue (- err_value e) | c => c end) s2)
    (fetched requests i b r s).
Proof.
  intros Hr.
  assert (tag_guar i s (set_tag i Ended s) /\ ended (set_tag i Ended s)) as [Hg He].
  { assert (running (set_tag i Ended s)) as Hr' by (destruct Hr; split; assumption). split.
    - apply guar_frame; [auto| |reflexivity|reflexivity]. intros j Hj. cbn. rewrite decide_False by congruence. reflexivity.
    - split; [exact Hr'|]. cbn. rewrite decide_True by reflexivity. reflexivity. }
  destruct r as [v|ec|]; cbn [fetched lift_res].
  - destruct (Z.eqb_spec v UBLK_IO_RES_OK) as [->|]; [|exact I]. destruct (deliver_ok s Hr) as [Hd Hp].
    split; [exact Hd|]. left. split; [reflexivity|eexists; exact Hp].
  - destruct (Z.ltb_spec 0 ec); [|exact I]. split; [exact Hg|]. right. cbn. split; [lia|exact He].
  - split; assumption.
Qed.

Lemma fetch_secure op res sqe (P : device -> Prop) s :
  Proper (tag_rely i ==> impl) P -> P s ->
  (forall s1, P s1 -> running s1) ->
  (forall s1 r, P s1 ->
     step s1 (UringIo fd op {| io_q_id := q_id; io_tag := tag; io_result := res; io_addr := b |} sqe) r =
     fetched requests i b r s1) ->
  is_u 64 sqe ->
  secure_tag (co_await (neg_error (io_cmd fd op q_id tag res b sqe))) s refetched.
Proof.
  intros HP Hs Hrun Hstep Hsqe. pose proof tag_bound as [_ Htag]. pose proof buffer_bound as (Hb0 & Hb1 & Hm).
  apply secure_co_await, secure_upon_error; [apply _..|]. unfold io_cmd.
  rewrite !uwrap_id by (assumption || range).
  apply secure_call with (P := P) (P' := fun r s' =>
    refetched (match lift_res r with SetError e => SetValue (- err_value e) | c => c end) s');
    [exact Hs|exact HP|intros; apply _| |].
  - intros s1 r H1. rewrite Hstep by exact H1. apply fetched_ok, Hrun, H1.
  - intros r s2 H. pose proof (fun s' Hs' => refetched_stable _ s2 s' Hs' H) as Hst.
    destruct r as [v|ec|]; cbn [lift_res secure just]; intros; apply Hst;
      repeat (assumption || (etransitivity; [eassumption|])).
Qed.

(** *** The worker *)

Lemma answers_ok rq res s : answerable rq res s -> answers i b res s = true.
Proof.
  intros (_ & _ & [(out & Ho & _ & Hd)|(n & Hn & Hm & Hres & Hf)]); unfold answers.
  - rewrite Ho, Z.eqb_refl. cbn [andb]. destruct (Z.eqb_spec (rq_op rq) UBLK_IO_OP_READ) as [Hop|]; [|reflexivity].
    apply forallb_forall. intros a Ha. apply list_elem_of_In, elem_of_seqZ in Ha. apply Z.eqb_eq, Hd; lia || exact Hop.
  - rewrite Hn, Hm, <- Hres, Z.eqb_refl. cbn [negb andb].
    destruct (Z.eqb_spec (rq_op rq) UBLK_IO_OP_FLUSH) as [Hop|]; [|reflexivity].
    apply Nat.ltb_lt, Hf, Hop.
Qed.

Definition worker_over (c : completion unit) (s : device) : Prop := c <> Unfinished -> ended s.

#[local] Instance worker_over_stable c : Proper (tag_rely i ==> impl) (worker_over c).
Proof. intros s s' H He Hc. exact (ended_stable _ _ H (He Hc)). Qed.

Lemma worker_over_done c s : worker_over c s -> secure_tag (Done c) s worker_over.
Proof. intros H s' Hs. exact (worker_over_stable _ _ _ Hs H). Qed.

Context (q : IoQueue).
Hypothesis Hq : queue_of q.

Let H : Handler := loop_handler backing_fd.

Lemma worker_addr : worker_buf_addr q tag = b.
Proof.
  unfold worker_buf_addr. rewrite (queue_buffers _ Hq). pose proof buffer_bound as (Hb0 & Hb1 & Hm).
  unfold get_buf_, tag. rewrite Nat2Z.id, Hb. destruct bufs; [discriminate|].
  cbn [ptr_u64]. apply uwrap_id. range.
Qed.

Lemma worker_sqe : worker_sqe_addr q tag = 0.
Proof. unfold worker_sqe_addr. rewrite (queue_flags _ Hq). rewrite (mode_auto _ Hmode). reflexivity. Qed.

(** After a fetching command the worker goes on with a request or ends. *)
Lemma fetched_secure k c s :
  refetched c s -> (forall rq s', pending rq s' -> secure_tag (inline H k) s' worker_over) ->
  then_secure step (tag_rely i) (tag_guar i)
    (fun r => inline H (let_value (get_data_if_needed q tag r) (fun r => check_fetched r k))) worker_over c s.
Proof.
  intros Hc Hk. destruct c as [v|e| |]; cbn [then_secure]; [|contradiction| |contradiction].
  2:{ apply worker_over_done. intros _. exact Hc. }
  assert (get_data_if_needed q tag v = just v) as ->.
  { unfold get_data_if_needed. destruct Hc as [[-> _]|[Hv _]]; [reflexivity|].
    destruct (Z.eqb_spec v UBLK_IO_RES_NEED_GET_DATA) as [->|]; [discriminate Hv|reflexivity]. }
  change (secure_tag (inline H (check_fetched v k)) s worker_over). unfold check_fetched.
  destruct Hc as [[-> (rq & Hp)]|[Hv He]]; [exact (Hk rq s Hp)|].
  destruct (v =? UBLK_IO_RES_ABORT); [|destruct (Z.ltb_spec v 0); [|lia]];
    apply worker_over_done; intros _; exact He.
Qed.

(** The handler under the worker's conversion of its completion. *)
Lemma wrapped_secure rq s : pending rq s ->
  secure_tag (inline H (wrap_handle_io (handle_io q_id tag (Some b)))) s
    (fun c s' => exists res lba, c = SetValue (res, lba) /\ answerable rq res s').
Proof.
  intros Hp. autorewrite with ublk_inline. unfold wrap_handle_io, then_.
  apply secure_let_value, secure_upon_error, secure_let_value, secure_stopped_as_error; [apply _..|].
  cbn [H loop_handler h_handle_io io_data_q_id io_data_tag io_data_buf]. apply secure_let_value; [apply _|].
  eapply secure_mono; [|apply secure_iod with (P := pending rq); [apply _|exact Hp|]]; cycle 1.
  { intros s1 (_ & _ & n & Hn & _). left. exists n. exact Hn. }
  intros c s1 [-> H1]. cbn [then_secure]. eapply secure_mono; [|apply loop_io_secure, H1].
  intros c s2 H2. pose proof (fun s' Hs' => handled_as_stable rq c s2 s' Hs' H2) as Hst.
  assert (forall s', tag_rely i s2 s' -> exists res lba, SetValue (io_outcome c) = SetValue (res, lba) /\
    answerable rq res s') as Hall.
  { intros s' Hs'. exists (fst (io_outcome c)), (snd (io_outcome c)). rewrite <- surjective_pairing.
    split; [reflexivity|apply Hst, Hs']. }
  destruct c as [v|e| |]; [| | |destruct H2; contradiction]; cbn [secure then_secure just];
    intros; apply Hall; repeat (assumption || (etransitivity; [eassumption|])).
Qed.

Lemma need_io_buf_none rq : valid_request p rq -> need_io_buf (flags_ q) (iod_op_flags (rq_iod rq)) = false.
Proof.
  intros [_ _ Hreg]. unfold need_io_buf. rewrite Hreg. rewrite (queue_flags _ Hq).
  pose proof (mode_alloc _ Hmode) as Ha. unfold need_alloc_buf in Ha. rewrite has_lor_flag in Ha.
  destruct (has (info_flags info) UBLK_F_SUPPORT_ZERO_COPY); [discriminate|reflexivity].
Qed.

(** A fetching command of the worker, and what follows it. *)
Lemma fetch_then_secure op res sqe k (P : device -> Prop) s :
  Proper (tag_rely i ==> impl) P -> P s -> (forall s1, P s1 -> running s1) ->
  (forall s1 r, P s1 ->
     step s1 (UringIo fd op {| io_q_id := q_id; io_tag := tag; io_result := res; io_addr := b |} sqe) r =
     fetched requests i b r s1) ->
  is_u 64 sqe -> (forall rq s', pending rq s' -> secure_tag (inline H k) s' worker_over) ->
  secure_tag (inline H (let! r := neg_error (io_cmd fd op q_id tag res b sqe) in
                        let_value (get_data_if_needed q tag r) (fun r => check_fetched r k))) s worker_over.
Proof.
  intros HP Hs Hrun Hstep Hsqe Hk. rewrite inline_let_value, inline_co_await, inline_neg_error.
  apply secure_let_value; [apply _|]. eapply secure_mono; [|eapply fetch_secure; eassumption].
  intros c s' Hc. apply fetched_secure; assumption.
Qed.

Lemma tag_step_eq s op res sqe r : running s ->
  step s (UringIo fd op {| io_q_id := q_id; io_tag := tag; io_result := res; io_addr := b |} sqe) r =
  if bool_decide (op = UBLK_U_IO_FETCH_REQ) then
    match dv_tags s i with Unused => fetched requests i b r s | _ => Breach end
  else if bool_decide (op = UBLK_U_IO_COMMIT_AND_FETCH_REQ) then
    if answers i b res s then fetched requests i b r s else Breach
  else Breach.
Proof.
  intros [_ Hu _ Hbf]. cbn [step loop_step io_tag io_q_id io_addr io_result]. unfold tag. rewrite Nat2Z.id.
  pose proof tag_bound as [Hi _]. rewrite Hbf, bool_decide_eq_true_2 by auto. reflexivity.
Qed.

Lemma loop_secure fuel : forall rq s, pending rq s -> secure_tag (inline H (worker_loop q tag fuel)) s worker_over.
Proof.
  induction fuel as [|fuel IH]; intros rq s Hp; [apply worker_over_done; intros []; reflexivity|].
  pose proof (proj1 (proj2 Hp)) as Hv. cbn [worker_loop]. rewrite (queue_id _ Hq), (queue_fd _ Hq), (queue_buffers _ Hq).
  rewrite inline_let_value. apply secure_let_value; [apply _|].
  eapply secure_mono; [|apply secure_iod with (P := pending rq); [apply _|exact Hp|]]; cycle 1.
  { intros s1 (_ & _ & n & Hn & _). left. exists n. exact Hn. }
  intros c s1 [-> H1]. cbn [then_secure]. cbv zeta. rewrite (need_io_buf_none rq Hv).
  change (let_value (co_await (just 0)) ?f) with (f 0). cbv beta.
  assert (get_buf_ bufs tag = Some b) as ->.
  { unfold get_buf_, tag. rewrite Nat2Z.id. destruct bufs; [discriminate|exact Hb]. }
  rewrite inline_let_value, inline_co_await. apply secure_let_value, secure_co_await; [apply _..|].
  eapply secure_mono; [|apply wrapped_secure, H1]. intros c s2 (res & lba & -> & H2).
  change (let_value (co_await (just 0)) ?f) with (f 0). cbv beta.
  intros s3 H3. apply (answerable_stable _ _ _ _ H3) in H2. clear s2 H3. cbn [then_secure].
  rewrite inline_let_value. apply secure_let_value; [apply _|].
  eapply secure_mono; [|apply secure_iod with (P := answerable rq res); [apply _|exact H2|]]; cycle 1.
  { intros s4 (_ & _ & [(out & Ho & _)|(n & Hn & _)]); eauto. }
  intros c s4 [-> H4]. cbn [then_secure]. cbv zeta. change (ublksrv_get_op (rq_iod rq)) with (rq_op rq).
  destruct (Z.eqb_spec (rq_op rq) UBLK_IO_OP_ZONE_APPEND) as [E|_]; [destruct (valid_op _ _ Hv E)|].
  rewrite worker_addr, worker_sqe.
  apply fetch_then_secure with (P := answerable rq res); [apply _|exact H4|intros s5 H5; apply H5| |range|exact IH].
  intros s5 r H5. rewrite tag_step_eq, (answers_ok _ _ _ H5) by apply H5. reflexivity.
Qed.

Lemma worker_secure fuel s : running s -> dv_tags s i = Unused ->
  secure_tag (inline H (worker_ q tag fuel)) s worker_over.
Proof.
  intros Hr Ht. unfold worker_. rewrite (queue_id _ Hq), (queue_fd _ Hq), worker_addr, worker_sqe.
  apply fetch_then_secure with (P := fun s => running s /\ dv_tags s i = Unused);
    [|auto|intros s1 H1; apply H1| |range|exact (loop_secure fuel)].
  - intros s1 s2 [R T _ _] [H1 H2]. split; [auto|congruence].
  - intros s1 r [H1 H2]. rewrite tag_step_eq, H2 by exact H1. reflexivity.
Qed.
End Tag.

(** ** The workers together *)

Lemma running_rely s s' : rely_all tag_rely s s' -> running s -> running s'.
Proof. intros Hs. apply (Hs O). Qed.

Lemma running_guar i s s' : tag_guar i s s' -> running s -> running s'.
Proof. intros [H _ _ _]. exact H. Qed.

Definition loop_workers (q : IoQueue) (fuel : nat) : list (task unit) :=
  map (fun tag => inline (loop_handler backing_fd) (worker_ q tag fuel)) (all_tags (queue_depth_ q)).

(** The workers of a queue that shares the device with others. *)
Lemma queue_rely_tags s s' : queue_rely s s' -> rely_all tag_rely s s'.
Proof.
  intros [Hst Hb Ht Hs Hu Hk Hm] i. split; auto.
  - intros []. split; auto; congruence.
  - intros Hr b a Hi Ha. apply (Hm b); [|exact Ha]. rewrite (run_bufs _ Hr). eapply list_elem_of_lookup_2, Hi.
Qed.

Lemma queue_guar_tags s s' : guar_all tag_guar running s s' -> queue_guar s s'.
Proof.
  intros [Hr (i & [Hrun _ Hs Hm])]. split; [|exact Hs|].
  - intros _. apply Hrun, Hr.
  - intros a Ha. apply Hm. rewrite <- (run_bufs _ Hr). exact Ha.
Qed.

Lemma workers_run_steady q fuel sched s :
  queue_of q -> queue_depth_ q = info_queue_depth info -> running s -> (forall i, dv_tags s i = Unused) ->
  steady step queue_rely queue_guar (let_value (concurrently sched (loop_workers q fuel)) (fun ps =>
      match join_all ps with
      | Some cs => rethrow_first (worker_errors cs)
      | None => Done Unfinished
      end)) s (fun c s' => running s' /\ (c <> Unfinished -> at_rest info s' = true)).
Proof.
  intros Hq Hd Hr Ht. apply steady_let_value; [apply _|].
  apply (secure_mono step _ _) with (Q := fun c s' => exists ps, c = SetValue ps /\
    length ps = length (loop_workers q fuel) /\ running s' /\
    tasks_secure step tag_rely tag_guar (fun i => worker_over i) ps s'); cycle 1.
  { apply (secure_weaken step (rely_all tag_rely) (guar_all tag_guar running));
      [exact queue_rely_tags|exact queue_guar_tags|].
    apply (secure_concurrently step tag_rely tag_guar tag_guar_rely running
      running_rely running_guar (fun i => worker_over i)); [exact Hr|].
    intros i p0 Hi. unfold loop_workers in Hi. rewrite list_lookup_fmap in Hi.
    destruct (all_tags _ !! i) as [tag|] eqn:E; [|discriminate]. injection Hi as <-.
    apply all_tags_lookup in E as [-> Hlt]. rewrite Hd in Hlt. fold depth in Hlt.
    destruct (lookup_lt_is_Some_2 bufs i) as [b Hb]; [rewrite (bufs_length _ Hbufs); exact Hlt|].
    eapply worker_secure; eauto. }
  intros c s' (ps & -> & Hlen & Hr' & Hps). exists s'. split; [reflexivity|]. cbv beta iota.
  destruct (join_all ps) as [cs|] eqn:E.
  2:{ apply steady_done. split; [exact Hr'|]. intros []. reflexivity. }
  assert (at_rest info s' = true) as Hrest.
  { apply at_rest_all. intros i Hi. unfold loop_workers, all_tags in Hlen.
    rewrite length_map, length_seqZ, Hd in Hlen. fold depth in Hlen.
    destruct (lookup_lt_is_Some_2 ps i) as [p0 Hp]; [lia|].
    destruct (join_all_done _ _ _ _ E Hp) as (c1 & -> & Hc).
    destruct (Hps i _ Hp s' ltac:(reflexivity) Hc) as [_ ->]. reflexivity. }
  destruct (worker_errors cs); apply steady_done; auto.
Qed.
End Workers.
