(* ===== verification/LoopServe.v ===== *)
(** * LoopServe: the loop server's queue is a disk

    [run_dev] with the handler of [src/examples/loop.cpp], from the queue's
    constructor to its destructor, against the specification of [LoopDevice]:
    whatever the schedule of its workers, the queue is a disk. *)

From S2P Require Import Prelude Effects Protocol Rely UblkCmd Utils Sys Ledger Raw IoResult TagProtocol Queue BatchLayout BatchObject IoDev Handler LoopHandler LoopDevice.

#[local] Open Scope Z_scope.

(** ** The queue *)

Section Queue.
Context (info : ublksrv_ctrl_dev_info) (size lshift pshift ublkc_fd backing_fd q_id : Z).
Context (requests : nat -> nat -> disk_request).
Hypothesis Hsize : is_u 64 size.
Hypothesis Hmode : loop_mode info.
Hypothesis Hqid : is_u 16 q_id.
Hypothesis Hfd : ublkc_fd <> -1.
Hypothesis Hbacking : backing_fd <> -1.
Hypothesis Hreq : forall i n,
  valid_request (prep_params info (size / SECTOR_SIZE) lshift pshift) (requests i n).

Let max : Z := info_max_io_buf_bytes info.
Let depth : nat := Z.to_nat (info_queue_depth info).
Let step := loop_step info size ublkc_fd backing_fd q_id requests.
(** The queue beside the others of its device. *)
Let rely := queue_rely info size.
Let guar := queue_guar info size.
Let steady_step {A} := steady step rely guar (A := A).
Let s_done {A} := steady_done step rely guar (A := A).
Let s_mono {A} := steady_mono step rely guar (A := A).
Let s_call {A} := steady_call step rely guar (A := A).
Let s_let_value {A B} := steady_let_value step rely guar (rely_preorder := queue_rely_preorder info size) (A := A) (B := B).
Let s_co_await {A} := steady_co_await step rely guar (rely_preorder := queue_rely_preorder info size) (A := A).
Let s_defer {A} := steady_defer step rely guar (rely_preorder := queue_rely_preorder info size) (A := A).

(** Outside the workers' run: the buffers and the descriptor held. *)
Record resting (l : list Z) (o : option fdref) (s : device) : Prop := {
  rest_stored : stored size s;
  rest_tags : at_rest info s = true;
  rest_bufs : dv_bufs s = l;
  rest_ublkc : dv_ublkc s = o;
  rest_backing : dv_backing s = false;
}.

(** Before it. *)
Record ready (l : list Z) (o : option fdref) (s : device) : Prop := {
  ready_resting : resting l o s;
  ready_tags : forall i, dv_tags s i = Unused;
}.

Lemma ready_bufs l l' o s : ready l o s -> ready l' o (set_bufs l' s).
Proof. intros [[] Ht]. split; [split; auto|exact Ht]. Qed.

Lemma at_rest_same s s' : (forall i, dv_tags s' i = dv_tags s i) -> at_rest info s' = at_rest info s.
Proof. intros H. unfold at_rest. induction (seq _ _) as [|i l IH]; cbn [forallb]; [reflexivity|]. rewrite H, IH. reflexivity. Qed.

#[local] Instance resting_stable l o : Proper (rely ==> impl) (resting l o).
Proof.
  intros s s' H [H1 H2 H3 H4 H5]. pose proof (at_rest_same s s' (others_tags _ _ _ _ H)). destruct H.
  split; [auto|congruence..].
Qed.

#[local] Instance ready_stable l o : Proper (rely ==> impl) (ready l o).
Proof.
  intros s s' H [Hr Ht]. split; [exact (resting_stable _ _ _ _ H Hr)|]. intros i. rewrite (others_tags _ _ _ _ H). apply Ht.
Qed.

(** A step that only concerns the queue's own descriptors and buffers. *)
Lemma guar_own s s' :
  dv_disk s' = dv_disk s -> dv_file s' = dv_file s -> dv_mem s' = dv_mem s -> dv_syncs s' = dv_syncs s -> guar s s'.
Proof.
  intros Hd Hf Hm Hs. split; [|lia|intros; rewrite Hm; reflexivity]. unfold stored. rewrite Hd, Hf. exact id.
Qed.

Lemma free_bufs_steady page l o : forall s, resting l o s ->
  steady_step (free_bufs max page l) s (fun c s' => c = SetValue tt /\ resting [] o s').
Proof.
  induction l as [|b l IH]; intros s Hs; cbn [free_bufs]; [apply s_done; auto|].
  apply s_let_value. apply s_call. intros s1 [] H1. apply (resting_stable _ _ _ _ H1) in Hs.
  destruct Hs as [Hst Ht Hb Ho Hk].
  cbn [step loop_step]. rewrite Hb, Z.eqb_refl, Ht. cbn [andb goes_on id].
  split; [apply guar_own; reflexivity|]. apply IH. split; auto.
Qed.

Lemma cleanup_steady page q o s :
  max_io_buf_bytes_ q = max -> resting (buf_bases_ q) o s ->
  steady_step (IoQueue_cleanup_ page q) s (fun c s' => (exists q', c = SetValue q') /\ resting [] o s').
Proof.
  intros Hm Hs. unfold IoQueue_cleanup_. rewrite Hm. apply s_let_value.
  eapply s_mono; [|apply free_bufs_steady, Hs]. intros c s' [-> Hr]. cbv beta iota.
  destruct (iod_base_ (set_buf_bases [] q)); [|apply s_done; eauto].
  apply s_let_value. apply s_call. intros s1 [] H1. cbn [step loop_step].
  apply (resting_stable _ _ _ _ H1) in Hr. rewrite (rest_tags _ _ _ Hr).
  split; [apply guar_own; reflexivity|]. apply s_done. eauto.
Qed.

(** The buffers allocated so far. *)
Record blocks (l : list Z) : Prop := {
  blocks_range : forall i b, l !! i = Some b -> 0 <= b /\ b + max < 2 ^ 64;
  blocks_apart : forall i j b c, l !! i = Some b -> l !! j = Some c -> i <> j ->
    b <> c /\ (b + max <= c \/ c + max <= b);
}.

Lemma blocks_nil : blocks [].
Proof. split; intros; discriminate. Qed.

Lemma blocks_snoc l p : blocks l -> fresh_block info p l -> blocks (l ++ [p]).
Proof.
  intros [Hr Ha] (Hp0 & Hp1 & Hf). rewrite Forall_lookup in Hf.
  assert (forall i b, (l ++ [p]) !! i = Some b -> l !! i = Some b \/ i = length l /\ b = p) as Hl.
  { intros i b Hi. apply lookup_app_Some in Hi as [Hi|[Hle Hi]]; [auto|].
    apply list_lookup_singleton_Some in Hi as [Hi <-]. right. split; [lia|reflexivity]. }
  split.
  - intros i b Hi. destruct (Hl i b Hi) as [H|[_ ->]]; [eauto|auto].
  - intros i j b c Hi Hj Hne. destruct (Hl i b Hi) as [Hi'|[-> ->]], (Hl j c Hj) as [Hj'|[-> ->]].
    + eauto.
    + destruct (Hf i b Hi') as [H1 H2]. unfold max in *. split; [congruence|lia].
    + destruct (Hf j c Hj') as [H1 H2]. unfold max in *. split; [exact H1|lia].
    + congruence.
Qed.

Lemma alloc_bufs_steady page n o : forall l s, ready l o s -> blocks l ->
  steady_step (alloc_bufs max page n l) s (fun c s' => exists l' e, c = SetValue (l', e) /\
    ready l' o s' /\ blocks l' /\ (e = None -> length l' = (length l + n)%nat)).
Proof.
  induction n as [|n IH]; intros l s Hs Hl; cbn [alloc_bufs].
  { apply s_done. exists l, None. split_all; auto. }
  apply s_let_value. apply s_call. intros s0 r H0. apply (ready_stable _ _ _ _ H0) in Hs. cbn [step loop_step].
  rewrite Z.eqb_refl. pose proof (rest_bufs _ _ _ (ready_resting _ _ _ Hs)) as Hb.
  destruct r as [p|]; cbn [goes_on].
  - case_bool_decide as Hf; [|exact I]. cbn [goes_on]. rewrite Hb in *.
    split; [apply guar_own; reflexivity|].
    eapply s_mono; [|apply IH; [eapply ready_bufs, Hs|apply blocks_snoc; assumption]].
    intros c s' (l' & e & -> & Hr & Hbl & Hlen). exists l', e. split_all; auto.
    intros He. rewrite (Hlen He), length_app. cbn. lia.
  - split; [apply guar_own; reflexivity|]. apply s_done. exists l, (Some BadAlloc). split_all; auto. discriminate.
Qed.

(** A queue of the device, constructed. *)
Record constructed (fd : fdref) (q : IoQueue) : Prop := {
  con_queue : queue_of info q_id fd (buf_bases_ q) q;
  con_depth : queue_depth_ q = info_queue_depth info;
  con_max : max_io_buf_bytes_ q = max;
  con_handler : queue_handler q = true;
  con_bufs : buffers_ok info (buf_bases_ q);
}.

Lemma ctor_steady page fd o s : ready [] o s ->
  steady_step (IoQueue_ctor page fd ublkc_fd q_id (info_flags info) (info_queue_depth info) max true) s
    (fun c s' => match c with
                 | SetValue q => ready (buf_bases_ q) o s' /\ constructed fd q
                 | SetError _ => resting [] o s'
                 | _ => False
                 end).
Proof.
  intros Hs. unfold IoQueue_ctor, guarded_ctor, IoQueue_init. cbn [q_id_ queue_depth_ flags_ max_io_buf_bytes_].
  apply s_let_value. apply s_let_value. apply s_call. intros s0 r H0.
  apply (ready_stable _ _ _ _ H0) in Hs. clear H0 s. rename s0 into s.
  cbn [step loop_step]. rewrite bool_decide_eq_true_2 by auto. cbn [goes_on].
  split; [apply guar_own; reflexivity|].
  assert (forall (q : IoQueue) x s', max_io_buf_bytes_ q = max -> resting (buf_bases_ q) o s' ->
    steady_step (let_value (IoQueue_cleanup_ page q) (fun _ => throw x)) s'
      (fun (c : completion IoQueue) s' => match c with
                   | SetValue q => ready (buf_bases_ q) o s' /\ constructed fd q
                   | SetError _ => resting [] o s'
                   | _ => False
                   end)) as Hfail.
  { intros q x s' Hm Hr. apply s_let_value.
    eapply s_mono; [|apply cleanup_steady; eassumption]. intros c s1 [[q' ->] H1]. apply s_done, H1. }
  destruct r as [a|errno]; cbn [flags_ set_iod_base queue_depth_ max_io_buf_bytes_].
  2:{ apply s_done, Hfail; [reflexivity|]. cbn. apply (ready_resting _ _ _ Hs). }
  rewrite (mode_alloc _ Hmode). apply s_let_value.
  eapply s_mono; [|apply alloc_bufs_steady; [exact Hs|exact blocks_nil]].
  intros c s1 (l & e & -> & Hl & Hb & Hlen). cbv beta iota.
  apply s_done. destruct e as [x|].
  - apply Hfail; [reflexivity|]. apply (ready_resting _ _ _ Hl).
  - apply s_done. split; [exact Hl|]. split; try reflexivity; [split; reflexivity|].
    destruct Hb as [Hb1 Hb2]. cbn [buf_bases_ set_buf_bases]. split; [exact (Hlen eq_refl)|exact Hb1|exact Hb2].
Qed.

(** What holds of every run, and of one that has come to its end. *)
Definition over (l : list Z) (o : option fdref) (c : completion unit) (s : device) : Prop :=
  stored size s /\ (c <> Unfinished -> resting l o s).

Lemma over_resting l o c s : resting l o s -> over l o c s.
Proof. intros H. split; [apply H|auto]. Qed.

Lemma over_unfinished l l' o o' c s : over l o c s -> over l' o' Unfinished s.
Proof. intros [H _]. split; [exact H|]. intros []. reflexivity. Qed.

(** [run]: the backing file is registered around the workers. *)
Lemma serve_steady fuel sched fd q s :
  constructed fd q -> ready (buf_bases_ q) (Some fd) s ->
  steady_step (IoQueue_serve (loop_handler backing_fd) fuel sched q) s (over (buf_bases_ q) (Some fd)).
Proof.
  intros [Hq Hd Hm Hh Hb] [[Hst Hr Hbf Ho Hk] Ht]. unfold IoQueue_serve. cbv zeta. rewrite Hh.
  cbn [loop_handler h_init_queue h_destroy_queue]. apply s_let_value, s_co_await. unfold init_queue.
  apply s_let_value, s_call. intros s1 r H1.
  assert (ready (buf_bases_ q) (Some fd) s) as Hs by (split; [split; assumption|exact Ht]).
  apply (ready_stable _ _ _ _ H1) in Hs. clear Hst Hr Hbf Ho Hk Ht H1 s.
  destruct Hs as [[Hst Hr Hbf Ho Hk] Ht]. rename s1 into s. cbn [step loop_step].
  destruct (Z.eqb_spec backing_fd (-1)); [contradiction|].
  change (BACKING_FD =? UBLKC_FD) with false. cbn [andb]. rewrite !Z.eqb_refl. cbn [andb].
  assert (forall s, resting (buf_bases_ q) (Some fd) s -> (r =? 1) = false ->
    steady_step (if negb (r =? 1) then throw (SystemError (- r)) else just tt) s
      (fun c s' => match c with SetError e => over (buf_bases_ q) (Some fd) (SetError (ErrPtr (as_except_ptr e))) s'
                              | _ => False end)) as Hfail.
  { intros s1 H1 ->. apply s_done, over_resting, H1. }
  destruct (r =? 1) eqn:Er; cbn [goes_on negb].
  2:{ destruct (r <=? 0); [|exact I]. split; [apply guar_own; reflexivity|].
      eapply s_mono; [|apply Hfail; [split; assumption|reflexivity]]. intros [] s' H; exact H || contradiction. }
  split; [apply guar_own; reflexivity|]. apply s_done. apply s_defer. eapply s_mono; cycle 1.
  { eapply (workers_run_steady info size lshift pshift ublkc_fd backing_fd q_id requests Hsize Hmode Hqid Hreq
      fd (buf_bases_ q) Hb q fuel sched); [exact Hq|exact Hd|split; cbn; auto|exact Ht]. }
  intros c s' [[Hst' Ho' Hk' Hb'] Hrest].
  assert (c <> Unfinished -> steady_step (destroy_queue (q_id_ q)) s' (fun cd s'' =>
    match cd with Unfinished => over (buf_bases_ q) (Some fd) Unfinished s'' | _ => over (buf_bases_ q) (Some fd) c s'' end)) as Hdone.
  { intros Hc. apply s_call. intros s1 r' H1. cbn [step loop_step].
    pose proof (at_rest_same s' s1 (others_tags _ _ _ _ H1)) as Hr1. rewrite (Hrest Hc) in Hr1.
    rewrite Hr1. split; [apply guar_own; reflexivity|]. apply over_resting. destruct H1.
    split; [auto|exact Hr1|cbn; congruence..|reflexivity]. }
  destruct c; try (apply Hdone; discriminate). split; [exact Hst'|]. intros []. reflexivity.
Qed.

(** A queue from its constructor to its destructor. *)
Lemma serve_queue_steady page fuel scheds fd s :
  ready [] (Some fd) s ->
  steady_step (serve_queue (D := loop_queue_class page backing_fd fuel scheds) fd ublkc_fd q_id
                (info_flags info) (info_queue_depth info) max) s (over [] (Some fd)).
Proof.
  intros Hs. unfold serve_queue. apply s_let_value. eapply s_mono; [|apply ctor_steady, Hs].
  intros c s1 H1. destruct c as [q|e| |]; [|apply over_resting, H1|contradiction..].
  destruct H1 as [Hr Hc]. apply s_defer, s_co_await. cbn [dq_run dq_delete loop_queue_class].
  eapply s_mono; [|eapply serve_steady; eassumption].
  assert (forall (c c' : completion unit) s', c <> Unfinished -> over (buf_bases_ q) (Some fd) c s' ->
    steady_step (IoQueue_dtor page q) s' (fun cd s'' =>
      match cd with Unfinished => over [] (Some fd) Unfinished s'' | _ => over [] (Some fd) c' s'' end)) as Hd.
  { intros c c' s' Hne [Hst Hrest]. unfold IoQueue_dtor, then_. apply s_let_value.
    eapply s_mono; [|apply cleanup_steady; [apply Hc|apply Hrest, Hne]].
    intros c0 s2 [[q' ->] H2]. apply s_done, over_resting, H2. }
  intros [[]|e| |] s' H; try (eapply Hd; [|exact H]; discriminate).
  exact (over_unfinished _ _ _ _ _ _ H).
Qed.

(** The file holds the disk, and a run that has come to its end holds nothing. *)
Definition given_back (c : completion unit) (s : device) : Prop :=
  stored size s /\ (c <> Unfinished -> exists o, (o = None \/ o = Some (Fd ublkc_fd)) /\ resting [] o s).

#[global] Instance given_back_stable c : Proper (rely ==> impl) (given_back c).
Proof.
  intros s s' H [Hst Hr]. split; [exact (others_stored _ _ _ _ H Hst)|]. intros Hc.
  destruct (Hr Hc) as (o & Ho & Hrest). exists o. split; [exact Ho|exact (resting_stable _ _ _ _ H Hrest)].
Qed.

Lemma run_dev_steady page fuel scheds {Q2} {BQ : DeviceQueue Q2} s :
  ready [] None s ->
  steady_step (io_run_dev (IQ := loop_queue_class page backing_fd fuel scheds) ublkc_fd q_id info) s given_back.
Proof.
  intros Hs. pose proof (ready_resting _ _ _ Hs) as Hr. unfold io_run_dev.
  destruct (_ <=? q_id); [apply s_done; split; [apply Hr|eauto]|].
  assert (check_buffer_table info = just tt) as ->.
  { unfold check_buffer_table. rewrite has_lor_flag, (mode_auto _ Hmode).
    pose proof (mode_alloc _ Hmode) as Ha. unfold need_alloc_buf in Ha. rewrite has_lor_flag in Ha.
    destruct (has (info_flags info) UBLK_F_SUPPORT_ZERO_COPY); [discriminate|reflexivity]. }
  cbv zeta. change (let_value (just tt) ?f) with (f tt). cbv beta.
  apply s_let_value, s_call. intros s1 r H1. apply (ready_stable _ _ _ _ H1) in Hs. clear H1 Hr s. rename s1 into s.
  cbn [step loop_step].
  destruct (Z.eqb_spec ublkc_fd (-1)); [contradiction|]. rewrite !Z.eqb_refl. cbn [andb goes_on].
  split; [apply guar_own; reflexivity|].
  rewrite (mode_single _ Hmode). set (fd := if 0 <=? r then Fixed UBLKC_FD else Fd ublkc_fd).
  replace (if r <? 0 then _ else _) with fd
    by (unfold fd; destruct (Z.ltb_spec r 0), (Z.leb_spec 0 r); lia || reflexivity).
  apply s_defer. eapply s_mono; [|apply serve_queue_steady with (fd := fd)]; cycle 1.
  { destruct Hs as [[] Ht]. split; [split; auto|exact Ht]. }
  intros c s' [Hst Hrest].
  assert (c <> Unfinished -> steady_step (if 0 <=? r then perform (FdTableUpdate UBLKC_FD (-1)) (fun _ => tt) else just tt) s'
    (fun cd s'' => forall c' : completion unit, given_back c' s'')) as Hd.
  { intros Hc. specialize (Hrest Hc). destruct (0 <=? r) eqn:E.
    - apply s_call. intros s1 r' H1. apply (resting_stable _ _ _ _ H1) in Hrest. cbn [step loop_step].
      rewrite (rest_tags _ _ _ Hrest). cbn [goes_on]. split; [apply guar_own; reflexivity|].
      clear H1. intros c'. destruct Hrest as [H1 H2 H3 H4 H5]. split; [exact H1|]. intros _. exists None.
      split; [left; reflexivity|split; auto].
    - apply s_done. intros c'. split; [exact Hst|]. intros _. exists (Some fd). unfold fd. split; [right; reflexivity|exact Hrest]. }
  destruct c as [[]|e| |]; [| | |split; [exact Hst|intros []; reflexivity]];
    (eapply s_mono; [|apply Hd; discriminate]); intros [] s'' H; apply H.
Qed.
End Queue.

(** ** Theorem *)

(** C6: a queue served by the loop server is a disk.  For every driver that
    delivers valid requests, every kernel that completes the transfers to and
    from the backing file (reads may fail), every schedule of the queue's
    workers and every failure of the set-up, the calls of [run_dev] with the
    loop handler, from the queue's constructor to its destructor, are those
    the specification allows: the disk serves each request in one step, at a
    call made between its delivery and its answer; the answer is the disk's
    result, and the buffer the driver copies from holds the data the disk read;
    a flush is answered after a flush has reached the file; transfers stay
    inside the buffers and the file, on the registered file; no buffer is
    freed and no descriptor unregistered while a request is with the server.
    At every point the file holds the disk, and when [run_dev] completes
    nothing is held. *)
Theorem loop_queue_is_disk (K : env) info size lshift pshift ublkc_fd backing_fd q_id requests
    page fuel scheds (d : disk) (f m : Z -> Z) {Q2} {BQ : DeviceQueue Q2} :
  is_u 64 size -> loop_mode info -> is_u 16 q_id -> ublkc_fd <> -1 -> backing_fd <> -1 ->
  (forall i n, valid_request (prep_params info (size / SECTOR_SIZE) lshift pshift) (requests i n)) ->
  stored size (device_new d f m) ->
  let '(c, t) := exec K (io_run_dev (IQ := loop_queue_class page backing_fd fuel scheds) ublkc_fd q_id info) [] in
  goes_on (fun s => stored size s /\
      (c <> Unfinished -> exists o, (o = None \/ o = Some (Fd ublkc_fd)) /\ resting info size [] o s))
    (follows (loop_step info size ublkc_fd backing_fd q_id requests) (device_new d f m) t).
Proof.
  intros Hs Hm Hq Hu Hb Hr Hst.
  assert (ready info size [] None (device_new d f m)) as Hready.
  { split; [split; auto; apply at_rest_all; intros; reflexivity|intros; reflexivity]. }
  pose proof (run_dev_steady info size lshift pshift ublkc_fd backing_fd q_id requests Hs Hm Hq Hu Hb Hr
    page fuel scheds (BQ := BQ) _ Hready) as H.
  apply steady_alone in H; [|apply _|intros; apply _].
  destruct (alone_exec _ K _ _ _ [] H) as (t & Ht & HQ).
  destruct (exec K _ []) as [c h]. cbn [fst snd] in *. rewrite Ht. exact HQ.
Qed.

(** *** A driver and a kernel *)

(** The commands issued for a tag, and the buffers allocated. *)
Definition fetches_of (t : Z) (h : history) : nat :=
  length (List.filter (fun e => match projT1 e with UringIo _ _ cmd _ => io_tag cmd =? t | _ => false end) h).

Definition allocations (h : history) : nat :=
  length (List.filter (fun e => match projT1 e with AllocAligned _ _ => true | _ => false end) h).

(** [limit] requests for each tag, then the end of the queue. *)
Definition loop_kernel (requests : nat -> nat -> disk_request) (limit : nat) : env := fun h c =>
  match c return reply c -> reply c with
  | UringIo _ _ cmd _ => fun _ =>
      if (fetches_of (io_tag cmd) h <? limit)%nat then AsyncOk UBLK_IO_RES_OK else AsyncErr ENODEV
  | ReadIod _ t => fun _ => rq_iod (requests (Z.to_nat t) (pred (fetches_of t h)))
  | AsyncRead _ _ len _ | AsyncWrite _ _ len _ => fun _ => AsyncOk len
  | AllocAligned bytes _ => fun _ => Some (4096 + Z.of_nat (allocations h) * bytes)
  | FdTableUpdate _ _ => fun _ => 1
  | _ => id
  end (ok_reply c).

Definition small_info : ublksrv_ctrl_dev_info := prep_dev_info 0 1 2 1024 0.

(** Tag 0 writes sectors 2 and 3 and flushes; tag 1 reads them, twice. *)
Definition small_requests (i n : nat) : disk_request :=
  match i, n with
  | O, O => {| rq_iod := Build_ublksrv_io_desc UBLK_IO_OP_WRITE 2 2 0; rq_data := fun a => a |}
  | S O, O | S O, S O => {| rq_iod := Build_ublksrv_io_desc UBLK_IO_OP_READ 2 2 0; rq_data := fun _ => 0 |}
  | _, _ => {| rq_iod := Build_ublksrv_io_desc UBLK_IO_OP_FLUSH 0 0 0; rq_data := fun _ => 0 |}
  end.

Definition small_step := loop_step small_info 8192 7 8 0 small_requests.
Definition small_start : device := device_new (fun _ _ => 0) (fun _ => 0) (fun _ => 0).

Definition small_run : completion unit * history :=
  exec (loop_kernel small_requests 2)
    (io_run_dev (IQ := loop_queue_class 4096 8 4 (fun _ => concat (repeat [0; 1; 1]%nat 20)))
                (BQ := loop_queue_class 4096 8 4 (fun _ => [])) 7 0 small_info) [].

(** The run completes; each tag has been answered twice, with the bytes moved
    and with the flush's 0, and the disk holds what was written. *)
Lemma loop_queue_is_disk_witness :
  fst small_run = SetValue tt /\ committed (snd small_run) = [1024; 1024; 1024; 0] /\
  match follows small_step small_start (snd small_run) with
  | Next s => dv_disk s 3 5 = 517 /\ dv_syncs s = 1%nat /\ stored 8192 s /\
      exists o, (o = None \/ o = Some (Fd 7)) /\ resting small_info 8192 [] o s
  | _ => False
  end.
Proof.
  assert (let '(c, t) := small_run in
    goes_on (fun s => stored 8192 s /\
        (c <> Unfinished -> exists o, (o = None \/ o = Some (Fd 7)) /\ resting small_info 8192 [] o s))
      (follows small_step small_start t)) as H.
  { refine (loop_queue_is_disk (loop_kernel small_requests 2) small_info 8192 9 12 7 8 0 small_requests 4096 4
      (fun _ => concat (repeat [0; 1; 1]%nat 20)) (fun _ _ => 0) (fun _ => 0) (fun _ => 0)
      (BQ := loop_queue_class 4096 8 4 (fun _ => [])) _ _ _ _ _ _ _); try discriminate; try range.
    - split; try reflexivity; (split; vm_compute; congruence).
    - intros [|[|i]] [|[|n]]; 
        (split; [repeat split; cbv; congruence|discriminate|reflexivity]).
    - intros sec i _ _. reflexivity. }
  assert (match follows small_step small_start (snd small_run) with
          | Next s => dv_disk s 3 5 = 517 /\ dv_syncs s = 1%nat | _ => False end) as Hv by (vm_compute; split; reflexivity).
  assert (fst small_run = SetValue tt) as Hc by (vm_compute; reflexivity).
  split; [exact Hc|]. split; [vm_compute; reflexivity|].
  destruct small_run as [c t]. cbn [fst snd] in *. subst c.
  destruct (follows small_step small_start t) as [| |s]; [contradiction..|].
  destruct Hv as [Hd Hy], H as [Hst Hend]. split_all; [assumption..|]. apply Hend. discriminate.
Defined.
