(* ===== verification/LoopDaemon.v ===== *)
(** * LoopDaemon: the loop server's device is a disk

    [daemon::run] with the handler of [src/examples/loop.cpp]: the queues of the
    device, each on its loop with its workers, its buffers and its
    descriptors, share one disk, its backing file and the server's memory.
    The specification steps the state of the device by an actor: a queue, as
    [LoopDevice] specifies it, or the thread of [run], which sets the loops up,
    opens the device, and closes it when no queue holds anything. *)

From S2P Require Import Prelude Effects Protocol Rely UblkCmd Utils Path Sys Ledger Raw IoResult TagProtocol Queue BatchLayout BatchObject Control IoDev DaemonRun Handler LoopHandler LoopDevice LoopServe.
From Stdlib Require Import Ascii.

#[local] Open Scope Z_scope.

(** ** The specification *)

(** What belongs to a queue. *)
Record queue_part := {
  qp_bufs : list Z;
  qp_tags : nat -> tag_life;
  qp_count : nat -> nat;
  qp_ublkc : option fdref;
  qp_backing : bool;
}.

Definition new_part : queue_part :=
  {| qp_bufs := []; qp_tags := fun _ => Unused; qp_count := fun _ => O; qp_ublkc := None; qp_backing := false |}.

(** The disk, what it is implemented with, and the server's loops and
    descriptor of the device. *)
Record served_device := {
  sd_disk : disk;
  sd_file : Z -> Z;
  sd_mem : Z -> Z;
  sd_syncs : nat;
  sd_loops : list Z;
  sd_fd : option Z;
  sd_queues : nat -> queue_part;
}.

Definition served_new (d : disk) (f m : Z -> Z) : served_device :=
  {| sd_disk := d; sd_file := f; sd_mem := m; sd_syncs := O; sd_loops := []; sd_fd := None;
     sd_queues := fun _ => new_part |}.

(** The device as queue [k] sees it. *)
Definition view (k : nat) (s : served_device) : device :=
  let q := sd_queues s k in
  {| dv_disk := sd_disk s; dv_file := sd_file s; dv_mem := sd_mem s; dv_bufs := qp_bufs q;
     dv_tags := qp_tags q; dv_count := qp_count q; dv_syncs := sd_syncs s; dv_ublkc := qp_ublkc q;
     dv_backing := qp_backing q |}.

Definition part (v : device) : queue_part :=
  {| qp_bufs := dv_bufs v; qp_tags := dv_tags v; qp_count := dv_count v; qp_ublkc := dv_ublkc v;
     qp_backing := dv_backing v |}.

Definition put (k : nat) (v : device) (s : served_device) : served_device :=
  {| sd_disk := dv_disk v; sd_file := dv_file v; sd_mem := dv_mem v; sd_syncs := dv_syncs v;
     sd_loops := sd_loops s; sd_fd := sd_fd s;
     sd_queues := fun j => if decide (j = k) then part v else sd_queues s j |}.

Definition set_loops (l : list Z) (s : served_device) : served_device :=
  {| sd_disk := sd_disk s; sd_file := sd_file s; sd_mem := sd_mem s; sd_syncs := sd_syncs s;
     sd_loops := l; sd_fd := sd_fd s; sd_queues := sd_queues s |}.
Definition set_fd (o : option Z) (s : served_device) : served_device :=
  {| sd_disk := sd_disk s; sd_file := sd_file s; sd_mem := sd_mem s; sd_syncs := sd_syncs s;
     sd_loops := sd_loops s; sd_fd := o; sd_queues := sd_queues s |}.

(** Whose call it is. *)
Inductive actor :=
  | OfRun
  | OfQueue (k : nat).

#[global] Instance actor_eq_dec : EqDecision actor.
Proof. solve_decision. Defined.

(** The block of memory a call returns. *)
Definition new_block (c : call) : reply c -> option Z :=
  match c return reply c -> option Z with
  | AllocAligned _ _ => fun r => r
  | _ => fun _ => None
  end.

(** What the driver tells of a device, its state apart, does not change. *)
Definition same_device (info i : ublksrv_ctrl_dev_info) : Prop :=
  info_dev_id i = info_dev_id info /\ info_nr_hw_queues i = info_nr_hw_queues info /\
  info_queue_depth i = info_queue_depth info /\ info_max_io_buf_bytes i = info_max_io_buf_bytes info /\
  info_flags i = info_flags info.

(** A command that looks the device up is answered with its information, or
    with an error number, which is positive. *)
Definition tells (info : ublksrv_ctrl_dev_info) (r : async_res * payload) : bool :=
  match r with
  | (AsyncOk _, PInfo i) => bool_decide (same_device info i)
  | (AsyncOk _, _) => false
  | (AsyncErr ec, _) => 0 <? ec
  | (AsyncStopped, _) => true
  end.

Definition lookup_op (op : ioc) : bool :=
  bool_decide (op = UBLK_U_CMD_GET_DEV_INFO2 \/ op = UBLK_U_CMD_GET_DEV_INFO).

Section Spec.
Context (info : ublksrv_ctrl_dev_info) (size backing_fd : Z).
(** The requests the block layer has for each tag of each queue. *)
Context (requests : nat -> nat -> nat -> disk_request).

Definition nr_queues : nat := Z.to_nat (info_nr_hw_queues info).

(** Nothing is with the queue: no request, no buffer, no registered
    descriptor. *)
Definition queue_idle (k : nat) (s : served_device) : bool :=
  at_rest info (view k s) && bool_decide (qp_bufs (sd_queues s k) = []) &&
  negb (qp_backing (sd_queues s k)) &&
  match qp_ublkc (sd_queues s k) with Some (Fixed _) => false | _ => true end.

Definition all_idle (s : served_device) : bool := forallb (fun k => queue_idle k s) (seq 0 nr_queues).

(** The buffers in use. *)
Definition all_bufs (s : served_device) : list Z :=
  concat (map (fun k => qp_bufs (sd_queues s k)) (seq 0 nr_queues)).

(** The calls of a queue: those [LoopDevice] specifies, while the device is
    open and the queue's loop runs.  The allocator returns memory no queue
    uses. *)
Definition queue_step (k : nat) (s : served_device) (c : call) (r : reply c) : verdict served_device :=
  match sd_fd s with
  | Some fd =>
      if bool_decide ((k < nr_queues)%nat /\ Z.of_nat k ∈ sd_loops s) then
        match loop_step info size fd backing_fd (Z.of_nat k) (requests k) (view k s) c r with
        | Breach => Breach
        | Beyond => Beyond
        | Next v =>
            if match new_block c r with Some p => bool_decide (fresh_block info p (all_bufs s)) | None => true end
            then Next (put k v s) else Beyond
        end
      else Breach
  | None => Breach
  end.

(** The calls of [run]: before the device is open it looks up the device and
    the affinity of its queues, and sets up a loop for each queue, in their
    order; it closes the device when every queue is idle; the
    loops exit after it. *)
Definition run_step (s : served_device) (c : call) : reply c -> verdict served_device :=
  match c return reply c -> verdict served_device with
  | RuntimeInit loop _ _ _ | FdTableInit loop _ | BufferTableInit loop _ => fun _ =>
      if bool_decide (sd_fd s = None /\ loop = Z.of_nat (length (sd_loops s))) then Next s else Breach
  | LoopStart loop _ => fun _ =>
      if bool_decide (sd_fd s = None /\ loop = Z.of_nat (length (sd_loops s)))
      then Next (set_loops (sd_loops s ++ [loop]) s) else Breach
  | AsyncOpen path => fun r =>
      if bool_decide (sd_fd s = None /\ path = dev_path (info_dev_id info) /\
                      sd_loops s = seqZ 0 (info_nr_hw_queues info)) then
        match r with
        | AsyncOk fd => if 0 <=? fd then Next (set_fd (Some fd) s) else Beyond
        | _ => Next s
        end
      else Breach
  | Close fd => fun _ => if bool_decide (sd_fd s = Some fd) && all_idle s then Next (set_fd None s) else Breach
  | LoopExit loop => fun _ =>
      match sd_loops s with
      | l :: loops => if bool_decide (sd_fd s = None /\ l = loop) then Next (set_loops loops s) else Breach
      | [] => Breach
      end
  | AsyncTimeout _ _ => fun _ => if bool_decide (sd_fd s = None) then Next s else Breach
  | UringCtrl _ op _ => fun r =>
      if bool_decide (sd_fd s = None) then
        if lookup_op op then if tells info r then Next s else Beyond
        else if bool_decide (op = UBLK_U_CMD_GET_QUEUE_AFFINITY) then Next s else Breach
      else Breach
  | _ => fun _ => Breach
  end.

Definition served_step (s : served_device) (a : actor) (c : call) (r : reply c) : verdict served_device :=
  match a with
  | OfRun => run_step s c r
  | OfQueue k => queue_step k s c r
  end.
End Spec.

(** ** Looking the device up *)

Section Lookup.
Context {L S : Type} (delta : S -> L -> forall c, reply c -> verdict S) (inv : S -> Prop) (l : L) (s : S).
Context (info : ublksrv_ctrl_dev_info) (fd dev_id : Z).
Hypothesis Hinv : inv s.
Hypothesis Htimeout : forall tv_sec tv_nsec r, goes_on (eq s) (delta s l (AsyncTimeout tv_sec tv_nsec) r).
Hypothesis Hlookup : forall op cmd r, lookup_op op = true ->
  goes_on (fun s' => s' = s /\ tells info r = true) (delta s l (UringCtrl fd op cmd) r).

Let found (c : completion ublksrv_ctrl_dev_info) (s' : S) : Prop :=
  s' = s /\ (forall i, c = SetValue i -> same_device info i).
Let attempted (c : completion (bool * ublksrv_ctrl_dev_info)) (s' : S) : Prop :=
  s' = s /\ (forall i, c = SetValue (true, i) -> same_device info i).

(** A command that succeeds has written the information. *)
Lemma output_attributed op cmd :
  (forall r, goes_on (fun s' => s' = s /\ tells info r = true) (delta s l (UringCtrl fd op cmd) r)) ->
  attributed delta inv (with_output (trigger (UringCtrl fd op cmd) (fun r => SetValue (lift_res (fst r), snd r)))) s
    (fun c s' => s' = s /\ match c with
                            | SetValue (_, out) => exists i, out = PInfo i /\ same_device info i
                            | SetError e => 0 < err_value e
                            | _ => True
                            end).
Proof.
  intros Hop. unfold with_output. apply attributed_let_value, (attributed_call _ _ l); [exact Hinv|]. intros r.
  eapply goes_on_mono; [|apply Hop]. intros s' [-> Hr].
  destruct r as [[v|ec|] out]; (split; [reflexivity|]); [|cbn in *; lia|exact I].
  cbn [fst snd lift_res map_completion].
  destruct out; try discriminate Hr. apply bool_decide_eq_true in Hr. eauto.
Qed.

Lemma get_dev_info_attempt_attributed old :
  attributed delta inv (get_dev_info_attempt fd dev_id old) s attempted.
Proof.
  unfold get_dev_info_attempt, raw_get_dev_info, raw_get_dev_info_path, raw_get_dev_info2, ctrl_cmd.
  apply attributed_let_value, attributed_co_await, attributed_upon_error.
  eapply attributed_mono; [|apply output_attributed; intros; apply Hlookup; reflexivity].
  assert (forall r out s', s' = s -> (0 <= r -> exists i, out = PInfo i /\ same_device info i) ->
    attributed delta inv (if 0 <=? r then just (true, out_info dev_info_zero out)
      else if r =? - EACCES then just (false, old)
      else if r =? - EOPNOTSUPP then
        let! '(_, out) := with_output (trigger (UringCtrl fd UBLK_U_CMD_GET_DEV_INFO
          {| cmd_dev_id := uwrap 32 dev_id; cmd_queue_id := uwrap 16 (-1);
             cmd_len := uwrap 16 (sizeof ublksrv_ctrl_dev_info_layout); cmd_addr := var (PInfo old);
             cmd_data0 := uwrap 64 0; cmd_dev_path_len := uwrap 16 0 |})
          (fun r => SetValue (lift_res (fst r), snd r))) in
        just (true, out_info old out)
      else throw (SystemError (- r))) s' attempted) as Hr.
  { intros r out s' -> Hout. destruct (Z.leb_spec 0 r) as [H0|_].
    { destruct (Hout H0) as (i & -> & Hi). split; [reflexivity|]. intros i' [= <-]. exact Hi. }
    destruct (r =? - EACCES); [split; [reflexivity|discriminate]|].
    destruct (r =? - EOPNOTSUPP); [|split; [reflexivity|discriminate]].
    apply attributed_let_value, attributed_co_await. eapply attributed_mono; [|apply output_attributed; intros; apply Hlookup; reflexivity].
    intros [[v o]|e| |] s' [-> H]; [|split; [reflexivity|discriminate]..].
    destruct H as (i & -> & Hi). split; [reflexivity|]. intros i' [= <-]. exact Hi. }
  intros [[r out]|e| |] s' [-> H]; [|apply (Hr (- err_value e) PNone s eq_refl); lia|split; [reflexivity|discriminate]..].
  apply (Hr r out s eq_refl). auto.
Qed.

Lemma retry_loop_attributed n tv_sec tv_nsec : forall old,
  attributed delta inv (retry_loop (get_dev_info_attempt fd dev_id) n tv_sec tv_nsec old) s attempted.
Proof.
  induction n as [|n IH]; intros old; cbn [retry_loop]; [split; [reflexivity|discriminate]|].
  apply attributed_let_value, attributed_co_await, attributed_upon_error, (attributed_call _ _ l); [exact Hinv|]. intros r.
  eapply goes_on_mono; [|apply Htimeout]. intros s' <-.
  assert (attributed delta inv (let! '(ok, s0) := get_dev_info_attempt fd dev_id old in
    if ok : bool then just (true, s0) else retry_loop (get_dev_info_attempt fd dev_id) n tv_sec tv_nsec s0) s attempted) as Hrest.
  { apply attributed_let_value, attributed_co_await. eapply attributed_mono; [|apply get_dev_info_attempt_attributed].
    intros [[[] i]|e| |] s' [-> H]; [|apply IH|split; [reflexivity|discriminate]..].
    split; [reflexivity|]. intros i' [= <-]. apply H. reflexivity. }
  destruct r as [v|ec|]; [exact Hrest|exact Hrest|split; [reflexivity|discriminate]].
Qed.

Lemma get_dev_info_attributed old : attributed delta inv (control_get_dev_info fd dev_id old) s found.
Proof.
  unfold control_get_dev_info, retry. apply attributed_let_value, attributed_co_await, attributed_let_value, attributed_co_await.
  assert (forall c s', attempted c s' -> attributed delta inv (let_value (Done c) (fun '(ok, i) =>
    if ok : bool then just i else throw (SystemError EACCES))) s' found) as Hend.
  { intros [[[] i]|e| |] s' [-> H]; (split; [reflexivity|]); try discriminate. intros i' [= <-]. apply H. reflexivity. }
  eapply attributed_mono; [|apply get_dev_info_attempt_attributed].
  intros [[[] i]|e| |] s' [-> H]; [exact (Hend _ _ (conj eq_refl H))| |split; [reflexivity|discriminate]..].
  eapply attributed_mono; [|apply retry_loop_attributed].
  intros [[[] j]|e| |] s' [-> H']; (split; [reflexivity|]); try discriminate. intros i' [= <-]. apply H'. reflexivity.
Qed.

(** The environment of a task holds the information of its device, if any. *)
Definition knows (e : dev_env) : Prop :=
  forall i, e = Some i -> info_dev_id i = dev_id -> same_device info i.

Lemma cached_get_dev_info_attributed e old : knows e -> attributed delta inv (cached_get_dev_info e fd dev_id old) s found.
Proof.
  intros He. unfold cached_get_dev_info.
  assert (attributed delta inv (co_await (control_get_dev_info fd dev_id old)) s found) as Hget.
  { apply attributed_co_await. eapply attributed_mono; [|apply get_dev_info_attributed].
    intros [i|e0| |] s' [-> H]; (split; [reflexivity|]); try discriminate. exact H. }
  destruct e as [i|]; [|exact Hget]. destruct (Z.eqb_spec (info_dev_id i) dev_id) as [E|]; [|exact Hget].
  split; [reflexivity|]. intros i' [= <-]. exact (He i eq_refl E).
Qed.
End Lookup.

(** ** Each queue beside the others *)

Lemma view_put k v s : view k (put k v s) = v.
Proof. unfold view, put. cbn. rewrite decide_True by reflexivity. destruct v; reflexivity. Qed.

Lemma queues_put j k v s : j <> k -> sd_queues (put k v s) j = sd_queues s j.
Proof. intros H. cbn. rewrite decide_False by exact H. reflexivity. Qed.

(** The buffers a step leaves alone. *)
Ltac step_cases :=
  repeat match goal with
         | H : match ?x with _ => _ end = Next _ |- _ => destruct x eqn:?; try discriminate H
         | H : Next _ = Next _ |- _ => injection H as <-
         end.

Lemma fetched_bufs requests i addr r s v : fetched requests i addr r s = Next v -> dv_bufs v = dv_bufs s.
Proof. unfold fetched. intros H. step_cases; reflexivity. Qed.

Lemma transfer_bufs info size op fd buf len off c r s v :
  transfer info size op fd buf len off c r s = Next v -> dv_bufs v = dv_bufs s.
Proof.
  unfold transfer, serve_request. intros H. step_cases; [|reflexivity].
  destruct (disk_step _ _ _ _) as [[res d] out]. reflexivity.
Qed.

(** A step of a queue adds no buffer but the block it is returned. *)
Lemma loop_step_bufs info size fd backing_fd q_id requests s c (r : reply c) v :
  loop_step info size fd backing_fd q_id requests s c r = Next v ->
  forall b, b ∈ dv_bufs v -> b ∈ dv_bufs s \/ new_block c r = Some b.
Proof.
  intros H b. destruct c; cbn [loop_step new_block] in *; try discriminate;
    first [apply transfer_bufs in H as ->; auto|step_cases; cbn; auto].
  - apply fetched_bufs in H as ->. auto.
  - apply fetched_bufs in H as ->. auto.
  - rewrite elem_of_app, list_elem_of_singleton. intros [H | ->]; auto.
  - intros Hb. left. replace (dv_bufs s) with (z :: l) by (symmetry; assumption). right. exact Hb.
  - destruct (idx =? UBLKC_FD); auto.
Qed.

Section Device.
Context (info : ublksrv_ctrl_dev_info) (size lshift pshift backing_fd : Z).
Context (requests : nat -> nat -> nat -> disk_request).
Hypothesis Hsize : is_u 64 size.
Hypothesis Hmode : loop_mode info.
Hypothesis Hqueues : info_nr_hw_queues info < 2 ^ 16.
Hypothesis Hbacking : backing_fd <> -1.
Hypothesis Hreq : forall k i n,
  valid_request (prep_params info (size / SECTOR_SIZE) lshift pshift) (requests k i n).

Let max : Z := info_max_io_buf_bytes info.
Let step := served_step info size backing_fd requests.
(** The file holds the disk. *)
Let holds (s : served_device) : Prop := stored size (view O s).

(** The buffers of two queues do not overlap. *)
Definition separate (s : served_device) : Prop :=
  forall j k b c, j <> k -> (j < nr_queues info)%nat -> (k < nr_queues info)%nat ->
    b ∈ qp_bufs (sd_queues s j) -> c ∈ qp_bufs (sd_queues s k) -> b + max <= c \/ c + max <= b.

Lemma all_bufs_elem k b s : (k < nr_queues info)%nat -> b ∈ qp_bufs (sd_queues s k) -> b ∈ all_bufs info s.
Proof.
  intros Hk Hb. unfold all_bufs. apply list_elem_of_In, in_concat. exists (qp_bufs (sd_queues s k)).
  split; [|apply list_elem_of_In, Hb]. apply in_map_iff. exists k. split; [reflexivity|apply in_seq; lia].
Qed.

(** While the queues are served. *)
Record serving (fd : Z) (s : served_device) : Prop := {
  serving_fd : sd_fd s = Some fd;
  serving_loops : sd_loops s = seqZ 0 (info_nr_hw_queues info);
  serving_stored : stored size (view O s);
  serving_separate : separate s;
}.

(** A queue that keeps its guarantee leaves each other queue what it relies
    on. *)
Lemma put_rely fd j k v s :
  serving fd s -> j <> k -> (j < nr_queues info)%nat -> (k < nr_queues info)%nat ->
  queue_guar info size (view k s) v -> queue_rely info size (view j s) (view j (put k v s)).
Proof.
  intros [_ _ _ Hsep] Hne Hj Hk [Hst Hsy Hm]. split; try (cbn; rewrite decide_False by exact Hne; reflexivity).
  - exact Hst.
  - exact Hsy.
  - intros b a Hb Ha. apply Hm. intros c Hc. destruct (Hsep j k b c Hne Hj Hk Hb Hc); unfold max in *; lia.
Qed.

(** An allowed step of a queue that keeps its guarantee. *)
Lemma queue_step_next fd k s c r v :
  serving fd s -> (k < nr_queues info)%nat ->
  loop_step info size fd backing_fd (Z.of_nat k) (requests k) (view k s) c r = Next v ->
  queue_guar info size (view k s) v ->
  goes_on (fun s' => s' = put k v s /\ serving fd s') (step s (OfQueue k) c r).
Proof.
  intros [Hfd Hl Hst Hsep] Hk Hv Hg. cbn [step served_step]. unfold queue_step. rewrite Hfd, bool_decide_eq_true_2.
  2:{ split; [exact Hk|]. rewrite Hl. apply elem_of_seqZ. unfold nr_queues in Hk. lia. }
  rewrite Hv. destruct (match new_block c r with Some p => _ | None => true end) eqn:Hnew; [|exact I].
  split; [reflexivity|]. split; [exact Hfd|exact Hl|apply Hg, Hst|].
  assert (forall j b c', j <> k -> (j < nr_queues info)%nat -> b ∈ qp_bufs (sd_queues s j) -> c' ∈ dv_bufs v ->
    b + max <= c' \/ c' + max <= b) as Hnv.
  { intros j b c' Hne Hj Hb Hc'. destruct (loop_step_bufs _ _ _ _ _ _ _ _ _ _ Hv _ Hc') as [Hc0|E].
    - exact (Hsep j k b c' Hne Hj Hk Hb Hc0).
    - rewrite E in Hnew. apply bool_decide_eq_true in Hnew as (_ & _ & Hf). rewrite Forall_forall in Hf.
      apply Hf, list_elem_of_In. exact (all_bufs_elem _ _ _ Hj Hb). }
  intros j j' b b' Hne Hj Hj' Hb Hb'. cbn in Hb, Hb'.
  destruct (decide (j = k)) as [->|], (decide (j' = k)) as [->|]; cbn in Hb, Hb'.
  - congruence.
  - destruct (Hnv j' b' b); auto.
  - exact (Hnv j b b' ltac:(assumption) Hj Hb Hb').
  - exact (Hsep j j' b b' Hne Hj Hj' Hb Hb').
Qed.

(** ** The queues together *)

Definition queues_secure {A} fd (Q : nat -> completion A -> device -> Prop) (ps : list (task A)) (s : served_device) : Prop :=
  forall k p, ps !! k = Some p ->
    secure (loop_step info size fd backing_fd (Z.of_nat k) (requests k))
      (queue_rely info size) (queue_guar info size) p (view k s) (Q k).

Lemma queues_attributed {A} fd Q sched : forall (ps : list (task A)) s,
  (length ps <= nr_queues info)%nat -> serving fd s -> queues_secure fd Q ps s ->
  attributed step holds (concurrently sched ps) s (fun c s' => exists ps', c = SetValue ps' /\
    length ps' = length ps /\ serving fd s' /\ queues_secure fd Q ps' s').
Proof.
  induction sched as [|i sched IH]; intros ps s Hn Hs H; cbn [concurrently]; [exists ps; auto|].
  destruct (ps !! i) as [[c|c k]|] eqn:E; [apply IH; assumption| |apply IH; assumption].
  pose proof (lookup_lt_Some _ _ _ E) as Hi. split; [exact (serving_stored _ _ Hs)|]. exists (OfQueue i). intros r.
  pose proof (H i _ E (view i s) ltac:(reflexivity) r) as Hc.
  destruct (loop_step _ _ _ _ _ _ _ c r) as [| |v] eqn:Hv; [contradiction| |].
  { cbn [step served_step]. unfold queue_step. rewrite (serving_fd _ _ Hs), bool_decide_eq_true_2, Hv; [exact I|].
    rewrite (serving_loops _ _ Hs). split; [lia|]. apply elem_of_seqZ. unfold nr_queues in Hn. lia. }
  destruct Hc as [Hg Hk].
  eapply goes_on_mono; [|apply (queue_step_next fd i s c r v Hs ltac:(lia) Hv Hg)].
  intros s' [-> Hs'].
  eapply attributed_mono; [|apply IH; [rewrite length_insert; exact Hn|exact Hs'|]].
  - intros c' s' (ps' & -> & Hlen & H'). exists ps'. rewrite length_insert in Hlen. auto.
  - intros j p Hj. destruct (decide (j = i)) as [->|Hne].
    + rewrite list_lookup_insert_eq in Hj by exact Hi. injection Hj as <-. rewrite view_put. exact Hk.
    + rewrite list_lookup_insert_ne in Hj by congruence.
      pose proof (lookup_lt_Some _ _ _ Hj) as Hj'.
      eapply secure_stable; [apply _|eapply put_rely; eauto; lia|exact (H j p Hj)].
Qed.

(** The end of a queue's run, seen from the device. *)
Lemma given_back_idle fd k c s :
  c <> Unfinished -> given_back info size fd c (view k s) -> queue_idle info k s = true.
Proof.
  intros Hc [_ H]. destruct (H Hc) as (o & Ho & [_ Ht Hb Hu Hk]). cbn in Hb, Hu, Hk.
  unfold queue_idle. rewrite Ht, Hb, Hu, Hk. destruct Ho as [-> | ->]; reflexivity.
Qed.

(** What holds of every run of the queues, and of one that has come to its
    end. *)
Definition served_over (fd : Z) (c : completion unit) (s : served_device) : Prop :=
  serving fd s /\ (c <> Unfinished -> all_idle info s = true).

(** ** The loops *)

(** Before the device is open and after it is closed. *)
Record closed (loops : list Z) (s : served_device) : Prop := {
  closed_fd : sd_fd s = None;
  closed_loops : sd_loops s = loops;
  closed_stored : stored size (view O s);
  closed_idle : all_idle info s = true;
}.

(** The queues have not been served yet. *)
Record unserved (loops : list Z) (s : served_device) : Prop := {
  unserved_closed : closed loops s;
  unserved_queues : sd_queues s = (fun _ => new_part);
}.

Lemma closed_set_loops l l' s : closed l s -> closed l' (set_loops l' s).
Proof. intros [Hfd _ Hst Hid]. split; auto. Qed.

Lemma unserved_set_loops l l' s : unserved l s -> unserved l' (set_loops l' s).
Proof. intros [Hc Hq]. split; [exact (closed_set_loops _ _ _ Hc)|exact Hq]. Qed.

(** A table of a loop's io_uring instance, when it is asked for. *)
Lemma table_attributed (b : bool) c (k : task unit) s (Q : completion unit -> served_device -> Prop) :
  holds s -> (forall r, step s OfRun c r = Next s) -> (forall x, Q (SetError x) s) -> attributed step holds k s Q ->
  forall f : reply c -> Z,
  attributed step holds (let_value (if b then let_value (trigger c (fun r => SetValue (f r))) (fun r =>
    if r <? 0 then throw (SystemError (- r)) else just tt) else just tt) (fun _ => k)) s Q.
Proof.
  intros Hi Hc He Hk f. apply attributed_let_value. destruct b; [|exact Hk].
  apply attributed_let_value, (attributed_call _ _ OfRun); [exact Hi|]. intros r. rewrite Hc.
  cbn [goes_on]. destruct (f r <? 0); [apply He|exact Hk].
Qed.

Lemma IoLoop_ctor_attributed loops options attach files bufs cpuset s :
  unserved loops s ->
  attributed step holds (IoLoop_ctor (Z.of_nat (length loops)) options attach files bufs cpuset) s (fun c s' =>
    match c with
    | SetValue _ => unserved (loops ++ [Z.of_nat (length loops)]) s'
    | _ => unserved loops s'
    end).
Proof.
  intros Hs. pose proof (unserved_closed _ _ Hs) as [Hfd Hl Hi _].
  unfold IoLoop_ctor. apply attributed_let_value, (attributed_call _ _ OfRun); [exact Hi|]. intros r.
  cbn [step served_step run_step]. rewrite Hl, bool_decide_eq_true_2 by auto. cbn [goes_on].
  destruct r as [v|errno]; [|exact Hs].
  apply (table_attributed _ (FdTableInit _ _)) with (f := id); [exact Hi| |intros _; exact Hs|].
  { intros r. cbn [step served_step run_step]. rewrite Hl, bool_decide_eq_true_2 by auto. reflexivity. }
  apply (table_attributed _ (BufferTableInit _ _)) with (f := id); [exact Hi| |intros _; exact Hs|].
  { intros r. cbn [step served_step run_step]. rewrite Hl, bool_decide_eq_true_2 by auto. reflexivity. }
  apply (attributed_call _ _ OfRun); [exact Hi|]. intros r. cbn [step served_step run_step].
  rewrite Hl, bool_decide_eq_true_2 by auto. exact (unserved_set_loops _ _ _ Hs).
Qed.

(** The look-ups leave the state alone. *)
Definition looks_up (c : call) : Prop :=
  match c with
  | AsyncTimeout _ _ => True
  | UringCtrl _ op _ => lookup_op op = true \/ op = UBLK_U_CMD_GET_QUEUE_AFFINITY
  | _ => False
  end.

Lemma looks_up_attributed {A} (p : task A) s :
  holds s -> sd_fd s = None -> all_calls looks_up p -> attributed step holds p s (fun _ s' => s' = s).
Proof.
  intros Hi Hfd. apply attributed_silent with (l := OfRun); [exact Hi|]. intros c r Hc.
  destruct c; try contradiction Hc; cbn [step served_step run_step]; rewrite bool_decide_eq_true_2 by exact Hfd; [|reflexivity].
  destruct Hc as [-> | ->]; [destruct (tells info r); reflexivity || exact I|reflexivity].
Qed.

Lemma build_loops_attributed uninit cpuset0 sq0 cq0 control_fd dev_id o e n : forall loops attach s,
  unserved loops s -> loops = seqZ 0 (Z.of_nat (length loops)) ->
  attributed step holds (build_loops uninit cpuset0 sq0 cq0 control_fd dev_id o e n (Z.of_nat (length loops)) attach loops) s
    (fun c s' => match c with
                 | SetValue (l, c) => unserved l s' /\ (c = SetValue tt -> l = seqZ 0 (Z.of_nat (length loops + n)))
                 | Unfinished => exists l, unserved l s'
                 | _ => False
                 end).
Proof.
  induction n as [|n IH]; intros loops attach s Hs Hl; cbn [build_loops].
  { split; [exact Hs|]. intros _. rewrite Nat.add_0_r. exact Hl. }
  apply attributed_let_value, attributed_reify, attributed_let_value, attributed_co_await.
  eapply attributed_mono; [|apply looks_up_attributed; [apply (unserved_closed _ _ Hs)..|
    apply get_queue_affinity_each; [intros; exact I|intros cmd; cbn; auto..]]].
  intros c s0 ->. destruct c as [cpuset|x| |];
    [|split; [exact Hs|discriminate]|split; [exact Hs|discriminate]|exists loops; exact Hs].
  eapply attributed_mono; [|apply IoLoop_ctor_attributed, Hs].
  intros [u|x| |] s1 H1; [|split; [exact H1|discriminate]|split; [exact H1|discriminate]|exists loops; exact H1].
  cbv beta iota. set (loops' := loops ++ [Z.of_nat (length loops)]) in *.
  assert (length loops' = S (length loops)) as Hlen by (unfold loops'; rewrite length_app; cbn; lia).
  replace (Z.of_nat (length loops) + 1) with (Z.of_nat (length loops')) by lia.
  replace (length loops + S n)%nat with (length loops' + n)%nat by lia.
  apply IH; [exact H1|]. rewrite Hlen, seqZ_S, <- Hl. reflexivity.
Qed.

Lemma destroy_loops_attributed loops : forall s, closed loops s ->
  attributed step holds (destroy_loops loops) s (fun c s' => c = SetValue tt /\ closed [] s').
Proof.
  induction loops as [|l loops IH]; intros s Hs; cbn [destroy_loops]; [split; [reflexivity|exact Hs]|].
  apply attributed_let_value, (attributed_call _ _ OfRun); [apply Hs|]. intros r. cbn [step served_step run_step].
  rewrite (closed_loops _ _ Hs), bool_decide_eq_true_2 by (split; [apply Hs|reflexivity]).
  apply IH. exact (closed_set_loops _ _ _ Hs).
Qed.

(** ** The queues of the device *)

Context (page : Z) (fuel : nat) (scheds : Z -> list nat) {Q2 : Type} {BQ : DeviceQueue Q2}.
#[local] Instance IQ : DeviceQueue IoQueue := loop_queue_class page backing_fd fuel scheds.

Lemma serve_queues_attributed sched fd s :
  fd <> -1 -> serving fd s -> sd_queues s = (fun _ => new_part) ->
  attributed step holds (serve_queues (IQ := IQ) (BQ := BQ) sched fd info) s (served_over fd).
Proof.
  intros Hfd Hs Hnew. unfold serve_queues. apply attributed_let_value.
  set (ps := map _ _). assert (length ps = nr_queues info) as Hlen by (unfold ps; rewrite length_map, length_seqZ; reflexivity).
  eapply attributed_mono; [|apply (queues_attributed fd (fun k => since (queue_rely info size) (given_back info size fd)));
    [lia|exact Hs|]]; cycle 1.
  { intros k p Hp. unfold ps in Hp. rewrite list_lookup_fmap in Hp.
    destruct (seqZ 0 _ !! k) as [q_id|] eqn:E; [|discriminate]. injection Hp as <-.
    apply lookup_seqZ in E as [-> Hk]. rewrite Z.add_0_l.
    apply (run_dev_steady info size lshift pshift fd backing_fd (Z.of_nat k) (requests k)); auto; [range|].
    assert (forall i, dv_tags (view k s) i = Unused) as Ht by (intros i; cbn; rewrite Hnew; reflexivity).
    split; [|exact Ht]. split; [exact (serving_stored _ _ Hs)| |cbn; rewrite Hnew; reflexivity..].
    apply at_rest_all. intros i _. rewrite Ht. reflexivity. }
  intros c s' (ps' & -> & Hlen' & Hs' & Hps). cbv beta iota.
  destruct (join_all ps') as [cs|] eqn:E; [|split; [exact Hs'|intros []; reflexivity]].
  assert (all_idle info s' = true) as Hidle.
  { apply forallb_forall. intros k Hk. apply in_seq in Hk.
    destruct (lookup_lt_is_Some_2 ps' k) as [p Hp]; [lia|].
    pose proof (join_all_done _ _ _ _ E Hp) as (c & -> & Hc).
    destruct (Hps k _ Hp (view k s') ltac:(reflexivity)) as (v & Hv & H).
    apply (given_back_idle fd k c); [exact Hc|]. exact (given_back_stable _ _ _ _ _ _ Hv H). }
  unfold rethrow_first. destruct (worker_errors cs); split; auto.
Qed.

(** ** run *)

(** What holds of every run, and of one that has come to its end. *)
Definition run_over (c : completion unit) (s : served_device) : Prop :=
  stored size (view O s) /\ (c <> Unfinished -> closed [] s).

Lemma run_over_unfinished s : stored size (view O s) -> run_over Unfinished s.
Proof. intros H. split; [exact H|]. intros []. reflexivity. Qed.

Lemma open_serve_close_attributed sched s :
  unserved (seqZ 0 (info_nr_hw_queues info)) s ->
  attributed step holds
    (let! ublkc_fd := trigger (AsyncOpen (dev_path (info_dev_id info))) lift_res in
     defer (serve_queues (IQ := IQ) (BQ := BQ) sched ublkc_fd info) (perform (Close ublkc_fd) id)) s
    (fun c s' => stored size (view O s') /\ (c <> Unfinished -> closed (seqZ 0 (info_nr_hw_queues info)) s')).
Proof.
  intros [Hc Hq]. pose proof Hc as [Hfd Hl Hst Hid].
  apply attributed_let_value, attributed_co_await, (attributed_call _ _ OfRun); [exact Hst|]. intros r.
  cbn [step served_step run_step]. rewrite Hfd, Hl, bool_decide_eq_true_2 by auto.
  destruct r as [fd|ec|]; [|split; auto|split; auto]. destruct (Z.leb_spec 0 fd); [|exact I]. cbn [goes_on lift_res].
  apply attributed_defer. eapply attributed_mono; [|apply serve_queues_attributed with (fd := fd); [lia| |exact Hq]]; cycle 1.
  { split; [reflexivity|exact Hl|exact Hst|]. intros j k b c _ _ _ Hb. cbn in Hb. rewrite Hq in Hb. inversion Hb. }
  assert (forall (c : completion unit) s', c <> Unfinished -> served_over fd c s' ->
    attributed step holds (perform (Close fd) id) s' (fun cd s'' => forall c' : completion unit,
      stored size (view O s'') /\ (c' <> Unfinished -> closed (seqZ 0 (info_nr_hw_queues info)) s''))) as Hd.
  { intros c s' Hne [[Hfd' Hl' Hst' _] Hi]. apply (attributed_call _ _ OfRun); [exact Hst'|]. intros r.
    cbn [step served_step run_step]. rewrite bool_decide_eq_true_2, (Hi Hne) by exact Hfd'. cbn [andb goes_on].
    intros c'. split; [exact Hst'|]. intros _. split; [reflexivity|exact Hl'|exact Hst'|exact (Hi Hne)]. }
  intros c s' H'. destruct c as [u|x| |]; [| | |split; [apply H'|intros []; reflexivity]];
    (eapply attributed_mono; [|eapply Hd; [|exact H']; discriminate]); intros [] s'' H''; apply H''.
Qed.

Lemma daemon_run_attributed uninit cpuset0 sq0 cq0 sched control_fd o s :
  unserved [] s ->
  attributed step holds (daemon_run (IQ := IQ) (BQ := BQ) uninit cpuset0 sq0 cq0 sched (Some info) control_fd (info_dev_id info) o)
    s run_over.
Proof.
  intros Hs. unfold daemon_run, cached_get_dev_info. rewrite Z.eqb_refl.
  change (let_value (co_await (just info)) ?f) with (f info). cbv beta.
  apply attributed_let_value. eapply attributed_mono; [|apply (build_loops_attributed _ _ _ _ _ _ _ _ _ []); [exact Hs|reflexivity]].
  intros [[loops c]| | |] s1 H1; [|contradiction..|destruct H1 as [l H1]; apply run_over_unfinished, H1].
  destruct H1 as [H1 Hall]. cbn [length Nat.add] in Hall. apply attributed_defer.
  assert (attributed step holds (let_value (Done c) (fun _ : unit =>
      let! ublkc_fd := trigger (AsyncOpen (dev_path (info_dev_id info))) lift_res in
      defer (serve_queues (IQ := IQ) (BQ := BQ) sched ublkc_fd info) (perform (Close ublkc_fd) id))) s1
    (fun c s' => stored size (view O s') /\ (c <> Unfinished -> closed loops s'))) as Hserve.
  { apply attributed_let_value. destruct c as [[]|x| |];
      [|split; [apply (unserved_closed _ _ H1)|intros _; exact (unserved_closed _ _ H1)]..].
    rewrite (Hall eq_refl) in *. replace (seqZ 0 _) with (seqZ 0 (info_nr_hw_queues info)) in *
      by (unfold seqZ; f_equal; f_equal; lia).
    apply open_serve_close_attributed, H1. }
  eapply attributed_mono; [|exact Hserve]. intros c' s' [Hst Hcl].
  destruct c' as [u|x| |]; [| | |apply run_over_unfinished, Hst];
    (eapply attributed_mono; [|apply destroy_loops_attributed, Hcl; discriminate]);
    intros c2 s2 [-> H2]; (split; [apply H2|intros _; exact H2]).
Qed.
End Device.

(** ** The device as the driver tells of it *)

Lemma served_step_same info i size backing_fd requests s a c r :
  same_device info i -> served_step info size backing_fd requests s a c r = served_step i size backing_fd requests s a c r.
Proof.
  intros (H1 & H2 & H3 & H4 & H5). destruct info, i; cbn in H1, H2, H3, H4, H5; subst.
  destruct a; [|reflexivity]. destruct c; reflexivity.
Qed.

Lemma loop_mode_same info i : same_device info i -> loop_mode info -> loop_mode i.
Proof. intros (H1 & H2 & H3 & H4 & H5) [M1 M2 M3 M4 M5]. split; rewrite ?H3, ?H4, ?H5; assumption. Qed.

Lemma closed_same info i size l s : same_device info i -> closed i size l s -> closed info size l s.
Proof.
  intros (H1 & H2 & H3 & H4 & H5) [C1 C2 C3 C4]. split; [assumption..|].
  destruct info, i; cbn in H1, H2, H3, H4, H5; subst. exact C4.
Qed.

(** [run] in an environment that may hold the device's information, or not. *)
Lemma daemon_run_served info size lshift pshift backing_fd requests page fuel scheds
    uninit cpuset0 sq0 cq0 sched e control_fd o {Q2} {BQ : DeviceQueue Q2} s :
  is_u 64 size -> loop_mode info -> info_nr_hw_queues info < 2 ^ 16 -> backing_fd <> -1 ->
  (forall k i n, valid_request (prep_params info (size / SECTOR_SIZE) lshift pshift) (requests k i n)) ->
  knows info (info_dev_id info) e -> unserved info size [] s ->
  attributed (served_step info size backing_fd requests) (fun s => stored size (view O s))
    (daemon_run (IQ := loop_queue_class page backing_fd fuel scheds) (BQ := BQ)
       uninit cpuset0 sq0 cq0 sched e control_fd (info_dev_id info) o) s (run_over info size).
Proof.
  intros Hs Hm Hq Hb Hr He Hnew. unfold daemon_run.
  pose proof (closed_fd _ _ _ _ (unserved_closed _ _ _ _ Hnew)) as Hfd.
  apply attributed_let_value, attributed_co_await.
  eapply attributed_mono; [|apply cached_get_dev_info_attributed with (l := OfRun) (info := info); [..|exact He]]; cycle 1.
  { apply (unserved_closed _ _ _ _ Hnew). }
  { intros tv_sec tv_nsec r. cbn [served_step run_step]. rewrite bool_decide_eq_true_2 by exact Hfd. reflexivity. }
  { intros op cmd r Hop. cbn [served_step run_step]. rewrite bool_decide_eq_true_2, Hop by exact Hfd.
    destruct (tells info r) eqn:E; [split; reflexivity|exact I]. }
  assert (run_over info size SetStopped s /\ forall x, run_over info size (SetError x) s) as [Hstop Herr]
    by (destruct Hnew as [Hc _]; split; [|intros x]; (split; [apply Hc|intros _; exact Hc])).
  intros [i|x| |] s' [-> Hi]; [|apply Herr|exact Hstop|apply run_over_unfinished, Hnew].
  specialize (Hi i eq_refl). pose proof Hi as (H1 & H2 & H3 & H4 & H5).
  assert (same_device i info) as Hi' by (repeat split; congruence).
  apply (attributed_embed (served_step i size backing_fd requests) _ _ id).
  { intros s0 l c r. apply served_step_same, Hi. }
  pose proof (daemon_run_attributed i size lshift pshift backing_fd requests Hs (loop_mode_same _ _ Hi Hm)
    ltac:(rewrite H2; exact Hq) Hb) as Hrun.
  unfold prep_params in Hrun. rewrite H4 in Hrun.
  specialize (Hrun Hr page fuel scheds Q2 BQ uninit cpuset0 sq0 cq0 sched control_fd o s).
  unfold daemon_run, cached_get_dev_info in Hrun. rewrite Z.eqb_refl, H1 in Hrun.
  eapply attributed_mono; [|apply Hrun].
  - intros c s1 [Hst Hc]. split; [exact Hst|]. intros Hne. exact (closed_same _ _ _ _ _ Hi (Hc Hne)).
  - destruct Hnew as [Hc Hq0]. split; [exact (closed_same _ _ _ _ _ Hi' Hc)|exact Hq0].
Qed.

Lemma served_new_unserved info size d f m :
  stored size (device_new d f m) -> unserved info size [] (served_new d f m).
Proof.
  intros Hst. split; [split; [reflexivity..|exact Hst|]|reflexivity].
  apply forallb_forall. intros k _. unfold queue_idle. cbn [served_new sd_queues new_part qp_bufs qp_backing qp_ublkc].
  rewrite at_rest_all by reflexivity. reflexivity.
Qed.

(** ** Theorem *)

(** C5: a device served by the loop server is a disk.  For every number of
    queues, every driver that delivers valid requests, every kernel that
    completes the transfers to and from the backing file (reads may fail),
    every schedule of the queues and of the workers of each, every failure of
    the set-up, and whether the device's information is cached or has to be
    looked up, each call of [daemon::run] with the loop handler is one that
    a queue or [run] itself may make: all queues serve their requests on one
    disk, each request in one step between its delivery and its answer, with
    the disk's result and data, though their workers share the file and the
    server's memory; their buffers do not overlap and nobody writes to
    another's; the device is opened when every queue has its loop, and closed
    when no queue holds a request, a buffer or a registered descriptor; its
    loops exit after that.  At every point the file holds the disk, and when
    [run] completes the device is closed and every loop has exited. *)
Theorem loop_device_is_disk (K : env) info size lshift pshift backing_fd requests page fuel scheds
    uninit cpuset0 sq0 cq0 sched e control_fd o (d : disk) (f m : Z -> Z) {Q2} {BQ : DeviceQueue Q2} :
  is_u 64 size -> loop_mode info -> info_nr_hw_queues info < 2 ^ 16 -> backing_fd <> -1 ->
  (forall k i n, valid_request (prep_params info (size / SECTOR_SIZE) lshift pshift) (requests k i n)) ->
  knows info (info_dev_id info) e -> stored size (device_new d f m) ->
  let '(c, h) := exec K (daemon_run (IQ := loop_queue_class page backing_fd fuel scheds) (BQ := BQ)
                           uninit cpuset0 sq0 cq0 sched e control_fd (info_dev_id info) o) [] in
  exists steps, map snd steps = h /\
    let after steps := follows_as (served_step info size backing_fd requests) (served_new d f m) steps in
    goes_on (fun s => c <> Unfinished -> closed info size [] s) (after steps) /\
    (forall n, goes_on (fun s => stored size (view O s)) (after (take n steps))).
Proof.
  intros Hs Hm Hq Hb Hr He Hst.
  pose proof (served_new_unserved info size d f m Hst) as Hnew.
  destruct (attributed_exec _ _ K _ _ _ [] (fun c s' H => proj1 H) (daemon_run_served info size lshift pshift backing_fd
    requests page fuel scheds uninit cpuset0 sq0 cq0 sched e control_fd o (BQ := BQ) _ Hs Hm Hq Hb Hr He Hnew))
    as (t & Ht & H & Hn).
  destruct (exec K _ []) as [c h]. cbn [fst snd] in *. exists t. split; [symmetry; exact Ht|].
  split; [|exact Hn]. eapply goes_on_mono; [|exact H]. intros s [_ Hc]. exact Hc.
Qed.

(** *** Two queues *)

(** The commands issued for a tag of a queue. *)
Definition queue_fetches (q t : Z) (h : history) : nat :=
  length (List.filter (fun e => match projT1 e with
                                | UringIo _ _ cmd _ => (io_q_id cmd =? q) && (io_tag cmd =? t)
                                | _ => false
                                end) h).

(** [limit] requests for each tag of each queue, then their end. *)
Definition daemon_kernel (info : ublksrv_ctrl_dev_info) (requests : nat -> nat -> nat -> disk_request) (limit : nat) : env := fun h c =>
  match c return reply c -> reply c with
  | UringIo _ _ cmd _ => fun _ =>
      if (queue_fetches (io_q_id cmd) (io_tag cmd) h <? limit)%nat then AsyncOk UBLK_IO_RES_OK else AsyncErr ENODEV
  | ReadIod q t => fun _ => rq_iod (requests (Z.to_nat q) (Z.to_nat t) (pred (queue_fetches q t h)))
  | AsyncOpen _ => fun _ => AsyncOk 7
  | UringCtrl _ op _ => fun d => if lookup_op op then (AsyncOk 0, PInfo info) else d
  | _ => id
  end (loop_kernel (requests O) limit h c).

Definition two_info : ublksrv_ctrl_dev_info := prep_dev_info 0 2 1 1024 0.

(** Queue 0 writes sectors 2 and 3 and flushes; queue 1 reads them, twice. *)
Definition two_requests (k : nat) : nat -> nat -> disk_request := fun _ => small_requests k.

Lemma two_mode : loop_mode two_info.
Proof. split; try reflexivity; (split; vm_compute; congruence). Qed.

Lemma two_valid k i n : valid_request (prep_params two_info (8192 / SECTOR_SIZE) 9 12) (two_requests k i n).
Proof. destruct k as [|[|k]], n as [|[|n]]; (split; [repeat split; cbv; congruence|discriminate|reflexivity]). Qed.

(** The queues take turns; queue 1 is slower. *)
Definition two_turns : list nat := concat (repeat [0; 0; 1]%nat 20).

#[local] Instance two_queue : DeviceQueue IoQueue := loop_queue_class 4096 8 4 (fun _ => repeat O 20).

Definition two_run : completion unit * history :=
  exec (daemon_kernel two_info two_requests 2)
    (daemon_run (IQ := two_queue) (BQ := two_queue) dev_info_zero 0 128 256 two_turns None 3 0 sample_options) [].

(** Who makes which call: the setting up, the queues in turns, the end. *)
Fixpoint taking_turns {A} (K : env) (sched : list nat) (ps : list (task A)) (h : history) : list actor :=
  match sched with
  | [] => []
  | i :: sched =>
      match ps !! i with
      | Some (Vis c k) =>
          OfQueue i :: taking_turns K sched (<[i := k (K h c)]> ps) (h ++ [existT c (K h c)])
      | _ => taking_turns K sched ps h
      end
  end.

Definition set_up_calls (h : history) : nat :=
  match list_find (fun e => is_true (match projT1 e with AsyncOpen _ => true | _ => false end)) h with
  | Some (n, _) => S n
  | None => length h
  end.

Definition two_actors : list actor :=
  let h := snd two_run in
  let n := set_up_calls h in
  repeat OfRun n ++
  taking_turns (daemon_kernel two_info two_requests 2) two_turns
    (map (fun q_id => io_run_dev (IQ := two_queue) (BQ := two_queue) 7 q_id two_info) [0; 1]) (take n h) ++
  repeat OfRun 3.

Definition two_step := served_step two_info 8192 8 two_requests.
Definition two_start : served_device := served_new (fun _ _ => 0) (fun _ => 0) (fun _ => 0).

(** The queues' steps make the disk that was written through queue 0 and read
    through queue 1. *)
Example two_steps :
  match follows_as two_step two_start (combine two_actors (snd two_run)) with
  | Next s => sd_disk s 3 5 = 517 /\ sd_syncs s = 1%nat /\ sd_mem s (5120 + 517) = 517
  | _ => False
  end /\ length two_actors = length (snd two_run).
Proof. vm_compute. split_all; reflexivity. Qed.

Lemma loop_device_is_disk_witness :
  fst two_run = SetValue tt /\
  exists steps, map snd steps = snd two_run /\
    goes_on (closed two_info 8192 []) (follows_as two_step two_start steps) /\
    forall n, goes_on (fun s => stored 8192 (view O s)) (follows_as two_step two_start (take n steps)).
Proof.
  assert (let '(c, h) := two_run in
    exists steps, map snd steps = h /\
      goes_on (fun s => c <> Unfinished -> closed two_info 8192 [] s) (follows_as two_step two_start steps) /\
      forall n, goes_on (fun s => stored 8192 (view O s)) (follows_as two_step two_start (take n steps))) as H.
  { refine (loop_device_is_disk (daemon_kernel two_info two_requests 2) two_info 8192 9 12 8 two_requests 4096 4
      (fun _ => repeat O 20) dev_info_zero 0 128 256 two_turns None 3 sample_options (fun _ _ => 0) (fun _ => 0) (fun _ => 0)
      (BQ := two_queue) _ _ _ _ _ _ _); try discriminate; try range.
    - exact two_mode.
    - reflexivity.
    - exact two_valid.
    - intros sec i _ _. reflexivity. }
  assert (fst two_run = SetValue tt) as Hc by (vm_compute; reflexivity).
  split; [exact Hc|]. destruct two_run as [c h]. cbn [fst snd] in *. subst c.
  destruct H as (steps & Hs & H & Hn). exists steps. split; [exact Hs|]. split; [|exact Hn].
  eapply goes_on_mono; [|exact H]. intros s Hcl. apply Hcl. discriminate.
Defined.
