(* ===== verification/Server.v ===== *)
(** * Server: the example servers

    The [main]s of [src/examples/nop.cpp] and [src/examples/loop.cpp]: the
    command line, the descriptors and the runtime they hold, and the sender
    that brings a device up, serves it beside a wait for a signal, and deletes
    it.  Both are compositions of the daemon operations. *)

From S2P Require Import Prelude Effects Protocol UblkCmd Utils Path Text Sys Ledger Raw IoResult TagProtocol Queue BatchLayout BatchObject Control IoDev Daemon DaemonRun CtlText Ctl LoopHandler.
From Stdlib Require Import Ascii.
From Stdlib Require String.

#[local] Open Scope Z_scope.

(** ** Command lines *)

Definition is_space (c : ascii) : bool :=
  let n := Z.of_N (N_of_ascii c) in (n =? 32) || ((9 <=? n) && (n <=? 13)).

Fixpoint skip_space (s : list ascii) : list ascii :=
  match s with c :: s' => if is_space c then skip_space s' else s | [] => [] end.

(** The leading digits. *)
Fixpoint take_digits (s : list ascii) : list Z :=
  match s with
  | c :: s => match char_digit c with Some d => d :: take_digits s | None => [] end
  | [] => []
  end.

(** [std::stoul]: blanks, a sign, digits; a minus sign negates modulo 2^64, and
    what follows the digits is ignored. *)
Definition stoul (s : list ascii) : Z + exn :=
  let s := skip_space s in
  let '(neg, s) := match s with
                   | "-"%char :: s => (true, s)
                   | "+"%char :: s => (false, s)
                   | _ => (false, s)
                   end in
  match take_digits s with
  | [] => inr (InvalidArgument "stoul")
  | ds => if 2 ^ 64 <=? digits_value ds then inr (OutOfRange "stoul")
          else inl (if (neg : bool) then uwrap 64 (- digits_value ds) else digits_value ds)
  end.

Record ServerOptions := {
  opt_dev_id : Z;
  opt_nr_queues : Z;
  opt_queue_depth : Z;
  opt_buf_bytes : Z;
  opt_unprivileged : bool;
  opt_backing : list ascii;
}.

Definition DEFAULT_QUEUE_DEPTH : Z := 64.
Definition DEFAULT_IO_BUF_BYTES : Z := 512 .<< 10.

Definition default_options : ServerOptions :=
  {| opt_dev_id := uwrap 32 (-1); opt_nr_queues := 1; opt_queue_depth := DEFAULT_QUEUE_DEPTH;
     opt_buf_bytes := DEFAULT_IO_BUF_BYTES; opt_unprivileged := false; opt_backing := [] |}.

(** What a command line asks for: to serve, or to show the usage and exit. *)
Inductive start_up := Serve (o : ServerOptions) | Usage (code : Z).

(** [opts]: what [getopt] returns in turn, each option with its argument; any
    other character than those of the option string stands for ['?']. *)
Fixpoint loop_getopt (opts : list (ascii * list ascii)) (o : ServerOptions) : start_up + exn :=
  let number arg (set : Z -> start_up + exn) :=
    match stoul arg with inl v => set v | inr x => inr x end in
  match opts with
  | [] => inl (match opt_backing o with [] => Usage 1 | _ => Serve o end)
  | (opt, optarg) :: opts =>
      match opt with
      | "f"%char => loop_getopt opts
          {| opt_dev_id := opt_dev_id o; opt_nr_queues := opt_nr_queues o;
             opt_queue_depth := opt_queue_depth o; opt_buf_bytes := opt_buf_bytes o;
             opt_unprivileged := opt_unprivileged o; opt_backing := optarg |}
      | "n"%char => number optarg (fun v => loop_getopt opts
          {| opt_dev_id := uwrap 32 v; opt_nr_queues := opt_nr_queues o;
             opt_queue_depth := opt_queue_depth o; opt_buf_bytes := opt_buf_bytes o;
             opt_unprivileged := opt_unprivileged o; opt_backing := opt_backing o |})
      | "q"%char => number optarg (fun v => loop_getopt opts
          {| opt_dev_id := opt_dev_id o; opt_nr_queues := uwrap 16 v;
             opt_queue_depth := opt_queue_depth o; opt_buf_bytes := opt_buf_bytes o;
             opt_unprivileged := opt_unprivileged o; opt_backing := opt_backing o |})
      | "d"%char => number optarg (fun v => loop_getopt opts
          {| opt_dev_id := opt_dev_id o; opt_nr_queues := opt_nr_queues o;
             opt_queue_depth := uwrap 16 v; opt_buf_bytes := opt_buf_bytes o;
             opt_unprivileged := opt_unprivileged o; opt_backing := opt_backing o |})
      | "b"%char => number optarg (fun v => loop_getopt opts
          {| opt_dev_id := opt_dev_id o; opt_nr_queues := opt_nr_queues o;
             opt_queue_depth := opt_queue_depth o; opt_buf_bytes := uwrap 32 v;
             opt_unprivileged := opt_unprivileged o; opt_backing := opt_backing o |})
      | "p"%char => loop_getopt opts
          {| opt_dev_id := opt_dev_id o; opt_nr_queues := opt_nr_queues o;
             opt_queue_depth := opt_queue_depth o; opt_buf_bytes := opt_buf_bytes o;
             opt_unprivileged := true; opt_backing := opt_backing o |}
      | "h"%char => inl (Usage 0)
      | _ => inl (Usage 1)
      end
  end.

(** The no-op server has the device id for its only option. *)
Fixpoint nop_getopt (opts : list (ascii * list ascii)) (dev_id : Z) : (Z + Z) + exn :=
  match opts with
  | [] => inl (inl dev_id)
  | (opt, optarg) :: opts =>
      match opt with
      | "n"%char => match stoul optarg with
                    | inl v => nop_getopt opts (uwrap 32 v)
                    | inr x => inr x
                    end
      | "h"%char => inl (inr 0)
      | _ => inl (inr 1)
      end
  end.

Definition nop_usage (prog : list ascii) : list (list ascii) :=
  [ lit "Usage: " ++ prog ++ lit " -n <dev_id>" ++ [newline];
    lit "Run a no-op ublk block device." ++ [newline]; [newline]; lit "Options:" ++ [newline];
    lit "  -n <dev_id>  ublk device id to use" ++ [newline];
    lit "  -h           show this help and exit" ++ [newline] ].

Definition loop_usage (prog : list ascii) : list (list ascii) :=
  [ lit "Usage: " ++ prog ++ lit " [OPTIONS] -f <backing_file>" ++ [newline];
    lit "Run a ublk loop device backed by a regular file or block device." ++ [newline]; [newline];
    lit "Options:" ++ [newline];
    lit "  -f <file>     backing file or block device (required)" ++ [newline];
    lit "  -n <dev_id>   ublk device id, -1: auto-allocation (default)" ++ [newline];
    lit "  -q <queues>   nr_hw_queues (default: 1)" ++ [newline];
    lit "  -d <depth>    queue depth, max in-flight io commands (default: 64)" ++ [newline];
    lit "  -b <bytes>    io buffer size (default: 524288)" ++ [newline];
    lit "  -p            enable UBLK_F_UNPRIVILEGED_DEV (unprivileged mode)" ++ [newline];
    lit "  -h            show this help and exit" ++ [newline] ].

(** ** nop.cpp *)

Definition nop_prep_dev_info (dev_id flags : Z) : ublksrv_ctrl_dev_info :=
  {| info_nr_hw_queues := 1; info_queue_depth := 128; info_state := 0; info_io_desc_size := 0;
     info_max_io_buf_bytes := 512 .<< 10; info_dev_id := dev_id; info_ublksrv_pid := 0;
     info_pad1 := 0; info_flags := flags; info_ublksrv_flags := 0; info_owner_uid := 0;
     info_owner_gid := 0; info_reserved1 := 0; info_reserved2 := 0 |}.

Definition nop_prep_params (info : ublksrv_ctrl_dev_info) : ublk_params :=
  {| params_len := sizeof ublk_params_layout; params_types := UBLK_PARAM_TYPE_BASIC;
     params_basic :=
       {| basic_attrs := 0; basic_logical_bs_shift := 9; basic_physical_bs_shift := 12;
          basic_io_opt_shift := 12; basic_io_min_shift := 9;
          basic_max_sectors := info_max_io_buf_bytes info .>> 9; basic_chunk_sectors := 0;
          basic_dev_sectors := (250 * 1024 * 1024 * 1024) .>> 9; basic_virt_boundary_mask := 0 |};
     params_discard := params_discard params_zero; params_devt := params_devt params_zero;
     params_zoned := params_zoned params_zero; params_dma_alignment := 0;
     params_seg := params_seg params_zero; params_integrity := params_integrity params_zero |}.

(** A product of [__u32]s. *)
Definition nop_handle_io (iod : ublksrv_io_desc) (buf : option Z) : task io_value :=
  just (IoInt (uwrap 32 (iod_nr_sectors iod * 512))).

(** ** when_all

    The two senders concurrently at their calls; the completion of the pair is
    the error that came first, if any ([first]: the first sender's, when both
    fail), else a stop, if any, else the value.  The stop that the failure of
    one requests of the other is one of the replies the other may see. *)
Definition when_all_result (first : bool) (c1 c2 : completion unit) : completion unit :=
  match c1, c2 with
  | SetError e1, SetError e2 => SetError (if first then e1 else e2)
  | SetError e, _ | _, SetError e => SetError e
  | SetValue _, SetValue _ => SetValue tt
  | _, _ => SetStopped
  end.

Definition when_all (sched : list nat) (first : bool) (s1 s2 : task unit) : task unit :=
  let_value (concurrently sched [s1; s2]) (fun ps =>
  match join_all ps with
  | Some [c1; c2] => Done (when_all_result first c1 c2)
  | _ => Done Unfinished
  end).

Section Server.
Context {Q1 Q2 : Type} {IQ : DeviceQueue Q1} {BQ : DeviceQueue Q2}.
(** The values of uninitialised locals; condy's default ring sizes; the
    process; the buffer of the signal and the number read into it. *)
Context (uninit : ublksrv_ctrl_dev_info) (features0 cpuset0 sq0 cq0 pid si ssi_signo : Z).
(** The schedules of the queues and of the two senders. *)
Context (queue_sched sched : list nat) (first : bool).

(** [name]: the server's in its messages. *)
Definition wait_signal (name : list ascii) (ctrl_fd signal_fd dev_id : Z) : task unit :=
  let_value (print (name ++ lit ": ublk device " ++ format_uint dev_id ++ lit " is running..." ++
                    [newline])) (fun _ =>
  do! trigger (AsyncRead (Fd signal_fd) (Some si) 128 0) lift_res in
  let_value (print (name ++ lit ": received signal " ++ format_uint ssi_signo ++
                    lit ", shutting down..." ++ [newline])) (fun _ =>
  do! control_stop_dev uninit None ctrl_fd dev_id in
  just tt)).

(** The sender of [main]: [flags], [mk_info] and [mk_params] are the server's
    [let_value] bodies, [o] the options it runs the device with. *)
Definition serve_device (name : list ascii) (flags : Z -> Z) (mk_info : Z -> ublksrv_ctrl_dev_info)
    (mk_params : ublksrv_ctrl_dev_info -> ublk_params) (o : Options) (ctrl_fd signal_fd : Z) : task unit :=
  let_value (control_get_features ctrl_fd features0) (fun features =>
  let_value (daemon_setup uninit ctrl_fd (mk_info (flags features))) (fun '(_, info) =>
  let_value (daemon_configure uninit None ctrl_fd (info_dev_id info) (mk_params info)) (fun _ =>
  let_value
    (when_all sched first
       (let_value (daemon_run (IQ := IQ) (BQ := BQ) uninit cpuset0 sq0 cq0 queue_sched None ctrl_fd
                     (info_dev_id info) o)
          (fun _ => perform RequestStop id))
       (let_value (daemon_start uninit None ctrl_fd (info_dev_id info) pid)
          (fun _ => wait_signal name ctrl_fd signal_fd (info_dev_id info)))) (fun _ =>
  control_del_dev uninit None ctrl_fd (info_dev_id info))))).

(** The loop of [main]: not one of the device's; its thread is not pinned. *)
Definition MAIN_LOOP : Z := -1.
Definition ALL_CPUS : Z := -1.

(** From [signalfd] on: the descriptors, the runtime, the sender. *)
Definition with_control (s : Z -> Z -> task unit) : task unit :=
  let_value (trigger SignalFd SetValue : task sys_res) (fun r =>
  match r with
  | SysErr errno => throw (SystemError errno)
  | SysOk signal_fd =>
      defer
        (let_value (trigger (Open (lit "/dev/ublk-control")) SetValue : task sys_res) (fun r =>
         match r with
         | SysErr errno => throw (SystemError errno)
         | SysOk ctrl_fd =>
             defer
               (let_value (trigger (RuntimeInit MAIN_LOOP sq0 cq0 None) SetValue : task sys_res) (fun r =>
                match r with
                | SysErr errno => throw (SystemError errno)
                | SysOk _ =>
                    let_value (perform (LoopStart MAIN_LOOP ALL_CPUS) id) (fun _ =>
                    defer (sync_wait (s ctrl_fd signal_fd)) (IoLoop_dtor MAIN_LOOP))
                end))
               (perform (Close ctrl_fd) id)
         end))
        (perform (Close signal_fd) id)
  end).

Definition recovery_flags (features : Z) : Z :=
  if has features UBLK_F_USER_RECOVERY then UBLK_F_USER_RECOVERY else 0.

Definition nop_options : Options := {| runtime_options := None; nr_files := 0; nr_buffers := 0 |}.

Definition nop_body (dev_id : Z) : task unit :=
  with_control (serve_device (lit "ublk-nop") recovery_flags (nop_prep_dev_info dev_id) nop_prep_params
                  nop_options).

(** Completes with the exit code, or with the exception that is not caught. *)
Definition nop_main (prog : list ascii) (opts : list (ascii * list ascii)) : task Z :=
  match nop_getopt opts (uwrap 32 (-1)) with
  | inr x => throw x
  | inl (inr code) => let_value (print_all (nop_usage prog)) (fun _ => just code)
  | inl (inl dev_id) => catch_exit (nop_body dev_id)
  end.

(** ** loop.cpp *)

(** [<fcntl.h>] *)
Definition F_GETFL : Z := 3.
Definition F_SETFL : Z := 4.
Definition O_DIRECT : Z := 0x4000.

(** [strerror]: the text of an error number. *)
Context (strerror : Z -> list ascii).

Definition set_direct (backing_fd : Z) : task unit :=
  let_value (trigger (Fcntl backing_fd F_GETFL 0) SetValue : task sys_res) (fun r =>
  match r with
  | SysErr _ => just tt
  | SysOk flags =>
      let_value (trigger (Fcntl backing_fd F_SETFL (flags .| O_DIRECT)) SetValue : task sys_res) (fun r =>
      match r with
      | SysErr errno => print (lit "ublk-loop: failed to set O_DIRECT on backing file: " ++
                               strerror errno ++ [newline])
      | SysOk _ => just tt
      end)
  end).

Definition loop_flags (o : ServerOptions) (features : Z) : Z :=
  let flags := recovery_flags features in
  if opt_unprivileged o then flags .| UBLK_F_UNPRIVILEGED_DEV else flags.

Definition loop_server_options : Options := {| runtime_options := None; nr_files := 2; nr_buffers := 0 |}.

(** [1u << shift]: the shift of a block size is below 32. *)
Definition file_lines (path : list ascii) (f : FileInfo) : list ascii :=
  lit "ublk-loop: backing file " ++ path ++ lit " (" ++ format_uint (file_size f) ++ lit " bytes, " ++
  format_uint (file_size f / SECTOR_SIZE) ++ lit " sectors, logical " ++
  format_uint (uwrap 32 (1 .<< logical_bs_shift f)) ++ lit "B, physical " ++
  format_uint (uwrap 32 (1 .<< physical_bs_shift f)) ++ lit "B)" ++ [newline].

Definition loop_body (o : ServerOptions) : task unit :=
  let_value (trigger (Open (opt_backing o)) SetValue : task sys_res) (fun r =>
  match r with
  | SysErr errno => throw (SystemError errno)
  | SysOk backing_fd =>
      defer
        (let_value (set_direct backing_fd) (fun _ =>
         let_value (lo_file_size backing_fd) (fun f =>
         let_value (print (file_lines (opt_backing o) f)) (fun _ =>
         with_control
           (serve_device (lit "ublk-loop") (loop_flags o)
              (prep_dev_info (opt_dev_id o) (opt_nr_queues o) (opt_queue_depth o) (opt_buf_bytes o))
              (fun info => prep_params info (file_size f / SECTOR_SIZE) (logical_bs_shift f)
                             (physical_bs_shift f))
              loop_server_options)))))
        (perform (Close backing_fd) id)
  end).

Definition loop_main (prog : list ascii) (opts : list (ascii * list ascii)) : task Z :=
  match loop_getopt opts default_options with
  | inr x => throw x
  | inl (Usage code) => let_value (print_all (loop_usage prog)) (fun _ => just code)
  | inl (Serve o) => catch_exit (loop_body o)
  end.
End Server.
