(* ===== verification/ServerProof.v ===== *)
(** * ServerProof: what the example servers guarantee

    The life of the device as a protocol, the ledger in which a device is
    deleted only when its service is over, and the exit code, for both servers
    of [Server]. *)

From S2P Require Import Prelude Effects Protocol UblkCmd Utils Path Text Sys Ledger Raw IoResult TagProtocol Queue BatchLayout BatchObject Batch BatchProof BatchRun Control IoDev Daemon DaemonRun CtlText Ctl LoopHandler Server.
From Stdlib Require Import Ascii.

#[local] Open Scope Z_scope.

(** The commands of the steps of a server but those of [run], the
    configuration and the deletion; and those of them that are for a device. *)
Definition device_commands : list ioc :=
  [UBLK_U_CMD_GET_DEV_INFO2; UBLK_U_CMD_GET_DEV_INFO; UBLK_U_CMD_GET_FEATURES;
   UBLK_U_CMD_GET_PARAMS; UBLK_U_CMD_START_USER_RECOVERY; UBLK_U_CMD_END_USER_RECOVERY;
   UBLK_U_CMD_START_DEV; UBLK_U_CMD_STOP_DEV].

Definition serve_commands : list ioc := UBLK_U_CMD_ADD_DEV :: device_commands.

Lemma device_serve_command (P : ioc -> Prop) :
  (forall op, op ∈ serve_commands -> P op) -> forall op, op ∈ device_commands -> P op.
Proof. intros H op Hop. apply H. right. exact Hop. Qed.

Ltac is_serve_command := apply (bool_decide_unpack _); vm_compute; exact I.

(** ** The life of the device

    The control commands that change the device, in the only order in which
    the server may issue them, the phase each leaves it in when it succeeds;
    the commands that look it up are allowed at any time. *)

Inductive phase := Fresh | Present | Recovering | Configured | Live | Stopped | Gone.

#[global] Instance phase_eq_dec : EqDecision phase.
Proof. solve_decision. Defined.

Definition life_next (s : phase) (op : ioc) (r : async_res) : option phase :=
  let ok s' := match r with AsyncOk _ => s' | _ => s end in
  if bool_decide (op = UBLK_U_CMD_ADD_DEV) then
    if bool_decide (s = Fresh) then
      Some (match r with AsyncErr ec => if ec =? EEXIST then Present else Fresh | _ => ok Present end)
    else None
  else if bool_decide (op = UBLK_U_CMD_START_USER_RECOVERY) then
    if bool_decide (s = Present) then Some (ok Recovering) else None
  else if bool_decide (op ∈ [UBLK_U_CMD_SET_PARAMS; UBLK_U_CMD_GET_PARAMS]) then
    if bool_decide (s ∈ [Present; Recovering]) then Some (ok Configured) else None
  else if bool_decide (op ∈ [UBLK_U_CMD_START_DEV; UBLK_U_CMD_END_USER_RECOVERY]) then
    if bool_decide (s = Configured) then Some (ok Live) else None
  else if bool_decide (op = UBLK_U_CMD_STOP_DEV) then
    if bool_decide (s = Live) then Some (ok Stopped) else None
  else if bool_decide (op = UBLK_U_CMD_DEL_DEV) then
    if bool_decide (s = Stopped) then Some (ok Gone) else None
  else if bool_decide (op ∈ [UBLK_U_CMD_GET_DEV_INFO; UBLK_U_CMD_GET_DEV_INFO2;
                             UBLK_U_CMD_GET_QUEUE_AFFINITY; UBLK_U_CMD_GET_FEATURES])
  then Some s
  else None.

Definition life_step (s : phase) (c : call) : reply c -> option phase :=
  match c return reply c -> option phase with
  | UringCtrl _ op _ => fun r => life_next s op (fst r)
  | _ => fun _ => Some s
  end.

(** Calls that do not concern the life of the device. *)
Definition bystander (c : call) : Prop := forall s r, life_step s c r = Some s.

Lemma no_control_bystander c : no_control c -> bystander c.
Proof. intros H s r. destruct c; reflexivity || contradiction. Qed.

Lemma lookup_bystander fd c : is_lookup fd c -> bystander c.
Proof.
  intros H s r. destruct c; try contradiction; [|reflexivity].
  destruct H as [_ [->| ->]]; reflexivity.
Qed.

Lemma bystanders_obey {A} (p : task A) s :
  all_calls bystander p -> obeys life_step p s (fun _ s' => s' = s).
Proof. intros H. apply obeys_ignored. eapply all_calls_mono; [|exact H]. intros c Hc r. apply Hc. Qed.

Section Life.
Context {Q1 Q2 : Type} {IQ : DeviceQueue Q1} {BQ : DeviceQueue Q2}.
Context {IL : DeviceQueueLaws Q1} {BL : DeviceQueueLaws Q2}.
Context (uninit : ublksrv_ctrl_dev_info) (features0 cpuset0 sq0 cq0 pid si ssi_signo : Z).
Context (queue_sched sched : list nat) (first : bool).

(** A step that leaves the device in phase [s] when it completes with a value. *)
Definition reaches {A} (s : phase) : completion A -> phase -> Prop := ends (fun s' => s' = s) (fun _ => True).

Lemma reaches_bind {A B} (p : task A) (f : A -> task B) s s1 s2 :
  obeys life_step p s (reaches s1) -> (forall a, obeys life_step (f a) s1 (reaches s2)) ->
  obeys life_step (let_value p f) s (reaches s2).
Proof.
  intros Hp Hf. apply obeys_let_value. eapply obeys_mono; [|exact Hp].
  intros [a|x| |] s' H; [cbn in H; subst s'; apply Hf|exact I..].
Qed.

Lemma reaches_co_await {A} (p : task A) s s' :
  obeys life_step p s (reaches s') -> obeys life_step (co_await p) s (reaches s').
Proof. intros H. apply obeys_co_await. eapply obeys_mono; [|exact H]. intros [] ? Hc; exact Hc. Qed.

Lemma reaches_stay {A} (p : task A) s : all_calls bystander p -> obeys life_step p s (reaches s).
Proof. intros H. eapply obeys_mono; [|apply bystanders_obey, H]. intros [] s' ->; exact I || reflexivity. Qed.

Lemma command_reaches fd op s s' cmd r :
  (forall r, life_next s op r = Some (match r with AsyncOk _ => s' | _ => s end)) ->
  exists t, life_step s (UringCtrl fd op cmd) r = Some t /\
    match fst r with AsyncOk _ => t = s' | _ => True end.
Proof. intros H. eexists. split; [apply H|]. destruct (fst r); exact I || reflexivity. Qed.

Lemma request_reaches e fd dev_id req op data0 s s' :
  path_request req = Some (op, data0) ->
  (forall r, life_next s op r = Some (match r with AsyncOk _ => s' | _ => s end)) ->
  obeys life_step (public_control uninit e fd dev_id req) s (reaches s').
Proof.
  intros Hreq Hop. apply (path_request_last life_step s (fun t => t = s') (fun _ => True) fd op)
    with (data0 := data0); [intros c Hc r; apply (lookup_bystander fd c Hc)| |exact I|exact Hreq].
  intros cmd r. apply command_reaches, Hop.
Qed.

Lemma lookup_calls_bystander {A} (p : task A) fd : all_calls (is_lookup fd) p -> all_calls bystander p.
Proof. apply all_calls_mono, lookup_bystander. Qed.

Lemma cached_bystander e fd dev_id info : all_calls bystander (cached_get_dev_info e fd dev_id info).
Proof.
  apply (lookup_calls_bystander _ fd), cached_get_dev_info_each; [intros; exact I|intros cmd; cbn; auto..].
Qed.

Lemma get_dev_info_bystander fd dev_id info : all_calls bystander (control_get_dev_info fd dev_id info).
Proof.
  apply (lookup_calls_bystander _ fd), get_dev_info_each; [intros; exact I|intros cmd; cbn; auto..].
Qed.

(** A device set up: to be configured, its recovery begun or not. *)
Definition set_up (s : phase) : Prop := s = Present \/ s = Recovering.

Lemma set_up_bind {A B} (p : task A) (f : A -> task B) s s2 :
  obeys life_step p s (ends set_up (fun _ => True)) ->
  (forall a s1, set_up s1 -> obeys life_step (f a) s1 (reaches s2)) ->
  obeys life_step (let_value p f) s (reaches s2).
Proof.
  intros Hp Hf. apply obeys_let_value. eapply obeys_mono; [|exact Hp].
  intros [a|x| |] s' H; [apply Hf, H|exact I..].
Qed.

Lemma reaches_set_up {A} (p : task A) s s' : set_up s' ->
  obeys life_step p s (reaches s') -> obeys life_step p s (ends set_up (fun _ => True)).
Proof. intros Hs Hp. eapply obeys_mono; [|exact Hp]. intros [] t H; cbn in *; subst; auto. Qed.

Lemma setup_sets_up fd info :
  obeys life_step (daemon_setup uninit fd info) Fresh (ends set_up (fun _ => True)).
Proof.
  unfold daemon_setup. destruct (_ =? _).
  - intros [[v|ec|] out]; (eexists; split; [reflexivity|]); exact I || (left; reflexivity).
  - apply obeys_let_value, obeys_trigger. intros [r out]. eexists. split; [reflexivity|].
    cbn [then_obeys fst snd].
    assert (forall s v, s = Present -> obeys life_step
      (if negb (v =? - EEXIST) then just (true, out_info info out)
       else let! info := control_get_dev_info fd (info_dev_id (out_info info out)) (out_info info out) in
        if user_recovery info && need_recovery info then
          do! control_start_user_recovery uninit (Some info) fd (info_dev_id info) in just (false, info)
        else just (false, info)) s (ends set_up (fun _ => True))) as Hrest.
    { intros s v ->. destruct (negb _); [left; reflexivity|].
      apply obeys_let_value. eapply obeys_mono;
        [|apply (reaches_co_await (control_get_dev_info _ _ _) Present Present), reaches_stay, get_dev_info_bystander].
      intros [i|x| |] s' H; [|exact I..]. cbn in H. subst s'. cbn [then_obeys].
      destruct (_ && _); [|left; reflexivity]. apply (reaches_set_up _ _ Recovering); [right; reflexivity|].
      eapply reaches_bind; [apply reaches_co_await|intros; reflexivity].
      apply (request_reaches (Some i) fd (info_dev_id i) ReqStartUserRecovery _ 0 Present Recovering eq_refl).
      intros []; reflexivity. }
    destruct r as [v|ec|]; cbn [lift_res].
    + apply (Hrest _ v). reflexivity.
    + cbn. destruct (Z.eqb_spec ec EEXIST) as [->|]; cbn; [|exact I]. apply (Hrest _ (- EEXIST)). reflexivity.
    + exact I.
Qed.

Lemma configure_reaches e fd dev_id params s : set_up s ->
  obeys life_step (daemon_configure uninit e fd dev_id params) s (reaches Configured).
Proof.
  intros Hs. unfold daemon_configure.
  eapply reaches_bind; [apply reaches_co_await, reaches_stay, cached_bystander|].
  intros i. destruct (_ =? _); (eapply reaches_bind; [apply reaches_co_await|intros; reflexivity]).
  - eapply set_params_last; [intros c Hc r; apply (lookup_bystander fd c Hc)| |exact I|reflexivity].
    intros cmd r. apply command_reaches. destruct Hs as [-> | ->]; intros []; reflexivity.
  - eapply get_params_last; [intros c Hc r; apply (lookup_bystander fd c Hc)| |exact I|reflexivity].
    intros cmd r. apply command_reaches. destruct Hs as [-> | ->]; intros []; reflexivity.
Qed.

Lemma start_reaches e fd dev_id :
  obeys life_step (daemon_start uninit e fd dev_id pid) Configured (reaches Live).
Proof.
  unfold daemon_start. eapply reaches_bind; [apply reaches_co_await, reaches_stay, cached_bystander|].
  intros i. destruct (negb _); [|destruct (user_recovery i); [|exact I]]; apply reaches_co_await.
  - apply (request_reaches (Some i) fd dev_id (ReqStartDev pid) _ (uwrap 64 pid) Configured Live eq_refl).
    intros []; reflexivity.
  - apply (request_reaches (Some i) fd dev_id (ReqEndUserRecovery pid) _ (uwrap 64 pid) Configured Live eq_refl).
    intros []; reflexivity.
Qed.

Lemma wait_signal_reaches name fd signal_fd dev_id :
  obeys life_step (wait_signal uninit si ssi_signo name fd signal_fd dev_id) Live (reaches Stopped).
Proof.
  unfold wait_signal. eapply reaches_bind; [apply reaches_stay, print_calls; intros ** ? ?; reflexivity|].
  intros _. eapply reaches_bind;
    [apply reaches_co_await, reaches_stay; split; [intros ? ?; reflexivity|intros; exact I]|].
  intros _. eapply reaches_bind; [apply reaches_stay, print_calls; intros ** ? ?; reflexivity|].
  intros _. eapply reaches_bind; [apply reaches_co_await|intros; reflexivity].
  apply (request_reaches None fd dev_id ReqStopDev _ 0 Live Stopped eq_refl). intros []; reflexivity.
Qed.
End Life.

Section Composition.
Context {Q1 Q2 : Type} {IQ : DeviceQueue Q1} {BQ : DeviceQueue Q2}.
Context {IL : DeviceQueueLaws Q1} {BL : DeviceQueueLaws Q2}.
Context (uninit : ublksrv_ctrl_dev_info) (features0 cpuset0 sq0 cq0 pid si ssi_signo : Z).
Context (queue_sched sched : list nat) (first : bool) (strerror : Z -> list ascii).

Abbreviation serve := (serve_device (IQ := IQ) (BQ := BQ) uninit features0 cpuset0 sq0 cq0 pid si ssi_signo
                         queue_sched sched first).

(** The pair completes with a value only when the second sender does; the first
    does not concern the protocol. *)
Lemma when_all_second {S} (delta : S -> forall c, reply c -> option S) neutral (p q : task unit) s Q :
  (forall c, neutral c -> forall s r, delta s c r = Some s) ->
  all_calls neutral p ->
  obeys delta q s (fun c s' => forall c', (c' = SetValue tt -> c = SetValue tt) -> Q c' s') ->
  (forall s, Q Unfinished s) ->
  obeys delta (when_all sched first p q) s Q.
Proof.
  intros Hn Hp Hq HU. apply obeys_let_value. eapply obeys_mono; [|apply (concurrently_beside delta neutral Hn 1 
    (fun c s' => forall c', (c' = SetValue tt -> c = SetValue tt) -> Q c' s'))].
  - intros c s' (ps & -> & Hlen & Hps). cbn [then_obeys].
    destruct ps as [|p1 [|p2 [|]]]; try discriminate.
    destruct (join_all [p1; p2]) as [[|c1 [|c2 [|]]]|] eqn:E; try apply HU.
    pose proof (join_all_lookup _ _ 1%nat c2 E eq_refl) as H2. injection H2 as ->.
    apply (Hps 1%nat _ eq_refl). destruct c1 as [[]| | |], c2 as [[]| | |]; cbn; congruence.
  - intros [|[|i]] x Hx; cbn in Hx; [injection Hx as <-; exact Hp|injection Hx as <-; exact Hq|discriminate].
Qed.

Lemma when_all_reaches p q s s' :
  all_calls bystander p -> obeys life_step q s (reaches s') ->
  obeys life_step (when_all sched first p q) s (reaches s').
Proof.
  intros Hp Hq. apply (when_all_second life_step bystander); [intros c Hc; exact Hc|exact Hp| |intros; exact I].
  eapply obeys_mono; [|exact Hq]. intros c t Hc [[]|x| |] Hv; try exact I.
  rewrite Hv in Hc by reflexivity. exact Hc.
Qed.

Lemma serve_device_life name flags mk_info mk_params o ctrl_fd signal_fd :
  obeys life_step (serve name flags mk_info mk_params o ctrl_fd signal_fd) Fresh (reaches Gone).
Proof.
  unfold serve_device. eapply reaches_bind.
  { apply reaches_stay. unfold control_get_features. calls. split; [intros ? ?; reflexivity|intros; exact I]. }
  intros features. eapply set_up_bind; [apply setup_sets_up|]. intros [created info] s1 Hs1.
  eapply reaches_bind; [apply configure_reaches, Hs1|]. intros [applied params].
  eapply reaches_bind.
  - apply when_all_reaches.
    + apply all_calls_let_value; [|intros; split; [intros ? ?; reflexivity|intros; exact I]].
      eapply daemon_run_each; [exact IL|exact BL|exact no_control_bystander|intros ? ? ?; reflexivity..].
    + eapply reaches_bind; [apply start_reaches|]. intros. apply wait_signal_reaches.
  - intros [].
    apply (request_reaches uninit None ctrl_fd (info_dev_id info) ReqDelDev _ 0 Stopped Gone eq_refl).
    intros []; reflexivity.
Qed.
End Composition.

(** ** Resources

    The ledger of a server, in which the device is deleted only when nothing
    of its service is left: every queue is gone, with its buffers, mappings and
    registrations, and every loop but [main]'s has exited. *)

Definition idle (x : resource) : bool :=
  match x with RFile _ => true | RLoop l => l =? MAIN_LOOP | _ => false end.

Definition is_delete (c : call) : bool :=
  match c with UringCtrl _ op _ => bool_decide (op = UBLK_U_CMD_DEL_DEV) | _ => false end.

Definition server_ledger (X : resources) (c : call) (r : reply c) : option resources :=
  if is_delete c && negb (forallb idle (elements X)) then None else own_ledger X c r.

(** The operation gives back what it takes, from what is held on. *)
Definition gives_back {A} (p : task A) (X : resources) : Prop :=
  obeys (assuming open_ok server_ledger) p (Some X) (under (fun c X' => c <> Unfinished -> X' = X)).

(** A call that takes and gives nothing. *)
Definition uneventful (c : call) : Prop :=
  keeps_resources c /\ is_delete c = false /\ forall r, open_ok c r = true.

Lemma server_ledger_own X c r : is_delete c = false -> server_ledger X c r = own_ledger X c r.
Proof. intros H. unfold server_ledger. rewrite H. reflexivity. Qed.

Lemma own_ledger_keeps c X r : keeps_resources c -> own_ledger X c r = Some X.
Proof. intros H. unfold own_ledger. destruct (is_lock c); [reflexivity|apply H]. Qed.

Lemma uneventful_step c : uneventful c ->
  forall s r, assuming open_ok server_ledger s c r = Some s.
Proof.
  intros (Hk & Hd & Ho) [X|] r; [|reflexivity]. cbn [assuming]. rewrite Ho, server_ledger_own, own_ledger_keeps; auto.
Qed.

Lemma no_delete {A} (p : task A) s Q :
  obeys (assuming open_ok own_ledger) p s Q -> all_calls (fun c => is_delete c = false) p ->
  obeys (assuming open_ok server_ledger) p s Q.
Proof.
  revert s; induction p as [c|c k IH]; intros s; [auto|]. cbn [obeys all_calls]. intros Hp [Hc Hk] r.
  destruct (Hp r) as (s' & Hd & Hq). exists s'. split; [|apply IH; auto].
  destruct s as [X|]; [|exact Hd]. cbn [assuming] in *. rewrite server_ledger_own by exact Hc. exact Hd.
Qed.

Lemma gives_back_uneventful {A} (p : task A) X : all_calls uneventful p -> gives_back p X.
Proof.
  intros H. eapply obeys_mono; [|apply obeys_ignored; eapply all_calls_mono; [|exact H]].
  - intros c s' ->. intros _. reflexivity.
  - intros c Hc r. apply uneventful_step, Hc.
Qed.

Lemma gives_back_bind {A B} (p : task A) (f : A -> task B) X :
  gives_back p X -> (forall a, gives_back (f a) X) -> gives_back (let_value p f) X.
Proof.
  intros Hp Hf. eapply under_let_value; [exact Hp|]. intros [a|x| |] X' HX; cbn [then_obeys].
  - rewrite HX by discriminate. apply Hf.
  - exact (fun _ => HX ltac:(discriminate)).
  - exact (fun _ => HX ltac:(discriminate)).
  - intros HU. congruence.
Qed.

Lemma gives_back_connect {A B} (p : task A) (f : completion A -> task B) X :
  gives_back p X -> (forall c, c <> Unfinished -> gives_back (f c) X) -> f Unfinished = Done Unfinished ->
  gives_back (connect p f) X.
Proof.
  intros Hp Hf HU. apply obeys_connect. eapply obeys_mono; [|exact Hp].
  intros c [X'|] HX; cbn [under] in HX.
  - destruct c; [rewrite HX by discriminate; apply Hf; discriminate..|rewrite HU; intros H; congruence].
  - apply obeys_sunk. intros; exact I.
Qed.

Lemma gives_back_defer {A} (p : task A) (c : call) f x X :
  gives_back p (acquire x X) -> (forall r, own_ledger (acquire x X) c r = Some X) ->
  is_delete c = false -> (forall r, open_ok c r = true) ->
  obeys (assuming open_ok server_ledger) (defer p (perform c f)) (Some (acquire x X))
    (under (fun c X' => c <> Unfinished -> X' = X)).
Proof.
  intros Hp Hc Hd Ho. apply obeys_defer. eapply obeys_mono; [|exact Hp].
  intros cp [X'|] HX; unfold guard_obeys; cbn [under] in HX.
  - destruct cp; [rewrite HX by discriminate..|intros H; congruence];
      (intros r; exists (Some X); split; [|intros _; reflexivity]; cbn [assuming];
       rewrite Ho, server_ledger_own, Hc by exact Hd; reflexivity).
  - destruct cp; try exact I; apply obeys_sunk; intros []; exact I.
Qed.

(** A descriptor opened, used and closed. *)
Lemma gives_back_open {A} (c : call) (p : Z -> task A) (k : reply c -> sys_res) X :
  is_delete c = false -> (forall r, open_ok c r = true) ->
  (forall r, own_ledger X c r = Some (match k r with SysOk fd => acquire (RFile fd) X | SysErr _ => X end)) ->
  (forall fd, gives_back (p fd) (acquire (RFile fd) X)) ->
  gives_back (let_value (trigger c (fun r => SetValue (k r))) (fun r =>
    match r with
    | SysErr errno => throw (SystemError errno)
    | SysOk fd => defer (p fd) (perform (Close fd) id)
    end)) X.
Proof.
  intros Hd Ho Hc Hp r. cbn [assuming]. rewrite Ho, server_ledger_own, Hc by exact Hd.
  eexists; split; [reflexivity|]. destruct (k r) as [fd|errno]; cbn -[own_ledger defer].
  - apply gives_back_defer; [apply Hp|intros; apply release_acquire|reflexivity|reflexivity].
  - intros _. reflexivity.
Qed.

Ltac calm := split; [intros ? ?; reflexivity|split; reflexivity].
Ltac call_and t := split; [t|intros; exact I].

Section Exit.
Context {Q1 Q2 : Type} {IQ : DeviceQueue Q1} {BQ : DeviceQueue Q2}.
Context {IL : DeviceQueueLaws Q1} {BL : DeviceQueueLaws Q2}.
Context (uninit : ublksrv_ctrl_dev_info) (features0 cpuset0 sq0 cq0 pid si ssi_signo : Z).
Context (queue_sched sched : list nat) (first : bool) (strerror : Z -> list ascii).

Abbreviation serve := (serve_device (IQ := IQ) (BQ := BQ) uninit features0 cpuset0 sq0 cq0 pid si ssi_signo
                         queue_sched sched first).

Lemma gives_back_when_all p q X :
  gives_back p X -> all_calls uneventful q -> gives_back (when_all sched first p q) X.
Proof.
  intros Hp Hq. apply obeys_let_value. eapply obeys_mono;
    [|apply (concurrently_beside (assuming open_ok server_ledger) uneventful uneventful_step 0
        (under (fun c X' => c <> Unfinished -> X' = X)))].
  - intros c s' (ps & -> & Hlen & Hps). cbn [then_obeys].
    destruct ps as [|p1 [|p2 [|]]]; try discriminate.
    pose proof (Hps 0%nat p1 eq_refl) as H1. unfold beside in H1. cbn in H1.
    destruct (join_all [p1; p2]) as [[|c1 [|c2 [|]]]|] eqn:E;
      try (destruct s'; [intros HU; congruence|exact I]).
    pose proof (join_all_lookup _ _ 0%nat c1 E eq_refl) as Hc1. injection Hc1 as ->.
    destruct s' as [X'|]; [|exact I]. cbn [under obeys] in *. intros _. apply H1.
    intros ->. destruct p2 as [[]|]; discriminate E.
  - intros [|[|i]] x Hx; cbn in Hx; [injection Hx as <-; exact Hp|injection Hx as <-; exact Hq|discriminate].
Qed.

(** A property of the calls of the steps but [run], the configuration and the
    deletion. *)
Section ServeCalls.
Context (P : call -> Prop) (fd : Z).
Hypothesis HP : forall op, op ∈ device_commands -> each_cmd P fd op.
Hypothesis Htimeout : forall tv_sec tv_nsec, P (AsyncTimeout tv_sec tv_nsec).

Ltac each_call := first [exact Htimeout|apply HP; is_serve_command].

Lemma request_each e dev_id req op data0 :
  path_request req = Some (op, data0) -> op ∈ device_commands ->
  all_calls P (public_control uninit e fd dev_id req).
Proof.
  intros H Hop. apply (path_request_each P fd) with (op := op) (data0 := data0);
    [exact Htimeout|each_call..|exact H|exact (HP op Hop)].
Qed.

Lemma cached_each e dev_id info : all_calls P (cached_get_dev_info e fd dev_id info).
Proof. apply cached_get_dev_info_each; each_call. Qed.

Lemma setup_each info : each_cmd P fd UBLK_U_CMD_ADD_DEV -> all_calls P (daemon_setup uninit fd info).
Proof.
  intros Hadd. unfold daemon_setup. destruct (_ =? _).
  - calls. split; [apply Hadd|intros; exact I].
  - apply all_calls_let_value; [split; [apply Hadd|intros; exact I]|].
    intros [c out]. apply all_calls_let_value.
    + apply all_calls_co_await, all_calls_upon_error; [exact I|]. intros x. destruct (negb _); exact I.
    + intros r. destruct (negb _); [exact I|].
      apply all_calls_let_value; [apply all_calls_co_await, get_dev_info_each; each_call|]. intros i.
      destruct (_ && _); [|exact I]. apply all_calls_let_value; [apply all_calls_co_await|intros; exact I].
      apply (request_each (Some i) _ ReqStartUserRecovery _ 0 eq_refl); is_serve_command.
Qed.

Lemma configure_each e dev_id params :
  (forall i, all_calls P (control_set_params uninit (Some i) fd dev_id params)) ->
  all_calls P (daemon_configure uninit e fd dev_id params).
Proof.
  intros Hset. unfold daemon_configure. apply all_calls_let_value; [apply all_calls_co_await, cached_each|].
  intros i. destruct (_ =? _); (apply all_calls_let_value; [apply all_calls_co_await|intros; exact I]).
  - apply Hset.
  - apply get_params_each; each_call.
Qed.

Lemma start_each e dev_id : all_calls P (daemon_start uninit e fd dev_id pid).
Proof.
  unfold daemon_start. apply all_calls_let_value; [apply all_calls_co_await, cached_each|].
  intros i. destruct (negb _); [|destruct (user_recovery i); [|exact I]]; apply all_calls_co_await.
  - apply (request_each (Some i) dev_id (ReqStartDev pid) _ (uwrap 64 pid) eq_refl); is_serve_command.
  - apply (request_each (Some i) dev_id (ReqEndUserRecovery pid) _ (uwrap 64 pid) eq_refl); is_serve_command.
Qed.

Lemma wait_signal_each name signal_fd dev_id :
  (forall s, P (Print s)) -> P (AsyncRead (Fd signal_fd) (Some si) 128 0) ->
  all_calls P (wait_signal uninit si ssi_signo name fd signal_fd dev_id).
Proof.
  intros Hp Hr. unfold wait_signal. apply all_calls_let_value; [apply print_calls, Hp|]. intros _.
  apply all_calls_let_value; [apply all_calls_co_await; split; [exact Hr|intros; exact I]|]. intros _.
  apply all_calls_let_value; [apply print_calls, Hp|]. intros _.
  apply all_calls_let_value; [apply all_calls_co_await|intros; exact I].
  apply (request_each None dev_id ReqStopDev _ 0 eq_refl); is_serve_command.
Qed.
End ServeCalls.

Lemma uneventful_cmd fd op :
  op <> UBLK_U_CMD_REG_BUF -> op <> UBLK_U_CMD_UNREG_BUF -> op <> UBLK_U_CMD_DEL_DEV ->
  each_cmd uneventful fd op.
Proof.
  intros H1 H2 H3 cmd. split; [apply plain_keeps; assumption|]. split; [|intros; reflexivity].
  cbn. apply bool_decide_eq_false_2, H3.
Qed.

Lemma uneventful_serve fd op : op ∈ device_commands -> each_cmd uneventful fd op.
Proof. intros H. apply uneventful_cmd; intros ->; revert H; apply (bool_decide_unpack _); vm_compute; exact I. Qed.

Lemma uneventful_timeout tv_sec tv_nsec : uneventful (AsyncTimeout tv_sec tv_nsec).
Proof. split; [intros ? ?; reflexivity|split; reflexivity]. Qed.

Lemma run_gives_back fd dev_id o X :
  gives_back (daemon_run (IQ := IQ) (BQ := BQ) uninit cpuset0 sq0 cq0 queue_sched None fd dev_id o) X.
Proof.
  apply no_delete.
  - rewrite <- (left_id_L ∅ (⊎) X) at 1. eapply obeys_mono; [|apply under_frame; eapply daemon_run_obeys; eassumption].
    intros c [X'|] H; [|exact I]. destruct H as (H' & HQ & ->). intros Hc. rewrite (HQ Hc).
    apply (left_id_L ∅ (⊎)).
  - eapply daemon_run_each; [exact IL|exact BL|intros []; reflexivity || contradiction|
      intros ?; reflexivity..].
Qed.

Lemma serve_device_gives_back name flags mk_info mk_params o ctrl_fd signal_fd X :
  forallb idle (elements X) = true ->
  gives_back (serve name flags mk_info mk_params o ctrl_fd signal_fd) X.
Proof.
  intros HX. unfold serve_device. apply gives_back_bind.
  { apply gives_back_uneventful. unfold control_get_features. calls.
    split; [apply uneventful_cmd; discriminate|intros; exact I]. }
  intros features. apply gives_back_bind; [apply gives_back_uneventful, setup_each; [apply uneventful_serve|exact uneventful_timeout|apply uneventful_cmd; discriminate]|].
  intros [created info]. apply gives_back_bind; [apply gives_back_uneventful, configure_each;
    [apply uneventful_serve|exact uneventful_timeout|intros i; apply set_params_each;
     [exact uneventful_timeout|apply uneventful_cmd; discriminate..]]|].
  intros [applied params]. apply gives_back_bind.
  - apply gives_back_when_all.
    + apply gives_back_bind; [apply run_gives_back|]. intros _. apply gives_back_uneventful.
      call_and calm.
    + apply all_calls_let_value; [apply start_each; [apply uneventful_serve|exact uneventful_timeout]|].
      intros _. apply wait_signal_each; [apply uneventful_serve|exact uneventful_timeout|intros s|]; calm.
  - intros []. eapply obeys_mono; [|apply obeys_ignored].
    + intros c s ->. intros _. reflexivity.
    + apply (path_request_each (fun c => forall r, assuming open_ok server_ledger (Some X) c r = Some (Some X))
        ctrl_fd) with (req := ReqDelDev) (op := UBLK_U_CMD_DEL_DEV) (data0 := 0) (uninit := uninit) (e := None);
        [intros ? ? r; apply uneventful_step, uneventful_timeout|
         intros cmd r; apply uneventful_step; apply uneventful_cmd; discriminate..|reflexivity|].
      intros cmd r. cbn [assuming open_ok]. unfold server_ledger. rewrite HX, andb_false_r.
      rewrite own_ledger_keeps by (apply plain_keeps; discriminate). reflexivity.
Qed.

Lemma serve_device_reports name flags mk_info mk_params o ctrl_fd signal_fd :
  all_calls reports_nothing (serve name flags mk_info mk_params o ctrl_fd signal_fd).
Proof.
  assert (forall op, op ∈ device_commands -> each_cmd reports_nothing ctrl_fd op) as HP by (intros ** ?; exact I).
  assert (forall a b, reports_nothing (AsyncTimeout a b)) as HT by (intros; exact I).
  unfold serve_device. apply all_calls_let_value.
  { unfold control_get_features. calls. call_and ltac:(exact I). }
  intros features. apply all_calls_let_value; [apply setup_each; [assumption..|intros ?; exact I]|]. intros [created info].
  apply all_calls_let_value;
    [apply configure_each; [assumption..|intros i; apply set_params_each; [exact HT|intros ?; exact I..]]|]. intros [applied params].
  apply all_calls_let_value.
  - apply all_calls_let_value.
    + apply all_calls_concurrently. apply Forall_cons; [|apply Forall_singleton].
      * apply all_calls_let_value; [|intros; call_and ltac:(exact I)].
        eapply daemon_run_each; [exact IL|exact BL|intros []; exact id || (intros; exact I)|
          intros ?; exact I..].
      * apply all_calls_let_value; [apply start_each; assumption|]. intros _.
        apply wait_signal_each; try assumption; intros; exact I.
    + intros ps. destruct (join_all ps) as [[|? [|? [|]]]|]; exact I.
  - intros []. apply (path_request_each reports_nothing ctrl_fd) with (req := ReqDelDev)
      (op := UBLK_U_CMD_DEL_DEV) (data0 := 0) (uninit := uninit) (e := None);
      [exact HT|intros ?; exact I..|reflexivity|intros ?; exact I].
Qed.
End Exit.

Lemma idle_acquire x X : idle x = true -> forallb idle (elements X) = true ->
  forallb idle (elements (acquire x X)) = true.
Proof.
  intros Hx HX. apply List.forallb_forall. intros y Hy. apply list_elem_of_In, gmultiset_elem_of_elements in Hy.
  unfold acquire in Hy. apply gmultiset_elem_of_disj_union in Hy as [Hy|Hy].
  - rewrite List.forallb_forall in HX. apply HX, list_elem_of_In, gmultiset_elem_of_elements, Hy.
  - apply gmultiset_elem_of_singleton in Hy as ->. exact Hx.
Qed.

(** The exit code of a server that completes. *)
Lemma catch_exit_reports q :
  all_calls reports_nothing q ->
  obeys exit_step (catch_exit q) None (fun c s => c <> Unfinished -> c = SetValue (exit_code s)).
Proof.
  intros Hq. apply obeys_connect. eapply obeys_mono; [|apply reports_nothing_obeys, Hq].
  intros [a|e| |] s ->; try (intros _; reflexivity); [|intros H; congruence].
  apply obeys_let_value, obeys_trigger. intros r. eexists; split; [reflexivity|].
  intros _. cbn. destruct (as_except_ptr e); reflexivity.
Qed.

Section Mains.
Context {Q1 Q2 : Type} {IQ : DeviceQueue Q1} {BQ : DeviceQueue Q2}.
Context {IL : DeviceQueueLaws Q1} {BL : DeviceQueueLaws Q2}.
Context (uninit : ublksrv_ctrl_dev_info) (features0 cpuset0 sq0 cq0 pid si ssi_signo : Z).
Context (queue_sched sched : list nat) (first : bool) (strerror : Z -> list ascii).

Abbreviation serve := (serve_device (IQ := IQ) (BQ := BQ) uninit features0 cpuset0 sq0 cq0 pid si ssi_signo
                         queue_sched sched first).
Abbreviation nop := (nop_body (IQ := IQ) (BQ := BQ) uninit features0 cpuset0 sq0 cq0 pid si ssi_signo
                       queue_sched sched first).
Abbreviation loop := (loop_body (IQ := IQ) (BQ := BQ) uninit features0 cpuset0 sq0 cq0 pid si ssi_signo
                        queue_sched sched first strerror).

Lemma file_calls (P : call -> Prop) fd :
  (forall c, match c with Fcntl _ _ _ | Fstat _ | BlkIoctl _ _ | Print _ => True | _ => False end -> P c) ->
  all_calls P (set_direct strerror fd) /\ all_calls P (lo_file_size fd).
Proof.
  intros HP. split.
  - apply all_calls_let_value; [split; [apply HP; exact I|intros; exact I]|]. intros [flags|]; [|exact I].
    apply all_calls_let_value; [split; [apply HP; exact I|intros; exact I]|]. intros [|errno]; [exact I|].
    apply print_calls. intros; apply HP; exact I.
  - assert (forall req, all_calls P (blk_ioctl fd req)) as Hio.
    { intros req. apply all_calls_let_value; [split; [apply HP; exact I|intros; exact I]|]. intros []; exact I. }
    apply all_calls_let_value; [split; [apply HP; exact I|intros; exact I]|]. intros [[mode size]|]; [|exact I].
    destruct (_ =? _); [|destruct (_ =? _); exact I].
    do 3 (apply all_calls_let_value; [apply Hio|intros]). exact I.
Qed.

(** *** The life of the device *)

Definition lives {A} (p : task A) (s : phase) : Prop := obeys life_step p s (fun _ _ => True).

Lemma lives_bystanders {A} (p : task A) s : all_calls bystander p -> lives p s.
Proof. intros H. eapply obeys_mono; [|apply bystanders_obey, H]. intros; exact I. Qed.

Lemma lives_bind {A B} (p : task A) (f : A -> task B) s :
  all_calls bystander p -> (forall a, lives (f a) s) -> lives (let_value p f) s.
Proof.
  intros Hp Hf. apply obeys_let_value. eapply obeys_mono; [|apply bystanders_obey, Hp].
  intros [a|x| |] s' ->; [apply Hf|exact I..].
Qed.

Lemma lives_defer {A} (p : task A) d s : lives p s -> all_calls bystander d -> lives (defer p d) s.
Proof.
  intros Hp Hd. apply obeys_defer. eapply obeys_mono; [|exact Hp].
  intros [] s' _; unfold guard_obeys; try exact I;
    (eapply obeys_mono; [|apply lives_bystanders, Hd]); intros [] ? _; exact I.
Qed.

Lemma lives_sync_wait {A} (p : task A) s : lives p s -> lives (sync_wait p) s.
Proof. intros Hp. apply obeys_connect. eapply obeys_mono; [|exact Hp]. intros [] ? _; exact I. Qed.

Lemma with_control_lives p s : (forall fd sfd, lives (p fd sfd) s) -> lives (with_control sq0 cq0 p) s.
Proof.
  intros Hp. apply lives_bind; [call_and ltac:(intros ? ?; reflexivity)|].
  intros [sfd|]; [|exact I]. apply lives_defer; [|call_and ltac:(intros ? ?; reflexivity)].
  apply lives_bind; [call_and ltac:(intros ? ?; reflexivity)|].
  intros [fd|]; [|exact I]. apply lives_defer; [|call_and ltac:(intros ? ?; reflexivity)].
  apply lives_bind; [call_and ltac:(intros ? ?; reflexivity)|].
  intros [v|]; [|exact I]. apply lives_bind; [call_and ltac:(intros ? ?; reflexivity)|].
  intros _. apply lives_defer; [apply lives_sync_wait, Hp|call_and ltac:(intros ? ?; reflexivity)].
Qed.

Lemma serve_lives name flags mk_info mk_params o fd sfd :
  lives (serve name flags mk_info mk_params o fd sfd) Fresh.
Proof. eapply obeys_mono; [|apply serve_device_life]. intros; exact I. Qed.

Lemma catch_exit_lives p s : lives p s -> lives (catch_exit p) s.
Proof.
  intros Hp. apply obeys_connect. eapply obeys_mono; [|exact Hp].
  intros [] s' _; try exact I. apply lives_bystanders. call_and ltac:(intros ? ?; reflexivity).
Qed.

Lemma loop_body_lives o : lives (loop o) Fresh.
Proof.
  apply lives_bind; [call_and ltac:(intros ? ?; reflexivity)|]. intros [fd|]; [|exact I].
  destruct (file_calls bystander fd) as [H1 H2];
    [intros c Hc; apply no_control_bystander; destruct c; exact I || contradiction|].
  apply lives_defer; [|call_and ltac:(intros ? ?; reflexivity)].
  apply lives_bind; [exact H1|]. intros _. apply lives_bind; [exact H2|]. intros f.
  apply lives_bind; [apply print_calls; intros ** ? ?; reflexivity|]. intros _.
  apply with_control_lives. intros. apply serve_lives.
Qed.

(** *** Resources *)

Lemma with_control_gives_back p X :
  forallb idle (elements X) = true ->
  (forall fd sfd X, forallb idle (elements X) = true -> gives_back (p fd sfd) X) ->
  gives_back (with_control sq0 cq0 p) X.
Proof.
  intros HX Hp. apply (gives_back_open SignalFd _ (fun r => r));
    [reflexivity|reflexivity|intros; reflexivity|]. intros sfd.
  apply (gives_back_open (Open _) _ (fun r => r)); [reflexivity|reflexivity|intros; reflexivity|]. intros fd.
  apply gives_back_bind.
  { apply gives_back_uneventful.
    call_and calm. }
  intros [v|errno]; [|intros _; reflexivity]. intros r. eexists; split; [reflexivity|].
  apply gives_back_defer; [|intros; apply release_acquire|reflexivity|reflexivity].
  apply gives_back_connect; [apply Hp|intros [] Hc; try (intros _; reflexivity); congruence|reflexivity].
  repeat apply idle_acquire; reflexivity || exact HX.
Qed.

Lemma file_gives_back fd X : gives_back (set_direct strerror fd) X /\ gives_back (lo_file_size fd) X.
Proof.
  destruct (file_calls uneventful fd) as [H1 H2].
  - intros c Hc. destruct c; try contradiction; calm.
  - split; apply gives_back_uneventful; assumption.
Qed.

Lemma nop_body_gives_back dev_id : gives_back (nop dev_id) ∅.
Proof. apply with_control_gives_back; [reflexivity|]. intros. apply serve_device_gives_back; assumption. Qed.

Lemma loop_body_gives_back o : gives_back (loop o) ∅.
Proof.
  apply (gives_back_open (Open _) (fun fd => let_value (set_direct strerror fd) _) (fun r => r));
    [reflexivity|reflexivity|intros; reflexivity|]. intros fd.
  apply gives_back_bind; [apply file_gives_back|]. intros _.
  apply gives_back_bind; [apply file_gives_back|]. intros f.
  apply gives_back_bind; [apply gives_back_uneventful, print_calls; intros s; calm|]. intros _.
  apply with_control_gives_back; [apply idle_acquire; reflexivity|].
  intros. apply serve_device_gives_back; assumption.
Qed.

Lemma catch_exit_gives_back p X : gives_back p X -> gives_back (catch_exit p) X.
Proof.
  intros Hp. apply gives_back_connect; [exact Hp| |reflexivity]. intros [] Hc; try (intros _; reflexivity).
  apply gives_back_uneventful. call_and calm.
Qed.
(** *** Reports *)

Lemma with_control_reports p :
  (forall fd sfd, all_calls reports_nothing (p fd sfd)) -> all_calls reports_nothing (with_control sq0 cq0 p).
Proof.
  intros Hp. apply all_calls_let_value; [call_and ltac:(exact I)|]. intros [sfd|]; [|exact I].
  apply all_calls_defer; [|call_and ltac:(exact I)].
  apply all_calls_let_value; [call_and ltac:(exact I)|]. intros [fd|]; [|exact I].
  apply all_calls_defer; [|call_and ltac:(exact I)].
  apply all_calls_let_value; [call_and ltac:(exact I)|]. intros [v|]; [|exact I].
  apply all_calls_let_value; [call_and ltac:(exact I)|]. intros _.
  apply all_calls_defer; [|call_and ltac:(exact I)].
  apply all_calls_connect; [apply Hp|intros []; exact I].
Qed.

Lemma loop_body_reports o : all_calls reports_nothing (loop o).
Proof.
  apply all_calls_let_value; [call_and ltac:(exact I)|]. intros [fd|]; [|exact I].
  destruct (file_calls reports_nothing fd) as [H1 H2]; [intros []; exact id || (intros; exact I)|].
  apply all_calls_defer; [|call_and ltac:(exact I)].
  apply all_calls_let_value; [exact H1|]. intros _. apply all_calls_let_value; [exact H2|]. intros f.
  apply all_calls_let_value; [apply print_calls; intros; exact I|]. intros _.
  apply with_control_reports. intros. apply serve_device_reports.
Qed.

Abbreviation main_nop := (nop_main (IQ := IQ) (BQ := BQ) uninit features0 cpuset0 sq0 cq0 pid si ssi_signo
                            queue_sched sched first).
Abbreviation main_loop := (loop_main (IQ := IQ) (BQ := BQ) uninit features0 cpuset0 sq0 cq0 pid si ssi_signo
                             queue_sched sched first strerror).

(** A body under [main]'s handlers, run from the start. *)
Lemma main_run (K : env) (p : task unit) :
  gives_back p ∅ -> all_calls reports_nothing p ->
  let r := exec K (catch_exit p) [] in
  Forall (fun x => open_ok (projT1 x) (projT2 x) = true) (snd r) -> fst r <> Unfinished ->
  accepts server_ledger ∅ (snd r) = Some ∅ /\
  exists s, accepts exit_step None (snd r) = Some s /\ fst r = SetValue (exit_code s).
Proof.
  intros Hp Hr r Hok Hf.
  destruct (obeys_exec _ K _ _ _ [] (catch_exit_reports _ Hr)) as (t & s & Ht & Ha & Hs).
  destruct (obeys_exec _ K _ _ _ [] (catch_exit_gives_back _ _ Hp)) as (t' & X & Ht' & Ha' & HX).
  fold r in Ht, Ht', Hs, HX. cbn [app] in Ht, Ht'. rewrite <- Ht in Ha. rewrite <- Ht' in Ha'.
  split; [|exists s; auto]. rewrite accepts_assuming in Ha' by exact Hok.
  destruct (accepts server_ledger ∅ (snd r)) as [X'|]; [|discriminate]. injection Ha' as <-.
  f_equal. exact (HX Hf).
Qed.

(** C15: a server that has started always cleans up after itself: whatever the
    driver, the runtime and the handlers do (a descriptor the system returns
    is not negative), under every schedule of the queues and of the two senders,
    when [main] ends every descriptor has been closed, every loop has exited
    and every queue has released what it had; the device is deleted only when
    nothing of its service is left; and the exit code is that of the one error
    reported, if there is one, 0 otherwise. *)
Theorem server_exits (K : env) (p : task Z) :
  (exists prog opts dev_id, nop_getopt opts (uwrap 32 (-1)) = inl (inl dev_id) /\ p = main_nop prog opts) \/
  (exists prog opts o, loop_getopt opts default_options = inl (Serve o) /\ p = main_loop prog opts) ->
  let r := exec K p [] in
  Forall (fun x => open_ok (projT1 x) (projT2 x) = true) (snd r) -> fst r <> Unfinished ->
  accepts server_ledger ∅ (snd r) = Some ∅ /\
  exists s, accepts exit_step None (snd r) = Some s /\ fst r = SetValue (exit_code s).
Proof.
  intros [(prog & opts & dev_id & E & ->)|(prog & opts & o & E & ->)].
  - unfold nop_main. rewrite E. apply main_run; [apply nop_body_gives_back|].
    apply with_control_reports. intros. apply serve_device_reports.
  - unfold loop_main. rewrite E. apply main_run; [apply loop_body_gives_back|apply loop_body_reports].
Qed.

(** C14: a server takes its device through its life in order, whatever the
    driver answers and however the queues, the start and the wait for the
    signal interleave: the device is added, or found and its recovery begun,
    each once; configured only then; started or recovered only when it has been
    configured; stopped only when it is live; and deleted only when the
    stop has succeeded; [run], which proceeds beside, only looks it up. *)
Theorem server_device_order (K : env) prog opts :
  (exists s, accepts life_step Fresh (snd (exec K (main_nop prog opts) [])) = Some s) /\
  (exists s, accepts life_step Fresh (snd (exec K (main_loop prog opts) [])) = Some s).
Proof.
  assert (forall (p : task Z), lives p Fresh ->
    exists s, accepts life_step Fresh (snd (exec K p [])) = Some s) as Hrun.
  { intros p Hp. destruct (obeys_exec _ K _ _ _ [] Hp) as (t & s & Ht & Ha & _).
    cbn [app] in Ht. rewrite Ht. exists s. exact Ha. }
  assert (forall l (code : Z), lives (let_value (print_all l) (fun _ => just code)) Fresh) as Husage.
  { intros l code. apply lives_bind; [|intros; exact I].
    apply print_all_calls. intros ** ? ?; reflexivity. }
  split; apply Hrun.
  - unfold nop_main. destruct (nop_getopt _ _) as [[dev_id|code]|x]; [|apply Husage|exact I].
    apply catch_exit_lives, with_control_lives. intros. apply serve_lives.
  - unfold loop_main. destruct (loop_getopt _ _) as [[o|code]|x]; [|apply Husage|exact I].
    apply catch_exit_lives, loop_body_lives.
Qed.
End Mains.

(** A device of batch queues that the driver knows nothing of yet, and a signal. *)
Definition served : env := device_driver false (dev_info_with UBLK_F_BATCH_IO) params_zero.

Definition sample_nop : task Z :=
  nop_main (IQ := sample_queue) (BQ := sample_batch_queue) dev_info_zero 0 0 128 256 1 2 15 sample_schedule
    alternating true (lit "nop") [("n"%char, lit "0")].

Lemma server_exits_witness :
  let r := exec served sample_nop [] in
  fst r = SetValue 0 /\ accepts server_ledger ∅ (snd r) = Some ∅.
Proof.
  intros r. assert (fst r = SetValue 0) as Hr by (vm_compute; reflexivity). split; [exact Hr|].
  refine (proj1 (server_exits (IQ := sample_queue) (BQ := sample_batch_queue)
    (IL := IoQueue_laws 4096 true 3 sample_schedule)
    (BL := BatchIoQueue_laws (F := bool_futex) 4096 true sample_sqe 0 0 sample_turns)
    dev_info_zero 0 0 128 256 1 2 15 sample_schedule alternating true (fun _ => [])
    served sample_nop (or_introl (ex_intro _ (lit "nop") (ex_intro _ [("n"%char, lit "0")]
      (ex_intro _ 0 (conj _ eq_refl))))) _ _)).
  - reflexivity.
  - apply open_ok_history. vm_compute; reflexivity.
  - intros HU. change (fst r = Unfinished) in HU. congruence.
Defined.

Lemma server_device_order_witness :
  accepts life_step Fresh (snd (exec served sample_nop [])) = Some Gone /\
  exists s, accepts life_step Fresh (snd (exec served sample_nop [])) = Some s.
Proof.
  split; [vm_compute; reflexivity|].
  exact (proj1 (server_device_order (IQ := sample_queue) (BQ := sample_batch_queue)
    (IL := IoQueue_laws 4096 true 3 sample_schedule)
    (BL := BatchIoQueue_laws (F := bool_futex) 4096 true sample_sqe 0 0 sample_turns)
    dev_info_zero 0 0 128 256 1 2 15 sample_schedule alternating true (fun _ => [])
    served (lit "nop") [("n"%char, lit "0")])).
Defined.

(** A device stopped by another process: [run] ends first and cancels the wait
    for the signal, the cancelled wait completes the two as stopped, and the
    deletion after them is skipped.  The server exits with 0 and its device
    stays, started. *)
Definition stopped_elsewhere : env := fun h c =>
  match c return reply c -> reply c with
  | AsyncRead (Fd _) (Some _) _ _ => fun _ => AsyncStopped
  | _ => fun r => r
  end (served h c).

Example stopped_elsewhere_stays :
  fst (exec stopped_elsewhere sample_nop []) = SetValue 0 /\
  accepts life_step Fresh (snd (exec stopped_elsewhere sample_nop [])) = Some Live.
Proof. split; vm_compute; reflexivity. Qed.
