(* ===== verification/ServerDevice.v ===== *)
(** * ServerDevice: what the loop server tells the driver of its device

    The device that the [main] of [src/examples/loop.cpp] adds and configures,
    against the command line and what the system and the driver have told the
    server so far: a protocol whose state is what has been told, and which
    admits an [ADD_DEV] and a [SET_PARAMS] only with the right contents. *)

From S2P Require Import Prelude Effects Protocol UblkCmd Path Text Sys Raw Queue BatchObject BatchProof BatchRun Control IoDev Daemon DaemonRun CtlText Ctl LoopHandler Server ServerProof.
From Stdlib Require Import Ascii.

#[local] Open Scope Z_scope.

#[global] Instance ublksrv_ctrl_dev_info_eq_dec : EqDecision ublksrv_ctrl_dev_info.
Proof. solve_decision. Defined.
#[global] Instance ublk_param_basic_eq_dec : EqDecision ublk_param_basic.
Proof. solve_decision. Defined.
#[global] Instance ublk_param_discard_eq_dec : EqDecision ublk_param_discard.
Proof. solve_decision. Defined.
#[global] Instance ublk_param_devt_eq_dec : EqDecision ublk_param_devt.
Proof. solve_decision. Defined.
#[global] Instance ublk_param_zoned_eq_dec : EqDecision ublk_param_zoned.
Proof. solve_decision. Defined.
#[global] Instance ublk_param_segment_eq_dec : EqDecision ublk_param_segment.
Proof. solve_decision. Defined.
#[global] Instance ublk_param_integrity_eq_dec : EqDecision ublk_param_integrity.
Proof. solve_decision. Defined.
#[global] Instance ublk_params_eq_dec : EqDecision ublk_params.
Proof. solve_decision. Defined.

(** ** The device asked for on the command line *)

(** The number given with option [c], at the width of its field; the last one
    counts. *)
Definition number_of (c : ascii) (w default : Z) (opts : list (ascii * list ascii)) : Z :=
  foldl (fun n o =>
    if bool_decide (fst o = c)
    then match stoul (snd o) with inl v => v mod 2 ^ w | inr _ => n end else n) default opts.

Definition asks (c : ascii) (opts : list (ascii * list ascii)) : bool :=
  existsb (fun o => bool_decide (fst o = c)) opts.

(** Recovery when the driver has it, unprivileged when asked for. *)
Definition flags_asked (opts : list (ascii * list ascii)) (features : Z) : Z :=
  (if Z.testbit features 3 then 2 ^ 3 else 0) .| (if asks "p" opts then 2 ^ 5 else 0).

Definition info_asked (opts : list (ascii * list ascii)) (features : Z) : ublksrv_ctrl_dev_info :=
  {| info_nr_hw_queues := number_of "q" 16 1 opts; info_queue_depth := number_of "d" 16 64 opts;
     info_state := 0; info_io_desc_size := 0;
     info_max_io_buf_bytes := number_of "b" 32 524288 opts;
     info_dev_id := number_of "n" 32 (2 ^ 32 - 1) opts;
     info_ublksrv_pid := 0; info_pad1 := 0; info_flags := flags_asked opts features;
     info_ublksrv_flags := 0; info_owner_uid := 0; info_owner_gid := 0; info_reserved1 := 0;
     info_reserved2 := 0 |}.

(** ** What the server has been told *)

Record told := {
  told_features : Z;
  told_stat : option (Z * Z);
  told_ioctls : gmap Z Z;
  (** The descriptions of the device that have been in its buffers. *)
  told_infos : list ublksrv_ctrl_dev_info;
}.

Definition nothing_told : told :=
  {| told_features := 0; told_stat := None; told_ioctls := ∅; told_infos := [] |}.

(** A command that fails writes nothing. *)
Definition info_buffer (p : ptr) (r : async_res * payload) : list ublksrv_ctrl_dev_info :=
  match p with
  | Some (Ubuf _ (PInfo i)) => [match fst r with AsyncOk _ => out_info i (snd r) | _ => i end]
  | _ => []
  end.

Definition tell (k : told) (c : call) : reply c -> told :=
  match c return reply c -> told with
  | Fstat _ => fun r =>
      match r with
      | inl st => {| told_features := told_features k; told_stat := Some st; told_ioctls := told_ioctls k;
                     told_infos := told_infos k |}
      | inr _ => k
      end
  | BlkIoctl _ req => fun r =>
      match r with
      | SysOk v => {| told_features := told_features k; told_stat := told_stat k;
                      told_ioctls := <[req := v]> (told_ioctls k); told_infos := told_infos k |}
      | SysErr _ => k
      end
  | UringCtrl _ op cmd => fun r =>
      {| told_features := match cmd_addr cmd with
                          | Some (Ubuf _ (PFeatures f)) => out_features f (snd r)
                          | _ => told_features k
                          end;
         told_stat := told_stat k; told_ioctls := told_ioctls k;
         told_infos := info_buffer (cmd_addr cmd) r ++ told_infos k |}
  | _ => fun _ => k
  end.

(** The shift of a block size; that of a sector when it is no power of two. *)
Definition block_shift (v : Z) : Z :=
  match list_find (fun s => 2 ^ s = v) (seqZ 0 64) with Some (_, s) => s | None => 9 end.

(** The bytes of the backing file and the shifts of its block sizes. *)
Definition file_told (k : told) : option (Z * Z * Z) :=
  '(mode, st_size) ← told_stat k;
  if (mode .& S_IFMT) =? S_IFBLK then
    bytes ← told_ioctls k !! BLKGETSIZE64;
    logical ← told_ioctls k !! BLKSSZGET;
    physical ← told_ioctls k !! BLKPBSZGET;
    Some (bytes, block_shift (logical mod 2 ^ 64), block_shift (physical mod 2 ^ 64))
  else if (mode .& S_IFMT) =? S_IFREG then Some (st_size mod 2 ^ 64, 9, 12)
  else None.

(** Parameters with nothing but their basic part. *)
Definition basic_only (b : ublk_param_basic) : ublk_params :=
  {| params_len := 152; params_types := UBLK_PARAM_TYPE_BASIC; params_basic := b;
     params_discard := params_discard params_zero; params_devt := params_devt params_zero;
     params_zoned := params_zoned params_zero; params_dma_alignment := 0;
     params_seg := params_seg params_zero; params_integrity := params_integrity params_zero |}.

(** [n] units of 512 bytes are the whole ones of [bytes]. *)
Definition whole_sectors (n bytes : Z) : Prop := n * 512 <= bytes < n * 512 + 512.

#[global] Instance whole_sectors_dec n bytes : Decision (whole_sectors n bytes).
Proof. unfold whole_sectors. apply _. Defined.

(** The parameters of a device as large as the file, with its block sizes, and
    whose requests fit the buffers of the device; it has a cache to flush. *)
Definition params_right (k : told) (p : ublk_params) : bool :=
  let b := params_basic p in
  bool_decide (p = basic_only b) &&
  match file_told k with
  | Some (bytes, logical, physical) =>
      bool_decide (whole_sectors (basic_dev_sectors b) bytes) &&
      bool_decide (basic_logical_bs_shift b = logical) && bool_decide (basic_physical_bs_shift b = physical)
  | None => false
  end &&
  bool_decide (Exists (fun i => whole_sectors (basic_max_sectors b) (info_max_io_buf_bytes i)) (told_infos k)) &&
  bool_decide (basic_attrs b = UBLK_ATTR_VOLATILE_CACHE /\ basic_io_opt_shift b = 12 /\
               basic_io_min_shift b = 9 /\ basic_chunk_sectors b = 0 /\ basic_virt_boundary_mask b = 0).

Definition described (opts : list (ascii * list ascii)) (k : told) (c : call) : bool :=
  match c with
  | UringCtrl _ op cmd =>
      if bool_decide (op = UBLK_U_CMD_ADD_DEV) then
        match cmd_addr cmd with
        | Some (Ubuf None (PInfo i)) => bool_decide (i = info_asked opts (told_features k))
        | _ => false
        end
      else if bool_decide (op = UBLK_U_CMD_SET_PARAMS) then
        match cmd_addr cmd with
        | Some (Ubuf _ (PParams p)) => params_right k p
        | _ => false
        end
      else true
  | _ => true
  end.

Definition describe_step (opts : list (ascii * list ascii)) (k : told) (c : call) (r : reply c) : option told :=
  if described opts k c then Some (tell k c r) else None.

(** ** The command line and the file *)

Lemma loop_getopt_asked opts : forall o o',
  loop_getopt opts o = inl (Serve o') ->
  opt_nr_queues o' = number_of "q" 16 (opt_nr_queues o) opts /\
  opt_queue_depth o' = number_of "d" 16 (opt_queue_depth o) opts /\
  opt_buf_bytes o' = number_of "b" 32 (opt_buf_bytes o) opts /\
  opt_dev_id o' = number_of "n" 32 (opt_dev_id o) opts /\
  opt_unprivileged o' = opt_unprivileged o || asks "p" opts.
Proof.
  induction opts as [|[opt optarg] opts IH]; intros o o'; cbn [loop_getopt].
  - destruct (opt_backing o); [discriminate|]. intros [= <-]. rewrite orb_false_r. auto.
  - unfold number_of, asks. cbn [foldl existsb fst snd].
    intros H. repeat case_match; try discriminate; subst;
      (destruct (IH _ _ H) as (H1 & H2 & H3 & H4 & H5); cbn in *; unfold number_of, asks in *;
       rewrite ?H1, ?H2, ?H3, ?H4, ?H5; split_all; try reflexivity; destruct (opt_unprivileged o); reflexivity).
Qed.

Lemma described_info prog_opts o features :
  loop_getopt prog_opts default_options = inl (Serve o) ->
  prep_dev_info (opt_dev_id o) (opt_nr_queues o) (opt_queue_depth o) (opt_buf_bytes o) (loop_flags o features) =
  info_asked prog_opts features.
Proof.
  intros H. destruct (loop_getopt_asked _ _ _ H) as (H1 & H2 & H3 & H4 & H5).
  unfold prep_dev_info, info_asked, loop_flags, recovery_flags, flags_asked.
  assert (has features UBLK_F_USER_RECOVERY = Z.testbit features 3) as -> by (apply has_bit; lia).
  rewrite H1, H2, H3, H4, H5. cbn [default_options opt_unprivileged orb].
  f_equal. destruct (Z.testbit features 3), (asks "p" prog_opts); reflexivity.
Qed.

Lemma block_shift_of v : is_u 64 v -> bs_shift_of v = block_shift v.
Proof.
  intros Hv. destruct (bs_shift_of_exact v Hv) as (Hr & Hp & Hn). unfold block_shift.
  destruct (list_find _ _) as [[i s]|] eqn:E.
  - apply list_find_Some in E as (Hl & E & _). apply lookup_seqZ in Hl as [-> Hi]. apply Hp; [lia|congruence].
  - apply list_find_None in E. apply Hn. intros k Hk Hv'.
    assert (k < 64) as Hlt by (apply (Z.pow_lt_mono_r_iff 2); unfold is_u in Hv; lia).
    rewrite Forall_forall in E. apply (E k); [apply elem_of_seqZ; lia|congruence].
Qed.

(** What a run adds to the descriptions, leaving the rest. *)
Definition grows (k k' : told) : Prop :=
  told_stat k' = told_stat k /\ told_ioctls k' = told_ioctls k /\ told_infos k ⊆ told_infos k'.

#[global] Instance grows_preorder : PreOrder grows.
Proof.
  split; [intros k; unfold grows; split_all; reflexivity|].
  intros k1 k2 k3 (? & ? & ?) (? & ? & ?). unfold grows. split_all; try congruence. etransitivity; eassumption.
Qed.

Lemma grows_file k k' : grows k k' -> file_told k' = file_told k.
Proof. intros (H1 & H2 & _). unfold file_told. rewrite H1, H2. reflexivity. Qed.

Section Describe.
Context {Q1 Q2 : Type} {IQ : DeviceQueue Q1} {BQ : DeviceQueue Q2}.
Context {IL : DeviceQueueLaws Q1} {BL : DeviceQueueLaws Q2}.
Context (uninit : ublksrv_ctrl_dev_info) (features0 cpuset0 sq0 cq0 pid si ssi_signo : Z).
Context (queue_sched sched : list nat) (first : bool) (strerror : Z -> list ascii).
Context (opts : list (ascii * list ascii)).

Abbreviation serve := (serve_device (IQ := IQ) (BQ := BQ) uninit features0 cpuset0 sq0 cq0 pid si ssi_signo
                         queue_sched sched first).

(** Every description is right, from what has been told on. *)
Definition describes {A} (p : task A) (k : told) : Prop := obeys (describe_step opts) p k (fun _ _ => True).

(** Calls that describe nothing, and those that tell nothing but descriptions. *)
Definition tame (c : call) : Prop :=
  match c with UringCtrl _ op _ => op <> UBLK_U_CMD_ADD_DEV /\ op <> UBLK_U_CMD_SET_PARAMS | _ => True end.

Definition quiet (c : call) : Prop :=
  tame c /\ match c with Fstat _ | BlkIoctl _ _ => False | _ => True end.

Lemma tame_step c k r : tame c -> describe_step opts k c r = Some (tell k c r).
Proof.
  intros H. unfold describe_step, described. destruct c; try reflexivity.
  destruct H. rewrite !bool_decide_false by assumption. reflexivity.
Qed.

Lemma tell_grows c k r : quiet c -> grows k (tell k c r).
Proof.
  intros [_ H]. destruct c; try contradiction; try reflexivity.
  unfold grows. split_all; try reflexivity.
  cbn. intros x Hx. apply elem_of_app. right. exact Hx.
Qed.

Lemma tame_describes {A} (p : task A) k : all_calls tame p -> describes p k.
Proof.
  revert k; induction p as [c|c f IH]; intros k H; [exact I|]. destruct H as [Hc Hf]. intros r.
  exists (tell k c r). split; [apply tame_step, Hc|apply IH, Hf].
Qed.

Lemma quiet_obeys {A} (p : task A) k : all_calls quiet p -> obeys (describe_step opts) p k (fun _ => grows k).
Proof.
  revert k; induction p as [c|c f IH]; intros k H; [cbn; reflexivity|]. destruct H as [Hc Hf]. intros r.
  exists (tell k c r). split; [apply tame_step, Hc|].
  eapply obeys_mono; [|apply IH, Hf]. intros c' k' Hk. etransitivity; [apply tell_grows, Hc|exact Hk].
Qed.

Lemma describes_bind {A B} (p : task A) (f : A -> task B) k (Q : A -> told -> Prop) :
  obeys (describe_step opts) p k (fun c k' => match c with SetValue a => Q a k' | _ => True end) ->
  (forall a k', Q a k' -> describes (f a) k') -> describes (let_value p f) k.
Proof.
  intros Hp Hf. apply obeys_let_value. eapply obeys_mono; [|exact Hp].
  intros [a|x| |] k' H; [apply Hf, H|exact I..].
Qed.

Lemma describes_quiet {A B} (p : task A) (f : A -> task B) k :
  all_calls quiet p -> (forall a k', grows k k' -> describes (f a) k') -> describes (let_value p f) k.
Proof.
  intros Hp Hf. apply (describes_bind p f k (fun _ => grows k)); [|exact Hf].
  eapply obeys_mono; [|apply quiet_obeys, Hp]. intros [] k' H; exact I || exact H.
Qed.

Lemma describes_defer {A} (p : task A) d k : describes p k -> all_calls tame d -> describes (defer p d) k.
Proof.
  intros Hp Hd. apply obeys_defer. eapply obeys_mono; [|exact Hp].
  intros [] k' _; unfold guard_obeys; try exact I;
    (eapply obeys_mono; [|apply tame_describes, Hd]); intros [] ? _; exact I.
Qed.
Lemma describes_co_await {A} (p : task A) k (Q : A -> told -> Prop) :
  obeys (describe_step opts) p k (fun c k' => match c with SetValue a => Q a k' | _ => True end) ->
  obeys (describe_step opts) (co_await p) k (fun c k' => match c with SetValue a => Q a k' | _ => True end).
Proof. intros H. apply obeys_co_await. eapply obeys_mono; [|exact H]. intros [] k' Hk; exact Hk. Qed.

(** *** The lookup

    What it yields has been in its buffer. *)

Definition seen (k : told) (i : ublksrv_ctrl_dev_info) (k' : told) : Prop :=
  grows k k' /\ i ∈ told_infos k'.

Lemma grows_infos k k' i : grows k k' -> i ∈ told_infos k -> i ∈ told_infos k'.
Proof. intros (_ & _ & H) Hi. apply H, Hi. Qed.

(** A command with a description in its buffer. *)
Lemma info_command_seen fd op dev q d0 path i len plen k
    (cmd := {| cmd_dev_id := dev; cmd_queue_id := q; cmd_len := len; cmd_addr := Some (Ubuf path (PInfo i));
               cmd_data0 := d0; cmd_dev_path_len := plen |}) (r : async_res * payload) :
  tame (UringCtrl fd op cmd) ->
  exists k', describe_step opts k (UringCtrl fd op cmd) r = Some k' /\
    seen k (match fst r with AsyncOk _ => out_info i (snd r) | _ => i end) k'.
Proof.
  intros Ht. exists (tell k (UringCtrl fd op cmd) r). split; [apply tame_step, Ht|].
  split; [apply tell_grows; split; [exact Ht|exact I]|left].
Qed.

Lemma attempt_seen fd dev_id info k :
  obeys (describe_step opts) (get_dev_info_attempt fd dev_id info) k (fun c k' =>
    match c with SetValue (ok, i) => grows k k' /\ (ok = true -> i ∈ told_infos k') | _ => True end).
Proof.
  unfold get_dev_info_attempt. apply obeys_let_value, obeys_co_await, obeys_upon_error. autounfold with raw.
  intros r. edestruct (info_command_seen fd UBLK_U_CMD_GET_DEV_INFO2) with (r := r) (k := k) as (k1 & Hd & Hg & Hi);
    [split; discriminate|]. exists k1. split; [exact Hd|].
  assert (forall v out, out_info dev_info_zero out ∈ told_infos k1 ->
    obeys (describe_step opts)
      (if 0 <=? v then just (true, out_info dev_info_zero out)
       else if v =? - EACCES then just (false, info)
       else if v =? - EOPNOTSUPP then
         let! '(_, out) := with_output (ctrl_cmd fd UBLK_U_CMD_GET_DEV_INFO dev_id (-1) 0 (var (PInfo info))
                             (sizeof ublksrv_ctrl_dev_info_layout) 0) in just (true, out_info info out)
       else throw (SystemError (- v))) k1 (fun c k' =>
      match c with SetValue (ok, i) => grows k k' /\ (ok = true -> i ∈ told_infos k') | _ => True end)) as Hrest.
  { intros v out Hv. destruct (0 <=? v); [cbn; auto|].
    destruct (_ =? _); [cbn; split; [exact Hg|discriminate]|]. destruct (_ =? _); [|exact I].
    apply obeys_let_value, obeys_co_await. intros r'.
    edestruct (info_command_seen fd UBLK_U_CMD_GET_DEV_INFO) with (r := r') (k := k1) as (k2 & Hd2 & Hg2 & Hi2);
      [split; discriminate|]. exists k2. split; [exact Hd2|].
    destruct r' as [[] out']; cbn; try exact I. split; [etransitivity; eassumption|auto]. }
  destruct r as [[v|ec|] out]; [exact (Hrest v out Hi)|exact (Hrest (- ec) PNone Hi)|exact I].
Qed.

Lemma retry_seen fd dev_id n sec ns info k :
  obeys (describe_step opts) (retry_loop (get_dev_info_attempt fd dev_id) n sec ns info) k (fun c k' =>
    match c with SetValue (ok, i) => grows k k' /\ (ok = true -> i ∈ told_infos k') | _ => True end).
Proof.
  revert info k; induction n as [|n IH]; intros info k; cbn [retry_loop];
    [cbn; split; [reflexivity|discriminate]|].
  apply obeys_let_value, obeys_co_await, obeys_upon_error. intros r. eexists. split; [reflexivity|].
  assert (forall k, obeys (describe_step opts) (let! '(ok, s) := get_dev_info_attempt fd dev_id info in
      if (ok : bool) then just (true, s) else retry_loop (get_dev_info_attempt fd dev_id) n sec ns s) k
      (fun c k' => match c with SetValue (ok, i) => grows k k' /\ (ok = true -> i ∈ told_infos k') | _ => True end))
    as Hrest.
  { intros k0. apply obeys_let_value, obeys_co_await. eapply obeys_mono; [|apply attempt_seen].
    intros [[[] i]|x| |] k1 H; [| |exact I..]; cbn [then_obeys].
    - cbn. exact H.
    - eapply obeys_mono; [|apply IH]. intros [[ok j]|x| |] k2 H2; [|exact I..].
      destruct H, H2. split; [etransitivity; eassumption|assumption]. }
  destruct r as [v|ec|]; [apply Hrest|cbn [lift_res]; apply Hrest|exact I].
Qed.

Lemma lookup_seen fd dev_id info k :
  obeys (describe_step opts) (control_get_dev_info fd dev_id info) k (fun c k' =>
    match c with SetValue i => seen k i k' | _ => True end).
Proof.
  assert (forall b i k1, grows k k1 /\ (b = true -> i ∈ told_infos k1) ->
    obeys (describe_step opts) (if (b : bool) then just i else throw (SystemError EACCES)) k1
      (fun c k' => match c with SetValue i => seen k i k' | _ => True end)) as Hend.
  { intros [] i k1 [Hg Hi]; [split; [exact Hg|apply Hi; reflexivity]|exact I]. }
  unfold control_get_dev_info, retry. apply obeys_let_value, obeys_co_await, obeys_let_value, obeys_co_await.
  eapply obeys_mono; [|apply attempt_seen]. intros [[[] i]|x| |] k1 H; [| |exact I..]; cbn [then_obeys].
  - apply (Hend true i k1 H).
  - eapply obeys_mono; [|apply retry_seen]. intros [[b j]|x| |] k2 H2; [|exact I..]. apply (Hend b j k2).
    destruct H, H2. split; [etransitivity; eassumption|assumption].
Qed.

Lemma quiet_cmd fd op : op <> UBLK_U_CMD_ADD_DEV -> op <> UBLK_U_CMD_SET_PARAMS -> each_cmd quiet fd op.
Proof. intros H1 H2 cmd. repeat split; assumption. Qed.

Lemma quiet_timeout tv_sec tv_nsec : quiet (AsyncTimeout tv_sec tv_nsec).
Proof. repeat split. Qed.

Lemma cached_quiet e fd dev_id info : all_calls quiet (cached_get_dev_info e fd dev_id info).
Proof. apply cached_get_dev_info_each; [exact quiet_timeout|apply quiet_cmd; discriminate..]. Qed.

(** *** The steps *)

Lemma setup_describes fd info k :
  info = info_asked opts (told_features k) ->
  obeys (describe_step opts) (daemon_setup uninit fd info) k (fun c k' =>
    match c with SetValue (_, i) => seen k i k' | _ => True end).
Proof.
  intros Hinfo. assert (forall dev q d0 len plen r, exists k',
    describe_step opts k (UringCtrl fd UBLK_U_CMD_ADD_DEV
      {| cmd_dev_id := dev; cmd_queue_id := q; cmd_len := len; cmd_addr := var (PInfo info);
         cmd_data0 := d0; cmd_dev_path_len := plen |}) r = Some k' /\
    seen k (match fst r with AsyncOk _ => out_info info (snd r) | _ => info end) k') as Hadd.
  { intros. unfold describe_step, described. cbn [cmd_addr var]. rewrite bool_decide_true by reflexivity.
    rewrite bool_decide_true by exact Hinfo. eexists. split; [reflexivity|]. split; [|left].
    unfold grows. split_all; try reflexivity. intros x Hx. right. exact Hx. }
  unfold daemon_setup. autounfold with raw. destruct (_ =? _).
  - apply obeys_let_value, obeys_co_await. intros r. edestruct Hadd as (k1 & Hd & Hs).
    exists k1. split; [exact Hd|]. destruct r as [[v|ec|] out]; cbn; try exact I. exact Hs.
  - apply obeys_let_value. intros r. edestruct Hadd as (k1 & Hd & Hs). exists k1. split; [exact Hd|].
    assert (forall i, obeys (describe_step opts)
      (let! info := control_get_dev_info fd (info_dev_id i) i in
        if user_recovery info && need_recovery info then
          do! control_start_user_recovery uninit (Some info) fd (info_dev_id info) in just (false, info)
        else just (false, info)) k1 (fun c k' => match c with SetValue (_, i) => seen k i k' | _ => True end)) as Hrest.
    { intros i. apply obeys_let_value, obeys_co_await. eapply obeys_mono; [|apply lookup_seen].
      intros [j|x| |] k2 H2; [|exact I..]; destruct H2 as [Hg2 Hi2]; cbn [then_obeys].
      assert (grows k k2) as Hg by (etransitivity; [apply Hs|exact Hg2]).
      destruct (_ && _); [|split; [exact Hg|exact Hi2]].
      apply obeys_let_value, obeys_co_await. eapply obeys_mono; [|apply quiet_obeys].
      - intros [[]|x| |] k3 Hk3; [|exact I..]. split; [etransitivity; eassumption|].
        eapply grows_infos; [exact Hk3|exact Hi2].
      - apply (path_request_each quiet fd quiet_timeout) with (req := ReqStartUserRecovery)
          (op := UBLK_U_CMD_START_USER_RECOVERY) (data0 := 0);
          [apply quiet_cmd; discriminate..|reflexivity|apply quiet_cmd; discriminate]. }
    destruct r as [[v|ec|] out]; cbn [then_obeys fst snd lift_res].
    + apply obeys_let_value. cbn. destruct (negb _); [exact Hs|apply Hrest].
    + apply obeys_let_value, obeys_co_await. cbn. destruct (negb (ec =? EEXIST)) eqn:E; [exact I|].
      apply negb_false_iff, Z.eqb_eq in E as ->. apply Hrest.
    + exact I.
Qed.

Lemma configure_describes e fd dev_id params k :
  (forall k', grows k k' -> params_right k' (full_params params) = true) ->
  describes (daemon_configure uninit e fd dev_id params) k.
Proof.
  intros Hp. apply describes_quiet; [apply all_calls_co_await, cached_quiet|]. intros i k1 Hk1.
  assert (forall p len plen q d0 k2, grows k1 k2 -> (exists path, p = Some (Ubuf path (PParams (full_params params)))) ->
    describes (do! result_only (ctrl_cmd fd UBLK_U_CMD_SET_PARAMS dev_id q d0 p len plen) in just tt) k2) as Hset.
  { intros p len plen q d0 k2 Hk2 [path ->] r. eexists. split; [|destruct r as [[] ?]; exact I].
    unfold describe_step, described. rewrite bool_decide_false, bool_decide_true by (reflexivity || discriminate).
    cbn [cmd_addr]. rewrite Hp by (etransitivity; eassumption). reflexivity. }
  destruct (_ =? _).
  - apply (describes_bind _ _ _ (fun _ _ => True)); [|intros; exact I].
    apply (describes_co_await _ _ (fun _ _ => True)). eapply obeys_mono; [intros [] ? _; exact I|].
    unfold control_set_params. apply describes_quiet; [apply all_calls_co_await, cached_quiet|]. intros j k2 Hk2.
    autounfold with raw. destruct (unprivileged j); apply Hset; try exact Hk2; eexists; reflexivity.
  - apply describes_quiet; [|intros; exact I].
    apply all_calls_co_await, get_params_each; [exact quiet_timeout|apply quiet_cmd; discriminate..].
Qed.
Lemma features_told fd k :
  obeys (describe_step opts) (control_get_features fd features0) k (fun c k' =>
    match c with SetValue f => grows k k' /\ told_features k' = f | _ => True end).
Proof.
  intros r. eexists. split; [apply tame_step; split; discriminate|].
  destruct r as [[v|ec|] out]; cbn; try exact I. repeat split; reflexivity.
Qed.

Lemma file_told_obeys fd k :
  obeys (describe_step opts) (lo_file_size fd) k (fun c k' =>
    match c with
    | SetValue f => file_told k' = Some (file_size f, logical_bs_shift f, physical_bs_shift f)
    | _ => True
    end).
Proof.
  apply obeys_let_value, obeys_trigger. intros [[mode st_size]|errno]; (eexists; split; [reflexivity|]); [|exact I].
  cbn [then_obeys]. destruct (_ =? S_IFBLK) eqn:Eb.
  - apply obeys_let_value, obeys_let_value, obeys_trigger.
    intros [bytes|errno]; (eexists; split; [reflexivity|]); [|exact I].
    apply obeys_let_value, obeys_let_value, obeys_trigger.
    intros [lsz|errno]; (eexists; split; [reflexivity|]); [|exact I].
    apply obeys_let_value, obeys_let_value, obeys_trigger.
    intros [psz|errno]; (eexists; split; [reflexivity|]); [|exact I].
    unfold file_told. cbn -[Z.land block_shift Z.pow BLKGETSIZE64 BLKSSZGET BLKPBSZGET]. rewrite Eb.
    assert (BLKPBSZGET <> BLKGETSIZE64 /\ BLKSSZGET <> BLKGETSIZE64 /\ BLKPBSZGET <> BLKSSZGET) as (H1 & H2 & H3)
      by (split_all; apply (bool_decide_unpack _); vm_compute; exact I).
    rewrite (lookup_insert_ne _ _ _ _ H1), (lookup_insert_ne _ _ _ _ H2), lookup_insert_eq.
    rewrite (lookup_insert_ne _ _ _ _ H3), !lookup_insert_eq.
    cbn -[block_shift Z.pow]. rewrite <- !block_shift_of by (apply uwrap_is_u; lia). reflexivity.
  - destruct (_ =? S_IFREG) eqn:Er; [|exact I]. cbn -[Z.land Z.pow]. unfold file_told.
    cbn -[Z.land Z.pow]. rewrite Eb, Er. reflexivity.
Qed.

(** The parameters of a description and a file that have been told. *)
Lemma params_told k i f :
  i ∈ told_infos k -> file_told k = Some (file_size f, logical_bs_shift f, physical_bs_shift f) ->
  params_right k (full_params (prep_params i (file_size f / SECTOR_SIZE) (logical_bs_shift f)
                                 (physical_bs_shift f))) = true.
Proof.
  intros Hi Hf. unfold params_right. rewrite Hf. rewrite !andb_true_iff.
  assert (forall v, whole_sectors (v / 512) v) as Hw.
  { intros v. unfold whole_sectors. pose proof (Z.div_mod v 512 ltac:(discriminate)).
    pose proof (Z.mod_pos_bound v 512 eq_refl). lia. }
  split_all; apply bool_decide_eq_true_2; try reflexivity; cbn -[Z.div Z.shiftr].
  - apply Hw.
  - apply Exists_exists. exists i. split; [exact Hi|]. rewrite Z.shiftr_div_pow2 by lia. apply Hw.
  - split_all; reflexivity.
Qed.

Lemma serve_describes name flags mk_info f o fd sfd k :
  file_told k = Some (file_size f, logical_bs_shift f, physical_bs_shift f) ->
  (forall features, mk_info (flags features) = info_asked opts features) ->
  describes (serve name flags mk_info
    (fun i => prep_params i (file_size f / SECTOR_SIZE) (logical_bs_shift f) (physical_bs_shift f)) o fd sfd) k.
Proof.
  intros Hf Hinfo. unfold serve_device. eapply describes_bind; [apply features_told|].
  cbv beta. intros features k1 [Hg1 <-]. apply (describes_bind _ _ _ (fun x k' => seen k1 (snd x) k')).
  { eapply obeys_mono; [|apply setup_describes, Hinfo]. intros [[b i]|x| |] k' H; exact H. }
  intros [created i] k2 [Hg2 Hi2]. cbn [snd] in Hi2.
  apply (describes_bind _ _ _ (fun _ _ => True)).
  { eapply obeys_mono; [|apply configure_describes].
    - intros [] ? _; exact I.
    - intros k3 Hk3. apply params_told; [eapply grows_infos; eassumption|].
      rewrite (grows_file k2 k3 Hk3), (grows_file k1 k2 Hg2), (grows_file k k1 Hg1). exact Hf. }
  intros [applied params] k3 _. apply tame_describes.
  assert (forall op, op ∈ device_commands -> each_cmd tame fd op) as HP.
  { intros op Hop cmd. split; intros ->; revert Hop; apply (bool_decide_unpack _); vm_compute; exact I. }
  assert (forall a b, tame (AsyncTimeout a b)) as HT by (intros; exact I).
  apply all_calls_let_value.
  - apply all_calls_let_value.
    + apply all_calls_concurrently. apply Forall_cons_2; [|apply Forall_singleton].
      * apply all_calls_let_value; [|intros; split; [exact I|intros; exact I]].
        eapply daemon_run_each; [exact IL|exact BL|intros [] Hc; exact I || destruct Hc|
          intros ?; split; discriminate..].
      * apply all_calls_let_value; [apply start_each; assumption|]. intros _.
        apply wait_signal_each; try assumption; intros; exact I.
    + intros ps. destruct (join_all ps) as [[|? [|? [|]]]|]; exact I.
  - intros []. apply (path_request_each tame fd) with (req := ReqDelDev)
      (op := UBLK_U_CMD_DEL_DEV) (data0 := 0) (uninit := uninit) (e := None);
      [exact HT|intros ?; split; discriminate..|reflexivity|intros ?; split; discriminate].
Qed.

Lemma with_control_describes p k :
  (forall fd sfd k', grows k k' -> describes (p fd sfd) k') -> describes (with_control sq0 cq0 p) k.
Proof.
  intros Hp. unfold with_control.
  assert (forall (c : call) (f : reply c -> unit), quiet c -> all_calls quiet (perform c f)) as Hq
    by (intros c f Hc; split; [exact Hc|intros; exact I]).
  apply describes_quiet; [repeat split|]. intros [sfd|] k1 H1; [|exact I].
  apply describes_defer; [|repeat split].
  apply describes_quiet; [repeat split|]. intros [fd|] k2 H2; [|exact I].
  apply describes_defer; [|repeat split].
  apply describes_quiet; [repeat split|]. intros [v|] k3 H3; [|exact I].
  apply describes_quiet; [repeat split|]. intros _ k4 H4.
  apply describes_defer; [|repeat split].
  apply obeys_connect. eapply obeys_mono; [|apply Hp; repeat (etransitivity; [eassumption|]); reflexivity].
  intros [] ? _; exact I.
Qed.

Lemma loop_body_describes o k :
  loop_getopt opts default_options = inl (Serve o) ->
  describes (loop_body (IQ := IQ) (BQ := BQ) uninit features0 cpuset0 sq0 cq0 pid si ssi_signo
               queue_sched sched first strerror o) k.
Proof.
  intros Ho. unfold loop_body. apply describes_quiet; [repeat split|]. intros [fd|] k1 _; [|exact I].
  apply describes_defer; [|repeat split].
  apply (describes_bind _ _ _ (fun _ _ => True)).
  { eapply obeys_mono; [intros [] ? _; exact I|]. apply tame_describes.
    apply (file_calls strerror tame fd). intros [] Hc; exact I || destruct Hc. }
  intros _ k2 _. eapply describes_bind; [apply file_told_obeys|]. cbv beta. intros f k3 Hf.
  apply describes_quiet; [apply print_calls; repeat split|]. intros _ k4 H4.
  apply with_control_describes. intros cfd sfd k5 H5. apply serve_describes.
  - rewrite (grows_file k4 k5 H5), (grows_file k3 k4 H4). exact Hf.
  - intros features. apply described_info, Ho.
Qed.
(** C33: the loop server describes its device to the driver as it was asked to
    and as the backing file is, for every command line, file, driver and
    interleaving.  Every device it adds has the number of queues, the depth, the
    buffer size and the id of the command line (the last option of each kind, at
    the width of its field, or the default), recovery if the driver has it, the
    unprivileged mode if asked for, and nothing else.  All parameters it sets
    are those of a device of the whole sectors of the file, with the shifts of
    the logical and the physical block size the system has reported for a block
    device (9 and 12 for a regular file), of a volatile cache, and with requests
    of at most the buffer size of the description the driver has given. *)
Theorem loop_device_described (K : env) prog :
  exists k, accepts (describe_step opts) nothing_told
    (snd (exec K (loop_main (IQ := IQ) (BQ := BQ) uninit features0 cpuset0 sq0 cq0 pid si ssi_signo
                    queue_sched sched first strerror prog opts) [])) = Some k.
Proof.
  assert (forall p : task Z, describes p nothing_told ->
    exists k, accepts (describe_step opts) nothing_told (snd (exec K p [])) = Some k) as Hrun.
  { intros p Hp. destruct (obeys_exec _ K _ _ _ [] Hp) as (t & k & Ht & Ha & _).
    cbn [app] in Ht. rewrite Ht. exists k. exact Ha. }
  apply Hrun. unfold loop_main. destruct (loop_getopt opts default_options) as [[o|code]|x] eqn:E; [| |exact I].
  - unfold catch_exit. apply obeys_connect. eapply obeys_mono; [|apply loop_body_describes, E].
    intros [] k _; try exact I. apply tame_describes. repeat split.
  - apply describes_quiet; [apply print_all_calls; repeat split|intros; exact I].
Qed.
End Describe.

(** A block device of 4097 bytes with blocks of 512 and 4096 bytes, and a
    driver that adds what it is asked for. *)
Definition block_file : env := fun h c =>
  match c return reply c -> reply c with
  | Fstat _ => fun _ => inl (S_IFBLK, 0)
  | BlkIoctl _ req => fun _ =>
      SysOk (if req =? BLKGETSIZE64 then 4097 else if req =? BLKSSZGET then 512 else 4096)
  | UringCtrl _ op cmd => fun r =>
      if bool_decide (op = UBLK_U_CMD_ADD_DEV)
      then (AsyncOk 0, match cmd_addr cmd with Some (Ubuf _ p) => p | None => PNone end)
      else if bool_decide (op = UBLK_U_CMD_GET_FEATURES) then (AsyncOk 0, PFeatures 8)
      else if bool_decide (op = UBLK_U_CMD_GET_DEV_INFO2)
      then (AsyncOk 0, PInfo (sample_info 0 UBLK_S_DEV_DEAD UBLK_F_BATCH_IO))
      else r
  | _ => fun r => r
  end (served h c).

Definition loop_line : list (ascii * list ascii) :=
  [("f"%char, lit "disk"); ("q"%char, lit "2"); ("d"%char, lit "65600"); ("n"%char, lit "0"); ("q"%char, lit "1")].

Definition sample_loop : task Z :=
  loop_main (IQ := sample_queue) (BQ := sample_batch_queue) dev_info_zero 0 0 128 256 1 2 15 sample_schedule
    alternating true (fun _ => []) (lit "loop") loop_line.

(** The descriptions and parameters of a run. *)
Definition descriptions (h : history) : list payload :=
  flat_map (fun e =>
    match projT1 e with
    | UringCtrl _ op cmd =>
        if bool_decide (op = UBLK_U_CMD_ADD_DEV \/ op = UBLK_U_CMD_SET_PARAMS)
        then [data_sent op (cmd_addr cmd)] else []
    | _ => []
    end) h.

Lemma loop_device_described_witness :
  let h := snd (exec block_file sample_loop []) in
  descriptions h =
    [PInfo (prep_dev_info 0 1 64 524288 UBLK_F_USER_RECOVERY);
     PParams (basic_only
       {| basic_attrs := UBLK_ATTR_VOLATILE_CACHE; basic_logical_bs_shift := 9; basic_physical_bs_shift := 12;
          basic_io_opt_shift := 12; basic_io_min_shift := 9; basic_max_sectors := 1024;
          basic_chunk_sectors := 0; basic_dev_sectors := 8; basic_virt_boundary_mask := 0 |})] /\
  exists k, accepts (describe_step loop_line) nothing_told h = Some k.
Proof.
  split; [vm_compute; reflexivity|].
  exact (loop_device_described (IQ := sample_queue) (BQ := sample_batch_queue)
    (IL := IoQueue_laws 4096 true 3 sample_schedule)
    (BL := BatchIoQueue_laws (F := bool_futex) 4096 true sample_sqe 0 0 sample_turns)
    dev_info_zero 0 0 128 256 1 2 15 sample_schedule alternating true (fun _ => []) loop_line
    block_file (lit "loop")).
Defined.
