(* ===== verification/DiskServer.v ===== *)
(** * DiskServer: the loop server is a disk

    The [main] of [src/examples/loop.cpp] around [LoopDaemon]: it sets the
    device up, configures it for the backing file, serves it with
    [daemon::run] beside the start and the wait for the signal, and deletes it.
    The specification adds [main] to the actors: its commands leave the disk
    alone, it tells the driver the parameters that fit the file, and it deletes
    the device and closes what it holds only when the device is served no
    more. *)

From S2P Require Import Prelude Effects Protocol Rely UblkCmd Utils Path Text Sys Ledger Raw IoResult TagProtocol Queue BatchLayout BatchObject Control IoDev Daemon DaemonRun CtlText Ctl Handler LoopHandler LoopDevice LoopServe Server ServerProof ServerDevice LoopDaemon.
From Stdlib Require Import Ascii.

#[local] Open Scope Z_scope.

(** ** The specification *)

Inductive author :=
  | Main
  | Daemon (a : actor).

(** The device is served no more, or not yet. *)
Definition shut (s : served_device) : bool := bool_decide (sd_fd s = None /\ sd_loops s = []).

Section Spec.
Context (info : ublksrv_ctrl_dev_info) (size lshift pshift backing_fd : Z).
Context (requests : nat -> nat -> nat -> disk_request).

(** The parameters of a device as large as the file. *)
Definition file_params : ublk_params :=
  set_params_len (sizeof ublk_params_layout) (prep_params info (size / SECTOR_SIZE) lshift pshift).

Definition sets_file_params (cmd : ublksrv_ctrl_cmd) : bool :=
  match cmd_addr cmd with
  | Some (Ubuf _ (PParams p)) => bool_decide (p = file_params)
  | _ => false
  end.

(** The other commands of the server do not concern what is modelled of the
    device here; their order is that of [ServerProof.life_step]. *)
Definition main_step (s : served_device) (c : call) : reply c -> verdict served_device :=
  match c return reply c -> verdict served_device with
  | UringCtrl _ op cmd => fun r =>
      if bool_decide (op = UBLK_U_CMD_SET_PARAMS) then if sets_file_params cmd then Next s else Breach
      else if bool_decide (op = UBLK_U_CMD_DEL_DEV) then if shut s then Next s else Breach
      else if bool_decide (op ∈ serve_commands) then
        if lookup_op op || bool_decide (op = UBLK_U_CMD_ADD_DEV) then if tells info r then Next s else Beyond
        else Next s
      else Breach
  | AsyncRead (Fd _) _ _ _ | AsyncTimeout _ _ | Print _ | PrintError _ | RequestStop | SignalFd | Open _ =>
      fun _ => Next s
  | RuntimeInit loop _ _ _ | LoopStart loop _ => fun _ => if loop =? MAIN_LOOP then Next s else Breach
  | LoopExit loop => fun _ => if (loop =? MAIN_LOOP) && shut s then Next s else Breach
  | Close _ => fun _ => if shut s then Next s else Breach
  | _ => fun _ => Breach
  end.

Definition server_step (s : served_device) (a : author) (c : call) (r : reply c) : verdict served_device :=
  match a with
  | Main => main_step s c r
  | Daemon a => served_step info size backing_fd requests s a c r
  end.
End Spec.

(** ** The server *)

Section Server.
Context (info : ublksrv_ctrl_dev_info) (size lshift pshift backing_fd : Z).
Context (requests : nat -> nat -> nat -> disk_request).
Hypothesis Hsize : is_u 64 size.
Hypothesis Hmode : loop_mode info.
Hypothesis Hqueues : info_nr_hw_queues info < 2 ^ 16.
Hypothesis Hbacking : backing_fd <> -1.
Hypothesis Hreq : forall k i n,
  valid_request (prep_params info (size / SECTOR_SIZE) lshift pshift) (requests k i n).

Let step := server_step info size lshift pshift backing_fd requests.
Let holds (s : served_device) : Prop := stored size (view O s).

(** Calls [main] may make at any time. *)
Definition neutral (c : call) : Prop := forall s r, goes_on (eq s) (step s Main c r).

Lemma neutral_timeout tv_sec tv_nsec : neutral (AsyncTimeout tv_sec tv_nsec).
Proof. intros s r. reflexivity. Qed.

Lemma neutral_cmd fd op : op ∈ serve_commands -> each_cmd neutral fd op.
Proof.
  intros H cmd s r. cbn [step server_step main_step].
  rewrite 2!bool_decide_eq_false_2, bool_decide_eq_true_2 by
    (exact H || (intros ->; revert H; apply (bool_decide_unpack _); vm_compute; exact I)).
  destruct (_ || _); [|reflexivity]. destruct (tells info r); reflexivity || exact I.
Qed.

(** A step of [main] that leaves the state alone. *)
Lemma quiet_attributed {A} (p : task A) s : holds s -> all_calls neutral p -> attributed step holds p s (fun _ s' => s' = s).
Proof. intros Hi. apply attributed_silent with (l := Main); [exact Hi|]. intros c r Hc. apply Hc. Qed.

Section Main.
Context (uninit : ublksrv_ctrl_dev_info) (features0 cpuset0 sq0 cq0 pid si ssi_signo : Z).

(** The device [main] sets up is the one the driver tells of. *)
Lemma setup_attributed fd i0 s :
  holds s -> attributed step holds (daemon_setup uninit fd i0) s
    (fun c s' => s' = s /\ forall b i, c = SetValue (b, i) -> same_device info i).
Proof.
  intros Hi. assert (forall op cmd r, op = UBLK_U_CMD_ADD_DEV \/ lookup_op op = true ->
    goes_on (fun s' => s' = s /\ tells info r = true) (step s Main (UringCtrl fd op cmd) r)) as Htell.
  { intros op cmd r Hop. cbn [step server_step main_step].
    assert (op ∈ serve_commands /\ op <> UBLK_U_CMD_SET_PARAMS /\ op <> UBLK_U_CMD_DEL_DEV /\
            lookup_op op || bool_decide (op = UBLK_U_CMD_ADD_DEV) = true) as (H1 & H2 & H3 & H4).
    { destruct Hop as [-> |Hop]; [|unfold lookup_op in Hop; apply bool_decide_eq_true in Hop as [-> | ->]];
        (split; [is_serve_command|split; [discriminate|split; [discriminate|reflexivity]]]). }
    rewrite 2!bool_decide_eq_false_2, bool_decide_eq_true_2, H4 by assumption.
    destruct (tells info r) eqn:E; [split; reflexivity|exact I]. }
  unfold daemon_setup. destruct (_ =? _).
  { unfold raw_add_dev, ctrl_cmd. apply attributed_let_value, attributed_co_await.
    eapply attributed_mono; [|apply (output_attributed _ _ Main); [exact Hi|intros; apply Htell; auto]].
    intros [[v out]|e| |] s' [-> H]; (split; [reflexivity|]); try discriminate.
    destruct H as (i & -> & H). intros b j [= <- <-]. exact H. }
  apply attributed_let_value. unfold raw_add_dev, ctrl_cmd. apply (attributed_call _ _ Main); [exact Hi|]. intros r.
  eapply goes_on_mono; [|apply Htell; auto]. intros s' [-> Hr]. cbv beta iota zeta.
  set (i1 := out_info i0 (snd r)).
  assert (forall v, (v <> - EEXIST -> same_device info i1) ->
    attributed step holds (if negb (v =? - EEXIST) then just (true, i1)
      else let! info0 := control_get_dev_info fd (info_dev_id i1) i1 in
        if user_recovery info0 && need_recovery info0
        then do! control_start_user_recovery uninit (Some info0) fd (info_dev_id info0) in just (false, info0)
        else just (false, info0)) s
      (fun c s' => s' = s /\ forall b i, c = SetValue (b, i) -> same_device info i)) as Hrest.
  { intros v Hv. destruct (Z.eqb_spec v (- EEXIST)) as [_|Hne]; cbn [negb].
    2:{ split; [reflexivity|]. intros b i [= <- <-]. exact (Hv Hne). }
    apply attributed_let_value, attributed_co_await.
    eapply attributed_mono; [|apply (get_dev_info_attributed _ _ Main);
      [exact Hi|intros; reflexivity|intros; apply Htell; auto]].
    intros [i|e| |] s1 [-> H]; [|split; [reflexivity|discriminate]..]. specialize (H i eq_refl). destruct (_ && _).
    - apply attributed_let_value, attributed_co_await.
      eapply attributed_mono; [|apply quiet_attributed; [exact Hi|]]; cycle 1.
      { apply (request_each uninit neutral fd (device_serve_command _ (neutral_cmd fd)) neutral_timeout (Some i) _ ReqStartUserRecovery _ 0 eq_refl).
        is_serve_command. }
      intros [u|e| |] s1 ->; (split; [reflexivity|]); try discriminate. intros b j [= <- <-]. exact H.
    - split; [reflexivity|]. intros b j [= <- <-]. exact H. }
  apply attributed_let_value, attributed_co_await, attributed_upon_error.
  destruct r as [[v|ec|] out]; cbn [fst snd lift_res].
  - apply Hrest. intros _. unfold i1. destruct out; try discriminate Hr. apply bool_decide_eq_true in Hr. exact Hr.
  - cbn. destruct (Z.eqb_spec ec EEXIST) as [->|]; cbn; [|split; [reflexivity|discriminate]].
    apply (Hrest (- EEXIST)). congruence.
  - cbn. split; [reflexivity|discriminate].
Qed.

(** The parameters [main] configures the device with are those of the file. *)
Lemma configure_neutral e fd dev_id i :
  same_device info i ->
  all_calls neutral (daemon_configure uninit e fd dev_id (prep_params i (size / SECTOR_SIZE) lshift pshift)).
Proof.
  intros (_ & _ & _ & H & _).
  replace (prep_params i _ _ _) with (prep_params info (size / SECTOR_SIZE) lshift pshift)
    by (unfold prep_params; rewrite H; reflexivity).
  apply (configure_each uninit neutral fd (device_serve_command _ (neutral_cmd fd)) neutral_timeout). intros j.
  assert (forall path op_cmd, cmd_addr op_cmd = Some (Ubuf path (PParams (file_params info size lshift pshift))) ->
    neutral (UringCtrl fd UBLK_U_CMD_SET_PARAMS op_cmd)) as Hset.
  { intros path cmd Hc s r. cbn [step server_step main_step]. rewrite bool_decide_eq_true_2 by reflexivity.
    unfold sets_file_params. rewrite Hc, bool_decide_eq_true_2 by reflexivity. reflexivity. }
  unfold control_set_params, raw_set_params, raw_set_params_path, ctrl_cmd.
  apply all_calls_let_value; [apply all_calls_co_await, (cached_each neutral fd (device_serve_command _ (neutral_cmd fd)) neutral_timeout)|].
  intros i'. destruct (unprivileged i'); (apply all_calls_let_value; [apply all_calls_co_await|intros; exact I]);
    (split; [eapply Hset; reflexivity|intros; exact I]).
Qed.

(** ** The service *)

(** What holds of every run, and of one that has come to its end. *)
Definition server_over {A} (c : completion A) (s : served_device) : Prop :=
  holds s /\ (c <> Unfinished -> closed info size [] s).

Lemma server_over_closed {A} (c : completion A) s : closed info size [] s -> server_over c s.
Proof. intros H. split; [apply H|auto]. Qed.

Lemma server_over_ended {A B} (c : completion A) (c' : completion B) s :
  c <> Unfinished -> server_over c s -> server_over c' s.
Proof. intros Hc [_ H]. apply server_over_closed, H, Hc. Qed.

Lemma closed_shut s : closed info size [] s -> shut s = true.
Proof. intros H. apply bool_decide_eq_true_2. split; apply H. Qed.

Context (page : Z) (fuel : nat) (scheds : Z -> list nat) {Q2 : Type} {BQ : DeviceQueue Q2}.
Context (queue_sched sched : list nat) (first : bool).
#[local] Instance IQ' : DeviceQueue IoQueue := loop_queue_class page backing_fd fuel scheds.

Lemma when_all_attributed p q s :
  holds s -> attributed step holds p s server_over -> all_calls neutral q ->
  attributed step holds (when_all sched first p q) s server_over.
Proof.
  intros Hi Hp Hq. unfold when_all. apply attributed_let_value.
  eapply attributed_mono; [|eapply (attributed_beside _ _ neutral Main 0 server_over sched);
    [intros s0 c r Hc; apply Hc|intros c s0 H; exact (proj1 H)|reflexivity|exact Hp|]]; cycle 1.
  { intros [|[|i]] x Hne Hx; [congruence|injection Hx as <-; exact Hq|discriminate]. }
  intros c s' (ps & p1 & -> & H1 & Hp1). cbv beta iota.
  assert (server_over (Unfinished : completion unit) s') as HU.
  { split; [|congruence]. refine (attributed_inv _ _ _ _ _ _ Hp1). intros c s0 H. exact (proj1 H). }
  destruct (join_all ps) as [[|c1 [|c2 [|]]]|] eqn:E; try exact HU.
  destruct (join_all_done _ _ _ _ E H1) as (c & -> & Hc). exact (server_over_ended _ _ _ Hc Hp1).
Qed.

(** The commands of [serve_device] around the service leave a closed device
    closed. *)
Lemma closed_calls {A} (p : task A) s :
  closed info size [] s -> all_calls (fun c => forall r, goes_on (eq s) (step s Main c r)) p ->
  attributed step holds p s (fun _ s' => s' = s).
Proof. intros Hs. apply attributed_silent with (l := Main); [apply Hs|]. intros c r Hc. apply Hc. Qed.

Lemma serve_device_attributed name flags mk_info o ctrl_fd signal_fd s :
  unserved info size [] s ->
  attributed step holds (serve_device (IQ := IQ') (BQ := BQ) uninit features0 cpuset0 sq0 cq0 pid si ssi_signo
    queue_sched sched first name flags mk_info
    (fun i => prep_params i (size / SECTOR_SIZE) lshift pshift) o ctrl_fd signal_fd) s server_over.
Proof.
  intros Hs. pose proof (unserved_closed _ _ _ _ Hs) as Hc. pose proof (closed_stored _ _ _ _ Hc) as Hi.
  unfold serve_device. apply attributed_let_value.
  eapply attributed_mono; [|apply quiet_attributed; [exact Hi|]]; cycle 1.
  { unfold control_get_features. calls. split; [apply neutral_cmd; is_serve_command|intros; exact I]. }
  intros [features|x| |] s' ->; [|apply server_over_closed, Hc|apply server_over_closed, Hc|apply server_over_closed, Hc].
  apply attributed_let_value. eapply attributed_mono; [|apply setup_attributed, Hi].
  intros [[created i]|x| |] s' [-> Hi']; [|apply server_over_closed, Hc|apply server_over_closed, Hc|apply server_over_closed, Hc].
  specialize (Hi' created i eq_refl). assert (info_dev_id i = info_dev_id info) as Hid by apply Hi'.
  apply attributed_let_value. eapply attributed_mono; [|apply quiet_attributed; [exact Hi|apply configure_neutral, Hi']].
  intros [params|x| |] s' ->; [|apply server_over_closed, Hc|apply server_over_closed, Hc|apply server_over_closed, Hc].
  rewrite Hid. apply attributed_let_value. eapply attributed_mono; [|apply when_all_attributed; [exact Hi| |]]; cycle 1.
  { apply attributed_let_value. eapply attributed_mono;
      [|apply (attributed_embed (served_step info size backing_fd requests) _ _ Daemon); [reflexivity|];
        apply (daemon_run_served info size lshift pshift); try assumption; discriminate].
    intros [u|x| |] s' Hr; [|exact Hr|exact Hr|exact Hr].
    apply (attributed_call _ _ Main); [exact (proj1 Hr)|]. intros r. apply server_over_closed, (proj2 Hr). discriminate. }
  { apply all_calls_let_value; [apply (start_each _ _ neutral ctrl_fd (device_serve_command _ (neutral_cmd ctrl_fd)) neutral_timeout)|].
    intros _. apply (wait_signal_each _ _ _ neutral ctrl_fd (device_serve_command _ (neutral_cmd ctrl_fd)) neutral_timeout); intros ** ? ?; reflexivity. }
  intros [u|x| |] s' Hr; [|exact Hr|exact Hr|exact Hr].
  assert (closed info size [] s') as Hc' by (apply (proj2 Hr); discriminate).
  eapply attributed_mono; [|apply closed_calls; [exact Hc'|]]; cycle 1.
  { apply (path_request_each (fun c => forall r, goes_on (eq s') (step s' Main c r)) ctrl_fd) with (req := ReqDelDev)
      (op := UBLK_U_CMD_DEL_DEV) (data0 := 0) (uninit := uninit) (e := None);
      [intros; apply neutral_timeout|intros cmd r; apply neutral_cmd; is_serve_command..|reflexivity|].
    intros cmd r. cbn [step server_step main_step].
    rewrite bool_decide_eq_false_2, bool_decide_eq_true_2, (closed_shut _ Hc') by (reflexivity || discriminate). reflexivity. }
  intros c s1 ->. apply server_over_closed, Hc'.
Qed.

(** ** main *)

(** What a scope guard of [main] does where the device is served no more. *)
Lemma defer_attributed {A} (p : task A) c (f : reply c -> unit) s :
  (forall s r, closed info size [] s -> goes_on (eq s) (step s Main c r)) ->
  attributed step holds p s server_over -> attributed step holds (defer p (perform c f)) s server_over.
Proof.
  intros Hc Hp. apply attributed_defer. eapply attributed_mono; [|exact Hp].
  assert (forall (c0 : completion A) s', c0 <> Unfinished -> server_over c0 s' ->
    attributed step holds (perform c f) s' (fun cd s'' =>
      match cd with Unfinished => server_over (Unfinished : completion A) s'' | _ => server_over c0 s'' end)) as H.
  { intros c0 s' Hne [Hi Hcl]. apply (attributed_call _ _ Main); [exact Hi|]. intros r.
    eapply goes_on_mono; [|exact (Hc s' r (Hcl Hne))]. intros s'' <-. split; [exact Hi|exact Hcl]. }
  intros [a|e| |] s' H'; [| | |exact H']; (eapply attributed_mono; [|eapply H; [|exact H']; discriminate]);
    intros [] s''; exact id.
Qed.

Lemma close_step fd s r : closed info size [] s -> goes_on (eq s) (step s Main (Close fd) r).
Proof. intros H. cbn [step server_step main_step]. rewrite (closed_shut _ H). reflexivity. Qed.

(** A neutral call of [main] and what follows it. *)
Lemma neutral_then {A B} c (f : reply c -> completion A) (k : A -> task B) s :
  neutral c -> closed info size [] s -> (forall r, match f r with SetValue _ | SetError _ => True | _ => False end) ->
  (forall a, attributed step holds (k a) s server_over) ->
  attributed step holds (let_value (trigger c f) k) s server_over.
Proof.
  intros Hn Hs Hf Hk. apply attributed_let_value, (attributed_call _ _ Main); [apply Hs|]. intros r.
  eapply goes_on_mono; [|apply Hn]. intros s' <-. specialize (Hf r).
  destruct (f r); [apply Hk|apply server_over_closed, Hs|contradiction..].
Qed.

Lemma with_control_attributed p s :
  closed info size [] s -> (forall ctrl_fd signal_fd, attributed step holds (p ctrl_fd signal_fd) s server_over) ->
  attributed step holds (with_control sq0 cq0 p) s server_over.
Proof.
  intros Hs Hp. pose proof (closed_shut _ Hs) as Hshut. unfold with_control.
  apply neutral_then; [intros ? ?; reflexivity|exact Hs|intros; exact I|]. intros [signal_fd|errno]; [|apply server_over_closed, Hs].
  apply defer_attributed; [intros; apply close_step; assumption|].
  apply neutral_then; [intros ? ?; reflexivity|exact Hs|intros; exact I|]. intros [ctrl_fd|errno]; [|apply server_over_closed, Hs].
  apply defer_attributed; [intros; apply close_step; assumption|].
  apply neutral_then; [intros ? ?; reflexivity|exact Hs|intros; exact I|]. intros [v|errno]; [|apply server_over_closed, Hs].
  apply (neutral_then (LoopStart _ _)); [intros ? ?; reflexivity|exact Hs|intros; exact I|]. intros _.
  apply defer_attributed.
  { intros s' r H. cbn [step server_step main_step]. rewrite (closed_shut _ H). reflexivity. }
  unfold sync_wait. apply attributed_connect. eapply attributed_mono; [|apply Hp].
  intros [u|e| |] s' H; [| | |exact H]; (refine (server_over_ended _ _ _ _ H); discriminate).
Qed.

(** What is left of [main] once the backing file is open and measured. *)
Lemma serve_file_attributed name flags mk_info o lines s :
  unserved info size [] s ->
  attributed step holds (catch_exit
    (defer (let_value (print lines) (fun _ =>
       with_control sq0 cq0 (serve_device (IQ := IQ') (BQ := BQ) uninit features0 cpuset0 sq0 cq0 pid si ssi_signo
         queue_sched sched first name flags mk_info
         (fun i => prep_params i (size / SECTOR_SIZE) lshift pshift) o)))
      (perform (Close backing_fd) id))) s server_over.
Proof.
  intros Hs. pose proof (unserved_closed _ _ _ _ Hs) as Hc. unfold catch_exit. apply attributed_connect.
  eapply attributed_mono; [|apply defer_attributed; [intros; apply close_step; assumption|]]; cycle 1.
  { apply (neutral_then (Print lines)); [intros ? ?; reflexivity|exact Hc|intros; exact I|]. intros _.
    apply with_control_attributed; [exact Hc|]. intros. apply serve_device_attributed, Hs. }
  intros [u|x| |] s' H; [refine (server_over_ended _ _ _ _ H); discriminate| |
    refine (server_over_ended _ _ _ _ H); discriminate|split; [exact (proj1 H)|congruence]].
  apply attributed_let_value, (attributed_call _ _ Main); [exact (proj1 H)|]. intros r.
  refine (server_over_ended _ _ _ _ H). discriminate.
Qed.
End Main.
End Server.

(** ** Theorem *)

Lemma exec_catch_first {A} (K : env) (p : task A) (k : A -> task unit) d a h h' :
  exec K p h = (SetValue a, h') ->
  exec K (catch_exit (defer (let_value p k) d)) h = exec K (catch_exit (defer (k a) d)) h'.
Proof. intros H. unfold catch_exit, defer, let_value. rewrite !exec_connect, H. reflexivity. Qed.

(** C4: the loop server is a disk.  For every command line that asks it to
    serve, every device [info] the driver makes of the request, or finds, with
    the loop server's mode, and every interleaving of the queues, their workers,
    the start and the wait for the signal: once [main] has opened the backing
    file and measured it, each of its calls is one that a queue, [run] or
    [main] itself may make.  The driver is told the parameters of a disk as
    large as the file; the queues are one such disk ([LoopDaemon]); when [main]
    deletes the device, and closes the file and whatever else it holds, the
    device is served no more; at every point the file holds the disk; and a
    [main] that has ended has every loop and queue gone. *)
Theorem loop_server_is_disk (K : env) {Q2} {BQ : DeviceQueue Q2} uninit features0 cpuset0 sq0 cq0 pid si ssi_signo
    page fuel scheds queue_sched sched first strerror prog opts so
    backing_fd f h1 h2 info requests (d : disk) (file m : Z -> Z) :
  loop_getopt opts default_options = inl (Serve so) ->
  K [] (Open (opt_backing so)) = SysOk backing_fd ->
  exec K (set_direct strerror backing_fd) [existT (Open (opt_backing so)) (SysOk backing_fd)] = (SetValue tt, h1) ->
  exec K (lo_file_size backing_fd) h1 = (SetValue f, h2) ->
  let size := file_size f in
  let lshift := logical_bs_shift f in
  let pshift := physical_bs_shift f in
  is_u 64 size -> loop_mode info -> info_nr_hw_queues info < 2 ^ 16 -> backing_fd <> -1 ->
  (forall k i n, valid_request (prep_params info (size / SECTOR_SIZE) lshift pshift) (requests k i n)) ->
  stored size (device_new d file m) ->
  let '(c, h) := exec K (loop_main (IQ := loop_queue_class page backing_fd fuel scheds) (BQ := BQ)
                           uninit features0 cpuset0 sq0 cq0 pid si ssi_signo queue_sched sched first strerror prog opts) [] in
  exists steps, h = h2 ++ map snd steps /\
    let after steps := follows_as (server_step info size lshift pshift backing_fd requests) (served_new d file m) steps in
    goes_on (fun s => c <> Unfinished -> closed info size [] s) (after steps) /\
    (forall n, goes_on (fun s => stored size (view O s)) (after (take n steps))).
Proof.
  intros Hopt Hopen Hdirect Hfile size lshift pshift Hs Hm Hq Hb Hr Hst.
  pose proof (served_new_unserved info size d file m Hst) as Hnew.
  unfold loop_main. rewrite Hopt.
  assert (forall k, exec K (catch_exit (let_value (trigger (Open (opt_backing so)) SetValue : task sys_res) k)) [] =
    exec K (catch_exit (k (SysOk backing_fd))) [existT (Open (opt_backing so)) (SysOk backing_fd)]) as Hfirst.
  { intros k. unfold catch_exit, let_value. rewrite !exec_connect, exec_trigger, Hopen. reflexivity. }
  unfold loop_body. rewrite Hfirst. cbv beta iota. rewrite (exec_catch_first K _ _ _ _ _ _ Hdirect).
  rewrite (exec_catch_first K _ _ _ _ _ _ Hfile).
  destruct (attributed_exec _ _ K _ _ _ h2 (fun c s' H => proj1 H) (serve_file_attributed info size lshift pshift backing_fd
    requests Hs Hm Hq Hb Hr uninit features0 cpuset0 sq0 cq0 pid si ssi_signo page fuel scheds (BQ := BQ) queue_sched
    sched first (lit "ublk-loop") (loop_flags so)
    (prep_dev_info (opt_dev_id so) (opt_nr_queues so) (opt_queue_depth so) (opt_buf_bytes so))
    loop_server_options (file_lines (opt_backing so) f) _ Hnew)) as (t & Ht & H & Hn).
  fold size lshift pshift. destruct (exec K _ h2) as [c h].
  cbn [fst snd] in *. exists t. split; [exact Ht|].
  split; [|exact Hn]. eapply goes_on_mono; [|exact H]. intros s [_ Hc]. exact Hc.
Qed.

(** *** A device of two queues *)

(** The backing file, the system and the driver that [main] runs on. *)
Definition server_kernel : env := fun h c =>
  match c return reply c -> reply c with
  | Fstat _ => fun _ => inl (S_IFREG, 8192)
  | SignalFd => fun _ => SysOk 4
  | Open path => fun _ => SysOk (if bool_decide (path = lit "disk") then 8 else 9)
  | UringCtrl _ op _ => fun d => if bool_decide (op = UBLK_U_CMD_ADD_DEV) then (AsyncOk 0, PInfo two_info) else d
  | _ => id
  end (daemon_kernel two_info two_requests 2 h c).

Definition disk_line : list (ascii * list ascii) :=
  [("f"%char, lit "disk"); ("q"%char, lit "2"); ("d"%char, lit "1"); ("b"%char, lit "1024")].

Definition disk_options : ServerOptions :=
  {| opt_dev_id := uwrap 32 (-1); opt_nr_queues := 2; opt_queue_depth := 1; opt_buf_bytes := 1024;
     opt_unprivileged := false; opt_backing := lit "disk" |}.

Definition server_run : completion Z * history :=
  exec server_kernel
    (loop_main (IQ := two_queue) (BQ := two_queue) dev_info_zero 0 0 128 256 1 2 15 two_turns
       (concat (repeat [0; 1]%nat 80)) true (fun _ => []) (lit "ublk-loop") disk_line) [].

(** Opening the file, its flags, its size. *)
Definition measured : history := take 4 (snd server_run).

(** Who makes which of the other calls; those of the queues are in [qs]. *)
Fixpoint authors (qs : list actor) (h : list call) : list author :=
  match h with
  | [] => []
  | c :: h =>
      match c with
      | UringCtrl _ op _ =>
          (if bool_decide (op = UBLK_U_CMD_GET_QUEUE_AFFINITY) then Daemon OfRun else Main) :: authors qs h
      | RuntimeInit loop _ _ _ | LoopStart loop _ | LoopExit loop =>
          (if loop =? MAIN_LOOP then Main else Daemon OfRun) :: authors qs h
      | Close fd => (if fd =? 7 then Daemon OfRun else Main) :: authors qs h
      | FdTableInit _ _ | AsyncOpen _ => Daemon OfRun :: authors qs h
      | AsyncRead (Fd _) _ _ _ | Print _ | SignalFd | Open _ | RequestStop => Main :: authors qs h
      | _ => match qs with q :: qs => Daemon q :: authors qs h | [] => [] end
      end
  end.

Definition server_step_two := server_step two_info 8192 9 12 8 two_requests.

(** The steps of [main], [run] and the queues make the disk that was written. *)
Example server_steps :
  let calls := drop 4 (snd server_run) in
  let who := authors (filter (fun a => a <> OfRun) two_actors) (map projT1 calls) in
  length who = length calls /\
  match follows_as server_step_two two_start (combine who calls) with
  | Next s => sd_disk s 3 5 = 517 /\ sd_fd s = None /\ sd_loops s = []
  | _ => False
  end.
Proof. vm_compute. split_all; reflexivity. Qed.

Lemma loop_server_is_disk_witness :
  fst server_run = SetValue 0 /\
  exists steps, snd server_run = measured ++ map snd steps /\
    goes_on (closed two_info 8192 []) (follows_as server_step_two two_start steps) /\
    forall n, goes_on (fun s => stored 8192 (view O s)) (follows_as server_step_two two_start (take n steps)).
Proof.
  assert (let '(c, h) := server_run in
    exists steps, h = measured ++ map snd steps /\
      goes_on (fun s => c <> Unfinished -> closed two_info 8192 [] s) (follows_as server_step_two two_start steps) /\
      forall n, goes_on (fun s => stored 8192 (view O s)) (follows_as server_step_two two_start (take n steps))) as H.
  { refine (loop_server_is_disk server_kernel (BQ := two_queue) dev_info_zero 0 0 128 256 1 2 15 4096 4
      (fun _ => repeat O 20) two_turns (concat (repeat [0; 1]%nat 80)) true (fun _ => []) (lit "ublk-loop") disk_line
      disk_options 8 {| file_size := 8192; logical_bs_shift := 9; physical_bs_shift := 12 |} (take 3 (snd server_run))
      measured two_info two_requests (fun _ _ => 0) (fun _ => 0) (fun _ => 0) _ _ _ _ _ _ _ _ _ _);
      try discriminate; try (cbn; range); try (vm_compute; reflexivity).
    - exact two_mode.
    - exact two_valid. }
  assert (fst server_run = SetValue 0) as Hc by (vm_compute; reflexivity).
  split; [exact Hc|]. destruct server_run as [c h]. cbn [fst snd] in *. subst c.
  destruct H as (steps & Hs & H & Hn). exists steps. split; [exact Hs|]. split; [|exact Hn].
  eapply goes_on_mono; [|exact H]. intros s Hcl. apply Hcl. discriminate.
Defined.
